(** * ai-studynotes-backend: task lifecycle, API front door and queue worker

    A shallow embedding of the two Lambda functions of the repository

      - [src/api-function/index.js] and its authenticated variant
        [src/unnamed/part_000] (module [Api]),
      - [src/worker-function/index.js] (module [Worker]),

    together with the parts of the JavaScript platform they rely on
    (strings as UTF-16 code units, numbers as doubles, the conversions of
    values to strings and to numbers, [JSON.parse]/[JSON.stringify], UTF-8
    and base64 as done by [Buffer]) and a model of the external collaborators
    (key-value store, queue, notification channel, generation backend,
    parameter store). *)

From Stdlib Require Import ZArith NArith List Bool String Ascii Lia.
From stdpp Require Import base option list gmap strings pretty sorting.

Set Default Proof Using "Type".

(* ===================================================================== *)
(** * JavaScript strings *)
(* ===================================================================== *)

(** A JavaScript string is a sequence of UTF-16 code units. *)
Abbreviation jsstring := (list N).

(** Code units are 16 bits wide. *)
Definition wf_string (s : jsstring) : Prop := Forall (fun u => (u < 65536)%N) s.

(** ASCII literals of the source text. *)
Definition str (s : string) : jsstring :=
  List.map N_of_ascii (list_ascii_of_string s).

Definition jsstring_eqb (a b : jsstring) : bool := bool_decide (a = b).

Module JsString.
Local Open Scope N_scope.

(** ECMAScript [WhiteSpace] and [LineTerminator] code units: what
    [String.prototype.trim] strips and what [\s] matches. *)
Definition is_space (u : N) : bool :=
  (u =? 9) || (u =? 10) || (u =? 11) || (u =? 12) || (u =? 13) || (u =? 32)
  || (u =? 160) || (u =? 5760) || ((8192 <=? u) && (u <=? 8202))
  || (u =? 8232) || (u =? 8233) || (u =? 8239) || (u =? 8287)
  || (u =? 12288) || (u =? 65279).

Fixpoint trimStart (s : jsstring) : jsstring :=
  match s with
  | u :: r => if is_space u then trimStart r else s
  | [] => []
  end.

Definition trimEnd (s : jsstring) : jsstring := rev (trimStart (rev s)).

(** [s.trim()] *)
Definition trim (s : jsstring) : jsstring := trimEnd (trimStart s).

Fixpoint startsWith (p s : jsstring) : bool :=
  match p, s with
  | [], _ => true
  | a :: p', b :: s' => (a =? b) && startsWith p' s'
  | _ :: _, [] => false
  end.

(** [s.endsWith(p)] *)
Definition endsWith (s p : jsstring) : bool := startsWith (rev p) (rev s).

(** [s.split(sep)] for a one-code-unit separator: always at least one
    segment. *)
Fixpoint split (sep : N) (s : jsstring) : list jsstring :=
  match s with
  | [] => [[]]
  | u :: r =>
      if u =? sep then [] :: split sep r
      else match split sep r with
           | seg :: segs => (u :: seg) :: segs
           | [] => [[u]]
           end
  end.

(** ASCII lower-casing of one code unit (case-insensitive regular
    expressions without the [u] flag never fold a non-ASCII code unit onto an
    ASCII one). *)
Definition lower (u : N) : N := if (65 <=? u) && (u <=? 90) then u + 32 else u.

Fixpoint startsWith_ci (p s : jsstring) : option jsstring :=
  match p, s with
  | [], _ => Some s
  | a :: p', b :: s' => if lower a =? lower b then startsWith_ci p' s' else None
  | _ :: _, [] => None
  end.

(** [s.repeat(n)] of a one-unit string. *)
Definition repeat1 (u : N) (n : N) : jsstring := List.repeat u (N.to_nat n).

(** Decimal rendering of an integer, as [String(n)] gives for a safe
    integer. *)
Definition of_Z (z : Z) : jsstring :=
  match z with
  | Z0 => str "0"
  | Zpos p => str (pretty (Npos p))
  | Zneg p => str "-" ++ str (pretty (Npos p))
  end.

End JsString.

(** Truthiness of a string: non-empty. *)
Definition truthy_string (s : jsstring) : bool :=
  match s with [] => false | _ => true end.

(* ===================================================================== *)
(** * JavaScript numbers *)
(* ===================================================================== *)

(** A number is [NaN], an infinity, or a finite double.  A double is a
    dyadic rational, so it has a finite decimal expansion, and a finite number
    is kept as that exact decimal [m * 10^e]: what a numeric literal denotes
    is rounded to the nearest double when the literal is read.  The integers
    that the program computes itself (a page limit, epoch milliseconds and
    seconds) are doubles as they are.  The sign of zero is not tracked. *)
Inductive number : Type :=
  | NaN
  | Inf (negative : bool)
  | Fin (m e : Z).

Module Num.
Local Open Scope Z_scope.

Fixpoint strip10 (fuel : nat) (m e : Z) : Z * Z :=
  match fuel with
  | O => (m, e)
  | S f => if m =? 0 then (0, 0)
           else if m mod 10 =? 0 then strip10 f (m / 10) (e + 1) else (m, e)
  end.

(** The canonical representative: no trailing decimal zero in the
    mantissa, zero is [Fin 0 0]. *)
Definition fin (m e : Z) : number :=
  let '(m', e') := strip10 (S (Z.to_nat (Z.log2 (Z.abs m)))) m e in Fin m' e'.

(** An integer that a double holds exactly. *)
Definition of_Z (z : Z) : number := fin z 0.

(** ** Rounding to a double *)

(** [floor (log2 (p / q))] for positive [p] and [q]. *)
Definition floor_log2 (p q : Z) : Z :=
  let t := Z.log2 p - Z.log2 q in
  if (if 0 <=? t then q * 2 ^ t <=? p else q <=? p * 2 ^ (- t)) then t else t - 1.

(** The integer nearest to [p / q], the even one of two that are equally
    near. *)
Definition nearest (p q : Z) : Z :=
  let d := p / q in
  match 2 * (p mod q) ?= q with
  | Lt => d
  | Gt => d + 1
  | Eq => if Z.even d then d else d + 1
  end.

(** The double nearest to [m * 10^e], as IEEE 754 rounds to nearest with
    ties to even: a multiple [n * 2^k] with [n] of at most 53 bits and [k] no
    less than -1074, or an infinity from [2^1024] on. *)
Definition round (m e : Z) : number :=
  if m =? 0 then Fin 0 0
  else
    let a := Z.abs m in
    let p := if 0 <=? e then a * 10 ^ e else a in
    let q := if 0 <=? e then 1 else 10 ^ (- e) in
    let k := Z.max (floor_log2 p q - 52) (-1074) in
    let n := if 0 <=? k then nearest p (q * 2 ^ k) else nearest (p * 2 ^ (- k)) q in
    let s := if m <? 0 then - n else n in
    if 0 <=? k then
      if 2 ^ 1024 <=? n * 2 ^ k then Inf (m <? 0) else fin (s * 2 ^ k) 0
    else fin (s * 5 ^ (- k)) k.

Definition cmp (m1 e1 m2 e2 : Z) : comparison :=
  let e := Z.min e1 e2 in
  (m1 * 10 ^ (e1 - e)) ?= (m2 * 10 ^ (e2 - e)).

(** [a < b] on numbers: false as soon as one side is [NaN]. *)
Definition lt (a b : number) : bool :=
  match a, b with
  | NaN, _ | _, NaN => false
  | Inf true, Inf true => false
  | Inf true, _ => true
  | _, Inf true => false
  | Inf false, _ => false
  | _, Inf false => true
  | Fin m1 e1, Fin m2 e2 =>
      match cmp m1 e1 m2 e2 with Lt => true | _ => false end
  end.

(** [Math.min(a, b)] *)
Definition min (a b : number) : number :=
  match a, b with
  | NaN, _ | _, NaN => NaN
  | _, _ => if lt b a then b else a
  end.

Definition truthy (n : number) : bool :=
  match n with
  | NaN => false
  | Inf _ => true
  | Fin m _ => negb (m =? 0)
  end.

(** The integer a finite number denotes, when it is one. *)
Definition to_Z (n : number) : option Z :=
  match n with
  | Fin m e => if 0 <=? e then Some (m * 10 ^ e)
               else if m =? 0 then Some 0 else None
  | _ => None
  end.

Definition zeros (n : Z) : jsstring := List.repeat 48%N (Z.to_nat n).

(** [Number::toString] for radix 10, on the decimal digits [ds] of the
    magnitude ([k] digits) and the position [n] of the decimal point. *)
Definition render (ds : jsstring) (e : Z) : jsstring :=
  let k := Z.of_nat (length ds) in
  let n := k + e in
  if (k <=? n) && (n <=? 21) then ds ++ zeros (n - k)
  else if (0 <? n) && (n <=? 21) then
    take (Z.to_nat n) ds ++ str "." ++ drop (Z.to_nat n) ds
  else if (-6 <? n) && (n <=? 0) then str "0." ++ zeros (- n) ++ ds
  else
    let x := n - 1 in
    let sign := if 0 <=? x then str "+" else str "-" in
    match ds with
    | [d] => [d] ++ str "e" ++ sign ++ JsString.of_Z (Z.abs x)
    | d :: r => [d] ++ str "." ++ r ++ str "e" ++ sign ++ JsString.of_Z (Z.abs x)
    | [] => []
    end.

(** Two finite numbers in canonical form are the same number. *)
Definition same (a b : number) : bool :=
  match a, b with
  | Fin m1 e1, Fin m2 e2 => (m1 =? m2) && (e1 =? e2)
  | _, _ => false
  end.

(** The decimal [s * 10^x] that [Number::toString] writes for the positive
    double [m * 10^e]: [s] has as few digits as a decimal can have that rounds
    to this double, and of the decimals of that many digits that do, it is the
    nearest to the double (the even one of two equally near).  The digits are
    tried from [k] on; a number of [k] digits or less is written as it is. *)
Fixpoint shortest (fuel : nat) (k : Z) (m e : Z) : Z * Z :=
  let digits := Z.of_nat (length (JsString.of_Z m)) in
  match fuel with
  | O => (m, e)
  | S f =>
      if digits <=? k then (m, e)
      else
        let cut := digits - k in
        let below := m / 10 ^ cut in
        let above := below + 1 in
        let below_reads := same (round below (e + cut)) (Fin m e) in
        let above_reads := same (round above (e + cut)) (Fin m e) in
        let gap_below := m - below * 10 ^ cut in
        let gap_above := above * 10 ^ cut - m in
        let pick :=
          match gap_below ?= gap_above with
          | Lt => below
          | Gt => above
          | Eq => if Z.even below then below else above
          end in
        if below_reads && above_reads then (pick, e + cut)
        else if below_reads then (below, e + cut)
        else if above_reads then (above, e + cut)
        else shortest f (k + 1) m e
  end.

(** [String(n)] *)
Definition toString (n : number) : jsstring :=
  match n with
  | NaN => str "NaN"
  | Inf false => str "Infinity"
  | Inf true => str "-Infinity"
  | Fin m e =>
      match fin m e with
      | Fin 0 _ => str "0"
      | Fin m' e' =>
          let '(s, x) := shortest 17 1 (Z.abs m') e' in
          match fin s x with
          | Fin s' x' => (if m' <? 0 then str "-" else []) ++ render (JsString.of_Z s') x'
          | _ => []
          end
      | _ => []
      end
  end.

(** ** Numeric literals *)

Definition is_digit (u : N) : bool := ((48 <=? u) && (u <=? 57))%N.

Fixpoint span_digits (s : jsstring) : jsstring * jsstring :=
  match s with
  | u :: r => if is_digit u then let '(ds, rest) := span_digits r in (u :: ds, rest)
              else ([], s)
  | [] => ([], [])
  end.

Definition digits_value (ds : jsstring) : Z :=
  fold_left (fun a d => a * 10 + (Z.of_N d - 48)) ds 0.

(** An optional exponent part [e[+-]digits]; [None] when an [e] is not
    followed by digits. *)
Definition exponent (s : jsstring) : option (Z * jsstring) :=
  match s with
  | u :: r =>
      if ((u =? 101) || (u =? 69))%N then
        let '(neg, r1) :=
          match r with
          | sg :: r' => if (sg =? 45)%N then (true, r')
                        else if (sg =? 43)%N then (false, r') else (false, r)
          | [] => (false, r)
          end in
        match span_digits r1 with
        | ([], _) => None
        | (ds, rest) => Some (if neg then - digits_value ds else digits_value ds, rest)
        end
      else Some (0, s)
  | [] => Some (0, [])
  end.

(** An optional fraction part [.digits]; [strict] demands at least one
    digit after the point, as JSON does. *)
Definition fraction (strict : bool) (s : jsstring) : option (jsstring * jsstring) :=
  match s with
  | u :: r =>
      if (u =? 46)%N then
        match span_digits r with
        | ([], rest) => if strict then None else Some ([], rest)
        | (ds, rest) => Some (ds, rest)
        end
      else Some ([], s)
  | [] => Some ([], [])
  end.

Definition decimal (neg : bool) (ip fp : jsstring) (ex : Z) : number :=
  let m := digits_value (ip ++ fp) in
  round (if neg then - m else m) (ex - Z.of_nat (length fp)).

(** A JSON number at the head of [s]: an optional minus sign, an integer
    part without a superfluous leading zero, an optional fraction with at least
    one digit and an optional exponent. *)
Definition json_number (s : jsstring) : option (number * jsstring) :=
  let '(neg, s1) :=
    match s with
    | u :: r => if (u =? 45)%N then (true, r) else (false, s)
    | [] => (false, s)
    end in
  match span_digits s1 with
  | ([], _) => None
  | (ip, s2) =>
      match ip with
      | 48%N :: _ :: _ => None
      | _ =>
          match fraction true s2 with
          | Some (fp, s3) =>
              match exponent s3 with
              | Some (ex, s4) => Some (decimal neg ip fp ex, s4)
              | None => None
              end
          | None => None
          end
      end
  end.

Fixpoint radix_value (base : Z) (digit : N -> option Z) (s : jsstring) (acc : Z) : option Z :=
  match s with
  | [] => Some acc
  | u :: r => match digit u with
              | Some d => if d <? base then radix_value base digit r (acc * base + d) else None
              | None => None
              end
  end.

Definition hex_digit (u : N) : option Z :=
  if is_digit u then Some (Z.of_N u - 48)
  else if ((97 <=? u) && (u <=? 102))%N then Some (Z.of_N u - 87)
  else if ((65 <=? u) && (u <=? 70))%N then Some (Z.of_N u - 55)
  else None.

(** [Number(s)] on a string: [StringToNumber]. *)
Definition of_string (s : jsstring) : number :=
  let t := JsString.trim s in
  let prefixed (base : Z) (r : jsstring) :=
    match r with
    | [] => NaN
    | _ => match radix_value base hex_digit r 0 with Some v => round v 0 | None => NaN end
    end in
  match t with
  | [] => of_Z 0
  | 48%N :: 120%N :: r | 48%N :: 88%N :: r => prefixed 16 r
  | 48%N :: 111%N :: r | 48%N :: 79%N :: r => prefixed 8 r
  | 48%N :: 98%N :: r | 48%N :: 66%N :: r => prefixed 2 r
  | _ =>
      let '(neg, t1) :=
        match t with
        | u :: r => if (u =? 45)%N then (true, r)
                    else if (u =? 43)%N then (false, r) else (false, t)
        | [] => (false, t)
        end in
      if jsstring_eqb t1 (str "Infinity") then Inf neg
      else
        let '(ip, t2) := span_digits t1 in
        match fraction false t2 with
        | Some (fp, t3) =>
            match ip ++ fp with
            | [] => NaN
            | _ => match exponent t3 with
                   | Some (ex, []) => decimal neg ip fp ex
                   | _ => NaN
                   end
            end
        | None => NaN
        end
  end.

End Num.

(* ===================================================================== *)
(** * JSON values *)
(* ===================================================================== *)

(** The values [JSON.parse] produces and [JSON.stringify] consumes.  The
    members of an object are kept in the order in which the object
    enumerates them. *)
#[warnings="-register-all"]
Inductive json : Type :=
  | JNull
  | JBool (b : bool)
  | JNum (n : number)
  | JStr (s : jsstring)
  | JArr (items : list json)
  | JObj (members : list (jsstring * json)).

(** A JavaScript value that may be [undefined]. *)
Abbreviation jsval := (option json).

(** [!!v] *)
Definition truthy (v : jsval) : bool :=
  match v with
  | None | Some JNull => false
  | Some (JBool b) => b
  | Some (JNum n) => Num.truthy n
  | Some (JStr s) => truthy_string s
  | Some (JArr _) | Some (JObj _) => true
  end.

(** [v === s] for a string [s] *)
Definition is_string (v : jsval) (s : jsstring) : bool :=
  match v with
  | Some (JStr t) => jsstring_eqb t s
  | _ => false
  end.

(** [a || b] *)
Definition js_or (a b : jsval) : jsval := if truthy a then a else b.

Module Json.
Local Open Scope N_scope.

Fixpoint get (k : jsstring) (ms : list (jsstring * json)) : jsval :=
  match ms with
  | [] => None
  | (k', v) :: r => if jsstring_eqb k k' then Some v else get k r
  end.

(** An array index: the canonical decimal text of an integer from 0 to
    [2^32 - 2]. *)
Definition array_index (k : jsstring) : option Z :=
  match k with
  | [] => None
  | [48] => Some 0%Z
  | 48 :: _ => None
  | _ =>
      if forallb Num.is_digit k && (Num.digits_value k <=? 4294967294)%Z
      then Some (Num.digits_value k) else None
  end.

Fixpoint replace (k : jsstring) (v : json) (ms : list (jsstring * json))
  : list (jsstring * json) :=
  match ms with
  | [] => []
  | (k', v') :: r => if jsstring_eqb k k' then (k', v) :: r else (k', v') :: replace k v r
  end.

(** The place of a new member whose name is the array index [i]: behind
    the array indices below it. *)
Fixpoint insert_index (i : Z) (k : jsstring) (v : json) (ms : list (jsstring * json))
  : list (jsstring * json) :=
  match ms with
  | [] => [(k, v)]
  | (k', v') :: r =>
      match array_index k' with
      | Some j => if (i <? j)%Z then (k, v) :: ms else (k', v') :: insert_index i k v r
      | None => (k, v) :: ms
      end
  end.

(** Defining a property.  An object enumerates the names that are array
    indices first, in ascending order, and then the other names in the order
    in which they were defined: an existing member keeps its place and takes
    the new value, a new array index goes to its place among the indices, any
    other new member goes last. *)
Definition define (k : jsstring) (v : json) (ms : list (jsstring * json))
  : list (jsstring * json) :=
  match get k ms with
  | Some _ => replace k v ms
  | None =>
      match array_index k with
      | Some i => insert_index i k v ms
      | None => ms ++ [(k, v)]
      end
  end.

(** [v.name] on a value that is neither [null] nor [undefined]: only an
    object has the properties this program reads. *)
Definition prop (v : json) (name : string) : jsval :=
  match v with
  | JObj ms => get (str name) ms
  | _ => None
  end.

(** [v?.name] *)
Definition opt_prop (v : jsval) (name : string) : jsval :=
  match v with
  | Some (JObj ms) => get (str name) ms
  | _ => None
  end.

(** ** [JSON.stringify] *)

Definition hex_char (d : N) : N := if d <? 10 then 48 + d else 87 + d.

(** [\uXXXX] with lower-case hexadecimal digits. *)
Definition unicode_escape (u : N) : jsstring :=
  [92; 117; hex_char (u / 4096); hex_char ((u / 256) mod 16);
   hex_char ((u / 16) mod 16); hex_char (u mod 16)].

Definition is_high (u : N) : bool := (55296 <=? u) && (u <=? 56319).
Definition is_low (u : N) : bool := (56320 <=? u) && (u <=? 57343).

Definition quote_unit (u : N) : jsstring :=
  if u =? 8 then [92; 98]
  else if u =? 9 then [92; 116]
  else if u =? 10 then [92; 110]
  else if u =? 12 then [92; 102]
  else if u =? 13 then [92; 114]
  else if u =? 34 then [92; 34]
  else if u =? 92 then [92; 92]
  else if u <? 32 then unicode_escape u
  else [u].

(** The body of [QuoteJSONString]: the string is read by code points, so
    a surrogate pair stays as it is and a lone surrogate is escaped. *)
Fixpoint quote_units (s : jsstring) : jsstring :=
  match s with
  | [] => []
  | u :: r =>
      if is_high u then
        match r with
        | v :: r' => if is_low v then u :: v :: quote_units r'
                     else unicode_escape u ++ quote_units r
        | [] => unicode_escape u
        end
      else if is_low u then unicode_escape u ++ quote_units r
      else quote_unit u ++ quote_units r
  end.

Definition quote (s : jsstring) : jsstring := [34] ++ quote_units s ++ [34].

Fixpoint join (sep : jsstring) (parts : list jsstring) : jsstring :=
  match parts with
  | [] => []
  | [p] => p
  | p :: r => p ++ sep ++ join sep r
  end.

(** [JSON.stringify(v)] without indentation. *)
Fixpoint stringify (v : json) : jsstring :=
  match v with
  | JNull => str "null"
  | JBool true => str "true"
  | JBool false => str "false"
  | JNum (Fin m e) => Num.toString (Fin m e)
  | JNum _ => str "null"
  | JStr s => quote s
  | JArr items => [91] ++ join [44] (List.map stringify items) ++ [93]
  | JObj ms =>
      [123] ++ join [44] (List.map (fun kv => quote (fst kv) ++ [58] ++ stringify (snd kv)) ms)
      ++ [125]
  end.

(** ** [JSON.parse] *)

Definition is_ws (u : N) : bool := (u =? 32) || (u =? 9) || (u =? 10) || (u =? 13).

Fixpoint skip_ws (s : jsstring) : jsstring :=
  match s with
  | u :: r => if is_ws u then skip_ws r else s
  | [] => []
  end.

Definition hex_value (u : N) : option N :=
  if (48 <=? u) && (u <=? 57) then Some (u - 48)
  else if (97 <=? u) && (u <=? 102) then Some (u - 87)
  else if (65 <=? u) && (u <=? 70) then Some (u - 55)
  else None.

Definition hex4 (a b c d : N) : option N :=
  match hex_value a, hex_value b, hex_value c, hex_value d with
  | Some x, Some y, Some z, Some w => Some (x * 4096 + y * 256 + z * 16 + w)
  | _, _, _, _ => None
  end.

Definition unescape (u : N) : option N :=
  if u =? 34 then Some 34
  else if u =? 92 then Some 92
  else if u =? 47 then Some 47
  else if u =? 98 then Some 8
  else if u =? 102 then Some 12
  else if u =? 110 then Some 10
  else if u =? 114 then Some 13
  else if u =? 116 then Some 9
  else None.

Definition cons_unit (u : N) (r : option (jsstring * jsstring)) : option (jsstring * jsstring) :=
  match r with
  | Some (s, rest) => Some (u :: s, rest)
  | None => None
  end.

(** The characters of a string literal after its opening quote, up to and
    including the closing one. *)
Fixpoint string_chars (s : jsstring) : option (jsstring * jsstring) :=
  match s with
  | [] => None
  | u :: r =>
      if u =? 34 then Some ([], r)
      else if u =? 92 then
        match r with
        | e :: r1 =>
            if e =? 117 then
              match r1 with
              | a :: b :: c :: d :: r2 =>
                  match hex4 a b c d with
                  | Some x => cons_unit x (string_chars r2)
                  | None => None
                  end
              | _ => None
              end
            else
              match unescape e with
              | Some x => cons_unit x (string_chars r1)
              | None => None
              end
        | [] => None
        end
      else if u <? 32 then None
      else cons_unit u (string_chars r)
  end.

Definition literal (word : string) (v : json) (s : jsstring) : option (json * jsstring) :=
  let w := str word in
  if JsString.startsWith w s then Some (v, drop (length w) s) else None.

(** Recursive descent; [fuel] bounds the number of nested calls, and
    [parse] supplies more than any input can use. *)
Fixpoint value (fuel : nat) (s : jsstring) {struct fuel} : option (json * jsstring) :=
  match fuel with
  | O => None
  | S f =>
      match skip_ws s with
      | [] => None
      | u :: r =>
          if u =? 123 then
            match skip_ws r with
            | 125 :: r1 => Some (JObj [], r1)
            | _ => members f r []
            end
          else if u =? 91 then
            match skip_ws r with
            | 93 :: r1 => Some (JArr [], r1)
            | _ => elements f r []
            end
          else if u =? 34 then
            match string_chars r with
            | Some (t, r1) => Some (JStr t, r1)
            | None => None
            end
          else if u =? 116 then literal "true" (JBool true) (u :: r)
          else if u =? 102 then literal "false" (JBool false) (u :: r)
          else if u =? 110 then literal "null" JNull (u :: r)
          else
            match Num.json_number (u :: r) with
            | Some (n, r1) => Some (JNum n, r1)
            | None => None
            end
      end
  end
with elements (fuel : nat) (s : jsstring) (acc : list json) {struct fuel}
  : option (json * jsstring) :=
  match fuel with
  | O => None
  | S f =>
      match value f s with
      | Some (v, r) =>
          match skip_ws r with
          | 44 :: r1 => elements f r1 (acc ++ [v])
          | 93 :: r1 => Some (JArr (acc ++ [v]), r1)
          | _ => None
          end
      | None => None
      end
  end
with members (fuel : nat) (s : jsstring) (acc : list (jsstring * json)) {struct fuel}
  : option (json * jsstring) :=
  match fuel with
  | O => None
  | S f =>
      match skip_ws s with
      | 34 :: r =>
          match string_chars r with
          | Some (k, r1) =>
              match skip_ws r1 with
              | 58 :: r2 =>
                  match value f r2 with
                  | Some (v, r3) =>
                      match skip_ws r3 with
                      | 44 :: r4 => members f r4 (define k v acc)
                      | 125 :: r4 => Some (JObj (define k v acc), r4)
                      | _ => None
                      end
                  | None => None
                  end
              | _ => None
              end
          | None => None
          end
      | _ => None
      end
  end.

(** [JSON.parse(s)]; [None] stands for the [SyntaxError] it throws. *)
Definition parse (s : jsstring) : option json :=
  match value (2 * length s + 2) s with
  | Some (v, r) => match skip_ws r with [] => Some v | _ => None end
  | None => None
  end.

End Json.

(* ===================================================================== *)
(** * Buffer: UTF-8 and base64 *)
(* ===================================================================== *)

Module Buffer.
Local Open Scope N_scope.

(** Bytes are numbers below 256. *)
Definition wf_bytes (bs : list N) : Prop := Forall (fun b => b < 256) bs.

(** ** UTF-8 *)

(** [Buffer.from(s)] / [Buffer.from(s, "utf8")]: a surrogate pair becomes
    one four-byte sequence, a lone surrogate becomes U+FFFD. *)
Fixpoint from_utf8 (s : jsstring) : list N :=
  match s with
  | [] => []
  | u :: r =>
      if u <? 128 then u :: from_utf8 r
      else if u <? 2048 then [192 + u / 64; 128 + u mod 64] ++ from_utf8 r
      else if Json.is_high u then
        match r with
        | v :: r' =>
            if Json.is_low v then
              let cp := 65536 + (u - 55296) * 1024 + (v - 56320) in
              [240 + cp / 262144; 128 + (cp / 4096) mod 64;
               128 + (cp / 64) mod 64; 128 + cp mod 64] ++ from_utf8 r'
            else [239; 191; 189] ++ from_utf8 r
        | [] => [239; 191; 189]
        end
      else if Json.is_low u then [239; 191; 189] ++ from_utf8 r
      else [224 + u / 4096; 128 + (u / 64) mod 64; 128 + u mod 64] ++ from_utf8 r
  end.

Definition is_cont (b : N) : bool := (128 <=? b) && (b <=? 191).

(** [buf.toString("utf8")]: well-formed sequences are decoded; of an
    ill-formed one, the longest prefix that begins a well-formed sequence (or
    one byte, if there is none) yields one U+FFFD, and decoding resumes at
    the byte after it.  The second byte of a sequence is held to the range that
    rules out overlong forms, surrogates and code points beyond U+10FFFF. *)
Fixpoint to_utf8 (bs : list N) : jsstring :=
  match bs with
  | [] => []
  | a :: r =>
      if a <? 128 then a :: to_utf8 r
      else if (194 <=? a) && (a <=? 223) then
        match r with
        | b :: r1 =>
            if is_cont b then ((a - 192) * 64 + (b - 128)) :: to_utf8 r1
            else 65533 :: to_utf8 r
        | [] => [65533]
        end
      else if (224 <=? a) && (a <=? 239) then
        let lower := if a =? 224 then 160 else 128 in
        let upper := if a =? 237 then 159 else 191 in
        match r with
        | b :: r1 =>
            if (lower <=? b) && (b <=? upper) then
              match r1 with
              | c :: r2 =>
                  if is_cont c
                  then ((a - 224) * 4096 + (b - 128) * 64 + (c - 128)) :: to_utf8 r2
                  else 65533 :: to_utf8 r1
              | [] => [65533]
              end
            else 65533 :: to_utf8 r
        | [] => [65533]
        end
      else if (240 <=? a) && (a <=? 244) then
        let lower := if a =? 240 then 144 else 128 in
        let upper := if a =? 244 then 143 else 191 in
        match r with
        | b :: r1 =>
            if (lower <=? b) && (b <=? upper) then
              match r1 with
              | c :: r2 =>
                  if is_cont c then
                    match r2 with
                    | d :: r3 =>
                        if is_cont d then
                          let cp := (a - 240) * 262144 + (b - 128) * 4096
                                    + (c - 128) * 64 + (d - 128) in
                          [55296 + (cp - 65536) / 1024; 56320 + (cp - 65536) mod 1024]
                          ++ to_utf8 r3
                        else 65533 :: to_utf8 r2
                    | [] => [65533]
                    end
                  else 65533 :: to_utf8 r1
              | [] => [65533]
              end
            else 65533 :: to_utf8 r
        | [] => [65533]
        end
      else 65533 :: to_utf8 r
  end.

(** ** base64 *)

Definition alphabet (i : N) : N :=
  if i <? 26 then 65 + i
  else if i <? 52 then 97 + (i - 26)
  else if i <? 62 then 48 + (i - 52)
  else if i =? 62 then 43 else 47.

(** [buf.toString("base64")] *)
Fixpoint to_base64 (bs : list N) : jsstring :=
  match bs with
  | a :: b :: c :: r =>
      [alphabet (a / 4); alphabet ((a mod 4) * 16 + b / 16);
       alphabet ((b mod 16) * 4 + c / 64); alphabet (c mod 64)] ++ to_base64 r
  | [a; b] => [alphabet (a / 4); alphabet ((a mod 4) * 16 + b / 16); alphabet ((b mod 16) * 4); 61]
  | [a] => [alphabet (a / 4); alphabet ((a mod 4) * 16); 61; 61]
  | [] => []
  end.

(** The value of a base64 character; the decoder takes the standard and
    the URL-safe alphabet alike. *)
Definition unbase64 (u : N) : option N :=
  if (65 <=? u) && (u <=? 90) then Some (u - 65)
  else if (97 <=? u) && (u <=? 122) then Some (u - 71)
  else if (48 <=? u) && (u <=? 57) then Some (u + 4)
  else if (u =? 43) || (u =? 45) then Some 62
  else if (u =? 47) || (u =? 95) then Some 63
  else None.

(** The decoder skips characters outside the alphabet and stops at the
    first padding character. *)
Fixpoint sextets (s : jsstring) : list N :=
  match s with
  | [] => []
  | u :: r =>
      match unbase64 u with
      | Some x => x :: sextets r
      | None => if u =? 61 then [] else sextets r
      end
  end.

Fixpoint octets (xs : list N) : list N :=
  match xs with
  | a :: b :: c :: d :: r =>
      [a * 4 + b / 16; (b mod 16) * 16 + c / 4; (c mod 4) * 64 + d] ++ octets r
  | [a; b; c] => [a * 4 + b / 16; (b mod 16) * 16 + c / 4]
  | [a; b] => [a * 4 + b / 16]
  | _ => []
  end.

(** [Buffer.from(s, "base64")] and [Buffer.from(s, "base64url")] *)
Definition from_base64 (s : jsstring) : list N := octets (sextets s).

End Buffer.

(* ===================================================================== *)
(** * Conversions between values *)
(* ===================================================================== *)

(** The values of a list, if every one of them is there. *)
Fixpoint all_of {A} (l : list (option A)) : option (list A) :=
  match l with
  | [] => Some []
  | Some a :: r => option_map (cons a) (all_of r)
  | None :: _ => None
  end.

(** [ToString(v)], as [String(v)] and template literals apply it; [None]
    stands for the [TypeError] raised for a value that has no primitive.  An
    object made by [JSON.parse] inherits [toString] from [Object.prototype]
    unless it has a member of that name, and a member is never a function:
    the object then has no primitive ([valueOf] returns the object itself).
    An array joins the strings of its elements with commas, [null] counting
    as the empty string. *)
Fixpoint to_String (v : json) : option jsstring :=
  match v with
  | JNull => Some (str "null")
  | JBool true => Some (str "true")
  | JBool false => Some (str "false")
  | JNum n => Some (Num.toString n)
  | JStr s => Some s
  | JArr items =>
      option_map (Json.join [44%N])
        (all_of (List.map (fun x => match x with JNull => Some [] | _ => to_String x end)
                   items))
  | JObj ms =>
      match Json.get (str "toString") ms with
      | Some _ => None
      | None => Some (str "[object Object]")
      end
  end.

(** [ToNumber(v)], as the comparison [v < n] with a number [n] applies it;
    [None] stands for the same [TypeError].  An object or array is turned
    into a primitive first, by [valueOf], which returns the object itself, and
    then by [toString]. *)
Definition to_Number (v : json) : option number :=
  match v with
  | JNull => Some (Num.of_Z 0)
  | JBool true => Some (Num.of_Z 1)
  | JBool false => Some (Num.of_Z 0)
  | JNum n => Some n
  | JStr s => Some (Num.of_string s)
  | JArr _ => option_map Num.of_string (to_String v)
  | JObj ms =>
      match Json.get (str "toString") ms with
      | Some _ => None
      | None => Some NaN
      end
  end.

(* ===================================================================== *)
(** * The world outside the functions *)
(* ===================================================================== *)

(** A thrown [Error]. *)
Record Error : Type := mkError { name : jsstring; message : jsstring }.

(** [String(err)], that is [Error.prototype.toString]. *)
Definition Error_toString (e : Error) : jsstring :=
  match name e, message e with
  | [], m => m
  | n, [] => n
  | n, m => n ++ str ": " ++ m
  end.

(** What the engine decides: the wording of the errors it raises
    itself. *)
Record Platform : Type := mkPlatform {
  syntaxErrorMessage : jsstring -> jsstring;
  typeErrorMessage : string -> jsstring;
}.

(** ** Dates *)
Module Date.
Local Open Scope Z_scope.

(** [n] written with at least [width] digits. *)
Definition pad (width : nat) (n : Z) : jsstring :=
  let ds := JsString.of_Z n in
  List.repeat 48%N (width - length ds) ++ ds.

(** Year, month and day of a number of days since 1970-01-01. *)
Definition civil (days : Z) : Z * Z * Z :=
  let z := days + 719468 in
  let era := z / 146097 in
  let doe := z - era * 146097 in
  let yoe := (doe - doe / 1460 + doe / 36524 - doe / 146096) / 365 in
  let doy := doe - (365 * yoe + yoe / 4 - yoe / 100) in
  let mp := (5 * doy + 2) / 153 in
  let d := doy - (153 * mp + 2) / 5 + 1 in
  let m := if mp <? 10 then mp + 3 else mp - 9 in
  let y := yoe + era * 400 + (if m <=? 2 then 1 else 0) in
  (y, m, d).

(** [new Date(ms).toISOString()] *)
Definition toISOString (ms : Z) : jsstring :=
  let s := ms / 1000 in
  let '(y, m, d) := civil (s / 86400) in
  let year :=
    if (0 <=? y) && (y <=? 9999) then pad 4 y
    else (if y <? 0 then str "-" else str "+") ++ pad 6 (Z.abs y) in
  year ++ str "-" ++ pad 2 m ++ str "-" ++ pad 2 d ++ str "T"
  ++ pad 2 ((s / 3600) mod 24) ++ str ":" ++ pad 2 ((s / 60) mod 60) ++ str ":"
  ++ pad 2 (s mod 60) ++ str "." ++ pad 3 (ms mod 1000) ++ str "Z".

End Date.

(** ** The key-value store *)

(** The attribute values this program stores: strings and [NULL]. *)
Inductive AttributeValue : Type :=
  | AttrS (s : jsstring)
  | AttrNULL.

Global Instance AttributeValue_eq_dec : EqDecision AttributeValue.
Proof. solve_decision. Defined.

Abbreviation Item := (gmap string AttributeValue).

(** The position of an item in the index [byCreatedAt]. *)
Record IndexKey : Type := mkIndexKey { k_pk : jsstring; k_createdAt : jsstring; k_id : jsstring }.

Inductive DdbCommand : Type :=
  | PutCommand (item : Item) (ifAbsent : bool)
  | UpdateCommand (key : json) (sets : list (string * AttributeValue)) (removes : list string)
  | GetCommand (key : jsstring)
  | DeleteCommand (key : jsstring)
  | QueryCommand (limit : number) (startKey : jsval).

Definition is_write (c : DdbCommand) : bool :=
  match c with
  | PutCommand _ _ | UpdateCommand _ _ _ | DeleteCommand _ => true
  | GetCommand _ | QueryCommand _ _ => false
  end.

(** ** The other services *)

Record SqsMessage : Type := mkSqsMessage { QueueUrl : jsstring; MessageBody : jsstring }.

Record SnsMessage : Type := mkSnsMessage { TopicArn : jsstring; Subject : jsstring; Message : jsstring }.

Record FetchRequest : Type := mkFetchRequest { url : jsstring; authorization : jsstring; requestBody : jsstring }.

Inductive FetchResult : Type :=
  | FetchFailed (e : Error)
  | FetchResponse (status : Z) (text : jsstring).

Record SsmParameter : Type := mkSsmParameter { Name : option jsstring; Value : option jsstring }.

(** One call of [GetParametersByPath]; a page other than the last of its
    round carries a [NextToken]. *)
Inductive SsmPage : Type :=
  | PageFailed (e : Error)
  | PageOk (parameters : list SsmParameter).

Abbreviation Config := (gmap jsstring jsstring).

(** ** The state threaded through a run

    [table] is the store; the logs record every request sent to a service,
    in order.  The scripts say what the outside does next: the time at which
    each coming service call returns, the identifiers [randomUUID] will draw,
    which service calls fail, what the generation backend answers, what the
    parameter store returns on each round of fetching.  Time passes while a
    service call is awaited and stands still in between.  An exhausted script
    means: time stands still, the same identifier is drawn again, the call
    succeeds, the backend is unreachable, the parameter store is empty. *)
Record World : Type := mkWorld {
  platform : Platform;
  table : gmap jsstring Item;
  ddb_log : list DdbCommand;
  sqs_log : list SqsMessage;
  sns_log : list SnsMessage;
  fetch_log : list FetchRequest;
  api_cache : option (Config * Z);
  worker_cache : option (Config * Z);
  now : Z;
  clock : list Z;
  uuid : jsstring;
  uuids : list jsstring;
  ddb_faults : list (option Error);
  sqs_faults : list (option Error);
  sns_faults : list (option Error);
  fetches : list FetchResult;
  ssm : list (list SsmPage);
  CONFIG_TTL_MS : option jsstring;
}.

Definition with_table (t : gmap jsstring Item) (w : World) : World :=
  mkWorld (platform w) t (ddb_log w) (sqs_log w) (sns_log w) (fetch_log w)
    (api_cache w) (worker_cache w) (now w) (clock w) (uuid w) (uuids w)
    (ddb_faults w) (sqs_faults w) (sns_faults w) (fetches w) (ssm w) (CONFIG_TTL_MS w).

Definition with_ddb (l : list DdbCommand) (f : list (option Error)) (w : World) : World :=
  mkWorld (platform w) (table w) l (sqs_log w) (sns_log w) (fetch_log w)
    (api_cache w) (worker_cache w) (now w) (clock w) (uuid w) (uuids w)
    f (sqs_faults w) (sns_faults w) (fetches w) (ssm w) (CONFIG_TTL_MS w).

Definition with_sqs (l : list SqsMessage) (f : list (option Error)) (w : World) : World :=
  mkWorld (platform w) (table w) (ddb_log w) l (sns_log w) (fetch_log w)
    (api_cache w) (worker_cache w) (now w) (clock w) (uuid w) (uuids w)
    (ddb_faults w) f (sns_faults w) (fetches w) (ssm w) (CONFIG_TTL_MS w).

Definition with_sns (l : list SnsMessage) (f : list (option Error)) (w : World) : World :=
  mkWorld (platform w) (table w) (ddb_log w) (sqs_log w) l (fetch_log w)
    (api_cache w) (worker_cache w) (now w) (clock w) (uuid w) (uuids w)
    (ddb_faults w) (sqs_faults w) f (fetches w) (ssm w) (CONFIG_TTL_MS w).

Definition with_fetch (l : list FetchRequest) (f : list FetchResult) (w : World) : World :=
  mkWorld (platform w) (table w) (ddb_log w) (sqs_log w) (sns_log w) l
    (api_cache w) (worker_cache w) (now w) (clock w) (uuid w) (uuids w)
    (ddb_faults w) (sqs_faults w) (sns_faults w) f (ssm w) (CONFIG_TTL_MS w).

Definition with_api_cache (c : option (Config * Z)) (w : World) : World :=
  mkWorld (platform w) (table w) (ddb_log w) (sqs_log w) (sns_log w) (fetch_log w)
    c (worker_cache w) (now w) (clock w) (uuid w) (uuids w)
    (ddb_faults w) (sqs_faults w) (sns_faults w) (fetches w) (ssm w) (CONFIG_TTL_MS w).

Definition with_worker_cache (c : option (Config * Z)) (w : World) : World :=
  mkWorld (platform w) (table w) (ddb_log w) (sqs_log w) (sns_log w) (fetch_log w)
    (api_cache w) c (now w) (clock w) (uuid w) (uuids w)
    (ddb_faults w) (sqs_faults w) (sns_faults w) (fetches w) (ssm w) (CONFIG_TTL_MS w).

Definition with_clock (t : Z) (l : list Z) (w : World) : World :=
  mkWorld (platform w) (table w) (ddb_log w) (sqs_log w) (sns_log w) (fetch_log w)
    (api_cache w) (worker_cache w) t l (uuid w) (uuids w)
    (ddb_faults w) (sqs_faults w) (sns_faults w) (fetches w) (ssm w) (CONFIG_TTL_MS w).

Definition with_uuid (u : jsstring) (l : list jsstring) (w : World) : World :=
  mkWorld (platform w) (table w) (ddb_log w) (sqs_log w) (sns_log w) (fetch_log w)
    (api_cache w) (worker_cache w) (now w) (clock w) u l
    (ddb_faults w) (sqs_faults w) (sns_faults w) (fetches w) (ssm w) (CONFIG_TTL_MS w).

Definition with_ssm (l : list (list SsmPage)) (w : World) : World :=
  mkWorld (platform w) (table w) (ddb_log w) (sqs_log w) (sns_log w) (fetch_log w)
    (api_cache w) (worker_cache w) (now w) (clock w) (uuid w) (uuids w)
    (ddb_faults w) (sqs_faults w) (sns_faults w) (fetches w) l (CONFIG_TTL_MS w).

(** Time passes: the clock moves to the next reading of the script. *)
Definition advance (w : World) : World :=
  match clock w with
  | t :: later => with_clock t later w
  | [] => w
  end.

(** The failure, if any, that the script holds for the next call. *)
Definition next_fault (script : list (option Error)) : option Error :=
  match script with
  | Some e :: _ => Some e
  | _ => None
  end.

(** The write commands sent to the store so far. *)
Definition writes (w : World) : list DdbCommand := List.filter is_write (ddb_log w).

(* ===================================================================== *)
(** * Computations: state and exceptions *)
(* ===================================================================== *)

Inductive Result (A : Type) : Type :=
  | Ok (a : A)
  | Throw (e : Error).
Arguments Ok {A} a.
Arguments Throw {A} e.

Definition M (A : Type) : Type := World -> Result A * World.

Definition ret {A} (a : A) : M A := fun w => (Ok a, w).

Definition throw {A} (e : Error) : M A := fun w => (Throw e, w).

Definition bind {A B} (m : M A) (k : A -> M B) : M B :=
  fun w => match m w with
           | (Ok a, w') => k a w'
           | (Throw e, w') => (Throw e, w')
           end.

(** [try { m } catch (e) { h e }] *)
Definition try_catch {A} (m : M A) (h : Error -> M A) : M A :=
  fun w => match m w with
           | (Ok a, w') => (Ok a, w')
           | (Throw e, w') => h e w'
           end.

Declare Scope monad_scope.
Delimit Scope monad_scope with M.
Notation "'let*' x := m 'in' k" := (bind m (fun x => k))
  (at level 10, x pattern, m at level 100, k at level 200) : monad_scope.
Local Open Scope monad_scope.

(** [new Error(msg)] *)
Definition new_Error (msg : jsstring) : Error := mkError (str "Error") msg.

(** A [TypeError] raised by the engine while evaluating [what]. *)
Definition throw_TypeError {A} (what : string) : M A :=
  fun w => (Throw (mkError (str "TypeError") (typeErrorMessage (platform w) what)), w).

(** [JSON.parse(s)] *)
Definition JSON_parse (s : jsstring) : M json :=
  fun w => match Json.parse s with
           | Some v => (Ok v, w)
           | None => (Throw (mkError (str "SyntaxError") (syntaxErrorMessage (platform w) s)), w)
           end.

(** [v.name]: a [TypeError] on [null]. *)
Definition member (v : json) (name : string) : M jsval :=
  match v with
  | JNull => throw_TypeError name
  | _ => ret (Json.prop v name)
  end.

(** [`${v}`] in a template literal. *)
Definition interpolate (v : jsval) : M jsstring :=
  match v with
  | None => ret (str "undefined")
  | Some x =>
      match to_String x with
      | Some s => ret s
      | None => throw_TypeError "Cannot convert object to primitive value"
      end
  end.

(** The number that [v < n] compares with [n]. *)
Definition numeric (v : json) : M number :=
  match to_Number v with
  | Some x => ret x
  | None => throw_TypeError "Cannot convert object to primitive value"
  end.

(** [Date.now()] *)
Definition Date_now : M Z := fun w => (Ok (now w), w).

(** [new Date().toISOString()] *)
Definition now_ISO : M jsstring :=
  let* t := Date_now in ret (Date.toISOString t).

(** An identifier has been drawn: the next one of the script is up. *)
Definition drawn (w : World) : World :=
  match uuids w with
  | u :: later => with_uuid u later w
  | [] => w
  end.

(** [crypto.randomUUID()] *)
Definition randomUUID : M jsstring := fun w => (Ok (uuid w), drawn w).

(* ===================================================================== *)
(** * The services *)
(* ===================================================================== *)

(** ** The store: a table keyed by [id] with the index [byCreatedAt]

    The behaviour of the store is the documented behaviour of the service:
    a conditional put fails on an existing key, an update creates the item it
    does not find, a query takes a positive integer [Limit] and an
    [ExclusiveStartKey] of the index's key shape and returns a
    [LastEvaluatedKey] as soon as it has read [Limit] items. *)
Module Ddb.

Definition exception (kind msg : string) : Error := mkError (str kind) (str msg).

(** Every request is logged and consumes one entry of the fault script. *)
Definition send (c : DdbCommand) : M unit :=
  fun w =>
    let w' := advance (with_ddb (ddb_log w ++ [c]) (tail (ddb_faults w)) w) in
    match next_fault (ddb_faults w) with
    | Some e => (Throw e, w')
    | None => (Ok tt, w')
    end.

(** [PutCommand] with [ConditionExpression: "attribute_not_exists(id)"]
    when [ifAbsent]. *)
Definition put (item : Item) (ifAbsent : bool) : M unit :=
  let* _ := send (PutCommand item ifAbsent) in
  match item !! "id"%string with
  | Some (AttrS (u :: k)) =>
      fun w =>
        if ifAbsent && bool_decide (is_Some (table w !! (u :: k)))
        then (Throw (exception "ConditionalCheckFailedException" "The conditional request failed"), w)
        else (Ok tt, with_table (<[u :: k := item]> (table w)) w)
  | _ => throw (exception "ValidationException" "One of the required keys was not given a value")
  end.

Definition apply_update (sets : list (string * AttributeValue)) (removes : list string)
    (item : Item) : Item :=
  fold_left (fun it n => delete n it) removes
    (fold_left (fun it nv => <[fst nv := snd nv]> it) sets item).

(** [UpdateCommand] with [SET] and [REMOVE] clauses and no condition.  The
    key must be a non-empty string, as the table's key schema says. *)
Definition update (key : json) (sets : list (string * AttributeValue)) (removes : list string)
  : M unit :=
  let* _ := send (UpdateCommand key sets removes) in
  match key with
  | JStr (u :: k) =>
      fun w =>
        let old := default {[ "id"%string := AttrS (u :: k) ]} (table w !! (u :: k)) in
        (Ok tt, with_table (<[u :: k := apply_update sets removes old]> (table w)) w)
  | _ => throw (exception "ValidationException" "The provided key element does not match the schema")
  end.

(** [GetCommand]: the item, or nothing. *)
Definition get (key : jsstring) : M (option Item) :=
  let* _ := send (GetCommand key) in
  match key with
  | _ :: _ => fun w => (Ok (table w !! key), w)
  | [] => throw (exception "ValidationException" "The provided key element does not match the schema")
  end.

(** [DeleteCommand] without a condition: removing an absent item is not an
    error. *)
Definition delete_item (key : jsstring) : M unit :=
  let* _ := send (DeleteCommand key) in
  match key with
  | _ :: _ => fun w => (Ok tt, with_table (delete key (table w)) w)
  | [] => throw (exception "ValidationException" "The provided key element does not match the schema")
  end.

(** *** The index *)

Fixpoint bytes_cmp (a b : list N) : comparison :=
  match a, b with
  | [], [] => Eq
  | [], _ :: _ => Lt
  | _ :: _, [] => Gt
  | x :: a', y :: b' =>
      match (x ?= y)%N with
      | Eq => bytes_cmp a' b'
      | c => c
      end
  end.

(** Strings are ordered by their UTF-8 bytes. *)
Definition string_cmp (a b : jsstring) : comparison :=
  bytes_cmp (Buffer.from_utf8 a) (Buffer.from_utf8 b).

Definition key_cmp (a b : IndexKey) : comparison :=
  match string_cmp (k_createdAt a) (k_createdAt b) with
  | Eq => string_cmp (k_id a) (k_id b)
  | c => c
  end.

(** [a] comes no later than [b] when the index is read newest first. *)
Definition newer_eq (a b : IndexKey * Item) : Prop := key_cmp (fst a) (fst b) <> Lt.

Global Instance newer_eq_dec a b : Decision (newer_eq a b).
Proof. unfold newer_eq. apply _. Defined.

(** An item is in the index when it carries both index key attributes. *)
Definition index_entry (kv : jsstring * Item) : option (IndexKey * Item) :=
  match snd kv !! "pk"%string, snd kv !! "createdAt"%string with
  | Some (AttrS p), Some (AttrS c) => Some (mkIndexKey p c (fst kv), snd kv)
  | _, _ => None
  end.

Definition index (t : gmap jsstring Item) : list (IndexKey * Item) :=
  merge_sort newer_eq (omap index_entry (map_to_list t)).

(** The [LastEvaluatedKey] / [ExclusiveStartKey] object of the index. *)
Definition key_to_json (k : IndexKey) : json :=
  JObj [(str "pk", JStr (k_pk k)); (str "createdAt", JStr (k_createdAt k)); (str "id", JStr (k_id k))].

Definition key_of_json (v : json) : option IndexKey :=
  match v with
  | JObj ms =>
      match Json.get (str "pk") ms, Json.get (str "createdAt") ms, Json.get (str "id") ms with
      | Some (JStr p), Some (JStr c), Some (JStr i) =>
          if (length ms =? 3)%nat then Some (mkIndexKey p c i) else None
      | _, _, _ => None
      end
  | _ => None
  end.

Definition project (names : list string) (item : Item) : Item :=
  filter (fun kv => bool_decide (fst kv ∈ names)) item.

Record QueryOutput : Type := mkQueryOutput {
  Items : list Item;
  LastEvaluatedKey : jsval;
}.

Definition run_query (t : gmap jsstring Item) (pk : jsstring) (limit : nat)
    (start : option IndexKey) (names : list string) : QueryOutput :=
  let matching := List.filter (fun e => jsstring_eqb (k_pk (fst e)) pk) (index t) in
  let rest :=
    match start with
    | Some k => List.filter (fun e => match key_cmp (fst e) k with Lt => true | _ => false end) matching
    | None => matching
    end in
  let page := take limit rest in
  mkQueryOutput (List.map (fun e => project names (snd e)) page)
    (if (limit <=? length rest)%nat
     then option_map (fun e => key_to_json (fst e)) (last page)
     else None).

(** [QueryCommand] on [byCreatedAt] with [pk = :p],
    [ScanIndexForward: false], [Limit], [ExclusiveStartKey] and a projection. *)
Definition query (pk : jsstring) (limit : number) (startKey : jsval) (names : list string)
  : M QueryOutput :=
  let* _ := send (QueryCommand limit startKey) in
  match Num.to_Z limit with
  | Some (Zpos n) =>
      match startKey with
      | None => fun w => (Ok (run_query (table w) pk (Pos.to_nat n) None names), w)
      | Some v =>
          match key_of_json v with
          | Some k => fun w => (Ok (run_query (table w) pk (Pos.to_nat n) (Some k) names), w)
          | None => throw (exception "ValidationException" "The provided starting key is invalid")
          end
      end
  | _ => throw (exception "ValidationException" "Limit must be a positive integer")
  end.

Definition attr_to_json (a : AttributeValue) : json :=
  match a with
  | AttrS s => JStr s
  | AttrNULL => JNull
  end.

(** An item as the document client hands it to the caller. *)
Definition item_to_json (item : Item) : json :=
  JObj (List.map (fun kv => (str (fst kv), attr_to_json (snd kv))) (map_to_list item)).

End Ddb.

(** ** The queue *)
Module Sqs.

(** [SendMessageCommand] *)
Definition send (msg : SqsMessage) : M unit :=
  fun w =>
    let w' := advance (with_sqs (sqs_log w ++ [msg]) (tail (sqs_faults w)) w) in
    match next_fault (sqs_faults w) with
    | Some e => (Throw e, w')
    | None => (Ok tt, w')
    end.

End Sqs.

(** ** The notification channel *)
Module Sns.

(** [PublishCommand] *)
Definition publish (msg : SnsMessage) : M unit :=
  fun w =>
    let w' := advance (with_sns (sns_log w ++ [msg]) (tail (sns_faults w)) w) in
    match next_fault (sns_faults w) with
    | Some e => (Throw e, w')
    | None => (Ok tt, w')
    end.

End Sns.

(** ** The parameter store *)
Module Ssm.

(** The last path segment of a parameter name: [Name?.split("/").pop()]. *)
Definition key_of (p : SsmParameter) : option jsstring :=
  match Name p with
  | Some n => last (JsString.split 47%N n)
  | None => None
  end.

(** [if (key && p.Value != null) params[key] = p.Value], [params] being
    an object literal: an assignment to [__proto__] goes to the accessor of
    [Object.prototype], which ignores a string, and adds no property. *)
Definition add_parameter (params : Config) (p : SsmParameter) : Config :=
  match key_of p, Value p with
  | Some (u :: k), Some v =>
      if jsstring_eqb (u :: k) (str "__proto__") then params else <[u :: k := v]> params
  | _, _ => params
  end.

(** The [do ... while (nextToken)] loop over the pages of one round. *)
Fixpoint drain (pages : list SsmPage) (params : Config) : Result Config :=
  match pages with
  | [] => Ok params
  | PageFailed e :: _ => Throw e
  | PageOk ps :: rest => drain rest (fold_left add_parameter ps params)
  end.

(** All parameters under the base path, page after page. *)
Definition getParametersByPath : M Config :=
  fun w =>
    match ssm w with
    | round :: later => (drain round ∅, advance (with_ssm later w))
    | [] => (Ok ∅, advance w)
    end.

End Ssm.

(* ===================================================================== *)
(** * The API function *)
(* ===================================================================== *)

(** [src/api-function/index.js] and [src/unnamed/part_000].  The two files
    have the same text except that the second one extracts an identity from
    the bearer token, writes it to the log, and passes
    [user ? { "X-User-ID": user.id } : {}] as a third argument to [res] on its
    four successful responses.  The common text is modelled once, with the
    identity step as a parameter.  Of the calls of [console], those whose
    arguments are evaluated with an effect (a template literal that converts a
    value to a string can throw) are part of the model; the others are not. *)
Module Api.

Record Event : Type := mkEvent {
  httpMethod : jsstring;
  path : option jsstring;
  resource : option jsstring;
  queryStringParameters : option (list (jsstring * jsstring));
  pathParameters : option (list (jsstring * jsstring));
  event_headers : option (list (jsstring * jsstring));
  event_body : option jsstring;
}.

Record Response : Type := mkResponse {
  statusCode : Z;
  headers : list (string * jsval);
  body : jsstring;
}.

Definition cors : list (string * jsval) :=
  [("Access-Control-Allow-Origin"%string, Some (JStr (str "*")));
   ("Access-Control-Allow-Headers"%string,
    Some (JStr (str "Content-Type,X-Amz-Date,Authorization,X-Api-Key,X-Amz-Security-Token")));
   ("Access-Control-Allow-Methods"%string, Some (JStr (str "OPTIONS,GET,POST,DELETE")))].

(** Object spread [{ ...a, ...b }]. *)
Fixpoint set_header (k : string) (v : jsval) (hs : list (string * jsval)) : list (string * jsval) :=
  match hs with
  | [] => [(k, v)]
  | (k', v') :: r => if String.eqb k k' then (k', v) :: r else (k', v') :: set_header k v r
  end.

Definition spread (a b : list (string * jsval)) : list (string * jsval) :=
  fold_left (fun hs kv => set_header (fst kv) (snd kv) hs) b a.

(** [res(statusCode, data, additionalHeaders = {})] *)
Definition res (code : Z) (data : json) (additionalHeaders : list (string * jsval)) : Response :=
  let payload := match data with JStr s => s | _ => Json.stringify data end in
  mkResponse code (spread cors additionalHeaders) payload.

Definition message_body (msg : string) : json := JObj [(str "message", JStr (str msg))].

(** [Number(process.env.CONFIG_TTL_MS || 5 * 60 * 1000)] *)
Definition CONFIG_TTL (w : World) : number :=
  match CONFIG_TTL_MS w with
  | Some (u :: s) => Num.of_string (u :: s)
  | _ => Num.of_Z 300000
  end.

(** [loadConfig()]: the memoized parameters while they are younger than
    the TTL, a fresh and complete fetch otherwise; a failed fetch is thrown
    and leaves the cache as it was. *)
Definition loadConfig : M Config :=
  let* t := Date_now in
  fun w =>
    let fetch :=
      let* params := Ssm.getParametersByPath in
      fun w' => (Ok params, with_api_cache (Some (params, t)) w') in
    match api_cache w with
    | Some (cached, cachedAt) =>
        if Num.lt (Num.of_Z (t - cachedAt)) (CONFIG_TTL w) then (Ok cached, w) else fetch w
    | None => fetch w
    end.

(** ** Identity extraction ([src/unnamed/part_000]) *)

(** [parseJWT(token)] *)
Definition parseJWT (token : jsstring) : M json :=
  try_catch
    (match JsString.split 46%N token with
     | [_; payload; _] =>
         let paddedPayload :=
           payload ++ JsString.repeat1 61%N ((4 - N.of_nat (length payload) mod 4) mod 4)%N in
         let decodedPayload := Buffer.to_utf8 (Buffer.from_base64 paddedPayload) in
         JSON_parse decodedPayload
     | _ => throw (new_Error (str "Invalid JWT format"))
     end)
    (fun error => throw (new_Error (str "Failed to parse JWT: " ++ message error))).

(** [isTokenExpired(payload)] *)
Definition isTokenExpired (payload : json) : M bool :=
  let* exp := member payload "exp" in
  match exp with
  | Some e =>
      if negb (truthy exp) then ret true
      else
        let* ms := Date_now in
        let now := (ms / 1000)%Z in
        let* x := numeric e in
        ret (Num.lt x (Num.of_Z now))
  | None => ret true
  end.

Record User : Type := mkUser {
  user_id : jsval;
  email : jsval;
  username : jsval;
  userStatus : jsval;
  user_payload : json;
}.

Definition header (event : Event) (name : string) : option jsstring :=
  match event_headers event with
  | Some hs => snd <$> List.find (fun kv => jsstring_eqb (fst kv) (str name)) hs
  | None => None
  end.

(** [event.headers?.Authorization || event.headers?.authorization] *)
Definition authorization_header (event : Event) : option jsstring :=
  match header event "Authorization" with
  | Some (a :: h) => Some (a :: h)
  | _ => header event "authorization"
  end.

(** [authHeader.replace(/^Bearer\s+/i, '')]: the prefix is removed. *)
Definition strip_bearer (authHeader : jsstring) : jsstring :=
  match JsString.startsWith_ci (str "Bearer") authHeader with
  | Some (u :: r) => if JsString.is_space u then JsString.trimStart r else authHeader
  | _ => authHeader
  end.

(** [`https://cognito-idp.${userPoolId.split('_')[0]}.amazonaws.com/${userPoolId}`] *)
Definition issuer (userPoolId : jsstring) : jsstring :=
  str "https://cognito-idp." ++ default [] (head (JsString.split 95%N userPoolId))
  ++ str ".amazonaws.com/" ++ userPoolId.

(** [getAuthenticatedUser(event, config)] *)
Definition getAuthenticatedUser (event : Event) (config : Config) : M (option User) :=
  match config !! str "cognito-user-pool-id", config !! str "cognito-client-id" with
  | Some (u :: p), Some (c :: l) =>
      let userPoolId := u :: p in
      let clientId := c :: l in
      match authorization_header event with
      | Some (a :: h) =>
          match strip_bearer (a :: h) with
          | [] => ret None
          | token =>
              try_catch
                (let* payload := parseJWT token in
                 let* expired := isTokenExpired payload in
                 if expired then ret None
                 else
                   let* iss := member payload "iss" in
                   if negb (is_string iss (issuer userPoolId)) then ret None
                   else
                     let* aud := member payload "aud" in
                     if negb (is_string aud clientId) then ret None
                     else
                       let* token_use := member payload "token_use" in
                       if negb (is_string token_use (str "id")) then ret None
                       else
                         ret (Some (mkUser (Json.prop payload "sub") (Json.prop payload "email")
                                      (Json.prop payload "cognito:username")
                                      (Json.prop payload "cognito:user_status") payload)))
                (fun error => ret None)
          end
      | _ => ret None
      end
  | _, _ => ret None
  end.

(** The identity step of the handler of [src/unnamed/part_000]: the user
    is looked for and written to the log,
    [console.log("...", user ? `ID: ${user.id}` : "Not authenticated")]. *)
Definition identify (event : Event) (config : Config) : M (option User) :=
  let* user := getAuthenticatedUser event config in
  let* _ := match user with
            | Some u => interpolate (user_id u)
            | None => ret (str "Not authenticated")
            end in
  ret user.

(** [user ? { "X-User-ID": user.id } : {}] *)
Definition user_headers (user : option User) : list (string * jsval) :=
  match user with
  | Some u => [("X-User-ID"%string, user_id u)]
  | None => []
  end.

(** ** The routes *)

Definition param (ps : option (list (jsstring * jsstring))) (name : string) : option jsstring :=
  match ps with
  | Some l => snd <$> List.find (fun kv => jsstring_eqb (fst kv) (str name)) l
  | None => None
  end.

Definition path_endsWith (event : Event) (suffix : string) : bool :=
  match path event with
  | Some p => JsString.endsWith p (str suffix)
  | None => false
  end.

(** The new task record of [POST /tasks]. *)
Definition new_item (id topic now : jsstring) : Item :=
  <[ "id"%string := AttrS id ]> (
  <[ "pk"%string := AttrS (str "TASK") ]> (
  <[ "topic"%string := AttrS topic ]> (
  <[ "status"%string := AttrS (str "QUEUED") ]> (
  <[ "createdAt"%string := AttrS now ]> (
  <[ "updatedAt"%string := AttrS now ]> (
  <[ "researchMd"%string := AttrS [] ]> (
  <[ "error"%string := AttrNULL ]> ∅))))))).

Definition sqsPayload (id topic now : jsstring) : json :=
  JObj [(str "id", JStr id); (str "topic", JStr topic); (str "requestedAt", JStr now);
        (str "taskType", JStr (str "RESEARCH_SUMMARY_V1"))].

Definition created_body (id topic now : jsstring) : json :=
  JObj [(str "id", JStr id); (str "topic", JStr topic); (str "status", JStr (str "QUEUED"));
        (str "createdAt", JStr now)].

(** [typeof event.body === "string" ? JSON.parse(event.body) : event.body];
    the outer [None] stands for the [SyntaxError]. *)
Definition request_body (event : Event) : option jsval :=
  match event_body event with
  | Some s => match Json.parse s with Some v => Some (Some v) | None => None end
  | None => Some None
  end.

(** [POST /tasks] *)
Definition post_tasks (user : option User) (queueUrl : option jsstring) (event : Event)
  : M Response :=
  match request_body event with
  | None => ret (res 400 (message_body "Invalid JSON") [])
  | Some body =>
      match js_or (Json.opt_prop body "topic") (Some (JStr [])) with
      | Some (JStr s) =>
          let topic := JsString.trim s in
          if negb (truthy_string topic) then
            ret (res 422 (message_body "Field 'topic' is required") [])
          else
            let* id := randomUUID in
            let* now := now_ISO in
            let* _ := Ddb.put (new_item id topic now) true in
            let* _ :=
              match queueUrl with
              | Some (u :: q) =>
                  Sqs.send (mkSqsMessage (u :: q) (Json.stringify (sqsPayload id topic now)))
              | _ => ret tt
              end in
            ret (res 201 (created_body id topic now) (user_headers user))
      | _ => throw_TypeError "(body?.topic || '').trim is not a function"
      end
  end.

(** [Math.min(Number(qs.limit || 25), 100)] *)
Definition limit_of (qs : option (list (jsstring * jsstring))) : number :=
  Num.min
    (match param qs "limit" with
     | Some (u :: s) => Num.of_string (u :: s)
     | _ => Num.of_Z 25
     end)
    (Num.of_Z 100).

(** [Buffer.from(JSON.stringify(key)).toString("base64")] *)
Definition encodeCursor (key : json) : jsstring :=
  Buffer.to_base64 (Buffer.from_utf8 (Json.stringify key)).

(** [JSON.parse(Buffer.from(cursor, "base64").toString("utf8"))] *)
Definition decodeCursor (cursor : jsstring) : M json :=
  JSON_parse (Buffer.to_utf8 (Buffer.from_base64 cursor)).

(** [qs.cursor ? JSON.parse(...) : undefined] *)
Definition startKey_of (qs : option (list (jsstring * jsstring))) : M jsval :=
  match param qs "cursor" with
  | Some (u :: c) => let* k := decodeCursor (u :: c) in ret (Some k)
  | _ => ret None
  end.

(** [out.LastEvaluatedKey ? Buffer.from(...).toString("base64") : null] *)
Definition cursor_of (lastEvaluatedKey : jsval) : json :=
  match lastEvaluatedKey with
  | Some k => if truthy (Some k) then JStr (encodeCursor k) else JNull
  | None => JNull
  end.

Definition list_body (items : list Item) (cursor : json) : json :=
  JObj [(str "items", JArr (List.map Ddb.item_to_json items)); (str "cursor", cursor)].

(** [GET /tasks] *)
Definition get_tasks (user : option User) (event : Event) : M Response :=
  let qs := queryStringParameters event in
  let limit := limit_of qs in
  let* startKey := startKey_of qs in
  let* out := Ddb.query (str "TASK") limit startKey
                ["id"; "topic"; "status"; "createdAt"; "updatedAt"]%string in
  let cursor := cursor_of (Ddb.LastEvaluatedKey out) in
  ret (res 200 (list_body (Ddb.Items out) cursor) (user_headers user)).

(** [GET /tasks/{id}] *)
Definition get_task (user : option User) (event : Event) : M Response :=
  match param (pathParameters event) "id" with
  | Some (u :: id) =>
      let* item := Ddb.get (u :: id) in
      match item with
      | Some it => ret (res 200 (Ddb.item_to_json it) (user_headers user))
      | None => ret (res 404 (message_body "Not Found") [])
      end
  | _ => ret (res 400 (message_body "Missing path param 'id'") [])
  end.

(** [DELETE /tasks/{id}] *)
Definition delete_task (user : option User) (event : Event) : M Response :=
  match param (pathParameters event) "id" with
  | Some (u :: id) =>
      let* _ := Ddb.delete_item (u :: id) in
      ret (res 204 (JStr []) (user_headers user))
  | _ => ret (res 400 (message_body "Missing path param 'id'") [])
  end.

Definition is_method (event : Event) (m : string) : bool := jsstring_eqb (httpMethod event) (str m).

Definition is_resource (event : Event) (r : string) : bool :=
  bool_decide (resource event = Some (str r)).

(** The handler after the configuration is loaded and the user is known. *)
Definition dispatch (user : option User) (config : Config) (event : Event) : M Response :=
  let tableName := config !! str "dynamo-db-table-name" in
  let queueUrl := config !! str "sqs-queue-url" in
  match tableName with
  | Some (_ :: _) =>
      if is_method event "POST" && path_endsWith event "/tasks" then
        post_tasks user queueUrl event
      else if is_method event "GET" && path_endsWith event "/tasks"
              && negb (is_resource event "/tasks/{id}") then
        get_tasks user event
      else if is_method event "GET" && is_resource event "/tasks/{id}" then
        get_task user event
      else if is_method event "DELETE" && is_resource event "/tasks/{id}" then
        delete_task user event
      else ret (res 404 (message_body "Not Found") [])
  | _ => ret (res 500 (message_body "dynamo-db-table-name not set") [])
  end.

Definition server_error (err : Error) : json :=
  JObj [(str "message", JStr (str "Server error")); (str "error", JStr (message err))].

(** The handler, for a given identity step. *)
Definition handler_with (identify : Event -> Config -> M (option User)) (event : Event)
  : M Response :=
  try_catch
    (if is_method event "OPTIONS" then ret (mkResponse 200 cors [])
     else
       let* config := loadConfig in
       let* user := identify event config in
       dispatch user config event)
    (fun err => ret (res 500 (server_error err) [])).

End Api.

(** [handler] of [src/api-function/index.js]: no user. *)
Module ApiFunction.
Definition handler (event : Api.Event) : M Api.Response :=
  Api.handler_with (fun _ _ => ret None) event.
End ApiFunction.

(** [handler] of [src/unnamed/part_000]: the user comes from the bearer
    token and is written to the log. *)
Module AuthApiFunction.
Definition handler (event : Api.Event) : M Api.Response :=
  Api.handler_with Api.identify event.
End AuthApiFunction.

(* ===================================================================== *)
(** * The worker function *)
(* ===================================================================== *)

(** [src/worker-function/index.js] *)
Module Worker.

Record SqsRecord : Type := mkSqsRecord { messageId : jsstring; body : jsstring }.

Record Event : Type := mkEvent { Records : option (list SqsRecord) }.

(** [{ batchItemFailures: [{ itemIdentifier }, ...] }] *)
Record BatchResponse : Type := mkBatchResponse { batchItemFailures : list jsstring }.

Definition required : list string :=
  ["dynamo-db-table-name"; "openai-api-key"; "openai-prompt-id"]%string.

Definition is_set (params : Config) (k : string) : bool :=
  match params !! str k with
  | Some (_ :: _) => true
  | _ => false
  end.

(** [loadConfig()]: as in the API function, and the three required
    parameters must be there before the result is cached. *)
Definition loadConfig : M Config :=
  let* t := Date_now in
  fun w =>
    let fetch :=
      let* params := try_catch Ssm.getParametersByPath (fun e => throw e) in
      let missing := List.filter (fun k => negb (is_set params k)) required in
      match missing with
      | [] => fun w' => (Ok params, with_worker_cache (Some (params, t)) w')
      | _ =>
          throw (new_Error (str "Missing SSM parameters: "
                            ++ Json.join (str ", ") (List.map str missing)))
      end in
    match worker_cache w with
    | Some (cached, cachedAt) =>
        if Num.lt (Num.of_Z (t - cachedAt)) (Api.CONFIG_TTL w) then (Ok cached, w) else fetch w
    | None => fetch w
    end.

(** [typeof v === "string"] *)
Definition as_string (v : jsval) : option jsstring :=
  match v with
  | Some (JStr s) => Some s
  | _ => None
  end.

(** The text of one element of a block's content, if it has one. *)
Definition part_of (c : json) : option jsstring :=
  match c with
  | JStr s => Some s
  | _ =>
      match as_string (Json.opt_prop (Some c) "text") with
      | Some s => Some s
      | None =>
          match as_string (Json.opt_prop (Json.opt_prop (Some c) "text") "value") with
          | Some s => Some s
          | None => as_string (Json.opt_prop (Some c) "output_text")
          end
      end
  end.

(** The parts one block of [data.output] contributes; iterating over a
    string yields its characters, iterating over another truthy value that is
    not an array is a [TypeError]. *)
Definition block_parts (blk : json) : M (list jsstring) :=
  let content :=
    js_or (js_or (Json.opt_prop (Some blk) "content") (Json.opt_prop (Some blk) "contents"))
          (Some (JArr [])) in
  match content with
  | Some (JArr cs) => ret (omap part_of cs)
  | Some (JStr s) => ret [s]
  | _ => throw_TypeError "content is not iterable"
  end.

Fixpoint blocks_parts (blks : list json) : M (list jsstring) :=
  match blks with
  | [] => ret []
  | blk :: r =>
      let* ps := block_parts blk in
      let* qs := blocks_parts r in
      ret (ps ++ qs)
  end.

(** The text of one element of the older [data.content] shape. *)
Definition older_part (c : json) : jsstring :=
  match as_string (Json.opt_prop (Json.opt_prop (Some c) "text") "value") with
  | Some s => s
  | None => default [] (as_string (Json.opt_prop (Some c) "text"))
  end.

(** [extractMarkdown(data)] *)
Definition extractMarkdown (data : json) : M jsstring :=
  let older :=
    match Json.opt_prop (Some data) "content" with
    | Some (JArr cs) => JsString.trim (concat (List.map older_part cs))
    | _ => []
    end in
  let from_output :=
    match Json.opt_prop (Some data) "output" with
    | Some (JArr blks) =>
        let* parts := blocks_parts blks in
        let md := JsString.trim (concat parts) in
        if truthy_string md then ret md else ret older
    | _ => ret older
    end in
  match as_string (Json.opt_prop (Some data) "output_text") with
  | Some s => if truthy_string (JsString.trim s) then ret (JsString.trim s) else from_output
  | None => from_output
  end.

Definition openai_url : jsstring := str "https://api.openai.com/v1/responses".

(** [fetch(url, { method: "POST", headers, body })] *)
Definition fetch (req : FetchRequest) : M (Z * jsstring) :=
  fun w =>
    let w' := advance (with_fetch (fetch_log w ++ [req]) (tail (fetches w)) w) in
    match fetches w with
    | FetchResponse status text :: _ => (Ok (status, text), w')
    | FetchFailed e :: _ => (Throw e, w')
    | [] => (Throw (mkError (str "TypeError") (str "fetch failed")), w')
    end.

(** [callOpenAIWithPrompt(topic, apiKey, promptId)] *)
Definition callOpenAIWithPrompt (topic : json) (apiKey promptId : jsstring) : M jsstring :=
  let body :=
    JObj [(str "prompt",
           JObj [(str "id", JStr promptId);
                 (str "variables", JObj [(str "topic", topic)])])] in
  let* r := fetch (mkFetchRequest openai_url (str "Bearer " ++ apiKey) (Json.stringify body)) in
  let '(status, txt) := r in
  if negb ((200 <=? status)%Z && (status <=? 299)%Z) then
    throw (new_Error (str "OpenAI " ++ JsString.of_Z status ++ str ": " ++ txt))
  else
    let* data := JSON_parse txt in
    let* md := extractMarkdown data in
    if negb (truthy_string md) then throw (new_Error (str "Empty OpenAI response"))
    else ret md.

(** The subject and the text of the completion notice. *)
Definition notice_subject : jsstring :=
  [1050; 1086; 1085; 1089; 1087; 1077; 1082; 1090; 32; 1075; 1086; 1090; 1086; 1074;
   1080; 1081]%N.

Definition notice_message (topic id : jsstring) : jsstring :=
  [1050; 1086; 1085; 1089; 1087; 1077; 1082; 1090; 32; 1085; 1072; 32; 1090; 1077;
   1084; 1091; 32; 34]%N
  ++ topic
  ++ [34; 32; 1075; 1086; 1090; 1086; 1074; 1080; 1081; 46; 32; 73; 68; 58; 32]%N
  ++ id.

(** The first part of the [try] block for one record, up to the write of
    [DONE]; it yields the [id] and the [topic] of the message.  Each of the two
    updates is announced by a log line that interpolates the [id],
    [`... id=${id}`]. *)
Definition fulfil (cfg : Config) (rec : SqsRecord) : M (json * json) :=
  let OPENAI_API_KEY := default [] (cfg !! str "openai-api-key") in
  let OPENAI_PROMPT_ID := default [] (cfg !! str "openai-prompt-id") in
  let* msg := JSON_parse (body rec) in
  let* id := member msg "id" in
  let* topic := member msg "topic" in
  match id, topic with
  | Some id', Some topic' =>
      if negb (truthy id) || negb (truthy topic) then
        throw (new_Error (str "Message must contain id and topic"))
      else
        let* _ := interpolate id in
        let* t1 := now_ISO in
        let* _ := Ddb.update id'
                    [("status"%string, AttrS (str "PROCESSING")); ("updatedAt"%string, AttrS t1)]
                    [] in
        let* markdown := callOpenAIWithPrompt topic' OPENAI_API_KEY OPENAI_PROMPT_ID in
        let* _ := interpolate id in
        let* t2 := now_ISO in
        let* _ := Ddb.update id'
                    [("researchMd"%string, AttrS markdown); ("status"%string, AttrS (str "DONE"));
                     ("updatedAt"%string, AttrS t2)]
                    ["error"%string] in
        ret (id', topic')
  | _, _ => throw (new_Error (str "Message must contain id and topic"))
  end.

(** The rest of the [try] block: the completion notice, announced by a
    log line that interpolates the [id]; its text interpolates the [topic] and
    the [id]. *)
Definition notify (cfg : Config) (id topic : json) : M unit :=
  let SNS_TOPIC_ARN := cfg !! str "sns-topic-arn" in
  match SNS_TOPIC_ARN with
  | Some (u :: arn) =>
      let* _ := interpolate (Some id) in
      let* topic_text := interpolate (Some topic) in
      let* id_text := interpolate (Some id) in
      Sns.publish (mkSnsMessage (u :: arn) notice_subject (notice_message topic_text id_text))
  | _ => ret tt
  end.

(** The [try] block for one record. *)
Definition process (cfg : Config) (rec : SqsRecord) : M unit :=
  let* it := fulfil cfg rec in
  notify cfg (fst it) (snd it).

(** [String(err?.message || err)] *)
Definition describe (err : Error) : jsstring :=
  match message err with
  | _ :: _ => message err
  | [] => Error_toString err
  end.

(** The attempt, inside the [catch] block, to mark the task as failed,
    announced by a log line that interpolates the [id]. *)
Definition mark_error (err : Error) (rec : SqsRecord) : M unit :=
  try_catch
    (let* safe := JSON_parse (body rec) in
     match Json.opt_prop (Some safe) "id" with
     | Some id =>
         if truthy (Some id) then
           let* _ := interpolate (Some id) in
           let e := describe err in
           let* t := now_ISO in
           Ddb.update id
             [("error"%string, AttrS e); ("status"%string, AttrS (str "ERROR"));
              ("updatedAt"%string, AttrS t)]
             []
         else ret tt
     | None => ret tt
     end)
    (fun nested => ret tt).

(** One turn of the loop over the records, with the failures so far. *)
Definition handle_record (cfg : Config) (failures : list jsstring) (rec : SqsRecord)
  : M (list jsstring) :=
  try_catch
    (let* _ := process cfg rec in ret failures)
    (fun err =>
       let failures' := failures ++ [messageId rec] in
       let* _ := mark_error err rec in
       ret failures').

Fixpoint handle_records (cfg : Config) (failures : list jsstring) (recs : list SqsRecord)
  : M (list jsstring) :=
  match recs with
  | [] => ret failures
  | rec :: rest =>
      let* failures' := handle_record cfg failures rec in
      handle_records cfg failures' rest
  end.

(** [handler(event)] *)
Definition handler (event : Event) : M BatchResponse :=
  let records := default [] (Records event) in
  let* cfg := try_catch (let* c := loadConfig in ret (Some c)) (fun e => ret None) in
  match cfg with
  | None => ret (mkBatchResponse (List.map messageId records))
  | Some c =>
      let* failures := handle_records c [] records in
      ret (mkBatchResponse failures)
  end.

End Worker.

(* ===================================================================== *)
(** * A deployment to run the functions in *)
(* ===================================================================== *)

Module Scenario.

Definition engine : Platform :=
  mkPlatform (fun _ => str "Unexpected token in JSON") (fun what => str what).

Definition parameter (name value : string) : SsmParameter :=
  mkSsmParameter (Some (str "/ai-studynotes/" ++ str name)) (Some (str value)).

Definition parameters : list SsmParameter :=
  [parameter "dynamo-db-table-name" "tasks";
   parameter "sqs-queue-url" "https://sqs.eu-central-1.amazonaws.com/1/tasks";
   parameter "sns-topic-arn" "arn:aws:sns:eu-central-1:1:notes-ready";
   parameter "openai-api-key" "sk-test";
   parameter "openai-prompt-id" "pmpt_1";
   parameter "cognito-user-pool-id" "eu-central-1_AbCdEf";
   parameter "cognito-client-id" "client-1"].

Definition config : Config := fold_left Ssm.add_parameter parameters ∅.

Definition task_id : jsstring := str "0b5f6c1e-7d0a-4c55-9a39-2f1d3a1b0001".

Definition topic : jsstring := str "Photosynthesis".

(** A runtime that starts at 2023-11-14T22:13:20.250Z, with the given
    table and scripts for the queue, the notification channel and the
    generation backend. *)
Definition world (t : gmap jsstring Item) (sqs sns : list (option Error))
    (backend : list FetchResult) : World :=
  mkWorld engine t [] [] [] [] None None
    1700000000250%Z
    [1700000000300; 1700000000420; 1700000003100; 1700000003180; 1700000003260;
     1700000003340]%Z
    task_id [] [] sqs sns backend [[PageOk parameters]; [PageOk parameters]] None.

Definition fresh : World := world ∅ [] [] [].

Definition unavailable : Error := mkError (str "ServiceUnavailable") (str "Service Unavailable").

(** The queue is down. *)
Definition queue_down : World := world ∅ [Some unavailable] [] [].

Definition created : jsstring := Date.toISOString 1700000000000%Z.

(** The task is in the store with a given status. *)
Definition stored (status : string) : gmap jsstring Item :=
  {[ task_id := <[ "status"%string := AttrS (str status) ]> (Api.new_item task_id topic created) ]}.

Definition notes : FetchResult :=
  FetchResponse 200%Z (Json.stringify (JObj [(str "output_text", JStr (str "# Photosynthesis"))])).

(** The task is queued, the backend answers, the notification channel is
    down. *)
Definition notice_down : World := world (stored "QUEUED") [] [Some unavailable] [notes].

(** The task is already done and its work item is delivered again while
    the backend is overloaded. *)
Definition redelivered : World :=
  world (stored "DONE") [] [] [FetchResponse 503%Z (str "overloaded")].

(** The task is queued; used for a message that names it but has no
    topic. *)
Definition queued : World := world (stored "QUEUED") [] [] [notes].

Definition request (method path resource : string) (qs : option (list (jsstring * jsstring)))
    (body : option json) : Api.Event :=
  Api.mkEvent (str method) (Some (str path)) (Some (str resource)) qs None None
    (option_map Json.stringify body).

Definition create (t : string) : Api.Event :=
  request "POST" "/prod/tasks" "/tasks" None (Some (JObj [(str "topic", JStr (str t))])).

Definition list_tasks (limit : string) : Api.Event :=
  request "GET" "/prod/tasks" "/tasks" (Some [(str "limit", str limit)]) None.

(** A bearer token whose payload is
    [{sub: "user-1", exp: 1700000000, iss: <the pool's issuer>, aud: "client-1",
      token_use: "id"}]. *)
Definition token : jsstring :=
  str "eyJhbGciOiJSUzI1NiIsInR5cCI6IkpXVCJ9.eyJzdWIiOiJ1c2VyLTEiLCJleHAiOjE3MDAwMDAwMDAsImlzcyI6Imh0dHBzOi8vY29nbml0by1pZHAuZXUtY2VudHJhbC0xLmFtYXpvbmF3cy5jb20vZXUtY2VudHJhbC0xX0FiQ2RFZiIsImF1ZCI6ImNsaWVudC0xIiwidG9rZW5fdXNlIjoiaWQifQ.c2ln".

Definition with_bearer (event : Api.Event) : Api.Event :=
  Api.mkEvent (Api.httpMethod event) (Api.path event) (Api.resource event)
    (Api.queryStringParameters event) (Api.pathParameters event)
    (Some [(str "Authorization", str "Bearer " ++ token)]) (Api.event_body event).

Definition record (message : json) : Worker.SqsRecord :=
  Worker.mkSqsRecord (str "m-1") (Json.stringify message).

Definition batch (message : json) : Worker.Event :=
  Worker.mkEvent (Some [record message]).

(** The work item that Create sent for the task. *)
Definition work : json := Api.sqsPayload task_id topic created.

(** A message that names the task but has no topic. *)
Definition no_topic : json := JObj [(str "id", JStr task_id)].

End Scenario.

(* ===================================================================== *)
(** * Vocabulary of the statements *)
(* ===================================================================== *)

(** A computation respects a relation between the world before and the
    world after. *)
Definition respects {A} (P : World -> World -> Prop) (m : M A) : Prop :=
  forall w r w', m w = (r, w') -> P w w'.

(** No service but the parameter store was called between two worlds. *)
Record quiet (w w' : World) : Prop := mkQuiet {
  quiet_platform : platform w' = platform w;
  quiet_table : table w' = table w;
  quiet_ddb_log : ddb_log w' = ddb_log w;
  quiet_sqs_log : sqs_log w' = sqs_log w;
  quiet_sns_log : sns_log w' = sns_log w;
  quiet_fetch_log : fetch_log w' = fetch_log w;
  quiet_uuid : uuid w' = uuid w;
  quiet_uuids : uuids w' = uuids w;
  quiet_ddb_faults : ddb_faults w' = ddb_faults w;
  quiet_sqs_faults : sqs_faults w' = sqs_faults w;
  quiet_sns_faults : sns_faults w' = sns_faults w;
  quiet_fetches : fetches w' = fetches w;
}.

(** The world after is the world before. *)
Definition untouched (w w' : World) : Prop := w' = w.

(** The topic of a request body is absent, empty or made of white space
    only. *)
Definition blank_topic (body : jsval) : Prop :=
  Json.opt_prop body "topic" = None
  \/ exists s, Json.opt_prop body "topic" = Some (JStr s)
               /\ Forall (fun u => JsString.is_space u = true) s.

(** The topic of a request body is a string that is not blank; [topic] is
    what remains after trimming. *)
Definition valid_topic (body : jsval) (topic : jsstring) : Prop :=
  exists s, Json.opt_prop body "topic" = Some (JStr s)
            /\ JsString.trim s = topic /\ topic <> [].

(** The work item that Create sends for a task. *)
Definition work_item (queueUrl id topic now : jsstring) : SqsMessage :=
  mkSqsMessage queueUrl
    (Json.stringify
       (JObj [(str "id", JStr id); (str "topic", JStr topic); (str "requestedAt", JStr now);
              (str "taskType", JStr (str "RESEARCH_SUMMARY_V1"))])).

(** The world in which the conditional put of Create has been sent. *)
Definition put_sent (item : Item) (w : World) : World :=
  advance (with_ddb (ddb_log w ++ [PutCommand item true]) (tail (ddb_faults w)) w).

(** The world in which a message has been sent to the queue. *)
Definition sqs_sent (msg : SqsMessage) (w : World) : World :=
  advance (with_sqs (sqs_log w ++ [msg]) (tail (sqs_faults w)) w).

(** A task that was not in the store before is in it afterwards. *)
Definition task_stored (w w' : World) : Prop :=
  exists id item, table w !! id = None /\ table w' !! id = Some item.

(** C1 as the specification words it: once the conditional write of a
    Create call has stored the task, the call answers 201, whatever becomes of
    the publication. *)
Definition publish_is_best_effort (event : Api.Event) (w : World) : Prop :=
  forall r w',
    ApiFunction.handler event w = (Ok r, w') ->
    task_stored w w' ->
    Api.statusCode r = 201%Z.

(** Two requests that differ at most in their headers. *)
Definition same_but_headers (e1 e2 : Api.Event) : Prop :=
  Api.httpMethod e1 = Api.httpMethod e2
  /\ Api.path e1 = Api.path e2
  /\ Api.resource e1 = Api.resource e2
  /\ Api.queryStringParameters e1 = Api.queryStringParameters e2
  /\ Api.pathParameters e1 = Api.pathParameters e2
  /\ Api.event_body e1 = Api.event_body e2.

(** The headers of a response without the advisory [X-User-ID]. *)
Definition other_headers (r : Api.Response) : list (string * jsval) :=
  List.filter (fun kv => negb (String.eqb (fst kv) "X-User-ID")) (Api.headers r).

(** A response with its [X-User-ID] header erased. *)
Definition erase (r : Api.Response) : Api.Response :=
  Api.mkResponse (Api.statusCode r) (other_headers r) (Api.body r).

Definition erased (x : Result Api.Response * World) : Result Api.Response * World :=
  (match fst x with Ok r => Ok (erase r) | Throw e => Throw e end, snd x).

(** The table is the same in both worlds. *)
Definition same_table (w w' : World) : Prop := table w' = table w.

(** The table and the log of store requests are the same in both worlds:
    nothing was asked of the store. *)
Definition store_idle (w w' : World) : Prop :=
  table w' = table w /\ ddb_log w' = ddb_log w /\ ddb_faults w' = ddb_faults w.

(** The status attribute of the task stored under [id], if any. *)
Definition status_of (w : World) (id : jsstring) : option AttributeValue :=
  match table w !! id with
  | Some item => item !! "status"%string
  | None => None
  end.

Definition has_status (w : World) (id : jsstring) (s : string) : Prop :=
  status_of w id = Some (AttrS (str s)).

(** A message lacks a field: the field is absent or falsy. *)
Definition lacks (msg : json) (field : string) : Prop :=
  truthy (Json.opt_prop (Some msg) field) = false.

(** The world in which an update has been sent to the store. *)
Definition update_sent (key : json) (sets : list (string * AttributeValue))
    (removes : list string) (w : World) : World :=
  advance (with_ddb (ddb_log w ++ [UpdateCommand key sets removes]) (tail (ddb_faults w)) w).

(** The compensating update of the worker for a failure [err] at time [t]. *)
Definition error_update (id : json) (err : Error) (t : Z) : DdbCommand :=
  UpdateCommand id
    [("error"%string, AttrS (Worker.describe err)); ("status"%string, AttrS (str "ERROR"));
     ("updatedAt"%string, AttrS (Date.toISOString t))]
    [].

(** The error raised for a message without [id] or [topic]. *)
Definition malformed : Error := new_Error (str "Message must contain id and topic").

(** The world in which a notice has been sent to the notification
    channel. *)
Definition sns_sent (msg : SnsMessage) (w : World) : World :=
  advance (with_sns (sns_log w ++ [msg]) (tail (sns_faults w)) w).

(** The [id] that the [catch] block recovers from a message. *)
Definition recovered_id (msg : json) : option json :=
  match Json.opt_prop (Some msg) "id" with
  | Some id => if truthy (Some id) then Some id else None
  | None => None
  end.

(** The attribute [name] of the task stored under [id], if any. *)
Definition attribute_of (w : World) (id : jsstring) (name : string) : option AttributeValue :=
  match table w !! id with
  | Some item => item !! name
  | None => None
  end.

(** C2 as the specification words it: when the write of [DONE] has
    succeeded and the publication of the notice fails, the record is not named
    in the failures and the task stays [DONE]. *)
Definition notice_failure_is_swallowed (cfg : Config) (rec : Worker.SqsRecord) (w : World)
  : Prop :=
  forall id topic w1 e w2 failures failures' w',
    Worker.fulfil cfg rec w = (Ok (JStr id, topic), w1) ->
    Worker.notify cfg (JStr id) topic w1 = (Throw e, w2) ->
    Worker.handle_record cfg failures rec w = (Ok failures', w') ->
    failures' = failures /\ has_status w' id "DONE".

(** C4 as the specification words it: a record whose message lacks [id]
    or [topic] is named in the failures and no write is sent to the store for
    it. *)
Definition malformed_record_writes_nothing (cfg : Config) (rec : Worker.SqsRecord)
    (w : World) : Prop :=
  forall msg failures failures' w',
    Json.parse (Worker.body rec) = Some msg ->
    lacks msg "id" \/ lacks msg "topic" ->
    Worker.handle_record cfg failures rec w = (Ok failures', w') ->
    failures' = failures ++ [Worker.messageId rec] /\ writes w' = writes w.

(** ** Sequences of operations *)

(** The operations of the system: a request to either variant of the API
    function, or a batch delivered to the worker. *)
Inductive Operation : Type :=
  | ApiCall (event : Api.Event)
  | AuthApiCall (event : Api.Event)
  | WorkerBatch (event : Worker.Event).

Definition run (op : Operation) (w : World) : World :=
  match op with
  | ApiCall event => snd (ApiFunction.handler event w)
  | AuthApiCall event => snd (AuthApiFunction.handler event w)
  | WorkerBatch event => snd (Worker.handler event w)
  end.

Definition run_all (ops : list Operation) (w : World) : World :=
  fold_left (fun w' op => run op w') ops w.

(** No task of the first table is [QUEUED] in the second one without
    having been [QUEUED] in the first. *)
Definition never_requeued (w w' : World) : Prop :=
  forall id, is_Some (table w !! id) -> has_status w' id "QUEUED" -> has_status w id "QUEUED".

(** Whatever is [QUEUED] afterwards was [QUEUED] before. *)
Definition queued_only_before (w w' : World) : Prop :=
  forall id, has_status w' id "QUEUED" -> has_status w id "QUEUED".

(** What one request to the API function can do to the table: nothing,
    store an item under a key that was free, or remove a key. *)
Definition table_step (w w' : World) : Prop :=
  table w' = table w
  \/ (exists id item, table w !! id = None /\ table w' = <[id := item]> (table w))
  \/ (exists id, table w' = delete id (table w)).

(** C3 as the specification words it, for one operation: a task that is
    [DONE] stays [DONE], and no task returns to [QUEUED]. *)
Definition status_is_monotone (op : Operation) (w : World) : Prop :=
  (forall id, has_status w id "DONE" -> has_status (run op w) id "DONE")
  /\ never_requeued w (run op w).

(** ** Strings and keys *)

(** A string without a lone surrogate: every high surrogate is followed
    by a low one and every low one follows a high one. *)
Inductive Paired : jsstring -> Prop :=
  | Paired_nil : Paired []
  | Paired_unit u r :
      Json.is_high u = false -> Json.is_low u = false -> Paired r -> Paired (u :: r)
  | Paired_pair u v r :
      Json.is_high u = true -> Json.is_low v = true -> Paired r -> Paired (u :: v :: r).

(** The object with the given string-valued attributes. *)
Definition key_object (attributes : list (jsstring * jsstring)) : json :=
  JObj (List.map (fun kv => (fst kv, JStr (snd kv))) attributes).

(** The attributes of a key: distinct names, none of them an array
    index, and strings of 16-bit code units. *)
Definition wf_key (attributes : list (jsstring * jsstring)) : Prop :=
  NoDup (List.map fst attributes)
  /\ Forall (fun kv => Json.array_index (fst kv) = None) attributes
  /\ Forall (fun kv => wf_string (fst kv) /\ wf_string (snd kv)) attributes.

(** A table whose strings are strings of 16-bit code units. *)
Definition wf_table (t : gmap jsstring Item) : Prop :=
  forall id item, t !! id = Some item ->
    wf_string id /\ forall name s, item !! name = Some (AttrS s) -> wf_string s.

(** The three strings of an index key. *)
Definition wf_index_key (k : IndexKey) : Prop :=
  wf_string (k_pk k) /\ wf_string (k_createdAt k) /\ wf_string (k_id k).

(** The query string of a List call that carries the given cursor. *)
Definition carries_cursor (event : Api.Event) (cursor : jsstring) : Prop :=
  Api.param (Api.queryStringParameters event) "cursor" = Some cursor.

(** The text of one member of a key object. *)
Definition member_text (kv : jsstring * jsstring) : jsstring :=
  Json.quote (fst kv) ++ [58%N] ++ Json.quote (snd kv).


(* ===================================================================== *)
(** * More vocabulary: the routes, the configuration, identity, the worker *)
(* ===================================================================== *)

(** ** The two variants of the API function *)

(** [Plain] is [src/api-function/index.js]; [WithIdentity] is
    [src/unnamed/part_000]. *)
Inductive Variant : Type := Plain | WithIdentity.

Definition handler_of (v : Variant) : Api.Event -> M Api.Response :=
  match v with
  | Plain => ApiFunction.handler
  | WithIdentity => AuthApiFunction.handler
  end.

(** The identity step of [handler_of v]. *)
Definition identify_of (v : Variant) : Api.Event -> Config -> M (option Api.User) :=
  match v with
  | Plain => fun _ _ => ret None
  | WithIdentity => Api.identify
  end.

(** The identity step of [handler_of v] yields [user] for a request: the
    user of its token, or nobody, and the line that logs the user does not
    throw. *)
Definition identified (v : Variant) (event : Api.Event) (cfg : Config) (w : World)
    (user : option Api.User) : Prop :=
  identify_of v event cfg w = (Ok user, w).

(** The [catch] block of the API handler. *)
Definition answer_500 (err : Error) : M Api.Response :=
  ret (Api.res 500 (Api.server_error err) []).

(** Every value a computation returns satisfies [Q]. *)
Definition returns {A} (Q : A -> Prop) (m : M A) : Prop :=
  forall w a w', m w = (Ok a, w') -> Q a.

(** The status codes the API function answers with. *)
Definition status_codes : list Z := [200; 201; 204; 400; 404; 422; 500]%Z.

(** A response carries the CORS headers, then at most the advisory
    [X-User-ID] header, and one of the status codes above. *)
Definition regular_response (r : Api.Response) : Prop :=
  Api.statusCode r ∈ status_codes
  /\ exists extra, Api.headers r = Api.cors ++ extra
                   /\ (extra = [] \/ exists uid, extra = [("X-User-ID"%string, uid)]).

(** The world in which a request has been sent to the store. *)
Definition ddb_sent (c : DdbCommand) (w : World) : World :=
  advance (with_ddb (ddb_log w ++ [c]) (tail (ddb_faults w)) w).

(** The configuration names the table. *)
Definition names_table (cfg : Config) : Prop :=
  exists t q, cfg !! str "dynamo-db-table-name" = Some (t :: q).

(** A request for one task: [GET] or [DELETE] on [/tasks/{id}]. *)
Definition on_task (event : Api.Event) (method : string) : Prop :=
  Api.is_method event method = true /\ Api.is_resource event "/tasks/{id}" = true.

(** The [id] path parameter is missing or empty. *)
Definition no_task_id (event : Api.Event) : Prop :=
  Api.param (Api.pathParameters event) "id" = None
  \/ Api.param (Api.pathParameters event) "id" = Some [].

(** Nothing was written between two worlds: the table is the same, no
    write command was sent to the store and nothing was sent to the queue. *)
Definition read_only (w w' : World) : Prop :=
  table w' = table w /\ writes w' = writes w /\ sqs_log w' = sqs_log w.

(** A List request: [GET] on a path that ends in [/tasks], the resource
    not being [/tasks/{id}]. *)
Definition lists_tasks (event : Api.Event) : Prop :=
  Api.is_method event "GET" = true
  /\ Api.path_endsWith event "/tasks" = true
  /\ Api.is_resource event "/tasks/{id}" = false.

(** A Create request: [POST] on a path that ends in [/tasks]. *)
Definition creates_task (event : Api.Event) : Prop :=
  Api.is_method event "POST" = true /\ Api.path_endsWith event "/tasks" = true.

(** The attributes a List response shows of a task. *)
Definition listed : list string := ["id"; "topic"; "status"; "createdAt"; "updatedAt"]%string.

(** The failure of a conditional write whose condition does not hold. *)
Definition condition_failed : Error :=
  Ddb.exception "ConditionalCheckFailedException" "The conditional request failed".

(** The parameters of the pages of a round, in order. *)
Definition parameters_of (pages : list (list SsmParameter)) : list SsmParameter :=
  concat pages.

(** A round of the parameter store in which every page arrives. *)
Definition round_of (pages : list (list SsmParameter)) : list SsmPage :=
  List.map PageOk pages.

(** A memoized configuration of the worker has the required parameters. *)
Definition cache_valid (w : World) : Prop :=
  forall cached t, worker_cache w = Some (cached, t) ->
    forall k, k ∈ Worker.required -> Worker.is_set cached k = true.

(** ** Identity *)

(** The claims of a token's payload are those the identity extractor
    asks for, at the time [ms] in milliseconds: an expiry that is set, has a
    numeric value and is not before the current second, the issuer of the
    configured pool, the configured client as audience, and the use [id]. *)
Definition claims_match (cfg : Config) (payload : json) (ms : Z) : Prop :=
  exists pool client exp n,
    cfg !! str "cognito-user-pool-id" = Some pool /\ pool <> []
    /\ cfg !! str "cognito-client-id" = Some client /\ client <> []
    /\ Json.prop payload "exp" = Some exp
    /\ truthy (Some exp) = true
    /\ to_Number exp = Some n
    /\ Num.lt n (Num.of_Z (ms / 1000)) = false
    /\ Json.prop payload "iss" = Some (JStr (Api.issuer pool))
    /\ Json.prop payload "aud" = Some (JStr client)
    /\ Json.prop payload "token_use" = Some (JStr (str "id")).

(** The identity record made from a payload. *)
Definition user_of (payload : json) : Api.User :=
  Api.mkUser (Json.prop payload "sub") (Json.prop payload "email")
    (Json.prop payload "cognito:username") (Json.prop payload "cognito:user_status") payload.

(** The bearer token of a request, if it has one. *)
Definition bearer_token (event : Api.Event) (token : jsstring) : Prop :=
  exists a h, Api.authorization_header event = Some (a :: h)
              /\ Api.strip_bearer (a :: h) = token /\ token <> [].

(** The URL-safe rendering of a base64 character: [-] for [+] and [_] for
    [/]. *)
Definition url_safe (u : N) : N :=
  if (u =? 43)%N then 45%N else if (u =? 47)%N then 95%N else u.

(** A token with the given three segments. *)
Definition jwt (header payload signature : jsstring) : jsstring :=
  header ++ 46%N :: payload ++ 46%N :: signature.

(** A segment of a token has no dot. *)
Definition dotless (s : jsstring) : Prop := Forall (fun u => u <> 46%N) s.

(** ** The worker *)

(** The world in which a request has been sent to the generation
    backend. *)
Definition fetch_sent (req : FetchRequest) (w : World) : World :=
  advance (with_fetch (fetch_log w ++ [req]) (tail (fetches w)) w).

(** The request the worker sends to the generation backend for a topic. *)
Definition prompt_request (cfg : Config) (topic : json) : FetchRequest :=
  mkFetchRequest Worker.openai_url
    (str "Bearer " ++ default [] (cfg !! str "openai-api-key"))
    (Json.stringify
       (JObj [(str "prompt",
               JObj [(str "id", JStr (default [] (cfg !! str "openai-prompt-id")));
                     (str "variables", JObj [(str "topic", topic)])])])).

(** The notices the worker sends for a finished task, given the texts
    of its [id] and of its topic: one when the notification channel is
    configured, none otherwise. *)
Definition notices (cfg : Config) (id topic : jsstring) : list SnsMessage :=
  match cfg !! str "sns-topic-arn" with
  | Some (u :: arn) => [mkSnsMessage (u :: arn) Worker.notice_subject (Worker.notice_message topic id)]
  | _ => []
  end.

(** The text of a value can be written: [String(v)] does not throw. *)
Definition printable (v : json) : Prop := is_Some (to_String v).

(** The message of a record names a task and a topic. *)
Definition names_task (rec : Worker.SqsRecord) (k : jsstring) (topic : json) : Prop :=
  exists msg,
    Json.parse (Worker.body rec) = Some msg
    /\ Json.opt_prop (Some msg) "id" = Some (JStr k) /\ k <> []
    /\ Json.opt_prop (Some msg) "topic" = Some topic /\ truthy (Some topic) = true.

(** The backend answers the next request with success and a body from
    which [extractMarkdown] gets the text [md]. *)
Definition backend_answers (w : World) (md : jsstring) : Prop :=
  exists status text rest data,
    fetches w = FetchResponse status text :: rest
    /\ (200 <= status <= 299)%Z
    /\ Json.parse text = Some data
    /\ forall w0, Worker.extractMarkdown data w0 = (Ok md, w0).

(** The attributes the worker writes. *)
Definition worker_attributes : list string :=
  ["status"; "researchMd"; "error"; "updatedAt"]%string.

(** The item an update works on: the stored one, or a new one that has
    the key only. *)
Definition item_before (w : World) (k : jsstring) : Item :=
  default {[ "id"%string := AttrS k ]} (table w !! k).

(** The generation backend fails the next request with [err]: the request
    itself fails, or the answer is not a success, or it is a success from
    whose body [extractMarkdown] gets no text. *)
Definition backend_fails (w : World) (err : Error) : Prop :=
  (exists rest, fetches w = FetchFailed err :: rest)
  \/ (exists status text rest,
        fetches w = FetchResponse status text :: rest
        /\ ~ (200 <= status <= 299)%Z
        /\ err = new_Error (str "OpenAI " ++ JsString.of_Z status ++ str ": " ++ text))
  \/ (exists status text rest data,
        fetches w = FetchResponse status text :: rest
        /\ (200 <= status <= 299)%Z
        /\ Json.parse text = Some data
        /\ (forall w0, Worker.extractMarkdown data w0 = (Ok [], w0))
        /\ err = new_Error (str "Empty OpenAI response")).

(** A store request that is an update. *)
Definition is_update (c : DdbCommand) : Prop :=
  match c with
  | UpdateCommand _ _ _ => True
  | _ => False
  end.

(** Neither the store nor the queue was called between two worlds. *)
Definition store_and_queue_idle (w w' : World) : Prop :=
  table w' = table w /\ ddb_log w' = ddb_log w /\ sqs_log w' = sqs_log w.

(** What the worker may do to the store and the queue: send updates to
    the store, keep every stored task with all the attributes it does not
    write, and send nothing to the queue. *)
Definition worker_step (w w' : World) : Prop :=
  (exists l, ddb_log w' = ddb_log w ++ l /\ Forall is_update l)
  /\ sqs_log w' = sqs_log w
  /\ forall id item, table w !! id = Some item ->
       exists item', table w' !! id = Some item'
                     /\ forall name, name ∉ worker_attributes -> item' !! name = item !! name.

(** The shape of an answer of the Responses API, as the comment of
    [extractMarkdown] gives it:
    [{ output: [{ content: [{ type: 'output_text', text: '...' }, ...] }, ...] }]. *)
Definition text_part (t : jsstring) : json :=
  JObj [(str "type", JStr (str "output_text")); (str "text", JStr t)].

Definition block_of (texts : list jsstring) : json :=
  JObj [(str "content", JArr (List.map text_part texts))].

Definition response_of (blocks : list (list jsstring)) : json :=
  JObj [(str "output", JArr (List.map block_of blocks))].

(** What the API function may do outside the table and the queue: it asks
    of the store no update, and calls neither the generation backend nor the
    notification channel. *)
Definition api_step (w w' : World) : Prop :=
  sns_log w' = sns_log w
  /\ fetch_log w' = fetch_log w
  /\ exists l, ddb_log w' = ddb_log w ++ l /\ Forall (fun c => ~ is_update c) l.

(** ** More requests and runtimes *)

Module Cases.

(** A request for the task of the scenario. *)
Definition task_request (method : string) : Api.Event :=
  Api.mkEvent (str method) (Some (str "/prod/tasks/" ++ Scenario.task_id))
    (Some (str "/tasks/{id}")) None (Some [(str "id", Scenario.task_id)]) None None.

(** A request for a task that names none. *)
Definition anonymous_request (method : string) : Api.Event :=
  Api.mkEvent (str method) (Some (str "/prod/tasks/")) (Some (str "/tasks/{id}"))
    None None None None.

(** A method the API function has no route for. *)
Definition put_tasks : Api.Event := Scenario.request "PUT" "/prod/tasks" "/tasks" None None.

(** A Create request whose body is not JSON. *)
Definition broken_create : Api.Event :=
  Api.mkEvent (str "POST") (Some (str "/prod/tasks")) (Some (str "/tasks")) None None None
    (Some (str "{topic")).

(** A List request whose cursor is not base64 of anything. *)
Definition bad_cursor : Api.Event :=
  Scenario.request "GET" "/prod/tasks" "/tasks" (Some [(str "cursor", str "!!!!")]) None.

(** The parameter store has no table name. *)
Definition no_table : World :=
  with_ssm [[PageOk [Scenario.parameter "sqs-queue-url" "https://sqs.eu-central-1.amazonaws.com/1/tasks"]]]
    Scenario.fresh.

(** The parameter store is down. *)
Definition ssm_down : World := with_ssm [[PageFailed Scenario.unavailable]] Scenario.fresh.

(** The parameter store delivers its parameters in two pages. *)
Definition pages : list (list SsmParameter) :=
  [take 3 Scenario.parameters; drop 3 Scenario.parameters].

Definition paged : World := with_ssm [round_of pages] Scenario.fresh.

(** The task is in the store and [randomUUID] draws its identifier
    again. *)
Definition collision : World := Scenario.world (Scenario.stored "DONE") [] [] [].

(** The segments of the token of the scenario, and the text of its
    payload. *)
Definition token_header : jsstring := str "eyJhbGciOiJSUzI1NiIsInR5cCI6IkpXVCJ9".

Definition token_payload : jsstring :=
  str "eyJzdWIiOiJ1c2VyLTEiLCJleHAiOjE3MDAwMDAwMDAsImlzcyI6Imh0dHBzOi8vY29nbml0by1pZHAuZXUtY2VudHJhbC0xLmFtYXpvbmF3cy5jb20vZXUtY2VudHJhbC0xX0FiQ2RFZiIsImF1ZCI6ImNsaWVudC0xIiwidG9rZW5fdXNlIjoiaWQifQ".

Definition token_signature : jsstring := str "c2ln".

Definition payload_text : jsstring := Buffer.to_utf8 (Buffer.from_base64 token_payload).

(** A token that nobody signed, whose subject is an object with a member
    [toString]: its payload is
    [{sub: {toString: 1}, exp: 1700000000, iss: <the pool's issuer>,
      aud: "client-1", token_use: "id"}]. *)
Definition crafted_token : jsstring :=
  str "e30.eyJzdWIiOnsidG9TdHJpbmciOjF9LCJleHAiOjE3MDAwMDAwMDAsImlzcyI6Imh0dHBzOi8vY29nbml0by1pZHAuZXUtY2VudHJhbC0xLmFtYXpvbmF3cy5jb20vZXUtY2VudHJhbC0xX0FiQ2RFZiIsImF1ZCI6ImNsaWVudC0xIiwidG9rZW5fdXNlIjoiaWQifQ.".

(** A request with the given value of its [Authorization] header. *)
Definition with_authorization (value : jsstring) (event : Api.Event) : Api.Event :=
  Api.mkEvent (Api.httpMethod event) (Api.path event) (Api.resource event)
    (Api.queryStringParameters event) (Api.pathParameters event)
    (Some [(str "Authorization", value)]) (Api.event_body event).

(** A second task, and the work item that names it. *)
Definition second_id : jsstring := str "0b5f6c1e-7d0a-4c55-9a39-2f1d3a1b0002".

Definition second_work : json :=
  Api.sqsPayload second_id (str "Chlorophyll") Scenario.created.

(** Nothing is stored yet and the backend answers. *)
Definition ready : World := Scenario.world ∅ [] [] [Scenario.notes].

(** The claims of the token of the scenario. *)
Definition claims : json :=
  JObj [(str "sub", JStr (str "user-1"));
        (str "exp", JNum (Num.of_Z 1700000000));
        (str "iss", JStr (str "https://cognito-idp.eu-central-1.amazonaws.com/eu-central-1_AbCdEf"));
        (str "aud", JStr (str "client-1"));
        (str "token_use", JStr (str "id"))].

End Cases.

(* ===================================================================== *)
(** * Proofs *)
(* ===================================================================== *)
(* ===================================================================== *)
(** * Reasoning about computations *)
(* ===================================================================== *)

Section Computations.
Context {A B : Type}.

Lemma bind_ok (m : M A) (k : A -> M B) w a w' :
  m w = (Ok a, w') -> bind m k w = k a w'.
Proof. intros H. unfold bind. now rewrite H. Qed.

Lemma bind_throw (m : M A) (k : A -> M B) w e w' :
  m w = (Throw e, w') -> bind m k w = (Throw e, w').
Proof. intros H. unfold bind. now rewrite H. Qed.

Lemma try_ok (m : M A) (h : Error -> M A) w a w' :
  m w = (Ok a, w') -> try_catch m h w = (Ok a, w').
Proof. intros H. unfold try_catch. now rewrite H. Qed.

Lemma try_throw (m : M A) (h : Error -> M A) w e w' :
  m w = (Throw e, w') -> try_catch m h w = h e w'.
Proof. intros H. unfold try_catch. now rewrite H. Qed.

End Computations.


Section Respects.
Variable P : World -> World -> Prop.
Hypothesis P_refl : forall w, P w w.
Hypothesis P_trans : forall w1 w2 w3, P w1 w2 -> P w2 w3 -> P w1 w3.

Lemma respects_ret {A} (a : A) : respects P (ret a).
Proof using P_refl. intros w r w' H. inversion H; subst. apply P_refl. Qed.

Lemma respects_throw {A} e : respects P (@throw A e).
Proof using P_refl. intros w r w' H. inversion H; subst. apply P_refl. Qed.

Lemma respects_bind {A B} (m : M A) (k : A -> M B) :
  respects P m -> (forall a, respects P (k a)) -> respects P (bind m k).
Proof using P_trans.
  intros Hm Hk w r w' H. unfold bind in H.
  destruct (m w) as [[a|e] w1] eqn:E.
  - eapply P_trans; [eapply Hm; eauto | eapply Hk; eauto].
  - inversion H; subst. eapply Hm; eauto.
Qed.

Lemma respects_try {A} (m : M A) (h : Error -> M A) :
  respects P m -> (forall e, respects P (h e)) -> respects P (try_catch m h).
Proof using P_trans.
  intros Hm Hh w r w' H. unfold try_catch in H.
  destruct (m w) as [[a|e] w1] eqn:E.
  - inversion H; subst. eapply Hm; eauto.
  - eapply P_trans; [eapply Hm; eauto | eapply Hh; eauto].
Qed.

Lemma respects_pure {A} (f : World -> Result A) : respects P (fun w => (f w, w)).
Proof using P_refl. intros w r w' H. inversion H; subst. apply P_refl. Qed.

Lemma respects_Date_now : respects P Date_now.
Proof using P_refl. apply (respects_pure (fun w => Ok (now w))). Qed.

Lemma respects_now_ISO : respects P now_ISO.
Proof using P_refl P_trans.
  apply respects_bind; [apply respects_Date_now|].
  intros t. apply respects_ret.
Qed.

Lemma respects_JSON_parse s : respects P (JSON_parse s).
Proof using P_refl.
  intros w r w' H. unfold JSON_parse in H.
  destruct (Json.parse s); inversion H; subst; apply P_refl.
Qed.

Lemma respects_TypeError {A} what : respects P (@throw_TypeError A what).
Proof using P_refl. intros w r w' H. inversion H; subst. apply P_refl. Qed.

Lemma respects_member v name : respects P (member v name).
Proof using P_refl.
  destruct v; simpl; try apply respects_ret. apply respects_TypeError.
Qed.

Lemma respects_interpolate v : respects P (interpolate v).
Proof using P_refl.
  unfold interpolate. destruct v as [x|]; [|apply respects_ret].
  destruct (to_String x); [apply respects_ret | apply respects_TypeError].
Qed.

Lemma respects_numeric v : respects P (numeric v).
Proof using P_refl.
  unfold numeric. destruct (to_Number v); [apply respects_ret | apply respects_TypeError].
Qed.

End Respects.

(* ===================================================================== *)
(** * What the parts of the API function leave alone *)
(* ===================================================================== *)


Lemma quiet_refl w : quiet w w.
Proof. now constructor. Qed.

Lemma quiet_trans w1 w2 w3 : quiet w1 w2 -> quiet w2 w3 -> quiet w1 w3.
Proof. intros [] []. constructor; congruence. Qed.

Lemma quiet_advance w : quiet w (advance w).
Proof. unfold advance. destruct (clock w); now constructor. Qed.

Lemma respects_quiet_getParametersByPath : respects quiet Ssm.getParametersByPath.
Proof.
  intros w r w' H. unfold Ssm.getParametersByPath in H.
  destruct (ssm w) eqn:E; inversion H; subst; clear H.
  - apply quiet_advance.
  - eapply quiet_trans; [|apply quiet_advance]. now constructor.
Qed.

Lemma respects_quiet_loadConfig : respects quiet Api.loadConfig.
Proof.
  unfold Api.loadConfig.
  apply (respects_bind quiet quiet_trans); [apply (respects_Date_now quiet quiet_refl)|].
  intros t w r w' H.
  assert (Hfetch : respects quiet
            (let* params := Ssm.getParametersByPath in
             fun w' => (Ok params, with_api_cache (Some (params, t)) w'))).
  { apply (respects_bind quiet quiet_trans); [apply respects_quiet_getParametersByPath|].
    intros a w1 r1 w1' H1. inversion H1; subst. now constructor. }
  destruct (api_cache w) as [[cached cachedAt]|].
  - destruct (Num.lt _ _).
    + inversion H; subst. apply quiet_refl.
    + eapply Hfetch; eauto.
  - eapply Hfetch; eauto.
Qed.

(* ===================================================================== *)
(** * Strings *)
(* ===================================================================== *)

Lemma trimStart_spaces s :
  Forall (fun u => JsString.is_space u = true) s -> JsString.trimStart s = [].
Proof.
  induction 1 as [|u r Hu _ IH]; simpl; [reflexivity|]. now rewrite Hu.
Qed.

Lemma trim_spaces s :
  Forall (fun u => JsString.is_space u = true) s -> JsString.trim s = [].
Proof.
  intros H. unfold JsString.trim, JsString.trimEnd.
  now rewrite (trimStart_spaces s H).
Qed.

Lemma is_method_eq event m : Api.is_method event m = true -> Api.httpMethod event = str m.
Proof. unfold Api.is_method, jsstring_eqb. intros H. now apply bool_decide_eq_true in H. Qed.

Lemma post_is_not_options event :
  Api.is_method event "POST" = true -> Api.is_method event "OPTIONS" = false.
Proof.
  intros H. apply is_method_eq in H. unfold Api.is_method. rewrite H. reflexivity.
Qed.

(* ===================================================================== *)
(** * Create: validation *)
(* ===================================================================== *)


Lemma post_tasks_blank user queueUrl event body w :
  Api.request_body event = Some body ->
  blank_topic body ->
  Api.post_tasks user queueUrl event w
  = (Ok (Api.res 422 (Api.message_body "Field 'topic' is required") []), w).
Proof.
  intros Hb Ht. unfold Api.post_tasks. rewrite Hb.
  destruct Ht as [Ht | (s & Ht & Hs)]; rewrite Ht.
  - reflexivity.
  - unfold js_or. destruct s as [|u r].
    + reflexivity.
    + cbn [truthy truthy_string]. now rewrite (trim_spaces _ Hs).
Qed.

Lemma dispatch_post user cfg event t q :
  cfg !! str "dynamo-db-table-name" = Some (t :: q) ->
  Api.is_method event "POST" = true ->
  Api.path_endsWith event "/tasks" = true ->
  Api.dispatch user cfg event = Api.post_tasks user (cfg !! str "sqs-queue-url") event.
Proof.
  intros Ht Hm Hp. unfold Api.dispatch. now rewrite Ht, Hm, Hp.
Qed.


(** Looking for the user changes nothing and never fails. *)
Lemma untouched_refl w : untouched w w.
Proof. reflexivity. Qed.

Lemma untouched_trans w1 w2 w3 : untouched w1 w2 -> untouched w2 w3 -> untouched w1 w3.
Proof. unfold untouched. congruence. Qed.

Ltac pure_step :=
  first
    [ apply (respects_bind untouched untouched_trans); [|intros ?]
    | apply (respects_try untouched untouched_trans); [|intros ?]
    | apply (respects_ret untouched untouched_refl)
    | apply (respects_throw untouched untouched_refl)
    | apply (respects_JSON_parse untouched untouched_refl)
    | apply (respects_member untouched untouched_refl)
    | apply (respects_interpolate untouched untouched_refl)
    | apply (respects_numeric untouched untouched_refl)
    | apply (respects_Date_now untouched untouched_refl) ].

Lemma respects_untouched_parseJWT token : respects untouched (Api.parseJWT token).
Proof.
  unfold Api.parseJWT. pure_step; [|pure_step].
  destruct (JsString.split 46 token) as [|a [|b [|c [|d l]]]]; pure_step.
Qed.

Lemma respects_untouched_isTokenExpired payload : respects untouched (Api.isTokenExpired payload).
Proof.
  unfold Api.isTokenExpired. pure_step; [pure_step|].
  destruct a as [e|]; [|pure_step].
  destruct (negb _); repeat pure_step.
Qed.

Lemma getAuthenticatedUser_pure event cfg w :
  exists user, Api.getAuthenticatedUser event cfg w = (Ok user, w).
Proof.
  unfold Api.getAuthenticatedUser.
  destruct (cfg !! str "cognito-user-pool-id") as [[|u p]|]; try (eexists; reflexivity).
  destruct (cfg !! str "cognito-client-id") as [[|c l]|]; try (eexists; reflexivity).
  destruct (Api.authorization_header event) as [[|a h]|]; try (eexists; reflexivity).
  destruct (Api.strip_bearer (a :: h)) as [|n token] eqn:Es; [eexists; reflexivity|].
  match goal with |- context [try_catch ?m ?h w] => assert (Hm : respects untouched m) end.
  { pure_step; [apply respects_untouched_parseJWT|].
    pure_step; [apply respects_untouched_isTokenExpired|].
    destruct a1; [pure_step|].
    repeat (pure_step; try match goal with |- context [if ?b then _ else _] => destruct b end). }
  unfold try_catch.
  match goal with |- context [match ?m w with _ => _ end] =>
    destruct (m w) as [[r|e] w'] eqn:E end;
    rewrite (Hm _ _ _ E); eexists; reflexivity.
Qed.

Lemma handler_with_created identify event w cfg w1 user :
  Api.is_method event "OPTIONS" = false ->
  Api.loadConfig w = (Ok cfg, w1) ->
  identify event cfg w1 = (Ok user, w1) ->
  Api.handler_with identify event w
  = try_catch (Api.dispatch user cfg event)
      (fun err => ret (Api.res 500 (Api.server_error err) [])) w1.
Proof.
  intros Ho Hc Hu. unfold Api.handler_with, try_catch. rewrite Ho.
  rewrite (bind_ok _ _ _ _ _ Hc), (bind_ok _ _ _ _ _ Hu). reflexivity.
Qed.

(** The identity step changes nothing. *)
Lemma identify_pure event cfg w : exists r, Api.identify event cfg w = (r, w).
Proof.
  unfold Api.identify, bind.
  destruct (getAuthenticatedUser_pure event cfg w) as [user ->].
  destruct user as [u|]; [|eexists; reflexivity].
  unfold interpolate. destruct (Api.user_id u) as [x|]; [|eexists; reflexivity].
  destruct (to_String x); eexists; reflexivity.
Qed.

Lemma respects_identify (P : World -> World -> Prop) event cfg :
  (forall w, P w w) -> respects P (Api.identify event cfg).
Proof.
  intros Hrefl w r w' H. destruct (identify_pure event cfg w) as [u Hu].
  rewrite Hu in H. inversion H; subst. apply Hrefl.
Qed.

(** It yields the user that [getAuthenticatedUser] found, unless the
    subject of that user has no text. *)
Lemma identify_outcome event cfg w :
  match Api.getAuthenticatedUser event cfg w with
  | (Ok (Some u), _) =>
      match Api.user_id u with
      | Some x =>
          match to_String x with
          | Some _ => Api.identify event cfg w = (Ok (Some u), w)
          | None =>
              Api.identify event cfg w
              = (Throw (mkError (str "TypeError")
                          (typeErrorMessage (platform w)
                             "Cannot convert object to primitive value")), w)
          end
      | None => Api.identify event cfg w = (Ok (Some u), w)
      end
  | _ => Api.identify event cfg w = (Ok None, w)
  end.
Proof.
  unfold Api.identify, bind.
  destruct (getAuthenticatedUser_pure event cfg w) as [user ->].
  destruct user as [u|]; [|reflexivity].
  unfold interpolate. destruct (Api.user_id u) as [x|]; [|reflexivity].
  destruct (to_String x); reflexivity.
Qed.

Lemma handler_with_failed identify event w cfg w1 e :
  Api.is_method event "OPTIONS" = false ->
  Api.loadConfig w = (Ok cfg, w1) ->
  identify event cfg w1 = (Throw e, w1) ->
  Api.handler_with identify event w = (Ok (Api.res 500 (Api.server_error e) []), w1).
Proof.
  intros Ho Hc Hu. unfold Api.handler_with, try_catch. rewrite Ho.
  rewrite (bind_ok _ _ _ _ _ Hc), (bind_throw _ _ _ _ _ Hu). reflexivity.
Qed.

(** C5.  A Create request whose topic is absent, empty or white space
    only is answered with 422 and the message that the field is required, and
    nothing is written to the store or sent to the queue: the only service
    called is the parameter store.  This is the handler of
    [src/api-function/index.js].  The handler of [src/unnamed/part_000] first
    writes the user to its log: it answers the same when that line succeeds,
    and 500 with the error of that line when it throws; in either case it
    calls no service but the parameter store. *)
Theorem create_blank_topic_rejected event w cfg w1 tableName body :
  Api.is_method event "POST" = true ->
  Api.path_endsWith event "/tasks" = true ->
  Api.loadConfig w = (Ok cfg, w1) ->
  cfg !! str "dynamo-db-table-name" = Some tableName ->
  tableName <> [] ->
  Api.request_body event = Some body ->
  blank_topic body ->
  let rejected := Api.res 422 (Api.message_body "Field 'topic' is required") [] in
  ApiFunction.handler event w = (Ok rejected, w1)
  /\ AuthApiFunction.handler event w
     = (Ok match fst (Api.identify event cfg w1) with
           | Ok _ => rejected
           | Throw e => Api.res 500 (Api.server_error e) []
           end, w1)
  /\ Api.statusCode rejected = 422%Z
  /\ table w1 = table w /\ ddb_log w1 = ddb_log w /\ sqs_log w1 = sqs_log w.
Proof.
  intros Hm Hp Hc Ht Hne Hb Hblank rejected.
  destruct tableName as [|t q]; [congruence|].
  pose proof (respects_quiet_loadConfig _ _ _ Hc) as Hq.
  assert (Hroute : forall user,
             try_catch (Api.dispatch user cfg event)
               (fun err => ret (Api.res 500 (Api.server_error err) [])) w1
             = (Ok rejected, w1)).
  { intros user. apply try_ok.
    rewrite (dispatch_post _ _ _ _ _ Ht Hm Hp).
    now apply post_tasks_blank with (body := body). }
  repeat split.
  - unfold ApiFunction.handler.
    rewrite (handler_with_created _ _ _ cfg w1 None); auto using post_is_not_options.
  - unfold AuthApiFunction.handler.
    destruct (identify_pure event cfg w1) as [[user|e] Hu]; rewrite Hu; cbn [fst].
    + rewrite (handler_with_created _ _ _ cfg w1 user); auto using post_is_not_options.
    + apply (handler_with_failed _ _ _ cfg); auto using post_is_not_options.
  - apply Hq.
  - apply Hq.
  - apply Hq.
Qed.

(* ===================================================================== *)
(** * Create: the write and the publication *)
(* ===================================================================== *)





Lemma table_advance w : table (advance w) = table w.
Proof. unfold advance. now destruct (clock w). Qed.

Lemma sqs_log_advance w : sqs_log (advance w) = sqs_log w.
Proof. unfold advance. now destruct (clock w). Qed.

Lemma ddb_log_advance w : ddb_log (advance w) = ddb_log w.
Proof. unfold advance. now destruct (clock w). Qed.

Lemma sqs_faults_advance w : sqs_faults (advance w) = sqs_faults w.
Proof. unfold advance. now destruct (clock w). Qed.

Lemma put_fresh item u k w :
  item !! "id"%string = Some (AttrS (u :: k)) ->
  next_fault (ddb_faults w) = None ->
  table w !! (u :: k) = None ->
  Ddb.put item true w = (Ok tt, with_table (<[u :: k := item]> (table w)) (put_sent item w)).
Proof.
  intros Hid Hf Hnone. unfold Ddb.put, bind, Ddb.send. rewrite Hf, Hid.
  fold (put_sent item w).
  replace (table (put_sent item w)) with (table w)
    by (unfold put_sent; now rewrite table_advance).
  rewrite Hnone. rewrite bool_decide_eq_false_2 by (intros [x Hx]; discriminate).
  reflexivity.
Qed.

Lemma put_fault item e w :
  next_fault (ddb_faults w) = Some e ->
  Ddb.put item true w = (Throw e, put_sent item w).
Proof. intros Hf. unfold Ddb.put, bind, Ddb.send. now rewrite Hf. Qed.

Lemma sqs_send_ok msg w :
  next_fault (sqs_faults w) = None -> Sqs.send msg w = (Ok tt, sqs_sent msg w).
Proof. intros Hf. unfold Sqs.send. now rewrite Hf. Qed.

Lemma sqs_send_fault msg e w :
  next_fault (sqs_faults w) = Some e -> Sqs.send msg w = (Throw e, sqs_sent msg w).
Proof. intros Hf. unfold Sqs.send. now rewrite Hf. Qed.

Lemma new_item_id id topic now : Api.new_item id topic now !! "id"%string = Some (AttrS id).
Proof. unfold Api.new_item. now simplify_map_eq. Qed.

(** What [POST /tasks] does with a valid topic, step by step. *)
Lemma post_tasks_valid user queueUrl event body topic w :
  Api.request_body event = Some body ->
  valid_topic body topic ->
  Api.post_tasks user queueUrl event w
  = let id := uuid w in
    let now := Date.toISOString (now w) in
    match Ddb.put (Api.new_item id topic now) true (drawn w) with
    | (Ok _, w2) =>
        match queueUrl with
        | Some (u :: q) =>
            match Sqs.send (work_item (u :: q) id topic now) w2 with
            | (Ok _, w3) => (Ok (Api.res 201 (Api.created_body id topic now) (Api.user_headers user)), w3)
            | (Throw e, w3) => (Throw e, w3)
            end
        | _ => (Ok (Api.res 201 (Api.created_body id topic now) (Api.user_headers user)), w2)
        end
    | (Throw e, w2) => (Throw e, w2)
    end.
Proof.
  intros Hb (s & Hs & Ht & Hne). unfold Api.post_tasks. rewrite Hb, Hs.
  assert (Hor : js_or (Some (JStr s)) (Some (JStr [])) = Some (JStr s)).
  { unfold js_or. destruct s; [|reflexivity]. reflexivity. }
  rewrite Hor, Ht. destruct topic as [|c t]; [congruence|].
  cbn [truthy_string negb].
  unfold bind at 1. unfold randomUUID.
  unfold bind at 1. unfold now_ISO, bind at 1, Date_now.
  assert (Hn : now (drawn w) = now w) by (unfold drawn; now destruct (uuids w)).
  unfold ret at 1. rewrite Hn. cbv zeta.
  unfold bind at 1.
  destruct (Ddb.put _ true (drawn w)) as [[[]|e] w2]; [|reflexivity].
  unfold bind at 1.
  destruct queueUrl as [[|u q]|]; reflexivity.
Qed.

Lemma statusCode_res code data hs : Api.statusCode (Api.res code data hs) = code.
Proof. reflexivity. Qed.

Lemma table_put_sent item w : table (put_sent item w) = table w.
Proof. unfold put_sent. now rewrite table_advance. Qed.

Lemma table_sqs_sent msg w : table (sqs_sent msg w) = table w.
Proof. unfold sqs_sent. now rewrite table_advance. Qed.

Lemma sqs_log_sqs_sent msg w : sqs_log (sqs_sent msg w) = sqs_log w ++ [msg].
Proof. unfold sqs_sent. now rewrite sqs_log_advance. Qed.

Lemma sqs_log_put_sent item w : sqs_log (put_sent item w) = sqs_log w.
Proof. unfold put_sent. now rewrite sqs_log_advance. Qed.

Lemma sqs_faults_put_sent item w : sqs_faults (put_sent item w) = sqs_faults w.
Proof. unfold put_sent. now rewrite sqs_faults_advance. Qed.

Lemma drawn_fields w :
  table (drawn w) = table w /\ ddb_faults (drawn w) = ddb_faults w
  /\ ddb_log (drawn w) = ddb_log w /\ sqs_log (drawn w) = sqs_log w
  /\ sqs_faults (drawn w) = sqs_faults w.
Proof. unfold drawn. now destruct (uuids w). Qed.

(** The world in which Create has stored its task. *)
Lemma create_stored_fields item id w :
  let w2 := with_table (<[id := item]> (table (drawn w))) (put_sent item (drawn w)) in
  table w2 !! id = Some item /\ sqs_log w2 = sqs_log w /\ sqs_faults w2 = sqs_faults w.
Proof.
  destruct (drawn_fields w) as (_ & _ & _ & Hl & Hf).
  cbv zeta. repeat split.
  - simpl table. apply lookup_insert_eq.
  - change (sqs_log (put_sent item (drawn w)) = sqs_log w).
    now rewrite sqs_log_put_sent.
  - change (sqs_faults (put_sent item (drawn w)) = sqs_faults w).
    now rewrite sqs_faults_put_sent.
Qed.

(** Create with a valid topic whose conditional write succeeds: what the
    handler answers, by what the queue does. *)
Lemma create_outcome identify user event w cfg w1 t q body topic :
  Api.is_method event "POST" = true ->
  Api.path_endsWith event "/tasks" = true ->
  Api.loadConfig w = (Ok cfg, w1) ->
  identify event cfg w1 = (Ok user, w1) ->
  cfg !! str "dynamo-db-table-name" = Some (t :: q) ->
  Api.request_body event = Some body ->
  valid_topic body topic ->
  next_fault (ddb_faults w1) = None ->
  uuid w1 <> [] ->
  table w1 !! uuid w1 = None ->
  let id := uuid w1 in
  let now := Date.toISOString (now w1) in
  let item := Api.new_item id topic now in
  let w2 := with_table (<[id := item]> (table (drawn w1))) (put_sent item (drawn w1)) in
  let created := Api.res 201 (Api.created_body id topic now) (Api.user_headers user) in
  Api.handler_with identify event w
  = match cfg !! str "sqs-queue-url" with
    | Some (u :: url) =>
        match next_fault (sqs_faults w1) with
        | None => (Ok created, sqs_sent (work_item (u :: url) id topic now) w2)
        | Some e => (Ok (Api.res 500 (Api.server_error e) []),
                     sqs_sent (work_item (u :: url) id topic now) w2)
        end
    | _ => (Ok created, w2)
    end.
Proof.
  intros Hm Hp Hc Hu Ht Hb Hv Hf Hid Hfree. cbv zeta.
  rewrite (handler_with_created identify event w cfg w1 user);
    auto using post_is_not_options.
  rewrite (dispatch_post _ _ _ _ _ Ht Hm Hp).
  unfold try_catch. rewrite (post_tasks_valid _ _ _ _ _ _ Hb Hv). cbv zeta.
  destruct (drawn_fields w1) as (Htab & Hfl & _ & _ & Hsf).
  destruct (uuid w1) as [|c k] eqn:Eid; [congruence|].
  rewrite (put_fresh _ c k); [| apply new_item_id | now rewrite Hfl | now rewrite Htab].
  destruct (cfg !! str "sqs-queue-url") as [[|u url]|]; try reflexivity.
  match goal with |- context [Sqs.send ?m ?w] => set (msg := m); set (w2 := w) end.
  assert (Hs2 : sqs_faults w2 = sqs_faults w1).
  { unfold w2. change (sqs_faults (put_sent (Api.new_item (c :: k) topic
        (Date.toISOString (now w1))) (drawn w1)) = sqs_faults w1).
    now rewrite sqs_faults_put_sent. }
  destruct (next_fault (sqs_faults w1)) as [e|] eqn:En.
  - rewrite (sqs_send_fault msg e) by now rewrite Hs2. reflexivity.
  - rewrite sqs_send_ok by now rewrite Hs2. reflexivity.
Qed.

(** C1, amended.  A Create call with a valid topic whose conditional write
    succeeds: without a queue URL the publication is skipped and the call
    answers 201 with the created task; with a queue URL it answers the same 201
    when the publication succeeds, and when the publication fails the failure
    reaches the caller as a 500 while the task stays in the store. *)
Theorem create_publish_outcomes event w cfg w1 tableName body topic :
  Api.is_method event "POST" = true ->
  Api.path_endsWith event "/tasks" = true ->
  Api.loadConfig w = (Ok cfg, w1) ->
  cfg !! str "dynamo-db-table-name" = Some tableName ->
  tableName <> [] ->
  Api.request_body event = Some body ->
  valid_topic body topic ->
  next_fault (ddb_faults w1) = None ->
  uuid w1 <> [] ->
  table w1 !! uuid w1 = None ->
  let id := uuid w1 in
  let now := Date.toISOString (now w1) in
  let created := Api.res 201 (Api.created_body id topic now) [] in
  (forall url, cfg !! str "sqs-queue-url" = url -> url = None \/ url = Some [] ->
     exists w', ApiFunction.handler event w = (Ok created, w')
                /\ sqs_log w' = sqs_log w
                /\ table w' !! id = Some (Api.new_item id topic now))
  /\ (forall url, cfg !! str "sqs-queue-url" = Some url -> url <> [] ->
        next_fault (sqs_faults w1) = None ->
        exists w', ApiFunction.handler event w = (Ok created, w')
                   /\ sqs_log w' = sqs_log w ++ [work_item url id topic now]
                   /\ table w' !! id = Some (Api.new_item id topic now))
  /\ (forall url e, cfg !! str "sqs-queue-url" = Some url -> url <> [] ->
        next_fault (sqs_faults w1) = Some e ->
        exists w', ApiFunction.handler event w
                   = (Ok (Api.res 500 (Api.server_error e) []), w')
                   /\ sqs_log w' = sqs_log w ++ [work_item url id topic now]
                   /\ table w' !! id = Some (Api.new_item id topic now)).
Proof.
  intros Hm Hp Hc Ht Hne Hb Hv Hf Hid Hfree. cbv zeta.
  destruct tableName as [|t q]; [congruence|].
  pose proof (respects_quiet_loadConfig _ _ _ Hc) as Hq.
  pose proof (create_outcome (fun _ _ => ret None) None event w cfg w1 t q body topic
                Hm Hp Hc eq_refl Ht Hb Hv Hf Hid Hfree) as Hrun.
  cbv zeta in Hrun. fold (ApiFunction.handler event) in Hrun.
  set (item := Api.new_item (uuid w1) topic (Date.toISOString (now w1))) in *.
  destruct (create_stored_fields item (uuid w1) w1) as (Hlook & Hlog & _).
  cbv zeta in Hlook, Hlog.
  repeat split.
  - intros url Hurl Hnone. rewrite Hurl in Hrun.
    eexists. split; [|split; [|exact Hlook]].
    + destruct Hnone as [-> | ->]; exact Hrun.
    + rewrite Hlog. apply Hq.
  - intros url Hurl Hune Hok. rewrite Hurl, Hok in Hrun.
    destruct url as [|u url]; [congruence|].
    eexists. split; [exact Hrun|]. split.
    + rewrite sqs_log_sqs_sent, Hlog. f_equal. apply Hq.
    + now rewrite table_sqs_sent.
  - intros url e Hurl Hune Hfail. rewrite Hurl, Hfail in Hrun.
    destruct url as [|u url]; [congruence|].
    eexists. split; [exact Hrun|]. split.
    + rewrite sqs_log_sqs_sent, Hlog. f_equal. apply Hq.
    + now rewrite table_sqs_sent.
Qed.

(* ===================================================================== *)
(** * Create: the stored task and the work item *)
(* ===================================================================== *)

Lemma new_item_fields id topic now :
  let item := Api.new_item id topic now in
  item !! "id"%string = Some (AttrS id)
  /\ item !! "topic"%string = Some (AttrS topic)
  /\ item !! "status"%string = Some (AttrS (str "QUEUED"))
  /\ item !! "createdAt"%string = Some (AttrS now)
  /\ item !! "updatedAt"%string = Some (AttrS now)
  /\ item !! "researchMd"%string = Some (AttrS [])
  /\ item !! "error"%string = Some AttrNULL.
Proof. unfold Api.new_item. cbv zeta. repeat split; now simplify_map_eq. Qed.

(** A Create call that answers 201 had a valid topic. *)
Lemma post_tasks_201 user queueUrl event w r w' :
  Api.post_tasks user queueUrl event w = (Ok r, w') ->
  Api.statusCode r = 201%Z ->
  exists body topic, Api.request_body event = Some body /\ valid_topic body topic.
Proof.
  unfold Api.post_tasks. intros H Hs.
  destruct (Api.request_body event) as [body|].
  2: { inversion H; subst. discriminate Hs. }
  exists body.
  unfold js_or in H.
  destruct (Json.opt_prop body "topic") as [v|] eqn:Ev; cbn [truthy] in H.
  2: { inversion H; subst. discriminate Hs. }
  destruct v as [|b|n|s|l|ms]; cbn [truthy] in H;
    try (inversion H; subst; discriminate Hs);
    try (destruct (Num.truthy n); inversion H; subst; discriminate Hs);
    try (destruct b; inversion H; subst; discriminate Hs).
  destruct (truthy_string s) eqn:Es.
  - destruct (truthy_string (JsString.trim s)) eqn:Et; cbn [negb] in H.
    + exists (JsString.trim s). split; [reflexivity|]. exists s.
      split; [exact Ev|]. split; [reflexivity|]. now destruct (JsString.trim s).
    + inversion H; subst. discriminate Hs.
  - inversion H; subst. discriminate Hs.
Qed.

(** The conditional put either fails, leaving the table as it was, or
    stores the item under its key. *)
Lemma put_inv item w r w' :
  Ddb.put item true w = (r, w') ->
  match r with
  | Ok _ => exists id, item !! "id"%string = Some (AttrS id) /\ id <> []
                       /\ table w !! id = None
                       /\ w' = with_table (<[id := item]> (table w)) (put_sent item w)
  | Throw _ => table w' = table w /\ sqs_log w' = sqs_log w
  end.
Proof.
  unfold Ddb.put, bind, Ddb.send. fold (put_sent item w).
  destruct (next_fault (ddb_faults w)).
  { intros H; inversion H; subst. now rewrite table_put_sent, sqs_log_put_sent. }
  destruct (item !! "id"%string) as [[[|u k]|]|] eqn:Eid;
    try (intros H; inversion H; subst; now rewrite table_put_sent, sqs_log_put_sent).
  rewrite table_put_sent. cbn [andb].
  destruct (table w !! (u :: k)) eqn:Et.
  - rewrite bool_decide_eq_true_2 by eauto.
    intros H; inversion H; subst. now rewrite table_put_sent, sqs_log_put_sent.
  - rewrite bool_decide_eq_false_2 by (intros [x Hx]; discriminate).
    intros H; inversion H; subst. exists (u :: k). now repeat split.
Qed.

Lemma sqs_send_inv msg w r w' :
  Sqs.send msg w = (r, w') -> w' = sqs_sent msg w.
Proof.
  unfold Sqs.send. fold (sqs_sent msg w).
  destruct (next_fault (sqs_faults w)); intros H; now inversion H.
Qed.

(** A handler of the API function that answered something else than 500
    loaded its configuration and ran [dispatch] without an exception. *)
Lemma handler_with_inv identify event w r w' :
  (forall cfg w1, exists u, identify event cfg w1 = (u, w1)) ->
  Api.is_method event "OPTIONS" = false ->
  Api.handler_with identify event w = (Ok r, w') ->
  Api.statusCode r <> 500%Z ->
  exists cfg w1 user,
    Api.loadConfig w = (Ok cfg, w1)
    /\ Api.dispatch user cfg event w1 = (Ok r, w').
Proof.
  intros Hid Ho H Hs. unfold Api.handler_with, try_catch in H.
  rewrite Ho in H. unfold bind at 1 in H.
  destruct (Api.loadConfig w) as [[cfg|e] w1] eqn:Ec.
  2: { inversion H; subst. now contradiction Hs. }
  unfold bind at 1 in H. destruct (Hid cfg w1) as [[user|e] Hu]; rewrite Hu in H.
  2: { inversion H; subst. now contradiction Hs. }
  exists cfg, w1, user. split; [reflexivity|].
  destruct (Api.dispatch user cfg event w1) as [[r0|e] w2].
  - exact H.
  - inversion H; subst. now contradiction Hs.
Qed.

(** Either handler, inverted. *)
Lemma handlers_inv event w r w' :
  Api.is_method event "OPTIONS" = false ->
  (ApiFunction.handler event w = (Ok r, w') \/ AuthApiFunction.handler event w = (Ok r, w')) ->
  Api.statusCode r <> 500%Z ->
  exists cfg w1 user,
    Api.loadConfig w = (Ok cfg, w1)
    /\ Api.dispatch user cfg event w1 = (Ok r, w').
Proof.
  intros Ho [H|H] Hs.
  - apply (handler_with_inv (fun _ _ => ret None)); auto.
    intros cfg w1. now exists (Ok None).
  - apply (handler_with_inv Api.identify); auto.
    intros cfg w1. apply identify_pure.
Qed.

(** A handler of the API function that answered 201 on [POST /tasks] ran
    the Create route to its end. *)
Lemma handlers_created_inv event w r w' :
  Api.is_method event "POST" = true ->
  Api.path_endsWith event "/tasks" = true ->
  (ApiFunction.handler event w = (Ok r, w') \/ AuthApiFunction.handler event w = (Ok r, w')) ->
  Api.statusCode r = 201%Z ->
  exists cfg w1 user,
    Api.loadConfig w = (Ok cfg, w1)
    /\ Api.post_tasks user (cfg !! str "sqs-queue-url") event w1 = (Ok r, w').
Proof.
  intros Hm Hp H Hs.
  destruct (handlers_inv event w r w') as (cfg & w1 & user & Hc & Hd);
    auto using post_is_not_options; [now rewrite Hs|].
  exists cfg, w1, user. split; [exact Hc|].
  unfold Api.dispatch in Hd. rewrite Hm, Hp in Hd. cbn [andb] in Hd.
  destruct (cfg !! str "dynamo-db-table-name") as [[|t q]|];
    try (inversion Hd; subst; discriminate Hs).
  exact Hd.
Qed.

Lemma created_coherent user queueUrl event w r w' :
  Api.post_tasks user queueUrl event w = (Ok r, w') ->
  Api.statusCode r = 201%Z ->
  exists id topic now body,
    Api.request_body event = Some body
    /\ valid_topic body topic
    /\ Api.body r = Json.stringify (Api.created_body id topic now)
    /\ table w' !! id = Some (Api.new_item id topic now)
    /\ match queueUrl with
       | Some (u :: url) => sqs_log w' = sqs_log w ++ [work_item (u :: url) id topic now]
       | _ => sqs_log w' = sqs_log w
       end.
Proof.
  intros H Hs.
  destruct (post_tasks_201 _ _ _ _ _ _ H Hs) as (body & topic & Hb & Hv).
  rewrite (post_tasks_valid _ _ _ _ _ _ Hb Hv) in H. cbv zeta in H.
  exists (uuid w), topic, (Date.toISOString (now w)), body.
  split; [exact Hb|]. split; [exact Hv|].
  destruct (Ddb.put _ true (drawn w)) as [[[]|e] w2] eqn:Eput; [|discriminate].
  apply put_inv in Eput. destruct Eput as (id & Hid & Hne & Hfree & ->).
  rewrite new_item_id in Hid. injection Hid as <-.
  set (item := Api.new_item _ _ _) in *.
  destruct (create_stored_fields item (uuid w) w) as (Hlook & Hlog & _).
  cbv zeta in Hlook, Hlog.
  destruct queueUrl as [[|u url]|].
  - inversion H; subst. now repeat split.
  - match type of H with context [Sqs.send ?m ?w0] =>
      destruct (Sqs.send m w0) as [[[]|e] w3] eqn:Es; [|discriminate];
      apply sqs_send_inv in Es end.
    inversion H; subst. repeat split.
    + now rewrite table_sqs_sent.
    + now rewrite sqs_log_sqs_sent, Hlog.
  - inversion H; subst. now repeat split.
Qed.

(** C10.  A Create call that answers 201, through the handler of
    [src/api-function/index.js] or the one of [src/unnamed/part_000], has
    stored a task and, when a queue is configured, sent one work item, and the
    two agree: the work item carries the task's [id], its trimmed [topic] and,
    as [requestedAt], its [createdAt]; the task's [updatedAt] equals its
    [createdAt], its [researchMd] is the empty string and its [error] is
    null. *)
Theorem create_task_and_work_item_coherent event w r w' :
  Api.is_method event "POST" = true ->
  Api.path_endsWith event "/tasks" = true ->
  (ApiFunction.handler event w = (Ok r, w') \/ AuthApiFunction.handler event w = (Ok r, w')) ->
  Api.statusCode r = 201%Z ->
  exists (cfg : Config) id topic now body item,
    fst (Api.loadConfig w) = Ok cfg
    /\ Api.request_body event = Some body
    /\ valid_topic body topic
    /\ Api.body r = Json.stringify (Api.created_body id topic now)
    /\ table w' !! id = Some item
    /\ item !! "id"%string = Some (AttrS id)
    /\ item !! "topic"%string = Some (AttrS topic)
    /\ item !! "status"%string = Some (AttrS (str "QUEUED"))
    /\ item !! "createdAt"%string = Some (AttrS now)
    /\ item !! "updatedAt"%string = Some (AttrS now)
    /\ item !! "researchMd"%string = Some (AttrS [])
    /\ item !! "error"%string = Some AttrNULL
    /\ match cfg !! str "sqs-queue-url" with
       | Some (u :: url) =>
           sqs_log w'
           = sqs_log w
             ++ [mkSqsMessage (u :: url)
                   (Json.stringify
                      (JObj [(str "id", JStr id); (str "topic", JStr topic);
                             (str "requestedAt", JStr now);
                             (str "taskType", JStr (str "RESEARCH_SUMMARY_V1"))]))]
       | _ => sqs_log w' = sqs_log w
       end.
Proof.
  intros Hm Hp H Hs.
  pose proof (handlers_created_inv _ _ _ _ Hm Hp H Hs) as Hinv.
  destruct Hinv as (cfg & w1 & user & Hc & Hrun).
  pose proof (respects_quiet_loadConfig _ _ _ Hc) as Hq.
  destruct (created_coherent _ _ _ _ _ _ Hrun Hs)
    as (id & topic & now & body & Hb & Hv & Hbody & Hlook & Hq').
  destruct (new_item_fields id topic now) as (F1 & F2 & F3 & F4 & F5 & F6 & F7).
  exists cfg, id, topic, now, body, (Api.new_item id topic now).
  split; [now rewrite Hc|].
  repeat (split; [assumption|]).
  rewrite <- (quiet_sqs_log _ _ Hq).
  destruct (cfg !! str "sqs-queue-url") as [[|u url]|]; exact Hq'.
Qed.

(* ===================================================================== *)
(** * List: the page limit *)
(* ===================================================================== *)

Lemma cmp_refl m e : Num.cmp m e m e = Eq.
Proof. unfold Num.cmp. apply Z.compare_refl. Qed.

Lemma lt_irrefl n : Num.lt n n = false.
Proof. destruct n as [|[]|m e]; simpl; try reflexivity. now rewrite cmp_refl. Qed.

Lemma limit_of_capped qs : Num.lt (Num.of_Z 100) (Api.limit_of qs) = false.
Proof.
  unfold Api.limit_of.
  set (a := match Api.param qs "limit" with Some (u :: s) => Num.of_string (u :: s) | _ => Num.of_Z 25 end).
  change (Num.of_Z 100) with (Fin 1 2).
  destruct a as [|[]|m e]; try reflexivity.
  unfold Num.min. destruct (Num.lt (Fin 1 2) (Fin m e)) eqn:E.
  - apply lt_irrefl.
  - exact E.
Qed.

Lemma limit_of_default qs :
  Api.param qs "limit" = None \/ Api.param qs "limit" = Some [] ->
  Api.limit_of qs = Num.of_Z 25.
Proof. unfold Api.limit_of. now intros [-> | ->]. Qed.

(** A limit that does not exceed 100 and denotes an integer denotes one
    that is at most 100. *)
Lemma capped_to_Z n z :
  Num.lt (Num.of_Z 100) n = false -> Num.to_Z n = Some z -> (z <= 100)%Z.
Proof.
  change (Num.of_Z 100) with (Fin 1 2).
  destruct n as [|[]|m e]; simpl; try discriminate.
  unfold Num.cmp. intros Hlt Hz.
  destruct (0 <=? e)%Z eqn:He.
  - apply Z.leb_le in He. injection Hz as <-.
    destruct (Z.compare_spec (1 * 10 ^ (2 - Z.min 2 e)) (m * 10 ^ (e - Z.min 2 e)))
      as [Hc|Hc|Hc]; try discriminate; clear Hlt.
    + destruct (Z.le_ge_cases e 2) as [Hle|Hge].
      * rewrite Z.min_r in Hc by lia. rewrite Z.sub_diag in Hc. simpl in Hc.
        assert (H100 : (10 ^ (2 - e) * 10 ^ e = 100)%Z).
        { rewrite <- Z.pow_add_r by lia. now replace (2 - e + e)%Z with 2%Z by lia. }
        nia.
      * rewrite Z.min_l in Hc by lia. simpl in Hc.
        replace e with ((e - 2) + 2)%Z at 1 by lia.
        rewrite Z.pow_add_r by lia. change (10 ^ 2)%Z with 100%Z. nia.
    + destruct (Z.le_ge_cases e 2) as [Hle|Hge].
      * rewrite Z.min_r in Hc by lia. rewrite Z.sub_diag in Hc. simpl in Hc.
        assert (H100 : (10 ^ (2 - e) * 10 ^ e = 100)%Z).
        { rewrite <- Z.pow_add_r by lia. now replace (2 - e + e)%Z with 2%Z by lia. }
        assert (0 < 10 ^ e)%Z by (apply Z.pow_pos_nonneg; lia).
        nia.
      * rewrite Z.min_l in Hc by lia. simpl in Hc.
        replace e with ((e - 2) + 2)%Z at 1 by lia.
        rewrite Z.pow_add_r by lia. change (10 ^ 2)%Z with 100%Z. nia.
  - destruct (m =? 0)%Z; [|discriminate]. injection Hz as <-. lia.
Qed.

Lemma run_query_length t pk n start names :
  length (Ddb.Items (Ddb.run_query t pk n start names)) <= n.
Proof.
  unfold Ddb.run_query. simpl. rewrite length_map, length_take. lia.
Qed.

(** A successful query returns at most [Limit] items, and [Limit] is a
    positive integer. *)
Lemma query_inv pk limit startKey names w out w' :
  Ddb.query pk limit startKey names w = (Ok out, w') ->
  exists n, Num.to_Z limit = Some (Zpos n) /\ length (Ddb.Items out) <= Pos.to_nat n.
Proof.
  unfold Ddb.query, bind. destruct (Ddb.send _ w) as [[[]|e] w1]; [|discriminate].
  destruct (Num.to_Z limit) as [[|n|n]|]; try discriminate.
  intros H. exists n. split; [reflexivity|].
  destruct startKey as [v|].
  - destruct (Ddb.key_of_json v); [|discriminate].
    inversion H; subst. apply run_query_length.
  - inversion H; subst. apply run_query_length.
Qed.

Lemma get_tasks_inv user event w r w' :
  Api.get_tasks user event w = (Ok r, w') ->
  exists out n,
    r = Api.res 200 (Api.list_body (Ddb.Items out) (Api.cursor_of (Ddb.LastEvaluatedKey out)))
          (Api.user_headers user)
    /\ Num.to_Z (Api.limit_of (Api.queryStringParameters event)) = Some (Zpos n)
    /\ length (Ddb.Items out) <= Pos.to_nat n.
Proof.
  unfold Api.get_tasks. cbv zeta. unfold bind at 1.
  destruct (Api.startKey_of _ w) as [[k|e] w1]; [|discriminate].
  unfold bind at 1.
  destruct (Ddb.query _ _ k _ w1) as [[out|e] w2] eqn:Eq; [|discriminate].
  intros H. inversion H; subst.
  destruct (query_inv _ _ _ _ _ _ _ Eq) as (n & Hn & Hlen).
  now exists out, n.
Qed.

(** The routes a request takes. *)
Lemma dispatch_list user cfg event w r w' :
  Api.is_method event "GET" = true ->
  Api.path_endsWith event "/tasks" = true ->
  Api.is_resource event "/tasks/{id}" = false ->
  Api.dispatch user cfg event w = (Ok r, w') ->
  Api.statusCode r = 200%Z ->
  Api.get_tasks user event w = (Ok r, w').
Proof.
  intros Hm Hp Hr H Hs. unfold Api.dispatch in H.
  assert (Hpost : Api.is_method event "POST" = false).
  { apply is_method_eq in Hm. unfold Api.is_method. rewrite Hm. reflexivity. }
  rewrite Hpost, Hm, Hp, Hr in H. cbn [andb negb] in H.
  destruct (cfg !! str "dynamo-db-table-name") as [[|t q]|];
    try (inversion H; subst; discriminate Hs).
  exact H.
Qed.

(** C6.  The limit of a List request is 25 when the query parameter is
    absent, it never exceeds 100, and a List request that answers 200 returns
    at most that many items. *)
Theorem list_limit event w :
  let limit := Api.limit_of (Api.queryStringParameters event) in
  (Api.param (Api.queryStringParameters event) "limit" = None -> limit = Num.of_Z 25)
  /\ Num.lt (Num.of_Z 100) limit = false
  /\ (forall r w',
        Api.is_method event "GET" = true ->
        Api.path_endsWith event "/tasks" = true ->
        Api.is_resource event "/tasks/{id}" = false ->
        (ApiFunction.handler event w = (Ok r, w')
         \/ AuthApiFunction.handler event w = (Ok r, w')) ->
        Api.statusCode r = 200%Z ->
        exists items cursor n,
          Api.body r = Json.stringify (Api.list_body items cursor)
          /\ Num.to_Z limit = Some n
          /\ (Z.of_nat (length items) <= n <= 100)%Z).
Proof.
  cbv zeta. split; [|split].
  - intros H. apply limit_of_default. now left.
  - apply limit_of_capped.
  - intros r w' Hm Hp Hr H Hs.
    assert (Ho : Api.is_method event "OPTIONS" = false).
    { apply is_method_eq in Hm. unfold Api.is_method. rewrite Hm. reflexivity. }
    destruct (handlers_inv event w r w' Ho H) as (cfg & w1 & user & Hc & Hd);
      [now rewrite Hs|].
    apply dispatch_list in Hd; auto.
    destruct (get_tasks_inv _ _ _ _ _ Hd) as (out & n & -> & Hn & Hlen).
    exists (Ddb.Items out), (Api.cursor_of (Ddb.LastEvaluatedKey out)), (Zpos n).
    split; [reflexivity|]. split; [exact Hn|].
    split; [lia|].
    apply (capped_to_Z _ _ (limit_of_capped _) Hn).
Qed.

(* ===================================================================== *)
(** * The identity never affects the outcome *)
(* ===================================================================== *)

Lemma erase_res code data user :
  erase (Api.res code data (Api.user_headers user)) = erase (Api.res code data []).
Proof. destruct user as [u|]; reflexivity. Qed.

Lemma erased_bind {A} (m : M A) (k1 k2 : A -> M Api.Response) w :
  (forall a w1, erased (k1 a w1) = erased (k2 a w1)) ->
  erased (bind m k1 w) = erased (bind m k2 w).
Proof.
  intros H. unfold bind. destruct (m w) as [[a|e] w1]; [apply H | reflexivity].
Qed.

Lemma erased_ret code data user w :
  erased (ret (Api.res code data (Api.user_headers user)) w)
  = erased (ret (Api.res code data []) w).
Proof. unfold erased, ret. simpl. now rewrite erase_res. Qed.

Lemma post_tasks_user user queueUrl event w :
  erased (Api.post_tasks user queueUrl event w) = erased (Api.post_tasks None queueUrl event w).
Proof.
  unfold Api.post_tasks.
  destruct (Api.request_body event) as [body|]; [|reflexivity].
  destruct (js_or _ _) as [[| | |s| |]|]; try reflexivity.
  cbv zeta. destruct (negb (truthy_string (JsString.trim s))); [reflexivity|].
  repeat (apply erased_bind; intros ? ?).
  apply erased_ret.
Qed.

Lemma get_tasks_user user event w :
  erased (Api.get_tasks user event w) = erased (Api.get_tasks None event w).
Proof.
  unfold Api.get_tasks. cbv zeta.
  repeat (apply erased_bind; intros ? ?).
  apply erased_ret.
Qed.

Lemma get_task_user user event w :
  erased (Api.get_task user event w) = erased (Api.get_task None event w).
Proof.
  unfold Api.get_task.
  destruct (Api.param _ "id") as [[|u id]|]; try reflexivity.
  apply erased_bind. intros [it|] w1; [apply erased_ret | reflexivity].
Qed.

Lemma delete_task_user user event w :
  erased (Api.delete_task user event w) = erased (Api.delete_task None event w).
Proof.
  unfold Api.delete_task.
  destruct (Api.param _ "id") as [[|u id]|]; try reflexivity.
  apply erased_bind. intros _ w1. apply erased_ret.
Qed.

(** The user reaches nothing but the [X-User-ID] header. *)
Lemma dispatch_user user cfg event w :
  erased (Api.dispatch user cfg event w) = erased (Api.dispatch None cfg event w).
Proof.
  unfold Api.dispatch.
  destruct (cfg !! str "dynamo-db-table-name") as [[|t q]|]; try reflexivity.
  destruct (_ && _); [apply post_tasks_user|].
  destruct (_ && _); [apply get_tasks_user|].
  destruct (_ && _); [apply get_task_user|].
  destruct (_ && _); [apply delete_task_user|].
  reflexivity.
Qed.

(** The headers of the request reach nothing but the user. *)
Lemma dispatch_headers user cfg e1 e2 :
  same_but_headers e1 e2 -> Api.dispatch user cfg e1 = Api.dispatch user cfg e2.
Proof.
  intros (Hm & Hp & Hr & Hq & Hpp & Hb).
  unfold Api.dispatch, Api.post_tasks, Api.get_tasks, Api.get_task, Api.delete_task,
    Api.is_method, Api.path_endsWith, Api.is_resource, Api.request_body.
  now rewrite Hm, Hp, Hr, Hq, Hpp, Hb.
Qed.

Lemma handler_with_total identify event w :
  exists r w', Api.handler_with identify event w = (Ok r, w').
Proof.
  unfold Api.handler_with, try_catch.
  match goal with |- context [match ?m w with _ => _ end] =>
    destruct (m w) as [[r|e] w'] end; eexists; eexists; reflexivity.
Qed.

(** Two requests that differ at most in their headers (so in their
    [Authorization] header) are answered by the handler of
    [src/unnamed/part_000] with the same status code and the same body, and
    leave the same world behind, when the line that logs the user throws for
    neither; the responses can then differ in the [X-User-ID] header only. *)
Lemma identity_reaches_the_header_only e1 e2 w :
  same_but_headers e1 e2 ->
  (forall cfg w1, Api.loadConfig w = (Ok cfg, w1) ->
     exists u1 u2, Api.identify e1 cfg w1 = (Ok u1, w1)
                   /\ Api.identify e2 cfg w1 = (Ok u2, w1)) ->
  exists r1 r2 w',
    AuthApiFunction.handler e1 w = (Ok r1, w')
    /\ AuthApiFunction.handler e2 w = (Ok r2, w')
    /\ Api.statusCode r1 = Api.statusCode r2
    /\ Api.body r1 = Api.body r2
    /\ other_headers r1 = other_headers r2.
Proof.
  intros Hsame Hlog.
  assert (Herased : erased (AuthApiFunction.handler e1 w) = erased (AuthApiFunction.handler e2 w)).
  { unfold AuthApiFunction.handler, Api.handler_with, try_catch, Api.is_method.
    destruct Hsame as (Hm & Hrest). rewrite Hm.
    destruct (jsstring_eqb _ _); [reflexivity|].
    unfold bind at 1 3.
    destruct (Api.loadConfig w) as [[cfg|e] w1]; [|reflexivity].
    unfold bind.
    destruct (Hlog cfg w1 eq_refl) as (u1 & u2 & -> & ->).
    rewrite (dispatch_headers u1 cfg e1 e2) by (split; assumption).
    pose proof (dispatch_user u1 cfg e2 w1) as H1.
    pose proof (dispatch_user u2 cfg e2 w1) as H2.
    rewrite <- H2 in H1. clear H2. unfold erased in *.
    destruct (Api.dispatch u1 cfg e2 w1) as [[ra|ea] wa];
      destruct (Api.dispatch u2 cfg e2 w1) as [[rb|eb] wb]; simpl in *;
      try discriminate; [exact H1 | now inversion H1]. }
  destruct (handler_with_total Api.identify e1 w) as (r1 & w1 & H1).
  destruct (handler_with_total Api.identify e2 w) as (r2 & w2 & H2).
  fold (AuthApiFunction.handler e1) in H1. fold (AuthApiFunction.handler e2) in H2.
  rewrite H1, H2 in Herased. unfold erased, erase in Herased. simpl in Herased.
  inversion Herased; subst.
  exists r1, r2, w2. now repeat split.
Qed.

(* ===================================================================== *)
(** * The worker: one record *)
(* ===================================================================== *)

Lemma mark_error_total err rec w : exists w', Worker.mark_error err rec w = (Ok tt, w').
Proof.
  unfold Worker.mark_error, try_catch.
  match goal with |- context [match ?m w with _ => _ end] =>
    destruct (m w) as [[[]|e] w'] end; eexists; reflexivity.
Qed.

(** A record is either handled, and the failures are as before, or named
    in the failures; the loop never throws. *)
Lemma handle_record_total cfg failures rec w :
  exists failures' w',
    Worker.handle_record cfg failures rec w = (Ok failures', w')
    /\ (failures' = failures \/ failures' = failures ++ [Worker.messageId rec]).
Proof.
  unfold Worker.handle_record, try_catch, bind.
  destruct (Worker.process cfg rec w) as [[[]|e] w1].
  - eexists. eexists. split; [reflexivity|now left].
  - destruct (mark_error_total e rec w1) as [w2 ->].
    eexists. eexists. split; [reflexivity|now right].
Qed.

Lemma handle_records_total cfg recs : forall failures w,
  exists failures' w',
    Worker.handle_records cfg failures recs w = (Ok failures', w')
    /\ (forall m, m ∈ failures -> m ∈ failures').
Proof.
  induction recs as [|rec rest IH]; intros failures w; simpl.
  - exists failures, w. split; [reflexivity|auto].
  - unfold bind.
    destruct (handle_record_total cfg failures rec w) as (f1 & w1 & -> & Hf).
    destruct (IH f1 w1) as (f2 & w2 & -> & Hsub).
    exists f2, w2. split; [reflexivity|].
    intros m Hm. apply Hsub. destruct Hf as [-> | ->]; [assumption|].
    apply elem_of_app. now left.
Qed.

(** A record whose handling names it in the failures, whatever the world
    and the failures so far, is named in the report of its batch. *)
Lemma handle_records_names cfg rec recs :
  rec ∈ recs ->
  (forall failures w, exists w',
      Worker.handle_record cfg failures rec w = (Ok (failures ++ [Worker.messageId rec]), w')) ->
  forall failures w,
    Worker.messageId rec ∈ (match fst (Worker.handle_records cfg failures recs w) with
                            | Ok fs => fs
                            | Throw _ => []
                            end).
Proof.
  intros Hin Hfail. induction recs as [|r rest IH]; intros failures w.
  - inversion Hin.
  - simpl. unfold bind. apply elem_of_cons in Hin. destruct Hin as [<- | Hin].
    + destruct (Hfail failures w) as [w1 ->].
      destruct (handle_records_total cfg rest (failures ++ [Worker.messageId rec]) w1)
        as (f2 & w2 & E & Hsub).
      rewrite E. simpl. apply Hsub. apply elem_of_app. right. now apply list_elem_of_singleton.
    + destruct (handle_record_total cfg failures r w) as (f1 & w1 & -> & _).
      apply IH. exact Hin.
Qed.

Lemma handler_names event w recs rec :
  Worker.Records event = Some recs ->
  rec ∈ recs ->
  (forall cfg failures w0, exists w',
      Worker.handle_record cfg failures rec w0
      = (Ok (failures ++ [Worker.messageId rec]), w')) ->
  exists report w',
    Worker.handler event w = (Ok report, w')
    /\ Worker.messageId rec ∈ Worker.batchItemFailures report.
Proof.
  intros Hrecs Hin Hfail. unfold Worker.handler. rewrite Hrecs. simpl default.
  unfold bind at 1, try_catch, bind at 1.
  destruct (Worker.loadConfig w) as [[cfg|e] w1]; unfold ret at 1.
  - unfold bind.
    pose proof (handle_records_names cfg rec recs Hin (Hfail cfg) [] w1) as Hn.
    destruct (handle_records_total cfg recs [] w1) as (fs & w2 & E & _).
    rewrite E in *. simpl in Hn. eexists. eexists. split; [reflexivity|exact Hn].
  - eexists. eexists. split; [reflexivity|]. simpl.
    apply list_elem_of_In, in_map. now apply list_elem_of_In.
Qed.

(** ** A message without [id] or without [topic] *)

Lemma truthy_opt_prop_not_null msg field :
  truthy (Json.opt_prop (Some msg) field) = true -> msg <> JNull.
Proof. intros H ->. discriminate H. Qed.

Lemma member_opt_prop msg field w :
  msg <> JNull -> member msg field w = (Ok (Json.opt_prop (Some msg) field), w).
Proof. intros H. destruct msg; try reflexivity. congruence. Qed.

(** The [try] block throws on such a message, before any request. *)
Lemma process_malformed cfg rec msg w :
  Json.parse (Worker.body rec) = Some msg ->
  lacks msg "id" \/ lacks msg "topic" ->
  exists err, Worker.process cfg rec w = (Throw err, w)
              /\ (msg <> JNull -> err = malformed).
Proof.
  intros Hp Hl. unfold Worker.process, Worker.fulfil. unfold bind at 1. unfold bind at 1.
  unfold JSON_parse. rewrite Hp.
  assert (Hcase : msg = JNull \/ msg <> JNull)
    by (destruct msg; (now left) || (right; discriminate)).
  destruct Hcase as [->|Hn].
  { eexists. split; [reflexivity|]. congruence. }
  unfold bind at 1. rewrite (member_opt_prop msg "id" w Hn).
  unfold bind at 1. rewrite (member_opt_prop msg "topic" w Hn).
  exists malformed. split; [|reflexivity].
  unfold lacks in Hl.
  destruct (Json.opt_prop (Some msg) "id") as [id|] eqn:Eid;
    destruct (Json.opt_prop (Some msg) "topic") as [topic|] eqn:Et; try reflexivity.
  destruct Hl as [Hl|Hl]; rewrite Hl; [reflexivity|].
  now rewrite orb_true_r.
Qed.

Lemma update_inv key sets removes w r w' :
  Ddb.update key sets removes w = (r, w') ->
  ddb_log w' = ddb_log w ++ [UpdateCommand key sets removes]
  /\ match r with
     | Ok _ =>
         exists k, key = JStr k /\ k <> [] /\ next_fault (ddb_faults w) = None
                   /\ table w'
                      = <[k := Ddb.apply_update sets removes
                                 (default {[ "id"%string := AttrS k ]} (table w !! k))]> (table w)
     | Throw _ => table w' = table w
     end.
Proof.
  unfold Ddb.update, bind, Ddb.send. fold (update_sent key sets removes w).
  assert (Hl : ddb_log (update_sent key sets removes w)
               = ddb_log w ++ [UpdateCommand key sets removes])
    by (unfold update_sent; now rewrite ddb_log_advance).
  assert (Ht : table (update_sent key sets removes w) = table w)
    by (unfold update_sent; now rewrite table_advance).
  destruct (next_fault (ddb_faults w)) eqn:Ef.
  { intros H; inversion H; subst. now split. }
  destruct key as [| | |[|u k]| |]; try (intros H; inversion H; subst; now split).
  intros H; inversion H; subst. split; [exact Hl|].
  exists (u :: k). repeat split; [discriminate|]. simpl table. now rewrite Ht.
Qed.

Lemma update_ok k sets removes w :
  k <> [] ->
  next_fault (ddb_faults w) = None ->
  Ddb.update (JStr k) sets removes w
  = (Ok tt, with_table (<[k := Ddb.apply_update sets removes
                                 (default {[ "id"%string := AttrS k ]} (table w !! k))]> (table w))
              (update_sent (JStr k) sets removes w)).
Proof.
  intros Hk Hf. unfold Ddb.update, bind, Ddb.send. rewrite Hf.
  fold (update_sent (JStr k) sets removes w).
  destruct k as [|u k]; [congruence|].
  replace (table (update_sent (JStr (u :: k)) sets removes w)) with (table w)
    by (unfold update_sent; now rewrite table_advance).
  reflexivity.
Qed.

Lemma mark_error_no_id err rec msg w :
  Json.parse (Worker.body rec) = Some msg ->
  recovered_id msg = None ->
  Worker.mark_error err rec w = (Ok tt, w).
Proof.
  intros Hp Hid. unfold Worker.mark_error, try_catch, bind, JSON_parse. rewrite Hp.
  unfold recovered_id in Hid.
  destruct (Json.opt_prop (Some msg) "id") as [id|]; [|reflexivity].
  destruct (truthy (Some id)); [discriminate|reflexivity].
Qed.

(** Writing the text of a value into a template literal. *)
Lemma interpolate_text {B} v s (k : jsstring -> M B) w :
  to_String v = Some s -> bind (interpolate (Some v)) k w = k s w.
Proof. intros H. unfold bind, interpolate. now rewrite H. Qed.

Lemma interpolate_no_text {B} v (k : jsstring -> M B) w :
  to_String v = None ->
  bind (interpolate (Some v)) k w
  = (Throw (mkError (str "TypeError")
              (typeErrorMessage (platform w) "Cannot convert object to primitive value")), w).
Proof. intros H. unfold bind, interpolate. now rewrite H. Qed.

(** The log line of the [catch] block throws on an [id] without text,
    before any request. *)
Lemma mark_error_no_text err rec msg id w :
  Json.parse (Worker.body rec) = Some msg ->
  recovered_id msg = Some id ->
  to_String id = None ->
  Worker.mark_error err rec w = (Ok tt, w).
Proof.
  intros Hp Hid Hs. unfold Worker.mark_error, try_catch. unfold bind at 1, JSON_parse. rewrite Hp.
  unfold recovered_id in Hid.
  destruct (Json.opt_prop (Some msg) "id") as [id0|]; [|discriminate].
  destruct (truthy (Some id0)) eqn:Et; [|discriminate]. injection Hid as ->.
  now rewrite (interpolate_no_text _ _ _ Hs).
Qed.

Lemma mark_error_with_id err rec msg id s w :
  Json.parse (Worker.body rec) = Some msg ->
  recovered_id msg = Some id ->
  to_String id = Some s ->
  exists w',
    Worker.mark_error err rec w = (Ok tt, w')
    /\ ddb_log w' = ddb_log w ++ [error_update id err (now w)].
Proof.
  intros Hp Hid Hs. unfold Worker.mark_error, try_catch. unfold bind at 1, JSON_parse. rewrite Hp.
  unfold recovered_id in Hid.
  destruct (Json.opt_prop (Some msg) "id") as [id0|]; [|discriminate].
  destruct (truthy (Some id0)) eqn:Et; [|discriminate]. injection Hid as ->.
  rewrite (interpolate_text _ _ _ _ Hs).
  unfold bind at 1, now_ISO, bind at 1, Date_now, ret at 1.
  match goal with |- context [Ddb.update ?a ?b ?c w] =>
    destruct (Ddb.update a b c w) as [[[]|e] w'] eqn:Eu end;
    apply update_inv in Eu; destruct Eu as (Hlog & _);
    exists w'; (split; [reflexivity|exact Hlog]).
Qed.

(** The item that the compensating update leaves under [k]. *)
Lemma mark_error_stored err rec msg k w :
  Json.parse (Worker.body rec) = Some msg ->
  recovered_id msg = Some (JStr k) ->
  next_fault (ddb_faults w) = None ->
  exists w' item,
    Worker.mark_error err rec w = (Ok tt, w')
    /\ table w' !! k = Some item
    /\ item !! "status"%string = Some (AttrS (str "ERROR"))
    /\ item !! "error"%string = Some (AttrS (Worker.describe err)).
Proof.
  intros Hp Hid Hf. unfold Worker.mark_error, try_catch. unfold bind at 1, JSON_parse. rewrite Hp.
  unfold recovered_id in Hid.
  destruct (Json.opt_prop (Some msg) "id") as [id0|]; [|discriminate].
  destruct (truthy (Some id0)) eqn:Et; [|discriminate]. injection Hid as ->.
  assert (Hk : k <> []) by (intros ->; discriminate Et).
  rewrite (interpolate_text (JStr k) k) by reflexivity.
  unfold bind at 1, now_ISO, bind at 1, Date_now, ret at 1.
  rewrite update_ok by assumption.
  eexists. eexists. split; [reflexivity|]. simpl table. rewrite lookup_insert_eq.
  split; [reflexivity|]. unfold Ddb.apply_update. simpl. now simplify_map_eq.
Qed.

(** C4, amended.  A record whose message lacks [id] or [topic] is named
    in the failure report of its batch, and handling it never reaches the
    writes of [PROCESSING] and [DONE]: when an [id] is there (so the [topic] is
    missing) and its text can be written, the only request is the compensating
    update that marks this [id] as [ERROR]; when no [id] can be recovered, or
    the text of the [id] cannot be written, nothing is asked of the store at
    all. *)
Theorem malformed_record_is_reported event w recs rec msg :
  Worker.Records event = Some recs ->
  rec ∈ recs ->
  Json.parse (Worker.body rec) = Some msg ->
  lacks msg "id" \/ lacks msg "topic" ->
  (exists report w',
      Worker.handler event w = (Ok report, w')
      /\ Worker.messageId rec ∈ Worker.batchItemFailures report)
  /\ (forall cfg failures w0, exists w1,
        Worker.handle_record cfg failures rec w0
        = (Ok (failures ++ [Worker.messageId rec]), w1)
        /\ match recovered_id msg with
           | Some id =>
               match to_String id with
               | Some _ => ddb_log w1 = ddb_log w0 ++ [error_update id malformed (now w0)]
               | None => ddb_log w1 = ddb_log w0 /\ table w1 = table w0
               end
           | None => ddb_log w1 = ddb_log w0 /\ table w1 = table w0
           end).
Proof.
  intros Hrecs Hin Hp Hl.
  assert (Hrec : forall cfg failures w0, exists w1,
             Worker.handle_record cfg failures rec w0
             = (Ok (failures ++ [Worker.messageId rec]), w1)
             /\ match recovered_id msg with
                | Some id =>
                    match to_String id with
                    | Some _ => ddb_log w1 = ddb_log w0 ++ [error_update id malformed (now w0)]
                    | None => ddb_log w1 = ddb_log w0 /\ table w1 = table w0
                    end
                | None => ddb_log w1 = ddb_log w0 /\ table w1 = table w0
                end).
  { intros cfg failures w0. unfold Worker.handle_record, try_catch. unfold bind at 1.
    destruct (process_malformed cfg rec msg w0 Hp Hl) as (err & -> & Herr).
    unfold bind at 1.
    destruct (recovered_id msg) as [id|] eqn:Eid.
    - assert (Hn : msg <> JNull).
      { intros ->. discriminate Eid. }
      rewrite (Herr Hn).
      destruct (to_String id) as [s|] eqn:Es.
      + destruct (mark_error_with_id malformed rec msg id s w0 Hp Eid Es) as (w1 & -> & Hlog).
        exists w1. now split.
      + rewrite (mark_error_no_text malformed rec msg id w0 Hp Eid Es).
        exists w0. now repeat split.
    - rewrite (mark_error_no_id err rec msg w0 Hp Eid). exists w0. now repeat split. }
  split; [|exact Hrec].
  apply (handler_names event w recs rec Hrecs Hin).
  intros cfg failures w0. destruct (Hrec cfg failures w0) as (w1 & H1 & _). now exists w1.
Qed.

(* ===================================================================== *)
(** * The worker: the notice after [DONE] *)
(* ===================================================================== *)

(** When the first part of the [try] block returns, the message had a
    string [id], and the task under it is [DONE]. *)
Lemma fulfil_inv cfg rec w id topic w1 :
  Worker.fulfil cfg rec w = (Ok (id, topic), w1) ->
  exists msg k item,
    Json.parse (Worker.body rec) = Some msg
    /\ recovered_id msg = Some id
    /\ id = JStr k /\ k <> []
    /\ table w1 !! k = Some item
    /\ item !! "status"%string = Some (AttrS (str "DONE")).
Proof.
  unfold Worker.fulfil. unfold bind at 1, JSON_parse.
  destruct (Json.parse (Worker.body rec)) as [msg|] eqn:Ep; [|discriminate].
  assert (Hcase : msg = JNull \/ msg <> JNull)
    by (destruct msg; (now left) || (right; discriminate)).
  destruct Hcase as [->|Hn]; [discriminate|].
  unfold bind at 1. rewrite (member_opt_prop msg "id" w Hn).
  unfold bind at 1. rewrite (member_opt_prop msg "topic" w Hn).
  destruct (Json.opt_prop (Some msg) "id") as [id0|] eqn:Eid; [|discriminate].
  destruct (Json.opt_prop (Some msg) "topic") as [topic0|] eqn:Et; [|discriminate].
  destruct (truthy (Some id0)) eqn:Tid; [|discriminate].
  destruct (truthy (Some topic0)) eqn:Tt; [|discriminate].
  cbn [negb orb].
  destruct (to_String id0) as [s|] eqn:Es;
    [rewrite (interpolate_text _ _ _ _ Es) | now rewrite (interpolate_no_text _ _ _ Es)].
  unfold bind at 1, now_ISO, bind at 1, Date_now, ret at 1.
  unfold bind at 1.
  match goal with |- context [Ddb.update ?a ?b ?c w] =>
    destruct (Ddb.update a b c w) as [[[]|e] w2] eqn:E1 end; [|discriminate].
  unfold bind at 1.
  destruct (Worker.callOpenAIWithPrompt _ _ _ w2) as [[md|e] w3]; [|discriminate].
  rewrite (interpolate_text _ _ _ _ Es).
  unfold bind at 1, now_ISO, bind at 1, Date_now, ret at 1.
  unfold bind at 1.
  match goal with |- context [Ddb.update ?a ?b ?c w3] =>
    destruct (Ddb.update a b c w3) as [[[]|e] w4] eqn:E2 end; [|discriminate].
  intros H. inversion H; subst.
  apply update_inv in E2. destruct E2 as (_ & k & -> & Hk & _ & Htab).
  exists msg, k. eexists.
  split; [reflexivity|]. split.
  { unfold recovered_id. now rewrite Eid, Tid. }
  split; [reflexivity|]. split; [exact Hk|].
  rewrite Htab, lookup_insert_eq. split; [reflexivity|].
  unfold Ddb.apply_update. simpl. now simplify_map_eq.
Qed.

Lemma publish_fault msg e w :
  next_fault (sns_faults w) = Some e -> Sns.publish msg w = (Throw e, sns_sent msg w).
Proof. intros Hf. unfold Sns.publish. now rewrite Hf. Qed.

Lemma ddb_faults_sns_sent msg w : ddb_faults (sns_sent msg w) = ddb_faults w.
Proof. unfold sns_sent, advance. now destruct (clock _). Qed.

(** C2, amended.  When the write of [DONE] has succeeded and the
    publication of the notice (whose text names the topic, so the text of the
    topic can be written) then fails, the failure is treated as a failure of
    the record: the record is named in the failures and the [catch] block sets
    out to mark the task as [ERROR]; unless that update itself fails, the
    stored status is [ERROR] and the stored error is the text of the
    publication failure. *)
Theorem notice_failure_fails_the_record cfg rec failures w id topic w1 arn e :
  Worker.fulfil cfg rec w = (Ok (id, topic), w1) ->
  cfg !! str "sns-topic-arn" = Some arn ->
  arn <> [] ->
  printable topic ->
  next_fault (sns_faults w1) = Some e ->
  exists k w',
    id = JStr k
    /\ has_status w1 k "DONE"
    /\ Worker.handle_record cfg failures rec w = (Ok (failures ++ [Worker.messageId rec]), w')
    /\ (next_fault (ddb_faults w1) = None ->
        has_status w' k "ERROR"
        /\ attribute_of w' k "error" = Some (AttrS (Worker.describe e))).
Proof.
  intros Hful Harn Hne [t Ht] Hfault.
  destruct (fulfil_inv _ _ _ _ _ _ Hful) as (msg & k & item & Hp & Hid & -> & Hk & Hlook & Hst).
  exists k.
  assert (Hproc : exists w2, Worker.process cfg rec w = (Throw e, w2)
                             /\ ddb_faults w2 = ddb_faults w1).
  { unfold Worker.process. unfold bind. rewrite Hful. simpl fst. simpl snd.
    unfold Worker.notify. rewrite Harn. destruct arn as [|u arn]; [congruence|].
    rewrite (interpolate_text (JStr k) k) by reflexivity.
    rewrite (interpolate_text topic t) by assumption.
    rewrite (interpolate_text (JStr k) k) by reflexivity.
    rewrite (publish_fault _ e) by assumption.
    eexists. split; [reflexivity|]. apply ddb_faults_sns_sent. }
  destruct Hproc as (w2 & Hproc & Hf2).
  unfold Worker.handle_record, try_catch. unfold bind at 1. rewrite Hproc.
  unfold bind at 1.
  destruct (next_fault (ddb_faults w1)) eqn:Ef.
  - destruct (mark_error_total e rec w2) as [w' ->].
    exists w'. split; [reflexivity|]. split.
    { unfold has_status, status_of. now rewrite Hlook. }
    split; [reflexivity|]. discriminate.
  - destruct (mark_error_stored e rec msg k w2 Hp Hid) as (w' & item' & -> & Hl' & Hs' & He').
    { now rewrite Hf2. }
    exists w'. split; [reflexivity|]. split.
    { unfold has_status, status_of. now rewrite Hlook. }
    split; [reflexivity|]. intros _.
    unfold has_status, status_of, attribute_of. rewrite Hl'. now split.
Qed.

(* ===================================================================== *)
(** * The status never returns to [QUEUED] *)
(* ===================================================================== *)

Lemma same_table_refl w : same_table w w.
Proof. reflexivity. Qed.

Lemma same_table_trans w1 w2 w3 : same_table w1 w2 -> same_table w2 w3 -> same_table w1 w3.
Proof. unfold same_table. congruence. Qed.

Lemma respects_weaken {A} (P Q : World -> World -> Prop) (m : M A) :
  (forall w w', P w w' -> Q w w') -> respects P m -> respects Q m.
Proof. intros HPQ Hm w r w' H. eapply HPQ, Hm, H. Qed.

Lemma quiet_same_table w w' : quiet w w' -> same_table w w'.
Proof. intros []. assumption. Qed.

Lemma untouched_same_table w w' : untouched w w' -> same_table w w'.
Proof. unfold untouched, same_table. now intros ->. Qed.

Lemma same_table_advance w : same_table w (advance w).
Proof. apply table_advance. Qed.

Lemma same_table_randomUUID : respects same_table randomUUID.
Proof.
  intros w r w' H. inversion H; subst. unfold same_table, drawn. now destruct (uuids w).
Qed.

Lemma same_table_sqs msg : respects same_table (Sqs.send msg).
Proof.
  intros w r w' H. apply sqs_send_inv in H. subst. apply table_sqs_sent.
Qed.

Lemma same_table_sns msg : respects same_table (Sns.publish msg).
Proof.
  intros w r w' H. unfold Sns.publish in H.
  destruct (next_fault _); inversion H; subst; unfold same_table; now rewrite table_advance.
Qed.

Lemma same_table_fetch req : respects same_table (Worker.fetch req).
Proof.
  intros w r w' H. unfold Worker.fetch in H.
  destruct (fetches w) as [|[e|status text] rest]; inversion H; subst;
    unfold same_table; now rewrite table_advance.
Qed.

Lemma same_table_ssm : respects same_table Ssm.getParametersByPath.
Proof.
  eapply respects_weaken; [apply quiet_same_table | apply respects_quiet_getParametersByPath].
Qed.

Lemma same_table_send c : respects same_table (Ddb.send c).
Proof.
  intros w r w' H. unfold Ddb.send in H.
  destruct (next_fault _); inversion H; subst; unfold same_table; now rewrite table_advance.
Qed.

(** Proving that a computation built from the primitives keeps the
    table. *)
Ltac same_table_step :=
  first
    [ apply (respects_now_ISO same_table same_table_refl same_table_trans)
    | apply same_table_randomUUID
    | apply same_table_sqs
    | apply same_table_sns
    | apply same_table_fetch
    | apply same_table_ssm
    | apply same_table_send
    | apply (respects_bind same_table same_table_trans); [|intros ?]
    | apply (respects_try same_table same_table_trans); [|intros ?]
    | apply (respects_ret same_table same_table_refl)
    | apply (respects_throw same_table same_table_refl)
    | apply (respects_TypeError same_table same_table_refl)
    | apply (respects_JSON_parse same_table same_table_refl)
    | apply (respects_member same_table same_table_refl)
    | apply (respects_interpolate same_table same_table_refl)
    | apply (respects_numeric same_table same_table_refl)
    | apply (respects_Date_now same_table same_table_refl)
    | apply (respects_pure same_table same_table_refl)
    | match goal with
      | |- respects _ (match ?x with _ => _ end) => destruct x
      | |- respects _ (if ?x then _ else _) => destruct x
      end ].

Lemma same_table_get key : respects same_table (Ddb.get key).
Proof. unfold Ddb.get. repeat same_table_step. Qed.

Lemma same_table_query pk limit startKey names : respects same_table (Ddb.query pk limit startKey names).
Proof. unfold Ddb.query. repeat same_table_step. Qed.

Lemma same_table_api_loadConfig : respects same_table Api.loadConfig.
Proof.
  eapply respects_weaken; [apply quiet_same_table | apply respects_quiet_loadConfig].
Qed.

Lemma same_table_identify event cfg : respects same_table (Api.identify event cfg).
Proof. apply respects_identify, same_table_refl. Qed.

Lemma same_table_worker_loadConfig : respects same_table Worker.loadConfig.
Proof.
  unfold Worker.loadConfig. same_table_step; [same_table_step|].
  intros w r w' H.
  assert (Hfetch : forall t, respects same_table
            (let* params := try_catch Ssm.getParametersByPath (fun e => throw e) in
             match List.filter (fun k => negb (Worker.is_set params k)) Worker.required with
             | [] => fun w' => (Ok params, with_worker_cache (Some (params, t)) w')
             | _ => throw (new_Error (str "Missing SSM parameters: "
                       ++ Json.join (str ", ")
                            (List.map str (List.filter (fun k => negb (Worker.is_set params k))
                                             Worker.required))))
             end)).
  { intros t. same_table_step; [repeat same_table_step|].
    destruct (List.filter _ _).
    - intros w0 r0 w0' H0. inversion H0; subst. reflexivity.
    - same_table_step. }
  destruct (worker_cache w) as [[cached cachedAt]|].
  - destruct (Num.lt _ _).
    + inversion H; subst. apply same_table_refl.
    + eapply Hfetch; eauto.
  - eapply Hfetch; eauto.
Qed.

Lemma same_table_blocks_parts blks : respects same_table (Worker.blocks_parts blks).
Proof.
  induction blks as [|blk rest IH]; simpl; [same_table_step|].
  same_table_step; [unfold Worker.block_parts; repeat same_table_step|].
  same_table_step; [exact IH|]. same_table_step.
Qed.

Lemma same_table_extractMarkdown data : respects same_table (Worker.extractMarkdown data).
Proof.
  unfold Worker.extractMarkdown. cbv zeta.
  repeat first [apply same_table_blocks_parts | same_table_step].
Qed.

Lemma same_table_callOpenAI topic apiKey promptId :
  respects same_table (Worker.callOpenAIWithPrompt topic apiKey promptId).
Proof.
  unfold Worker.callOpenAIWithPrompt. cbv zeta.
  same_table_step; [same_table_step|]. destruct a as [status txt].
  repeat first [apply same_table_extractMarkdown | same_table_step].
Qed.

(** ** The worker *)

Lemma queued_only_before_refl w : queued_only_before w w.
Proof. intros id H. exact H. Qed.

Lemma queued_only_before_trans w1 w2 w3 :
  queued_only_before w1 w2 -> queued_only_before w2 w3 -> queued_only_before w1 w3.
Proof. intros H12 H23 id H. apply H12, H23, H. Qed.

Lemma same_table_queued w w' : same_table w w' -> queued_only_before w w'.
Proof.
  intros Ht id. unfold has_status, status_of. now rewrite Ht.
Qed.

(** An update that sets the status to something else than [QUEUED] never
    leaves a task [QUEUED] that was not. *)
Lemma update_queued key sets removes s :
  (forall old, Ddb.apply_update sets removes old !! "status"%string = Some (AttrS (str s))) ->
  str s <> str "QUEUED" ->
  respects queued_only_before (Ddb.update key sets removes).
Proof.
  intros Hst Hs w r w' H. apply update_inv in H. destruct H as (_ & H).
  destruct r as [[]|e].
  - destruct H as (k & -> & Hk & _ & Htab). intros id. unfold has_status, status_of.
    rewrite Htab. destruct (decide (k = id)) as [->|Hne].
    + rewrite lookup_insert_eq, Hst. intros Hq. injection Hq as Hq. congruence.
    + now rewrite lookup_insert_ne.
  - now apply same_table_queued.
Qed.

Ltac queued_step :=
  first
    [ apply (respects_now_ISO queued_only_before queued_only_before_refl
               queued_only_before_trans)
    | apply (respects_weaken same_table _ _ same_table_queued);
      first [ apply same_table_callOpenAI | apply same_table_sns
            | apply same_table_worker_loadConfig ]
    | apply (respects_bind queued_only_before queued_only_before_trans); [|intros ?]
    | apply (respects_try queued_only_before queued_only_before_trans); [|intros ?]
    | apply (respects_ret queued_only_before queued_only_before_refl)
    | apply (respects_throw queued_only_before queued_only_before_refl)
    | apply (respects_JSON_parse queued_only_before queued_only_before_refl)
    | apply (respects_member queued_only_before queued_only_before_refl)
    | apply (respects_interpolate queued_only_before queued_only_before_refl)
    | apply (respects_numeric queued_only_before queued_only_before_refl)
    | match goal with
      | |- respects _ (match ?x with _ => _ end) => destruct x
      | |- respects _ (if ?x then _ else _) => destruct x
      end ].

Lemma queued_fulfil cfg rec : respects queued_only_before (Worker.fulfil cfg rec).
Proof.
  unfold Worker.fulfil. cbv zeta.
  repeat first
    [ apply (update_queued _ _ _ "PROCESSING");
      [intros old; unfold Ddb.apply_update; simpl; now simplify_map_eq | discriminate]
    | apply (update_queued _ _ _ "DONE");
      [intros old; unfold Ddb.apply_update; simpl; now simplify_map_eq | discriminate]
    | queued_step ].
Qed.

Lemma queued_mark_error err rec : respects queued_only_before (Worker.mark_error err rec).
Proof.
  unfold Worker.mark_error. cbv zeta.
  repeat first
    [ apply (update_queued _ _ _ "ERROR");
      [intros old; unfold Ddb.apply_update; simpl; now simplify_map_eq | discriminate]
    | queued_step ].
Qed.

Lemma queued_handle_record cfg failures rec :
  respects queued_only_before (Worker.handle_record cfg failures rec).
Proof.
  unfold Worker.handle_record, Worker.process, Worker.notify. cbv zeta.
  repeat first [ apply queued_fulfil | apply queued_mark_error | queued_step ].
Qed.

Lemma queued_handle_records cfg recs : forall failures,
  respects queued_only_before (Worker.handle_records cfg failures recs).
Proof.
  induction recs as [|rec rest IH]; intros failures; simpl.
  - queued_step.
  - queued_step; [apply queued_handle_record | apply IH].
Qed.

Lemma queued_worker event : respects queued_only_before (Worker.handler event).
Proof.
  unfold Worker.handler. cbv zeta.
  repeat first [ apply queued_handle_records | queued_step ].
Qed.

(** ** The API function *)

Lemma same_table_step_rel w w' : same_table w w' -> table_step w w'.
Proof. intros H. now left. Qed.

Lemma step_bind_l {A B} (m : M A) (k : A -> M B) :
  respects same_table m -> (forall a, respects table_step (k a)) ->
  respects table_step (bind m k).
Proof.
  intros Hm Hk w r w' H. unfold bind in H.
  destruct (m w) as [[a|e] w1] eqn:E.
  - pose proof (Hm _ _ _ E) as Ht. pose proof (Hk _ _ _ _ H) as Hs.
    unfold table_step, same_table in *. now rewrite Ht in Hs.
  - inversion H; subst. left. eapply Hm; eauto.
Qed.

Lemma step_bind_r {A B} (m : M A) (k : A -> M B) :
  respects table_step m -> (forall a, respects same_table (k a)) ->
  respects table_step (bind m k).
Proof.
  intros Hm Hk w r w' H. unfold bind in H.
  destruct (m w) as [[a|e] w1] eqn:E.
  - pose proof (Hm _ _ _ E) as Hs. pose proof (Hk _ _ _ _ H) as Ht.
    unfold table_step, same_table in *. now rewrite Ht.
  - inversion H; subst. eapply Hm; eauto.
Qed.

Lemma step_try_r {A} (m : M A) (h : Error -> M A) :
  respects table_step m -> (forall e, respects same_table (h e)) ->
  respects table_step (try_catch m h).
Proof.
  intros Hm Hh w r w' H. unfold try_catch in H.
  destruct (m w) as [[a|e] w1] eqn:E.
  - inversion H; subst. eapply Hm; eauto.
  - pose proof (Hm _ _ _ E) as Hs. pose proof (Hh _ _ _ _ H) as Ht.
    unfold table_step, same_table in *. now rewrite Ht.
Qed.

Lemma step_put item : respects table_step (Ddb.put item true).
Proof.
  intros w r w' H. apply put_inv in H. destruct r as [[]|e].
  - destruct H as (id & _ & _ & Hfree & ->). right. left. exists id, item.
    split; [exact Hfree|]. reflexivity.
  - left. apply H.
Qed.

Lemma step_delete key : respects table_step (Ddb.delete_item key).
Proof.
  intros w r w' H. unfold Ddb.delete_item, bind, Ddb.send in H.
  destruct (next_fault _).
  { inversion H; subst. left. now rewrite table_advance. }
  destruct key as [|u k].
  - inversion H; subst. left. now rewrite table_advance.
  - inversion H; subst. right. right. exists (u :: k). simpl table.
    now rewrite table_advance.
Qed.

Lemma step_same {A} (m : M A) : respects same_table m -> respects table_step m.
Proof. apply respects_weaken, same_table_step_rel. Qed.

Lemma step_post_tasks user queueUrl event : respects table_step (Api.post_tasks user queueUrl event).
Proof.
  unfold Api.post_tasks.
  destruct (Api.request_body event) as [body|]; [|apply step_same; same_table_step].
  destruct (js_or _ _) as [[| | |s| |]|]; try (apply step_same; same_table_step; fail).
  cbv zeta. destruct (negb (truthy_string (JsString.trim s)));
    [apply step_same; same_table_step|].
  apply step_bind_l; [same_table_step|intros id].
  apply step_bind_l; [same_table_step|intros now].
  apply step_bind_r; [apply step_put|intros _].
  repeat same_table_step.
Qed.

Lemma same_table_get_tasks user event : respects same_table (Api.get_tasks user event).
Proof.
  unfold Api.get_tasks, Api.startKey_of, Api.decodeCursor. cbv zeta.
  repeat first [apply same_table_query | same_table_step].
Qed.

Lemma same_table_get_task user event : respects same_table (Api.get_task user event).
Proof.
  unfold Api.get_task. repeat first [apply same_table_get | same_table_step].
Qed.

Lemma step_delete_task user event : respects table_step (Api.delete_task user event).
Proof.
  unfold Api.delete_task.
  destruct (Api.param _ "id") as [[|u id]|]; try (apply step_same; same_table_step; fail).
  apply step_bind_r; [apply step_delete|intros _]. same_table_step.
Qed.

Lemma step_dispatch user cfg event : respects table_step (Api.dispatch user cfg event).
Proof.
  unfold Api.dispatch.
  destruct (cfg !! str "dynamo-db-table-name") as [[|t q]|]; try (apply step_same; same_table_step; fail).
  destruct (_ && _); [apply step_post_tasks|].
  destruct (_ && _); [apply step_same, same_table_get_tasks|].
  destruct (_ && _); [apply step_same, same_table_get_task|].
  destruct (_ && _); [apply step_delete_task|].
  apply step_same; same_table_step.
Qed.

Lemma step_handler_with identify event :
  (forall cfg, respects same_table (identify event cfg)) ->
  respects table_step (Api.handler_with identify event).
Proof.
  intros Hid. unfold Api.handler_with.
  apply step_try_r; [|intros e; same_table_step].
  destruct (Api.is_method event "OPTIONS"); [apply step_same; same_table_step|].
  apply step_bind_l; [apply same_table_api_loadConfig|intros cfg].
  apply step_bind_l; [apply Hid|intros user].
  apply step_dispatch.
Qed.

Lemma table_step_never_requeued w w' : table_step w w' -> never_requeued w w'.
Proof.
  intros [H | [(k & item & Hfree & H) | (k & H)]] id Hex; unfold has_status, status_of; rewrite H.
  - trivial.
  - destruct (decide (k = id)) as [->|Hne].
    + rewrite Hfree in Hex. now destruct Hex.
    + now rewrite lookup_insert_ne.
  - destruct (decide (k = id)) as [->|Hne].
    + now rewrite lookup_delete_eq.
    + now rewrite lookup_delete_ne.
Qed.

Lemma run_never_requeued op w : never_requeued w (run op w).
Proof.
  destruct op as [event|event|event]; simpl.
  - apply table_step_never_requeued.
    destruct (ApiFunction.handler event w) as [r w'] eqn:E. simpl.
    eapply (step_handler_with (fun _ _ => ret None)); [|exact E].
    intros cfg. same_table_step.
  - apply table_step_never_requeued.
    destruct (AuthApiFunction.handler event w) as [r w'] eqn:E. simpl.
    eapply (step_handler_with Api.identify); [|exact E].
    intros cfg. apply same_table_identify.
  - destruct (Worker.handler event w) as [r w'] eqn:E. simpl.
    intros id _. eapply queued_worker; eauto.
Qed.

(** C3, amended.  In every sequence of operations of the system (requests
    to either variant of the API function, batches delivered to the worker,
    its compensation path included), no operation returns a task to [QUEUED]:
    a task that is in the store before an operation and [QUEUED] after it was
    [QUEUED] before it. *)
Theorem no_task_returns_to_queued ops op w id :
  let before := run_all ops w in
  let after := run op before in
  is_Some (table before !! id) ->
  has_status after id "QUEUED" ->
  has_status before id "QUEUED".
Proof. cbv zeta. apply run_never_requeued. Qed.

(* ===================================================================== *)
(** * base64 round trip *)
(* ===================================================================== *)

(** Linear arithmetic with division and remainder by constants: the
    quotients and remainders of the goal are characterised, then taken as
    unknowns. *)
Ltac div_facts :=
  repeat match goal with
         | |- context [N.div ?x ?c] =>
             lazymatch goal with
             | _ : x = (c * (x / c) + x mod c)%N |- _ => fail
             | _ => pose proof (N.div_mod' x c);
                    pose proof (N.mod_upper_bound x c ltac:(discriminate))
             end
         | |- context [N.modulo ?x ?c] =>
             lazymatch goal with
             | _ : x = (c * (x / c) + x mod c)%N |- _ => fail
             | _ => pose proof (N.div_mod' x c);
                    pose proof (N.mod_upper_bound x c ltac:(discriminate))
             end
         end.

Ltac div_unknowns :=
  repeat match goal with
         | |- context [N.div ?x ?c] =>
             let q := fresh "q" in set (q := N.div x c) in *; clearbody q
         | |- context [N.modulo ?x ?c] =>
             let r := fresh "r" in set (r := N.modulo x c) in *; clearbody r
         | _ : context [N.div ?x ?c] |- _ =>
             let q := fresh "q" in set (q := N.div x c) in *; clearbody q
         | _ : context [N.modulo ?x ?c] |- _ =>
             let r := fresh "r" in set (r := N.modulo x c) in *; clearbody r
         end.

Ltac dlia := div_facts; div_unknowns; lia.

Section Base64.
Local Open Scope N_scope.

Lemma unbase64_alphabet i : i < 64 -> Buffer.unbase64 (Buffer.alphabet i) = Some i.
Proof.
  intros Hi.
  assert (Hall : forallb (fun j => match Buffer.unbase64 (Buffer.alphabet j) with
                                   | Some k => k =? j
                                   | None => false
                                   end) (List.map N.of_nat (seq 0 64)) = true)
    by (vm_compute; reflexivity).
  rewrite forallb_forall in Hall.
  specialize (Hall i).
  destruct (Buffer.unbase64 (Buffer.alphabet i)) as [k|].
  - f_equal. apply N.eqb_eq, Hall.
    apply in_map_iff. exists (N.to_nat i). split; [apply N2Nat.id|].
    apply in_seq. lia.
  - exfalso. assert (false = true); [|discriminate]. apply Hall.
    apply in_map_iff. exists (N.to_nat i). split; [apply N2Nat.id|].
    apply in_seq. lia.
Qed.

Lemma sextets_cons i r :
  i < 64 -> Buffer.sextets (Buffer.alphabet i :: r) = i :: Buffer.sextets r.
Proof. intros Hi. simpl. now rewrite unbase64_alphabet. Qed.

Lemma from_base64_to_base64_bounded n : forall bs,
  (length bs <= n)%nat -> Buffer.wf_bytes bs -> Buffer.from_base64 (Buffer.to_base64 bs) = bs.
Proof.
  unfold Buffer.from_base64.
  induction n as [n IH] using (well_founded_induction lt_wf). intros bs Hlen Hwf.
  destruct bs as [|a [|b [|c r]]].
  - reflexivity.
  - apply Forall_cons in Hwf as [Ha _].
    cbn [Buffer.to_base64].
    rewrite !sextets_cons by dlia.
    assert (Hpad : forall r, Buffer.sextets (61 :: r) = []) by reflexivity.
    rewrite Hpad. cbn [Buffer.octets]. f_equal. dlia.
  - apply Forall_cons in Hwf as [Ha Hwf]. apply Forall_cons in Hwf as [Hb _].
    cbn [Buffer.to_base64].
    rewrite !sextets_cons by dlia.
    assert (Hpad : forall r, Buffer.sextets (61 :: r) = []) by reflexivity.
    rewrite Hpad. cbn [Buffer.octets]. f_equal; [dlia|]. f_equal. dlia.
  - apply Forall_cons in Hwf as [Ha Hwf]. apply Forall_cons in Hwf as [Hb Hwf].
    apply Forall_cons in Hwf as [Hc Hwf].
    cbn [Buffer.to_base64 app].
    rewrite !sextets_cons by dlia.
    cbn [Buffer.octets app].
    rewrite (IH (length r)) with (bs := r); [|simpl in Hlen; lia|lia|exact Hwf].
    f_equal; [dlia|]. f_equal; [dlia|]. f_equal. dlia.
Qed.

Lemma from_base64_to_base64 bs :
  Buffer.wf_bytes bs -> Buffer.from_base64 (Buffer.to_base64 bs) = bs.
Proof. apply (from_base64_to_base64_bounded (length bs)). lia. Qed.

End Base64.

(* ===================================================================== *)
(** * UTF-8 round trip *)
(* ===================================================================== *)

Section Utf8.
Local Open Scope N_scope.

Ltac decide_tests :=
  repeat match goal with
         | |- context [?a <? ?b] =>
             first [ rewrite (proj2 (N.ltb_lt a b)) by lia
                   | rewrite (proj2 (N.ltb_ge a b)) by lia ]
         | |- context [?a <=? ?b] =>
             first [ rewrite (proj2 (N.leb_le a b)) by lia
                   | rewrite (proj2 (N.leb_gt a b)) by lia ]
         end.

Lemma to_utf8_1 a r : a < 128 -> Buffer.to_utf8 (a :: r) = a :: Buffer.to_utf8 r.
Proof. intros H. cbn [Buffer.to_utf8]. now decide_tests. Qed.

Lemma to_utf8_2 a b r :
  194 <= a <= 223 -> 128 <= b <= 191 ->
  Buffer.to_utf8 (a :: b :: r) = (a - 192) * 64 + (b - 128) :: Buffer.to_utf8 r.
Proof.
  intros Ha Hb. cbn [Buffer.to_utf8]. unfold Buffer.is_cont. decide_tests. reflexivity.
Qed.

Lemma to_utf8_3 a b c r :
  224 <= a <= 239 -> 128 <= b <= 191 -> 128 <= c <= 191 ->
  2048 <= (a - 224) * 4096 + (b - 128) * 64 + (c - 128) ->
  ((a - 224) * 4096 + (b - 128) * 64 + (c - 128) < 55296
   \/ 57343 < (a - 224) * 4096 + (b - 128) * 64 + (c - 128)) ->
  Buffer.to_utf8 (a :: b :: c :: r)
  = (a - 224) * 4096 + (b - 128) * 64 + (c - 128) :: Buffer.to_utf8 r.
Proof.
  intros Ha Hb Hc Hlo Hs.
  cbn [Buffer.to_utf8]. cbv zeta. unfold Buffer.is_cont.
  destruct (N.eqb_spec a 224) as [E1|E1]; destruct (N.eqb_spec a 237) as [E2|E2];
    try lia; cbv beta iota; decide_tests; reflexivity.
Qed.

Lemma to_utf8_4 a b c d r :
  240 <= a <= 244 -> 128 <= b <= 191 -> 128 <= c <= 191 -> 128 <= d <= 191 ->
  65536 <= (a - 240) * 262144 + (b - 128) * 4096 + (c - 128) * 64 + (d - 128) <= 1114111 ->
  Buffer.to_utf8 (a :: b :: c :: d :: r)
  = 55296 + ((a - 240) * 262144 + (b - 128) * 4096 + (c - 128) * 64 + (d - 128) - 65536) / 1024
    :: 56320 + ((a - 240) * 262144 + (b - 128) * 4096 + (c - 128) * 64 + (d - 128) - 65536)
               mod 1024
    :: Buffer.to_utf8 r.
Proof.
  intros Ha Hb Hc Hd Hcp.
  cbn [Buffer.to_utf8]. cbv zeta. unfold Buffer.is_cont.
  destruct (N.eqb_spec a 240) as [E1|E1]; destruct (N.eqb_spec a 244) as [E2|E2];
    try lia; cbv beta iota; decide_tests; reflexivity.
Qed.

Lemma is_high_spec u : Json.is_high u = true <-> 55296 <= u <= 56319.
Proof. unfold Json.is_high. rewrite andb_true_iff, !N.leb_le. tauto. Qed.

Lemma is_low_spec u : Json.is_low u = true <-> 56320 <= u <= 57343.
Proof. unfold Json.is_low. rewrite andb_true_iff, !N.leb_le. tauto. Qed.

Lemma not_surrogate u :
  Json.is_high u = false -> Json.is_low u = false -> u < 55296 \/ 57343 < u.
Proof.
  intros Hh Hl.
  destruct (N.lt_ge_cases u 55296) as [?|H1]; [now left|].
  destruct (N.lt_ge_cases 57343 u) as [?|H2]; [now right|].
  exfalso. destruct (N.le_gt_cases u 56319).
  - assert (Json.is_high u = true) by (apply is_high_spec; lia). congruence.
  - assert (Json.is_low u = true) by (apply is_low_spec; lia). congruence.
Qed.

(** Decoding the UTF-8 encoding of a string without lone surrogates gives
    the string back. *)
Lemma to_utf8_from_utf8 s :
  wf_string s -> Paired s -> Buffer.to_utf8 (Buffer.from_utf8 s) = s.
Proof.
  intros Hwf Hp. induction Hp as [|u r Hh Hl Hp IH|u v r Hh Hl Hp IH].
  - reflexivity.
  - apply Forall_cons in Hwf as [Hu Hwf]. specialize (IH Hwf).
    cbn [Buffer.from_utf8]. rewrite Hh, Hl.
    destruct (N.ltb_spec u 128) as [H1|H1].
    + rewrite to_utf8_1 by assumption. now rewrite IH.
    + destruct (N.ltb_spec u 2048) as [H2|H2].
      * cbn [app]. rewrite to_utf8_2 by dlia. rewrite IH. f_equal. dlia.
      * pose proof (not_surrogate u Hh Hl) as Hs.
        assert (Hcp : (224 + u / 4096 - 224) * 4096 + (128 + (u / 64) mod 64 - 128) * 64
                      + (128 + u mod 64 - 128) = u) by dlia.
        cbn [app]. rewrite to_utf8_3; rewrite ?Hcp; try dlia; try assumption.
        now rewrite IH.
  - apply Forall_cons in Hwf as [Hu Hwf]. apply Forall_cons in Hwf as [Hv Hwf].
    specialize (IH Hwf).
    apply is_high_spec in Hh as Hhr. apply is_low_spec in Hl as Hlr.
    cbn [Buffer.from_utf8]. rewrite Hh, Hl.
    rewrite (proj2 (N.ltb_ge u 128)) by lia. rewrite (proj2 (N.ltb_ge u 2048)) by lia.
    cbv zeta. cbn [app].
    set (cp := 65536 + (u - 55296) * 1024 + (v - 56320)).
    assert (Hrange : 65536 <= cp <= 1114111) by (unfold cp; lia).
    assert (Hcp : (240 + cp / 262144 - 240) * 262144 + (128 + (cp / 4096) mod 64 - 128) * 4096
                  + (128 + (cp / 64) mod 64 - 128) * 64 + (128 + cp mod 64 - 128) = cp)
      by dlia.
    rewrite to_utf8_4; rewrite ?Hcp; try dlia.
    rewrite IH. unfold cp. f_equal; [dlia|]. f_equal. dlia.
Qed.

Lemma wf_bytes_from_utf8_bounded n : forall s,
  (length s <= n)%nat -> wf_string s -> Buffer.wf_bytes (Buffer.from_utf8 s).
Proof.
  unfold Buffer.wf_bytes.
  induction n as [n IH] using (well_founded_induction lt_wf). intros s Hlen Hwf.
  destruct s as [|u r]; [constructor|].
  apply Forall_cons in Hwf as [Hu Hwf]. simpl in Hlen.
  assert (IHr : Forall (fun b => b < 256) (Buffer.from_utf8 r))
    by (apply (IH (length r)); [lia|lia|exact Hwf]).
  cbn [Buffer.from_utf8].
  destruct (N.ltb_spec u 128); [constructor; [lia|exact IHr]|].
  destruct (N.ltb_spec u 2048).
  { cbn [app]. repeat (constructor; [dlia|]). exact IHr. }
  destruct (Json.is_high u) eqn:Hh.
  - apply is_high_spec in Hh.
    destruct r as [|v r']; [repeat constructor; lia|].
    destruct (Json.is_low v) eqn:Hl.
    + apply is_low_spec in Hl. apply Forall_cons in Hwf as [Hv Hwf'].
      cbv zeta. cbn [app]. repeat (constructor; [dlia|]).
      simpl in Hlen. apply (IH (length r')); [lia|lia|exact Hwf'].
    + cbn [app]. repeat (constructor; [lia|]). exact IHr.
  - destruct (Json.is_low u).
    + cbn [app]. repeat (constructor; [lia|]). exact IHr.
    + cbn [app]. repeat (constructor; [dlia|]). exact IHr.
Qed.

Lemma wf_bytes_from_utf8 s : wf_string s -> Buffer.wf_bytes (Buffer.from_utf8 s).
Proof. apply (wf_bytes_from_utf8_bounded (length s)). lia. Qed.

End Utf8.

(* ===================================================================== *)
(** * JSON round trip for string-valued objects *)
(* ===================================================================== *)

Section JsonText.
Local Open Scope N_scope.

Lemma hex_value_hex_char d : d < 16 -> Json.hex_value (Json.hex_char d) = Some d.
Proof.
  intros Hd. unfold Json.hex_char, Json.hex_value.
  destruct (N.ltb_spec d 10) as [H|H].
  - rewrite (proj2 (N.leb_le 48 (48 + d))) by lia.
    rewrite (proj2 (N.leb_le (48 + d) 57)) by lia.
    cbn [andb]. f_equal. lia.
  - rewrite (proj2 (N.leb_gt (87 + d) 57)) by lia. rewrite andb_false_r.
    rewrite (proj2 (N.leb_le 97 (87 + d))) by lia.
    rewrite (proj2 (N.leb_le (87 + d) 102)) by lia.
    cbn [andb]. f_equal. lia.
Qed.

Lemma hex_char_ascii d : d < 16 -> Json.hex_char d < 128.
Proof. intros Hd. unfold Json.hex_char. destruct (d <? 10); lia. Qed.

Lemma string_chars_escape u rest :
  u < 65536 ->
  Json.string_chars (Json.unicode_escape u ++ rest) = Json.cons_unit u (Json.string_chars rest).
Proof.
  intros Hu. unfold Json.unicode_escape. cbn [app Json.string_chars].
  change (92 =? 34) with false. change (92 =? 92) with true. change (117 =? 117) with true.
  cbv iota. unfold Json.hex4.
  rewrite !hex_value_hex_char by dlia.
  replace (u / 4096 * 4096 + (u / 256) mod 16 * 256 + (u / 16) mod 16 * 16 + u mod 16)
    with u by dlia.
  reflexivity.
Qed.

Lemma string_chars_literal u rest :
  u <> 34 -> u <> 92 -> 32 <= u ->
  Json.string_chars (u :: rest) = Json.cons_unit u (Json.string_chars rest).
Proof.
  intros H1 H2 H3. cbn [Json.string_chars].
  rewrite (proj2 (N.eqb_neq u 34)) by assumption.
  rewrite (proj2 (N.eqb_neq u 92)) by assumption.
  rewrite (proj2 (N.ltb_ge u 32)) by assumption.
  reflexivity.
Qed.

Lemma string_chars_quote_unit u rest :
  u < 65536 ->
  Json.string_chars (Json.quote_unit u ++ rest) = Json.cons_unit u (Json.string_chars rest).
Proof.
  intros Hu. unfold Json.quote_unit.
  repeat match goal with
         | |- context [if ?x =? ?c then _ else _] =>
             destruct (N.eqb_spec x c) as [->|?]; [reflexivity|]
         end.
  destruct (N.ltb_spec u 32).
  - now apply string_chars_escape.
  - now apply string_chars_literal.
Qed.

(** Reading back a quoted string. *)
Lemma string_chars_quote_units_bounded n : forall s rest,
  (length s <= n)%nat -> wf_string s ->
  Json.string_chars (Json.quote_units s ++ 34 :: rest) = Some (s, rest).
Proof.
  induction n as [n IH] using (well_founded_induction lt_wf). intros s rest Hlen Hwf.
  destruct s as [|u r]; [reflexivity|].
  apply Forall_cons in Hwf as [Hu Hwf]. simpl in Hlen.
  assert (IHr : forall rest', Json.string_chars (Json.quote_units r ++ 34 :: rest') = Some (r, rest'))
    by (intros rest'; apply (IH (length r)); [lia|lia|exact Hwf]).
  cbn [Json.quote_units].
  destruct (Json.is_high u) eqn:Hh.
  - apply is_high_spec in Hh.
    destruct r as [|v r'].
    + rewrite string_chars_escape by assumption. reflexivity.
    + destruct (Json.is_low v) eqn:Hl.
      * apply is_low_spec in Hl. apply Forall_cons in Hwf as [Hv Hwf'].
        cbn [app]. rewrite string_chars_literal by lia.
        rewrite string_chars_literal by lia.
        simpl in Hlen. rewrite (IH (length r')); [reflexivity|lia|lia|exact Hwf'].
      * rewrite <- app_assoc. rewrite string_chars_escape by assumption. now rewrite IHr.
  - destruct (Json.is_low u) eqn:Hl.
    + rewrite <- app_assoc. rewrite string_chars_escape by assumption. now rewrite IHr.
    + rewrite <- app_assoc. rewrite string_chars_quote_unit by assumption. now rewrite IHr.
Qed.

Lemma string_chars_quote_units s rest :
  wf_string s -> Json.string_chars (Json.quote_units s ++ 34 :: rest) = Some (s, rest).
Proof. apply (string_chars_quote_units_bounded (length s)). lia. Qed.

(** ** The text of a quoted string has no lone surrogate *)

Lemma Paired_ascii l r : Forall (fun x => x < 128) l -> Paired r -> Paired (l ++ r).
Proof.
  induction 1 as [|x l Hx _ IH]; intros Hr; [exact Hr|].
  cbn [app]. apply Paired_unit; [| |now apply IH].
  - unfold Json.is_high. rewrite (proj2 (N.leb_gt 55296 x)) by lia. reflexivity.
  - unfold Json.is_low. rewrite (proj2 (N.leb_gt 56320 x)) by lia. reflexivity.
Qed.

Lemma unicode_escape_ascii u : u < 65536 -> Forall (fun x => x < 128) (Json.unicode_escape u).
Proof.
  intros Hu. unfold Json.unicode_escape.
  repeat (constructor; [try lia; apply hex_char_ascii; dlia|]). constructor.
Qed.

Lemma Paired_quote_unit u r :
  u < 65536 -> Json.is_high u = false -> Json.is_low u = false -> Paired r ->
  Paired (Json.quote_unit u ++ r).
Proof.
  intros Hu Hh Hl Hr. unfold Json.quote_unit.
  repeat match goal with
         | |- context [if ?x =? ?c then _ else _] =>
             destruct (N.eqb_spec x c) as [->|?];
             [apply Paired_ascii; [repeat constructor; lia|exact Hr]|]
         end.
  destruct (N.ltb_spec u 32).
  - apply Paired_ascii; [now apply unicode_escape_ascii|exact Hr].
  - now apply Paired_unit.
Qed.

Lemma Paired_quote_units_bounded n : forall s r,
  (length s <= n)%nat -> wf_string s -> Paired r -> Paired (Json.quote_units s ++ r).
Proof.
  induction n as [n IH] using (well_founded_induction lt_wf). intros s r Hlen Hwf Hr.
  destruct s as [|u t]; [exact Hr|].
  apply Forall_cons in Hwf as [Hu Hwf]. simpl in Hlen.
  assert (IHt : Paired (Json.quote_units t ++ r))
    by (apply (IH (length t)); [lia|lia|exact Hwf|exact Hr]).
  cbn [Json.quote_units].
  destruct (Json.is_high u) eqn:Hh.
  - destruct t as [|v t'].
    + apply Paired_ascii; [now apply unicode_escape_ascii|exact Hr].
    + destruct (Json.is_low v) eqn:Hl.
      * apply Forall_cons in Hwf as [Hv Hwf']. cbn [app].
        apply Paired_pair; [assumption|assumption|].
        simpl in Hlen. apply (IH (length t')); [lia|lia|exact Hwf'|exact Hr].
      * rewrite <- app_assoc. apply Paired_ascii; [now apply unicode_escape_ascii|exact IHt].
  - destruct (Json.is_low u) eqn:Hl.
    + rewrite <- app_assoc. apply Paired_ascii; [now apply unicode_escape_ascii|exact IHt].
    + rewrite <- app_assoc. now apply Paired_quote_unit.
Qed.

Lemma Paired_quote s r : wf_string s -> Paired r -> Paired (Json.quote s ++ r).
Proof.
  intros Hwf Hr. unfold Json.quote. cbn [app]. rewrite <- app_assoc.
  apply (Paired_ascii [34]); [repeat constructor; lia|].
  apply (Paired_quote_units_bounded (length s)); [lia|exact Hwf|].
  apply (Paired_ascii [34]); [repeat constructor; lia|exact Hr].
Qed.

Lemma ascii_wf l : Forall (fun x => x < 128) l -> wf_string l.
Proof. intros H. eapply Forall_impl; [exact H|]. intros x Hx. simpl in Hx. lia. Qed.

Lemma wf_quote_unit u : u < 65536 -> wf_string (Json.quote_unit u).
Proof.
  intros Hu. unfold Json.quote_unit.
  repeat match goal with
         | |- context [if ?x =? ?c then _ else _] =>
             destruct (N.eqb_spec x c) as [->|?]; [repeat constructor; lia|]
         end.
  destruct (N.ltb_spec u 32).
  - now apply ascii_wf, unicode_escape_ascii.
  - repeat constructor. exact Hu.
Qed.

Lemma wf_quote_units_bounded n : forall s,
  (length s <= n)%nat -> wf_string s -> wf_string (Json.quote_units s).
Proof.
  induction n as [n IH] using (well_founded_induction lt_wf). intros s Hlen Hwf.
  destruct s as [|u t]; [constructor|].
  apply Forall_cons in Hwf as [Hu Hwf]. simpl in Hlen.
  assert (IHt : wf_string (Json.quote_units t)) by (apply (IH (length t)); [lia|lia|exact Hwf]).
  cbn [Json.quote_units].
  destruct (Json.is_high u).
  - destruct t as [|v t'].
    + now apply ascii_wf, unicode_escape_ascii.
    + destruct (Json.is_low v).
      * apply Forall_cons in Hwf as [Hv Hwf']. constructor; [exact Hu|].
        constructor; [exact Hv|]. simpl in Hlen. apply (IH (length t')); [lia|lia|exact Hwf'].
      * apply Forall_app. split; [now apply ascii_wf, unicode_escape_ascii|exact IHt].
  - destruct (Json.is_low u).
    + apply Forall_app. split; [now apply ascii_wf, unicode_escape_ascii|exact IHt].
    + apply Forall_app. split; [now apply wf_quote_unit|exact IHt].
Qed.

Lemma wf_quote s : wf_string s -> wf_string (Json.quote s).
Proof.
  intros Hwf. unfold Json.quote. apply Forall_app. split; [repeat constructor; lia|].
  apply Forall_app. split; [|repeat constructor; lia].
  now apply (wf_quote_units_bounded (length s)).
Qed.

End JsonText.

Section KeyObjects.
Local Open Scope N_scope.

Lemma stringify_key_object ms :
  Json.stringify (key_object ms) = [123] ++ Json.join [44] (List.map member_text ms) ++ [125].
Proof.
  unfold key_object. cbn [Json.stringify]. rewrite List.map_map. reflexivity.
Qed.

Lemma Paired_members ms r :
  Forall (fun kv => wf_string (fst kv) /\ wf_string (snd kv)) ms ->
  Paired r -> Paired (Json.join [44] (List.map member_text ms) ++ r).
Proof.
  intros Hwf Hr. induction Hwf as [|kv ms [Hk Hv] _ IH]; [exact Hr|].
  assert (Hone : forall r', Paired r' -> Paired (member_text kv ++ r')).
  { intros r' Hr'. unfold member_text. rewrite <- !app_assoc.
    apply Paired_quote; [exact Hk|].
    apply (Paired_ascii [58]); [repeat constructor; lia|].
    now apply Paired_quote. }
  destruct ms as [|kv' ms'].
  - cbn [List.map Json.join]. now apply Hone.
  - change (Json.join [44] (List.map member_text (kv :: kv' :: ms')))
      with (member_text kv ++ [44] ++ Json.join [44] (List.map member_text (kv' :: ms'))).
    rewrite <- !app_assoc. apply Hone.
    apply (Paired_ascii [44]); [repeat constructor; lia|exact IH].
Qed.

Lemma wf_members ms :
  Forall (fun kv => wf_string (fst kv) /\ wf_string (snd kv)) ms ->
  wf_string (Json.join [44] (List.map member_text ms)).
Proof.
  intros Hwf. induction Hwf as [|kv ms [Hk Hv] _ IH]; [constructor|].
  assert (Hone : wf_string (member_text kv)).
  { unfold member_text. apply Forall_app. split; [now apply wf_quote|].
    apply Forall_app. split; [repeat constructor; lia|now apply wf_quote]. }
  destruct ms as [|kv' ms'].
  - exact Hone.
  - change (Json.join [44] (List.map member_text (kv :: kv' :: ms')))
      with (member_text kv ++ [44] ++ Json.join [44] (List.map member_text (kv' :: ms'))).
    apply Forall_app. split; [exact Hone|].
    apply Forall_app. split; [repeat constructor; lia|exact IH].
Qed.

(** The text of a key object is made of 16-bit code units and has no lone
    surrogate. *)
Lemma key_text_well_formed ms :
  wf_key ms ->
  wf_string (Json.stringify (key_object ms)) /\ Paired (Json.stringify (key_object ms)).
Proof.
  intros (_ & _ & Hwf). rewrite stringify_key_object. split.
  - apply Forall_app. split; [repeat constructor; lia|].
    apply Forall_app. split; [now apply wf_members|repeat constructor; lia].
  - apply (Paired_ascii [123]); [repeat constructor; lia|].
    apply Paired_members; [exact Hwf|].
    apply (Paired_ascii [125]); [repeat constructor; lia|constructor].
Qed.

Lemma get_fresh k acc : k ∉ List.map fst acc -> Json.get k acc = None.
Proof.
  induction acc as [|[k' v'] acc IH]; intros Hk; [reflexivity|].
  cbn [Json.get]. unfold jsstring_eqb.
  rewrite bool_decide_eq_false_2.
  - apply IH. intros Hin. apply Hk. cbn [List.map fst]. now right.
  - intros ->. apply Hk. cbn [List.map fst]. now left.
Qed.

(** A new member whose name is not an array index goes last. *)
Lemma define_fresh k v acc :
  k ∉ List.map fst acc -> Json.array_index k = None ->
  Json.define k v acc = acc ++ [(k, v)].
Proof. intros Hk Hi. unfold Json.define. now rewrite (get_fresh k acc Hk), Hi. Qed.

Lemma value_string f r :
  Json.value (S f) (34 :: r)
  = match Json.string_chars r with
    | Some (t, r1) => Some (JStr t, r1)
    | None => None
    end.
Proof. reflexivity. Qed.

Lemma members_step f r acc :
  Json.members (S f) (34 :: r) acc
  = match Json.string_chars r with
    | Some (k, r1) =>
        match Json.skip_ws r1 with
        | 58 :: r2 =>
            match Json.value f r2 with
            | Some (v, r3) =>
                match Json.skip_ws r3 with
                | 44 :: r4 => Json.members f r4 (Json.define k v acc)
                | 125 :: r4 => Some (JObj (Json.define k v acc), r4)
                | _ => None
                end
            | None => None
            end
        | _ => None
        end
    | None => None
    end.
Proof. reflexivity. Qed.

(** Reading back the members of a key object. *)
Lemma members_key_object ms : forall acc fuel rest,
  ms <> [] ->
  (length ms < fuel)%nat ->
  NoDup (List.map fst acc ++ List.map fst ms) ->
  Forall (fun kv => Json.array_index (fst kv) = None) ms ->
  Forall (fun kv => wf_string (fst kv) /\ wf_string (snd kv)) ms ->
  Json.members fuel (Json.join [44] (List.map member_text ms) ++ 125 :: rest) acc
  = Some (JObj (acc ++ List.map (fun kv => (fst kv, JStr (snd kv))) ms), rest).
Proof.
  induction ms as [|[k v] ms IH]; intros acc fuel rest Hne Hfuel Hnd Hidx Hwf; [congruence|].
  apply Forall_cons in Hwf as [[Hk Hv] Hwf]. cbn [fst snd] in Hk, Hv.
  apply Forall_cons in Hidx as [Hi Hidx]. cbn [fst] in Hi.
  destruct fuel as [|[|f]]; [simpl in Hfuel; lia | simpl in Hfuel; lia |].
  assert (Hfresh : k ∉ List.map fst acc).
  { cbn [List.map fst] in Hnd. apply NoDup_app in Hnd as (_ & Hdis & _).
    intros Hin. apply (Hdis k Hin). now left. }
  assert (Hnd' : NoDup (List.map fst (acc ++ [(k, JStr v)]) ++ List.map fst ms)).
  { rewrite List.map_app. cbn [List.map fst]. rewrite <- app_assoc. exact Hnd. }
  assert (Hhead : forall tail,
             Json.members (S (S f)) (member_text (k, v) ++ tail) acc
             = match Json.skip_ws tail with
               | 44 :: r4 => Json.members (S f) r4 (acc ++ [(k, JStr v)])
               | 125 :: r4 => Some (JObj (acc ++ [(k, JStr v)]), r4)
               | _ => None
               end).
  { intros tail. unfold member_text, Json.quote. cbn [fst snd app].
    rewrite <- !app_assoc. cbn [app].
    rewrite members_step. rewrite string_chars_quote_units by assumption.
    cbn [Json.skip_ws]. change (Json.is_ws 58) with false. cbv iota.
    rewrite value_string. rewrite <- app_assoc. cbn [app].
    rewrite string_chars_quote_units by assumption.
    now rewrite define_fresh. }
  destruct ms as [|kv' ms'].
  - cbn [List.map Json.join]. rewrite Hhead. reflexivity.
  - change (Json.join [44] (List.map member_text ((k, v) :: kv' :: ms')))
      with (member_text (k, v) ++ [44] ++ Json.join [44] (List.map member_text (kv' :: ms'))).
    rewrite <- !app_assoc. rewrite Hhead. cbn [app Json.skip_ws].
    change (Json.is_ws 44) with false. cbv iota.
    rewrite IH; [|discriminate|simpl in Hfuel |- *; lia|exact Hnd'|exact Hidx|exact Hwf].
    rewrite <- app_assoc. reflexivity.
Qed.

Lemma length_join_members ms :
  (length ms <= length (Json.join [44%N] (List.map member_text ms)))%nat.
Proof.
  induction ms as [|kv ms IH]; [simpl; lia|].
  assert (Hone : (1 <= length (member_text kv))%nat)
    by (unfold member_text, Json.quote; rewrite !length_app; simpl; lia).
  destruct ms as [|kv' ms'].
  - simpl. cbn [List.map Json.join] in *. lia.
  - change (Json.join [44] (List.map member_text (kv :: kv' :: ms')))
      with (member_text kv ++ [44] ++ Json.join [44] (List.map member_text (kv' :: ms'))).
    rewrite !length_app. simpl length in *. lia.
Qed.

(** [JSON.parse] reads back what [JSON.stringify] wrote for a key
    object. *)
Lemma parse_stringify_key_object ms :
  wf_key ms -> Json.parse (Json.stringify (key_object ms)) = Some (key_object ms).
Proof.
  intros (Hnd & Hidx & Hwf). unfold Json.parse. rewrite stringify_key_object.
  destruct ms as [|kv ms]; [reflexivity|].
  set (text := Json.join [44] (List.map member_text (kv :: ms))).
  assert (Hq : exists t, text = 34 :: t).
  { unfold text. destruct ms as [|kv' ms'].
    - cbn [List.map Json.join]. unfold member_text, Json.quote. cbn [app]. eauto.
    - change (Json.join [44] (List.map member_text (kv :: kv' :: ms')))
        with (member_text kv ++ [44] ++ Json.join [44] (List.map member_text (kv' :: ms'))).
      unfold member_text, Json.quote. cbn [app]. eauto. }
  destruct Hq as [t Ht].
  assert (Hlen : (length (kv :: ms) <= length text)%nat) by apply length_join_members.
  assert (Hfuel : exists f, (2 * length ([123%N] ++ text ++ [125%N]) + 2 = S f)%nat
                            /\ (length (kv :: ms) < f)%nat).
  { exists (2 * length ([123%N] ++ text ++ [125%N]) + 1)%nat. split; [lia|].
    rewrite !length_app. simpl length in *. lia. }
  destruct Hfuel as (f & -> & Hf).
  cbn [app Json.value Json.skip_ws]. change (Json.is_ws 123) with false. cbv iota.
  change (123 =? 123) with true. cbv iota.
  rewrite Ht. cbn [app Json.skip_ws]. change (Json.is_ws 34) with false. cbv iota.
  change (34 :: t ++ [125]) with ((34 :: t) ++ 125 :: []). rewrite <- Ht.
  unfold text.
  rewrite members_key_object;
    [reflexivity|discriminate|exact Hf|exact Hnd|exact Hidx|exact Hwf].
Qed.

End KeyObjects.

(* ===================================================================== *)
(** * The cursor *)
(* ===================================================================== *)

Lemma to_base64_nonempty bs : bs <> [] -> Buffer.to_base64 bs <> [].
Proof. destruct bs as [|a [|b [|c r]]]; [congruence|discriminate..]. Qed.

Lemma encodeCursor_nonempty ms : exists u c, Api.encodeCursor (key_object ms) = u :: c.
Proof.
  unfold Api.encodeCursor. rewrite stringify_key_object.
  assert (Hb : exists b bs, Buffer.from_utf8 ([123] ++ Json.join [44] (List.map member_text ms) ++ [125])%N
                            = b :: bs).
  { cbn [app Buffer.from_utf8]. change (123 <? 128)%N with true. cbv iota. eauto. }
  destruct Hb as (b & bs & ->).
  destruct (Buffer.to_base64 (b :: bs)) eqn:E; [|eauto].
  now apply to_base64_nonempty in E.
Qed.

Section Cursor.

Lemma decodeCursor_encodeCursor ms w :
  wf_key ms -> Api.decodeCursor (Api.encodeCursor (key_object ms)) w = (Ok (key_object ms), w).
Proof.
  intros Hk. destruct (key_text_well_formed ms Hk) as [Hwf Hp].
  unfold Api.decodeCursor, Api.encodeCursor, JSON_parse.
  rewrite from_base64_to_base64 by now apply wf_bytes_from_utf8.
  rewrite to_utf8_from_utf8 by assumption.
  now rewrite parse_stringify_key_object.
Qed.

Lemma key_to_json_key_object k :
  Ddb.key_to_json k
  = key_object [(str "pk", k_pk k); (str "createdAt", k_createdAt k); (str "id", k_id k)].
Proof. reflexivity. Qed.

Lemma wf_key_index_key k :
  wf_index_key k ->
  wf_key [(str "pk", k_pk k); (str "createdAt", k_createdAt k); (str "id", k_id k)].
Proof.
  intros (Hp & Hc & Hi). split; [|split].
  - cbn [List.map fst]. repeat constructor; rewrite ?elem_of_cons, ?elem_of_nil; vm_compute;
      intuition discriminate.
  - repeat constructor.
  - repeat constructor; cbn [fst snd]; try assumption; vm_compute; repeat constructor.
Qed.

(** The store recognises the keys it hands out. *)
Lemma key_of_json_key_to_json k : Ddb.key_of_json (Ddb.key_to_json k) = Some k.
Proof. destruct k. reflexivity. Qed.

Lemma startKey_of_encodeCursor qs k w :
  wf_index_key k ->
  Api.param qs "cursor" = Some (Api.encodeCursor (Ddb.key_to_json k)) ->
  Api.startKey_of qs w = (Ok (Some (Ddb.key_to_json k)), w).
Proof.
  intros Hk Hq. unfold Api.startKey_of. rewrite Hq.
  rewrite key_to_json_key_object in *.
  destruct (encodeCursor_nonempty [(str "pk", k_pk k); (str "createdAt", k_createdAt k); (str "id", k_id k)])
    as (u & c & E).
  rewrite E, <- E. unfold bind.
  rewrite decodeCursor_encodeCursor by now apply wf_key_index_key.
  reflexivity.
Qed.

Lemma index_entry_wf t e : wf_table t -> e ∈ Ddb.index t -> wf_index_key (fst e).
Proof.
  intros Ht He. unfold Ddb.index in He.
  rewrite merge_sort_Permutation in He.
  apply list_elem_of_omap in He as ([id item] & Hin & He).
  apply elem_of_map_to_list in Hin. destruct (Ht id item Hin) as [Hid Hitem].
  unfold Ddb.index_entry in He. cbn [fst snd] in He.
  destruct (item !! "pk"%string) as [[p|]|] eqn:Ep; try discriminate.
  destruct (item !! "createdAt"%string) as [[c|]|] eqn:Ec; try discriminate.
  injection He as <-. cbn [fst]. repeat split; cbn; eauto.
Qed.

(** What a query can report as its last evaluated key. *)
Lemma run_query_LastEvaluatedKey t pk limit start names :
  Ddb.LastEvaluatedKey (Ddb.run_query t pk limit start names) = None
  \/ exists e, e ∈ Ddb.index t
       /\ Ddb.LastEvaluatedKey (Ddb.run_query t pk limit start names) = Some (Ddb.key_to_json (fst e)).
Proof.
  unfold Ddb.run_query. cbn [Ddb.LastEvaluatedKey].
  set (matching := List.filter _ (Ddb.index t)).
  set (rest := match start with Some k => _ | None => matching end).
  destruct (limit <=? length rest)%nat; [|now left].
  destruct (last (take limit rest)) as [e|] eqn:El; [|now left].
  right. exists e. split; [|reflexivity].
  assert (Hpage : e ∈ take limit rest).
  { apply last_Some in El as [l' ->]. apply elem_of_app. right. now apply list_elem_of_singleton. }
  assert (Hrest : e ∈ rest).
  { apply list_elem_of_In. apply list_elem_of_In in Hpage.
    rewrite <- (take_drop limit rest). apply in_or_app. now left. }
  assert (Hm : e ∈ matching).
  { unfold rest in Hrest. destruct start; [|exact Hrest].
    apply list_elem_of_In in Hrest. apply filter_In in Hrest as [Hrest _].
    now apply list_elem_of_In. }
  unfold matching in Hm. apply list_elem_of_In in Hm. apply filter_In in Hm as [Hm _].
  now apply list_elem_of_In.
Qed.

Lemma query_LastEvaluatedKey pk limit startKey names w out w' :
  Ddb.query pk limit startKey names w = (Ok out, w') ->
  table w' = table w
  /\ (Ddb.LastEvaluatedKey out = None
      \/ exists e, e ∈ Ddb.index (table w)
           /\ Ddb.LastEvaluatedKey out = Some (Ddb.key_to_json (fst e))).
Proof.
  unfold Ddb.query, bind, Ddb.send, throw. intros H.
  destruct (next_fault (ddb_faults w)); [discriminate|].
  destruct (Num.to_Z limit) as [[|n|n]|]; try discriminate.
  destruct startKey as [v|].
  - destruct (Ddb.key_of_json v); [|discriminate].
    injection H as <- <-. rewrite table_advance. cbn [table with_ddb].
    split; [reflexivity|apply run_query_LastEvaluatedKey].
  - injection H as <- <-. rewrite table_advance. cbn [table with_ddb].
    split; [reflexivity|apply run_query_LastEvaluatedKey].
Qed.

(** A List call hands its decoded cursor to the store. *)
Lemma get_tasks_sends user event k w :
  wf_index_key k ->
  carries_cursor event (Api.encodeCursor (Ddb.key_to_json k)) ->
  ddb_log (snd (Api.get_tasks user event w))
  = ddb_log w ++ [QueryCommand (Api.limit_of (Api.queryStringParameters event))
                    (Some (Ddb.key_to_json k))].
Proof.
  intros Hk Hc. unfold Api.get_tasks. cbv zeta. unfold bind at 1.
  rewrite (startKey_of_encodeCursor _ k) by assumption.
  unfold Ddb.query, bind, Ddb.send, throw, ret.
  rewrite key_of_json_key_to_json.
  destruct (next_fault (ddb_faults w)); cbn [snd]; [now rewrite ddb_log_advance|].
  destruct (Num.to_Z _) as [[|n|n]|]; cbn [snd]; now rewrite ddb_log_advance.
Qed.

End Cursor.

(** C7.  The pagination cursor round-trips the store's continuation key.
    Whenever a query of the store succeeds on a table of well-formed
    strings, either it reports no last evaluated key and the cursor of the
    response is [null], or it reports a key and the cursor is a non-empty
    string, the base64 text of the key's JSON, such that any later List call
    carrying that cursor decodes it to exactly the reported key, in any
    state of the world, and sends that key to the store as its exclusive
    start key, which the store recognises. *)
Theorem cursor_round_trip pk limit startKey names w out w' :
  wf_table (table w) ->
  Ddb.query pk limit startKey names w = (Ok out, w') ->
  match Ddb.LastEvaluatedKey out with
  | None => Api.cursor_of (Ddb.LastEvaluatedKey out) = JNull
  | Some key =>
      exists cursor k,
        Api.cursor_of (Ddb.LastEvaluatedKey out) = JStr cursor
        /\ cursor = Buffer.to_base64 (Buffer.from_utf8 (Json.stringify key))
        /\ cursor <> []
        /\ Ddb.key_of_json key = Some k
        /\ forall user event w2,
             carries_cursor event cursor ->
             Api.decodeCursor cursor w2 = (Ok key, w2)
             /\ Api.startKey_of (Api.queryStringParameters event) w2 = (Ok (Some key), w2)
             /\ ddb_log (snd (Api.get_tasks user event w2))
                = ddb_log w2 ++ [QueryCommand (Api.limit_of (Api.queryStringParameters event))
                                   (Some key)]
  end.
Proof.
  intros Ht Hq. apply query_LastEvaluatedKey in Hq as [_ [-> | (e & He & ->)]]; [reflexivity|].
  pose proof (index_entry_wf _ _ Ht He) as Hk.
  exists (Api.encodeCursor (Ddb.key_to_json (fst e))), (fst e).
  split; [reflexivity|]. split; [reflexivity|]. split.
  { rewrite key_to_json_key_object.
    destruct (encodeCursor_nonempty [(str "pk", k_pk (fst e)); (str "createdAt", k_createdAt (fst e));
                                     (str "id", k_id (fst e))]) as (u & c & ->).
    discriminate. }
  split; [apply key_of_json_key_to_json|].
  intros user event w2 Hc. split; [|split].
  - rewrite key_to_json_key_object. apply decodeCursor_encodeCursor. now apply wf_key_index_key.
  - now apply startKey_of_encodeCursor.
  - now apply get_tasks_sends.
Qed.

(* ===================================================================== *)
(** * The functions at work *)
(* ===================================================================== *)

(** The configuration that the functions load in the scenario. *)
Lemma scenario_loadConfig t sqs sns backend :
  Api.loadConfig (Scenario.world t sqs sns backend)
  = (Ok Scenario.config, snd (Api.loadConfig (Scenario.world t sqs sns backend))).
Proof. reflexivity. Qed.

(** C1, counterexample.  The queue is down: Create stores the task and
    answers 500. *)
Lemma publish_failure_fails_create :
  ~ publish_is_best_effort (Scenario.create "  Photosynthesis ") Scenario.queue_down.
Proof.
  intros H.
  set (out := ApiFunction.handler (Scenario.create "  Photosynthesis ") Scenario.queue_down).
  assert (E : out = (Ok (Api.res 500 (Api.server_error Scenario.unavailable) []), snd out))
    by (vm_compute; reflexivity).
  specialize (H (Api.res 500 (Api.server_error Scenario.unavailable) []) (snd out) E).
  assert (Hs : task_stored Scenario.queue_down (snd out)).
  { exists Scenario.task_id,
      (Api.new_item Scenario.task_id Scenario.topic (Date.toISOString 1700000000300)).
    split; vm_compute; reflexivity. }
  specialize (H Hs). discriminate H.
Qed.

(** C2, counterexample.  The notification channel is down: the record is
    named in the failures and the task ends as [ERROR]. *)
Lemma notice_failure_is_not_swallowed :
  ~ notice_failure_is_swallowed Scenario.config (Scenario.record Scenario.work)
      Scenario.notice_down.
Proof.
  intros H.
  set (rec := Scenario.record Scenario.work).
  set (r1 := Worker.fulfil Scenario.config rec Scenario.notice_down).
  assert (E1 : r1 = (Ok (JStr Scenario.task_id, JStr Scenario.topic), snd r1))
    by (vm_compute; reflexivity).
  set (r2 := Worker.notify Scenario.config (JStr Scenario.task_id) (JStr Scenario.topic) (snd r1)).
  assert (E2 : r2 = (Throw Scenario.unavailable, snd r2)) by (vm_compute; reflexivity).
  set (r3 := Worker.handle_record Scenario.config [] rec Scenario.notice_down).
  assert (E3 : r3 = (Ok [str "m-1"], snd r3)) by (vm_compute; reflexivity).
  destruct (H Scenario.task_id (JStr Scenario.topic) (snd r1) Scenario.unavailable (snd r2)
              [] [str "m-1"] (snd r3) E1 E2 E3) as [Hf _].
  discriminate Hf.
Qed.

(** C3, counterexample.  The work item of a task that is [DONE] is
    delivered again while the backend is overloaded: the task ends as
    [ERROR]. *)
Lemma done_is_not_terminal :
  ~ status_is_monotone (WorkerBatch (Scenario.batch Scenario.work)) Scenario.redelivered.
Proof.
  intros [Hdone _]. specialize (Hdone Scenario.task_id).
  assert (Hbefore : has_status Scenario.redelivered Scenario.task_id "DONE")
    by (vm_compute; reflexivity).
  specialize (Hdone Hbefore). vm_compute in Hdone. discriminate Hdone.
Qed.

(** C4, counterexample.  A message that names the task but has no topic:
    the record is named in the failures and one write is sent to the store. *)
Lemma malformed_record_writes_error :
  ~ malformed_record_writes_nothing Scenario.config (Scenario.record Scenario.no_topic)
      Scenario.queued.
Proof.
  intros H.
  set (rec := Scenario.record Scenario.no_topic).
  set (r := Worker.handle_record Scenario.config [] rec Scenario.queued).
  assert (E : r = (Ok [str "m-1"], snd r)) by (vm_compute; reflexivity).
  assert (Hp : Json.parse (Worker.body rec) = Some Scenario.no_topic)
    by (vm_compute; reflexivity).
  assert (Hl : lacks Scenario.no_topic "id" \/ lacks Scenario.no_topic "topic")
    by (right; reflexivity).
  destruct (H Scenario.no_topic [] [str "m-1"] (snd r) Hp Hl E) as [_ Hw].
  vm_compute in Hw. discriminate Hw.
Qed.

(** C8.  A token whose [exp] is the current second is accepted: the
    identity extractor compares with [<], so it rejects a token only from the
    second after its expiry on. *)
Theorem token_expiring_now_is_accepted :
  let event := Scenario.with_bearer (Scenario.list_tasks "10") in
  let w := Scenario.fresh in
  exists payload user,
    Api.parseJWT Scenario.token w = (Ok payload, w)
    /\ Json.prop payload "exp" = Some (JNum (Num.of_Z (now w / 1000)))
    /\ Api.getAuthenticatedUser event Scenario.config w = (Ok (Some user), w)
    /\ Api.user_id user = Some (JStr (str "user-1")).
Proof.
  cbv zeta. eexists. eexists.
  split; [vm_compute; reflexivity|].
  split; [vm_compute; reflexivity|].
  split; [vm_compute; reflexivity|].
  reflexivity.
Qed.

(** C9.  The identity extractor turns every failure of its own into the
    absence of a user, but the handler then writes the user to its log with
    [`ID: ${user.id}`], which converts the subject of the token to a string,
    and nothing has checked that it has one.  A token that nobody signed, whose
    claims are in order and whose subject is an object with a member
    [toString], makes that line throw: the List request that carries it is
    answered 500 with the [TypeError], where the same request without the
    header is answered 200. *)
Theorem unloggable_identity_fails_the_request :
  let plain := Scenario.list_tasks "10" in
  let crafted := Cases.with_authorization (str "Bearer " ++ Cases.crafted_token) plain in
  let w := Scenario.fresh in
  let unloggable :=
    mkError (str "TypeError") (str "Cannot convert object to primitive value") in
  same_but_headers crafted plain
  /\ (exists user,
        Api.getAuthenticatedUser crafted Scenario.config w = (Ok (Some user), w)
        /\ Api.user_id user = Some (JObj [(str "toString", JNum (Num.of_Z 1))]))
  /\ (exists r w',
        AuthApiFunction.handler plain w = (Ok r, w')
        /\ Api.statusCode r = 200%Z
        /\ Api.body r = Json.stringify (Api.list_body [] JNull))
  /\ (exists r w',
        AuthApiFunction.handler crafted w = (Ok r, w')
        /\ Api.statusCode r = 500%Z
        /\ Api.body r = Json.stringify (Api.server_error unloggable)).
Proof.
  cbv zeta. split; [repeat split; reflexivity|].
  split; [eexists; split; [vm_compute; reflexivity|reflexivity]|].
  split.
  - eexists. eexists. split; [vm_compute; reflexivity|]. split; vm_compute; reflexivity.
  - eexists. eexists. split; [vm_compute; reflexivity|]. split; vm_compute; reflexivity.
Qed.

(** C5, at work: a Create request with a blank topic on a fresh
    runtime. *)
Lemma create_blank_topic_rejected_witness :
  ApiFunction.handler (Scenario.create "   ") Scenario.fresh
  = (Ok (Api.res 422 (Api.message_body "Field 'topic' is required") []),
     snd (Api.loadConfig Scenario.fresh)).
Proof.
  refine (proj1 (create_blank_topic_rejected (Scenario.create "   ") Scenario.fresh
                   Scenario.config (snd (Api.loadConfig Scenario.fresh)) (str "tasks")
                   (Some (JObj [(str "topic", JStr (str "   "))])) _ _ _ _ _ _ _)).
  - vm_compute; reflexivity.
  - vm_compute; reflexivity.
  - vm_compute; reflexivity.
  - vm_compute; reflexivity.
  - discriminate.
  - vm_compute; reflexivity.
  - right. exists (str "   "). split; [reflexivity|]. repeat constructor.
Defined.

(** C1, at work: Create while the queue is down. *)
Lemma create_publish_outcomes_witness :
  fst (ApiFunction.handler (Scenario.create "  Photosynthesis ") Scenario.queue_down)
  = Ok (Api.res 500 (Api.server_error Scenario.unavailable) []).
Proof.
  pose proof (create_publish_outcomes (Scenario.create "  Photosynthesis ") Scenario.queue_down
                Scenario.config (snd (Api.loadConfig Scenario.queue_down)) (str "tasks")
                (Some (JObj [(str "topic", JStr (str "  Photosynthesis "))])) Scenario.topic)
    as H.
  destruct H as (_ & _ & H).
  - vm_compute; reflexivity.
  - vm_compute; reflexivity.
  - vm_compute; reflexivity.
  - vm_compute; reflexivity.
  - discriminate.
  - vm_compute; reflexivity.
  - exists (str "  Photosynthesis "). split; [reflexivity|].
    split; [vm_compute; reflexivity | discriminate].
  - vm_compute; reflexivity.
  - discriminate.
  - vm_compute; reflexivity.
  - destruct (H (str "https://sqs.eu-central-1.amazonaws.com/1/tasks") Scenario.unavailable)
      as (w' & E & _).
    + vm_compute; reflexivity.
    + discriminate.
    + vm_compute; reflexivity.
    + rewrite E. reflexivity.
Defined.

(** C10, at work: Create on a fresh runtime. *)
Lemma create_task_and_work_item_coherent_witness :
  exists id item,
    table (snd (ApiFunction.handler (Scenario.create "  Photosynthesis ") Scenario.fresh)) !! id
    = Some item
    /\ item !! "updatedAt"%string = item !! "createdAt"%string.
Proof.
  destruct (create_task_and_work_item_coherent (Scenario.create "  Photosynthesis ")
              Scenario.fresh
              (Api.res 201 (Api.created_body Scenario.task_id Scenario.topic
                              (Date.toISOString 1700000000300)) [])
              (snd (ApiFunction.handler (Scenario.create "  Photosynthesis ") Scenario.fresh)))
    as (cfg & id & topic & now & body & item & _ & _ & _ & _ & Hlook & _ & _ & _ & Hc & Hu & _).
  - vm_compute; reflexivity.
  - vm_compute; reflexivity.
  - left. vm_compute; reflexivity.
  - reflexivity.
  - exists id, item. split; [exact Hlook|]. now rewrite Hc, Hu.
Defined.

(** C6, at work: a List request that asks for 1000 items. *)
Lemma list_limit_witness :
  let event := Scenario.list_tasks "1000" in
  let w := Scenario.world (Scenario.stored "DONE") [] [] [] in
  exists items cursor n,
    Api.body (match fst (ApiFunction.handler event w) with
              | Ok r => r
              | Throw _ => Api.res 500 JNull []
              end)
    = Json.stringify (Api.list_body items cursor)
    /\ Num.to_Z (Api.limit_of (Api.queryStringParameters event)) = Some n
    /\ (Z.of_nat (length items) <= n <= 100)%Z.
Proof.
  cbv zeta.
  destruct (list_limit (Scenario.list_tasks "1000")
              (Scenario.world (Scenario.stored "DONE") [] [] [])) as (_ & _ & H).
  set (out := ApiFunction.handler (Scenario.list_tasks "1000")
                (Scenario.world (Scenario.stored "DONE") [] [] [])).
  assert (E : out = (Ok (match fst out with Ok r => r | Throw _ => Api.res 500 JNull [] end),
                     snd out)) by (vm_compute; reflexivity).
  apply (H _ (snd out)).
  - vm_compute; reflexivity.
  - vm_compute; reflexivity.
  - vm_compute; reflexivity.
  - left. exact E.
  - vm_compute; reflexivity.
Defined.

(** C2, at work: the notification channel is down. *)
Lemma notice_failure_fails_the_record_witness :
  exists k w',
    JStr Scenario.task_id = JStr k
    /\ has_status (snd (Worker.fulfil Scenario.config (Scenario.record Scenario.work)
                          Scenario.notice_down)) k "DONE"
    /\ Worker.handle_record Scenario.config [] (Scenario.record Scenario.work)
         Scenario.notice_down
       = (Ok ([] ++ [Worker.messageId (Scenario.record Scenario.work)]), w')
    /\ (next_fault (ddb_faults (snd (Worker.fulfil Scenario.config
                                       (Scenario.record Scenario.work) Scenario.notice_down)))
        = None ->
        has_status w' k "ERROR"
        /\ attribute_of w' k "error" = Some (AttrS (Worker.describe Scenario.unavailable))).
Proof.
  apply (notice_failure_fails_the_record Scenario.config (Scenario.record Scenario.work) []
           Scenario.notice_down (JStr Scenario.task_id) (JStr Scenario.topic)
           (snd (Worker.fulfil Scenario.config (Scenario.record Scenario.work)
                   Scenario.notice_down))
           (str "arn:aws:sns:eu-central-1:1:notes-ready") Scenario.unavailable).
  - vm_compute; reflexivity.
  - vm_compute; reflexivity.
  - discriminate.
  - exists Scenario.topic. reflexivity.
  - vm_compute; reflexivity.
Defined.

(** C3, at work: a task is created and listed; then the work item of a
    second task is delivered and the worker fulfils it, writing [PROCESSING]
    and [DONE] under the second [id].  The first task is [QUEUED] after the
    batch, as it was before. *)
Lemma no_task_returns_to_queued_witness :
  has_status
    (run_all [ApiCall (Scenario.create "Photosynthesis");
              AuthApiCall (Scenario.with_bearer (Scenario.list_tasks "10"))] Cases.ready)
    Scenario.task_id "QUEUED".
Proof.
  apply (no_task_returns_to_queued
           [ApiCall (Scenario.create "Photosynthesis");
            AuthApiCall (Scenario.with_bearer (Scenario.list_tasks "10"))]
           (WorkerBatch (Scenario.batch Cases.second_work)) Cases.ready Scenario.task_id).
  - apply (bool_decide_unpack _). vm_compute. exact I.
  - vm_compute; reflexivity.
Defined.

(** C4, at work: a message that names the task but has no topic. *)
Lemma malformed_record_is_reported_witness :
  exists report w',
    Worker.handler (Scenario.batch Scenario.no_topic) Scenario.queued = (Ok report, w')
    /\ Worker.messageId (Scenario.record Scenario.no_topic) ∈ Worker.batchItemFailures report.
Proof.
  refine (proj1 (malformed_record_is_reported (Scenario.batch Scenario.no_topic) Scenario.queued
                   [Scenario.record Scenario.no_topic] (Scenario.record Scenario.no_topic)
                   Scenario.no_topic _ _ _ _)).
  - reflexivity.
  - constructor.
  - vm_compute; reflexivity.
  - right. reflexivity.
Defined.

(** ** Well-formed scenarios *)

Lemma wf_str s : wf_string (str s).
Proof.
  induction s as [|a s IH]; [constructor|].
  unfold str in *. cbn [list_ascii_of_string List.map]. constructor; [|exact IH].
  pose proof (N_ascii_bounded a). lia.
Qed.

Lemma wf_new_item id topic now name s :
  wf_string id -> wf_string topic -> wf_string now ->
  Api.new_item id topic now !! name = Some (AttrS s) -> wf_string s.
Proof.
  intros Hid Htopic Hnow. unfold Api.new_item. intros H.
  repeat (apply lookup_insert_Some in H as [[_ H] | [_ H]];
          [injection H as <-; first [assumption | apply wf_str | constructor] |]);
    try (apply lookup_insert_Some in H as [[_ H] | [_ H]]; [discriminate|]).
  now rewrite lookup_empty in H.
Qed.

Lemma wf_stored status : wf_table (Scenario.stored status).
Proof.
  intros id item H. unfold Scenario.stored in H.
  apply lookup_singleton_Some in H as [<- <-]. split; [apply wf_str|].
  intros name s H. apply lookup_insert_Some in H as [[_ H] | [_ H]].
  - injection H as <-. apply wf_str.
  - apply (wf_new_item _ _ _ _ _ (wf_str _) (wf_str _)) in H; [exact H|].
    apply (bool_decide_unpack (Forall (fun u => (u < 65536)%N) Scenario.created)).
    vm_compute. exact I.
Qed.

(** C7, at work: the first page of a one-task store, and the request for
    the page after it. *)
Lemma cursor_round_trip_witness :
  let w := Scenario.world (Scenario.stored "DONE") [] [] [] in
  let key := Ddb.key_to_json (mkIndexKey (str "TASK") Scenario.created Scenario.task_id) in
  let first_page :=
    Ddb.query (str "TASK") (Num.of_Z 1) None ["id"; "topic"; "status"; "createdAt"; "updatedAt"]%string w in
  let next :=
    Scenario.request "GET" "/prod/tasks" "/tasks"
      (Some [(str "cursor", Api.encodeCursor key)]) None in
  (exists out, fst first_page = Ok out /\ Ddb.LastEvaluatedKey out = Some key)
  /\ Api.startKey_of (Api.queryStringParameters next) Scenario.fresh = (Ok (Some key), Scenario.fresh).
Proof.
  cbv zeta.
  set (w := Scenario.world (Scenario.stored "DONE") [] [] []).
  set (key := Ddb.key_to_json (mkIndexKey (str "TASK") Scenario.created Scenario.task_id)).
  set (names := ["id"; "topic"; "status"; "createdAt"; "updatedAt"]%string).
  set (q := Ddb.query (str "TASK") (Num.of_Z 1) None names w).
  set (out := match fst q with Ok o => o | Throw _ => Ddb.mkQueryOutput [] None end).
  assert (Hq : q = (Ok out, snd q)) by (vm_compute; reflexivity).
  assert (Hkey : Ddb.LastEvaluatedKey out = Some key) by (vm_compute; reflexivity).
  split.
  - exists out. split; [now rewrite Hq|exact Hkey].
  - pose proof (cursor_round_trip (str "TASK") (Num.of_Z 1) None names w out (snd q)
                  (wf_stored "DONE") Hq) as H.
    rewrite Hkey in H. destruct H as (cursor & k & _ & -> & _ & _ & H).
    apply (H None). reflexivity.
Defined.

(* ===================================================================== *)
(** * The API function: every request is answered *)
(* ===================================================================== *)

Lemma handler_of_with v event : handler_of v event = Api.handler_with (identify_of v) event.
Proof. now destruct v. Qed.

(** The identity step changes nothing. *)
Lemma identify_of_pure v event cfg w : exists u, identify_of v event cfg w = (u, w).
Proof.
  destruct v.
  - now exists (Ok None).
  - apply identify_pure.
Qed.

Lemma respects_identify_of (P : World -> World -> Prop) v event cfg :
  (forall w, P w w) -> respects P (identify_of v event cfg).
Proof.
  intros Hrefl w r w' H. destruct (identify_of_pure v event cfg w) as [u Hu].
  rewrite Hu in H. inversion H; subst. apply Hrefl.
Qed.

(** The plain variant finds nobody. *)
Lemma identified_plain v event cfg w user :
  identified v event cfg w user -> v = Plain -> user = None.
Proof. intros H ->. now inversion H. Qed.

(** Behind the configuration and the identity step, a handler is
    [dispatch] inside the [catch] block. *)
Lemma handler_of_dispatch v event w cfg w1 user :
  Api.is_method event "OPTIONS" = false ->
  Api.loadConfig w = (Ok cfg, w1) ->
  identified v event cfg w1 user ->
  handler_of v event w = try_catch (Api.dispatch user cfg event) answer_500 w1.
Proof.
  intros Ho Hc Hu. rewrite handler_of_with. now apply handler_with_created.
Qed.

Section Returns.
Context {A : Type} (Q : A -> Prop).

Lemma returns_ret a : Q a -> returns Q (ret a).
Proof. intros H w a' w' E. now inversion E; subst. Qed.

Lemma returns_throw e : returns Q (throw e).
Proof. intros w a w' E. discriminate E. Qed.

Lemma returns_TypeError what : returns Q (throw_TypeError what).
Proof. intros w a w' E. discriminate E. Qed.

Lemma returns_bind {B} (m : M B) (k : B -> M A) :
  (forall b, returns Q (k b)) -> returns Q (bind m k).
Proof.
  intros H w a w' E. unfold bind in E.
  destruct (m w) as [[b|e] w1]; [now apply (H b w1 a w')|discriminate].
Qed.

Lemma returns_try (m : M A) (h : Error -> M A) :
  returns Q m -> (forall e, returns Q (h e)) -> returns Q (try_catch m h).
Proof.
  intros Hm Hh w a w' E. unfold try_catch in E.
  destruct (m w) as [[b|e] w1] eqn:Em.
  - inversion E; subst. now apply (Hm w a w').
  - now apply (Hh e w1 a w').
Qed.

End Returns.

Lemma regular_res code data user :
  code ∈ status_codes -> regular_response (Api.res code data (Api.user_headers user)).
Proof.
  intros Hc. split; [exact Hc|]. destruct user as [u|].
  - exists [("X-User-ID"%string, Api.user_id u)]. split; [reflexivity|]. right. eauto.
  - exists []. split; [reflexivity|]. now left.
Qed.

Lemma regular_res_plain code data :
  code ∈ status_codes -> regular_response (Api.res code data []).
Proof. apply (regular_res code data None). Qed.

Ltac status_code := unfold status_codes; rewrite !elem_of_cons; auto 10.

Ltac regular_step :=
  first
    [ apply returns_ret; first [apply regular_res | apply regular_res_plain]; status_code
    | apply returns_throw
    | apply returns_TypeError
    | apply returns_bind; intros ? ].

Lemma regular_dispatch user cfg event : returns regular_response (Api.dispatch user cfg event).
Proof.
  unfold Api.dispatch.
  destruct (cfg !! str "dynamo-db-table-name") as [[|t q]|]; try regular_step.
  repeat match goal with |- context [if ?b then _ else _] => destruct b end.
  - unfold Api.post_tasks. destruct (Api.request_body event) as [body|]; [|regular_step].
    destruct (js_or _ _) as [[]|]; try regular_step.
    destruct (negb _); repeat regular_step.
  - unfold Api.get_tasks. repeat regular_step.
  - unfold Api.get_task. destruct (Api.param _ _) as [[|u k]|];
      [regular_step| |regular_step].
    apply returns_bind; intros [it|]; regular_step.
  - unfold Api.delete_task. destruct (Api.param _ _) as [[|u k]|]; repeat regular_step.
  - regular_step.
Qed.

(** X1.  The API function answers every request: whatever the event and
    whatever the services do, the handler returns a response and throws
    nothing; the response has one of the status codes 200, 201, 204, 400, 404,
    422 and 500, and its headers are the three CORS headers, followed at most
    by [X-User-ID]. *)
Theorem api_always_answers v event w :
  exists r w', handler_of v event w = (Ok r, w') /\ regular_response r.
Proof.
  rewrite handler_of_with.
  destruct (handler_with_total (identify_of v) event w) as (r & w' & H).
  exists r, w'. split; [exact H|].
  revert H. apply returns_try.
  - destruct (Api.is_method event "OPTIONS").
    + apply returns_ret. split; [status_code|]. exists []. split; [reflexivity|now left].
    + apply returns_bind. intros cfg. apply returns_bind. intros user. apply regular_dispatch.
  - intros e. regular_step.
Qed.

(* ===================================================================== *)
(** * The API function: requests refused before the store is reached *)
(* ===================================================================== *)

Lemma is_method_other event a b :
  Api.is_method event a = true -> str a <> str b -> Api.is_method event b = false.
Proof.
  intros Ha Hab. apply is_method_eq in Ha. unfold Api.is_method, jsstring_eqb.
  rewrite Ha. now apply bool_decide_eq_false_2.
Qed.

Lemma try_catch_ok {A} (m : M A) (h : Error -> M A) w a w' :
  m w = (Ok a, w') -> try_catch m h w = (Ok a, w').
Proof. intros H. unfold try_catch. now rewrite H. Qed.

Lemma loadConfig_quiet w cfg w1 : Api.loadConfig w = (Ok cfg, w1) -> quiet w w1.
Proof. apply respects_quiet_loadConfig. Qed.

(** X2.  Without a table name in the configuration, a request that is not
    a preflight and whose identity step does not throw is answered with 500
    and the message that the name is not set, whatever its method and path;
    neither the store nor the queue is called. *)
Theorem missing_table_name_is_500 v event w cfg w1 user :
  Api.is_method event "OPTIONS" = false ->
  Api.loadConfig w = (Ok cfg, w1) ->
  identified v event cfg w1 user ->
  ~ names_table cfg ->
  handler_of v event w
  = (Ok (Api.res 500 (Api.message_body "dynamo-db-table-name not set") []), w1)
  /\ quiet w w1.
Proof.
  intros Ho Hc Hu Hn. split; [|now apply loadConfig_quiet in Hc].
  rewrite (handler_of_dispatch v event w cfg w1 user Ho Hc Hu).
  apply try_catch_ok. unfold Api.dispatch.
  destruct (cfg !! str "dynamo-db-table-name") as [[|t q]|] eqn:E; try reflexivity.
  exfalso. apply Hn. now exists t, q.
Qed.

(** X3.  A Create request whose body is a string that is not JSON, and
    whose identity step does not throw, is answered with 400 and the message
    [Invalid JSON]; neither the store nor the queue is called. *)
Theorem create_invalid_json_is_400 v event w cfg w1 user text :
  Api.is_method event "POST" = true ->
  Api.path_endsWith event "/tasks" = true ->
  Api.loadConfig w = (Ok cfg, w1) ->
  identified v event cfg w1 user ->
  names_table cfg ->
  Api.event_body event = Some text ->
  Json.parse text = None ->
  handler_of v event w = (Ok (Api.res 400 (Api.message_body "Invalid JSON") []), w1)
  /\ quiet w w1.
Proof.
  intros Hm Hp Hc Hu (t & q & Ht) Hb Hj. split; [|now apply loadConfig_quiet in Hc].
  rewrite (handler_of_dispatch v event w cfg w1 user (post_is_not_options _ Hm) Hc Hu).
  apply try_catch_ok. rewrite (dispatch_post _ _ _ _ _ Ht Hm Hp).
  unfold Api.post_tasks, Api.request_body. now rewrite Hb, Hj.
Qed.

(** X4.  A request whose method is none of [OPTIONS], [POST], [GET] and
    [DELETE], and a [POST] to a path that does not end in [/tasks], are
    answered with 404 [Not Found] when the identity step does not throw;
    neither the store nor the queue is called. *)
Theorem unknown_route_is_404 v event w cfg w1 user :
  Api.is_method event "OPTIONS" = false ->
  Api.is_method event "GET" = false ->
  Api.is_method event "DELETE" = false ->
  Api.is_method event "POST" = false \/ Api.path_endsWith event "/tasks" = false ->
  Api.loadConfig w = (Ok cfg, w1) ->
  identified v event cfg w1 user ->
  names_table cfg ->
  handler_of v event w = (Ok (Api.res 404 (Api.message_body "Not Found") []), w1)
  /\ quiet w w1.
Proof.
  intros Ho Hg Hd Hpost Hc Hu (t & q & Ht). split; [|now apply loadConfig_quiet in Hc].
  rewrite (handler_of_dispatch v event w cfg w1 user Ho Hc Hu).
  apply try_catch_ok. unfold Api.dispatch. rewrite Ht, Hg, Hd. cbn [andb].
  destruct Hpost as [-> | ->]; [reflexivity|]. now rewrite andb_false_r.
Qed.

(* ===================================================================== *)
(** * The API function: one task *)
(* ===================================================================== *)

Lemma table_ddb_sent c w : table (ddb_sent c w) = table w.
Proof. unfold ddb_sent. now rewrite table_advance. Qed.

Lemma ddb_log_ddb_sent c w : ddb_log (ddb_sent c w) = ddb_log w ++ [c].
Proof. unfold ddb_sent. now rewrite ddb_log_advance. Qed.

Lemma send_ok c w : next_fault (ddb_faults w) = None -> Ddb.send c w = (Ok tt, ddb_sent c w).
Proof. intros H. unfold Ddb.send. now rewrite H. Qed.

Lemma send_fault c e w :
  next_fault (ddb_faults w) = Some e -> Ddb.send c w = (Throw e, ddb_sent c w).
Proof. intros H. unfold Ddb.send. now rewrite H. Qed.

Lemma get_ok u k w :
  next_fault (ddb_faults w) = None ->
  Ddb.get (u :: k) w = (Ok (table w !! (u :: k)), ddb_sent (GetCommand (u :: k)) w).
Proof.
  intros H. unfold Ddb.get, bind. rewrite (send_ok _ _ H). now rewrite table_ddb_sent.
Qed.

Lemma get_fault key e w :
  next_fault (ddb_faults w) = Some e ->
  Ddb.get key w = (Throw e, ddb_sent (GetCommand key) w).
Proof. intros H. unfold Ddb.get, bind. now rewrite (send_fault _ _ _ H). Qed.

Lemma delete_ok u k w :
  next_fault (ddb_faults w) = None ->
  Ddb.delete_item (u :: k) w
  = (Ok tt, with_table (delete (u :: k) (table w)) (ddb_sent (DeleteCommand (u :: k)) w)).
Proof.
  intros H. unfold Ddb.delete_item, bind. rewrite (send_ok _ _ H). now rewrite table_ddb_sent.
Qed.

Lemma delete_fault key e w :
  next_fault (ddb_faults w) = Some e ->
  Ddb.delete_item key w = (Throw e, ddb_sent (DeleteCommand key) w).
Proof. intros H. unfold Ddb.delete_item, bind. now rewrite (send_fault _ _ _ H). Qed.

Lemma dispatch_get_task user cfg event :
  names_table cfg -> on_task event "GET" ->
  Api.dispatch user cfg event = Api.get_task user event.
Proof.
  intros (t & q & Ht) [Hm Hr]. unfold Api.dispatch. rewrite Ht, Hm, Hr.
  rewrite (is_method_other event "GET" "POST" Hm) by discriminate.
  cbn [andb negb]. now rewrite andb_false_r.
Qed.

Lemma dispatch_delete_task user cfg event :
  names_table cfg -> on_task event "DELETE" ->
  Api.dispatch user cfg event = Api.delete_task user event.
Proof.
  intros (t & q & Ht) [Hm Hr]. unfold Api.dispatch. rewrite Ht, Hm, Hr.
  rewrite (is_method_other event "DELETE" "POST" Hm) by discriminate.
  rewrite (is_method_other event "DELETE" "GET" Hm) by discriminate.
  reflexivity.
Qed.

Lemma on_task_not_options event m :
  on_task event m -> str m <> str "OPTIONS" -> Api.is_method event "OPTIONS" = false.
Proof. intros [Hm _] Hne. now apply (is_method_other event m "OPTIONS"). Qed.

(** X5.  [GET /tasks/{id}], the identity step having yielded a user or
    nobody (nobody in the plain variant): without an [id] the answer is 400;
    with one, a single read is sent to the store and the table is left as it
    is, and the answer is 200 with the whole stored item when the task is
    there, 404 [Not Found] when it is not, and 500 when the read fails. *)
Theorem get_task_outcomes v event w cfg w1 user :
  on_task event "GET" ->
  Api.loadConfig w = (Ok cfg, w1) ->
  identified v event cfg w1 user ->
  names_table cfg ->
  (v = Plain -> user = None)
  /\ (no_task_id event ->
      handler_of v event w
      = (Ok (Api.res 400 (Api.message_body "Missing path param 'id'") []), w1))
  /\ (forall u k,
        Api.param (Api.pathParameters event) "id" = Some (u :: k) ->
        let w' := ddb_sent (GetCommand (u :: k)) w1 in
        table w' = table w1
        /\ ddb_log w' = ddb_log w1 ++ [GetCommand (u :: k)]
        /\ handler_of v event w
           = (Ok match next_fault (ddb_faults w1), table w1 !! (u :: k) with
                 | Some e, _ => Api.res 500 (Api.server_error e) []
                 | None, Some item =>
                     Api.res 200 (Ddb.item_to_json item) (Api.user_headers user)
                 | None, None => Api.res 404 (Api.message_body "Not Found") []
                 end, w')).
Proof.
  intros Ht Hc Hu Hn.
  assert (Ho : Api.is_method event "OPTIONS" = false)
    by (apply (on_task_not_options event "GET" Ht); discriminate).
  split; [now apply (identified_plain v event cfg w1)|].
  rewrite (handler_of_dispatch v event w cfg w1 user Ho Hc Hu).
  rewrite (dispatch_get_task _ _ _ Hn Ht). unfold Api.get_task. split.
  - intros [-> | ->]; reflexivity.
  - intros u k ->. cbv zeta. rewrite table_ddb_sent, ddb_log_ddb_sent.
    split; [reflexivity|]. split; [reflexivity|].
    unfold try_catch, bind. destruct (next_fault (ddb_faults w1)) as [e|] eqn:Ef.
    + now rewrite (get_fault _ _ _ Ef).
    + rewrite (get_ok _ _ _ Ef). now destruct (table w1 !! (u :: k)).
Qed.

(** X6.  [DELETE /tasks/{id}], the identity step having yielded a user or
    nobody (nobody in the plain variant): without an [id] the answer is 400;
    with one, a single unconditional delete is sent to the store and the
    answer is 204 with an empty body whether or not the task was there;
    afterwards the task is not in the table and every other task is as it was.
    When the delete fails the answer is 500 and the table is as it was. *)
Theorem delete_task_outcomes v event w cfg w1 user :
  on_task event "DELETE" ->
  Api.loadConfig w = (Ok cfg, w1) ->
  identified v event cfg w1 user ->
  names_table cfg ->
  (v = Plain -> user = None)
  /\ (no_task_id event ->
      handler_of v event w
      = (Ok (Api.res 400 (Api.message_body "Missing path param 'id'") []), w1))
  /\ (forall u k,
        Api.param (Api.pathParameters event) "id" = Some (u :: k) ->
        exists w',
          ddb_log w' = ddb_log w1 ++ [DeleteCommand (u :: k)]
          /\ match next_fault (ddb_faults w1) with
             | Some e =>
                 handler_of v event w = (Ok (Api.res 500 (Api.server_error e) []), w')
                 /\ table w' = table w1
             | None =>
                 handler_of v event w
                 = (Ok (Api.res 204 (JStr []) (Api.user_headers user)), w')
                 /\ Api.body (Api.res 204 (JStr []) (Api.user_headers user)) = []
                 /\ table w' !! (u :: k) = None
                 /\ forall id, id <> u :: k -> table w' !! id = table w1 !! id
             end).
Proof.
  intros Ht Hc Hu Hn.
  assert (Ho : Api.is_method event "OPTIONS" = false)
    by (apply (on_task_not_options event "DELETE" Ht); discriminate).
  split; [now apply (identified_plain v event cfg w1)|].
  rewrite (handler_of_dispatch v event w cfg w1 user Ho Hc Hu).
  rewrite (dispatch_delete_task _ _ _ Hn Ht). unfold Api.delete_task. split.
  - intros [-> | ->]; reflexivity.
  - intros u k ->. unfold try_catch, bind.
    destruct (next_fault (ddb_faults w1)) as [e|] eqn:Ef.
    + rewrite (delete_fault _ _ _ Ef). eexists. split; [|split; [reflexivity|]].
      * apply ddb_log_ddb_sent.
      * apply table_ddb_sent.
    + rewrite (delete_ok _ _ _ Ef). eexists. split; [|split; [reflexivity|]].
      * cbn [ddb_log with_table]. apply ddb_log_ddb_sent.
      * split; [reflexivity|]. cbn [table with_table]. split.
        -- apply lookup_delete_eq.
        -- intros id Hid. now rewrite lookup_delete_ne by congruence.
Qed.

(* ===================================================================== *)
(** * The API function: Create against an existing task *)
(* ===================================================================== *)

Lemma put_existing item u k w :
  item !! "id"%string = Some (AttrS (u :: k)) ->
  next_fault (ddb_faults w) = None ->
  is_Some (table w !! (u :: k)) ->
  Ddb.put item true w = (Throw condition_failed, put_sent item w).
Proof.
  intros Hid Hf Hsome. unfold Ddb.put, bind, Ddb.send. rewrite Hf, Hid.
  fold (put_sent item w). rewrite table_put_sent.
  now rewrite bool_decide_eq_true_2.
Qed.

(** X7.  Create never overwrites a task: when the identifier it draws is
    already the key of a stored task, the conditional write fails, the call
    (its identity step not having thrown) answers 500 with the failure of the
    condition, the table is as it was and nothing is sent to the queue. *)
Theorem create_never_overwrites v event w cfg w1 user body topic existing :
  creates_task event ->
  Api.loadConfig w = (Ok cfg, w1) ->
  identified v event cfg w1 user ->
  names_table cfg ->
  Api.request_body event = Some body ->
  valid_topic body topic ->
  next_fault (ddb_faults w1) = None ->
  uuid w1 <> [] ->
  table w1 !! uuid w1 = Some existing ->
  exists w',
    handler_of v event w = (Ok (Api.res 500 (Api.server_error condition_failed) []), w')
    /\ table w' = table w
    /\ sqs_log w' = sqs_log w.
Proof.
  intros [Hm Hp] Hc Hu (t & q & Ht) Hb Hv Hf Hid Hex.
  rewrite (handler_of_dispatch v event w cfg w1 user (post_is_not_options _ Hm) Hc Hu).
  rewrite (dispatch_post _ _ _ _ _ Ht Hm Hp).
  unfold try_catch. rewrite (post_tasks_valid _ _ _ _ _ _ Hb Hv). cbv zeta.
  destruct (drawn_fields w1) as (Htab & Hfl & _ & Hsl & _).
  destruct (uuid w1) as [|c k] eqn:Eid; [congruence|].
  rewrite (put_existing _ c k);
    [| apply new_item_id | now rewrite Hfl | rewrite Htab, Hex; eauto].
  eexists. split; [reflexivity|].
  apply loadConfig_quiet in Hc. destruct Hc.
  rewrite table_put_sent, sqs_log_put_sent. split; congruence.
Qed.

(* ===================================================================== *)
(** * The API function: reading writes nothing *)
(* ===================================================================== *)

Lemma read_only_refl w : read_only w w.
Proof. now repeat split. Qed.

Lemma read_only_trans w1 w2 w3 : read_only w1 w2 -> read_only w2 w3 -> read_only w1 w3.
Proof. unfold read_only. intros (? & ? & ?) (? & ? & ?). repeat split; congruence. Qed.

Lemma quiet_read_only w w' : quiet w w' -> read_only w w'.
Proof. intros []. unfold read_only, writes. repeat split; congruence. Qed.

Lemma untouched_read_only w w' : untouched w w' -> read_only w w'.
Proof. unfold untouched. intros ->. apply read_only_refl. Qed.

Lemma read_only_send c : is_write c = false -> respects read_only (Ddb.send c).
Proof.
  intros Hc w r w' H.
  assert (Hw : w' = ddb_sent c w)
    by (unfold Ddb.send in H; fold (ddb_sent c w) in H; destruct (next_fault _); now inversion H).
  subst. unfold read_only, writes. rewrite table_ddb_sent, ddb_log_ddb_sent.
  split; [reflexivity|]. split.
  - rewrite List.filter_app. cbn [List.filter]. rewrite Hc. apply app_nil_r.
  - unfold ddb_sent. now rewrite sqs_log_advance.
Qed.

Ltac read_only_step :=
  first
    [ apply read_only_send; reflexivity
    | apply (respects_bind read_only read_only_trans); [|intros ?]
    | apply (respects_try read_only read_only_trans); [|intros ?]
    | apply (respects_ret read_only read_only_refl)
    | apply (respects_throw read_only read_only_refl)
    | apply (respects_TypeError read_only read_only_refl)
    | apply (respects_JSON_parse read_only read_only_refl)
    | apply (respects_pure read_only read_only_refl)
    | match goal with
      | |- respects _ (match ?x with _ => _ end) => destruct x
      | |- respects _ (if ?x then _ else _) => destruct x
      end ].

Lemma read_only_get_tasks user event : respects read_only (Api.get_tasks user event).
Proof.
  unfold Api.get_tasks, Api.startKey_of, Api.decodeCursor, Ddb.query. cbv zeta.
  repeat read_only_step.
Qed.

Lemma read_only_get_task user event : respects read_only (Api.get_task user event).
Proof. unfold Api.get_task, Ddb.get. repeat read_only_step. Qed.

Lemma read_only_dispatch user cfg event :
  Api.is_method event "GET" = true -> respects read_only (Api.dispatch user cfg event).
Proof.
  intros Hm. unfold Api.dispatch. rewrite Hm.
  rewrite (is_method_other event "GET" "POST" Hm) by discriminate.
  rewrite (is_method_other event "GET" "DELETE" Hm) by discriminate.
  cbn [andb].
  destruct (cfg !! str "dynamo-db-table-name") as [[|t q]|];
    [read_only_step | | read_only_step].
  repeat match goal with |- respects _ (if ?b then _ else _) => destruct b end;
    first [apply read_only_get_tasks | apply read_only_get_task | read_only_step].
Qed.

Lemma read_only_identify v event cfg : respects read_only (identify_of v event cfg).
Proof. apply respects_identify_of, read_only_refl. Qed.

(** X8.  Reading writes nothing: whatever a [GET] request asks for and
    however it is answered, the table is afterwards as it was, no write command
    has been sent to the store and nothing has been sent to the queue. *)
Theorem get_requests_write_nothing v event w :
  Api.is_method event "GET" = true ->
  read_only w (snd (handler_of v event w)).
Proof.
  intros Hm. destruct (handler_of v event w) as [r w'] eqn:E. cbn [snd].
  revert E. rewrite handler_of_with. unfold Api.handler_with.
  rewrite (is_method_other event "GET" "OPTIONS" Hm) by discriminate.
  apply (respects_try read_only read_only_trans).
  - apply (respects_bind read_only read_only_trans).
    + eapply respects_weaken; [apply quiet_read_only | apply respects_quiet_loadConfig].
    + intros cfg. apply (respects_bind read_only read_only_trans).
      * apply read_only_identify.
      * intros user. now apply read_only_dispatch.
  - intros e. read_only_step.
Qed.

(* ===================================================================== *)
(** * The API function: List *)
(* ===================================================================== *)

Lemma dispatch_get_tasks user cfg event :
  names_table cfg -> lists_tasks event ->
  Api.dispatch user cfg event = Api.get_tasks user event.
Proof.
  intros (t & q & Ht) (Hm & Hp & Hr). unfold Api.dispatch. rewrite Ht, Hm, Hp, Hr.
  now rewrite (is_method_other event "GET" "POST" Hm) by discriminate.
Qed.

Lemma lists_tasks_not_options event :
  lists_tasks event -> Api.is_method event "OPTIONS" = false.
Proof. intros (Hm & _). now apply (is_method_other event "GET" "OPTIONS"). Qed.

(** X9.  A List request whose cursor does not decode to JSON, and whose
    identity step does not throw, is answered with 500, the error being the
    [SyntaxError] of [JSON.parse]; the store is not asked anything. *)
Theorem list_invalid_cursor_is_500 v event w cfg w1 user u c :
  lists_tasks event ->
  Api.loadConfig w = (Ok cfg, w1) ->
  identified v event cfg w1 user ->
  names_table cfg ->
  Api.param (Api.queryStringParameters event) "cursor" = Some (u :: c) ->
  Json.parse (Buffer.to_utf8 (Buffer.from_base64 (u :: c))) = None ->
  let text := Buffer.to_utf8 (Buffer.from_base64 (u :: c)) in
  let err := mkError (str "SyntaxError") (syntaxErrorMessage (platform w1) text) in
  handler_of v event w = (Ok (Api.res 500 (Api.server_error err) []), w1)
  /\ quiet w w1.
Proof.
  intros Hl Hc Hu Hn Hq Hj. cbv zeta. split; [|now apply loadConfig_quiet in Hc].
  rewrite (handler_of_dispatch v event w cfg w1 user (lists_tasks_not_options _ Hl) Hc Hu).
  rewrite (dispatch_get_tasks _ _ _ Hn Hl).
  unfold try_catch, Api.get_tasks, Api.startKey_of. cbv zeta. rewrite Hq.
  unfold bind, Api.decodeCursor, JSON_parse. now rewrite Hj.
Qed.

Lemma project_lookup names item name a :
  Ddb.project names item !! name = Some a -> item !! name = Some a /\ name ∈ names.
Proof.
  unfold Ddb.project. intros H. apply map_lookup_filter_Some in H as [H Hin].
  split; [exact H|]. cbn [fst] in Hin. now apply bool_decide_unpack in Hin.
Qed.

Lemma index_entry_stored t e :
  e ∈ Ddb.index t ->
  t !! k_id (fst e) = Some (snd e)
  /\ snd e !! "pk"%string = Some (AttrS (k_pk (fst e)))
  /\ snd e !! "createdAt"%string = Some (AttrS (k_createdAt (fst e))).
Proof.
  intros He. unfold Ddb.index in He. rewrite merge_sort_Permutation in He.
  apply list_elem_of_omap in He as ([id item] & Hin & He).
  apply elem_of_map_to_list in Hin.
  unfold Ddb.index_entry in He. cbn [fst snd] in He.
  destruct (item !! "pk"%string) as [[p|]|] eqn:Ep; try discriminate.
  destruct (item !! "createdAt"%string) as [[c|]|] eqn:Ec; try discriminate.
  injection He as <-. cbn [fst snd k_id k_pk k_createdAt]. now repeat split.
Qed.

(** The items of a page are projections of stored items of the
    partition. *)
Lemma run_query_items t pk limit start names item :
  item ∈ Ddb.Items (Ddb.run_query t pk limit start names) ->
  exists id stored,
    t !! id = Some stored
    /\ stored !! "pk"%string = Some (AttrS pk)
    /\ item = Ddb.project names stored.
Proof.
  unfold Ddb.run_query. cbn [Ddb.Items].
  set (matching := List.filter _ (Ddb.index t)).
  set (rest := match start with Some k => _ | None => matching end).
  intros Hin. apply list_elem_of_In, in_map_iff in Hin as (e & <- & He).
  assert (Hrest : In e rest).
  { rewrite <- (take_drop limit rest). apply in_or_app. now left. }
  assert (Hm : In e matching).
  { unfold rest in Hrest. destruct start; [|exact Hrest].
    now apply filter_In in Hrest as [Hrest _]. }
  unfold matching in Hm. apply filter_In in Hm as [Hm Hpk].
  apply list_elem_of_In, index_entry_stored in Hm as (Ht & Hp & _).
  unfold jsstring_eqb in Hpk. apply bool_decide_eq_true in Hpk.
  exists (k_id (fst e)), (snd e). rewrite <- Hpk. now repeat split.
Qed.

Lemma query_items pk limit startKey names w out w' item :
  Ddb.query pk limit startKey names w = (Ok out, w') ->
  item ∈ Ddb.Items out ->
  exists id stored,
    table w !! id = Some stored
    /\ stored !! "pk"%string = Some (AttrS pk)
    /\ item = Ddb.project names stored.
Proof.
  unfold Ddb.query, bind, Ddb.send, throw. intros H.
  destruct (next_fault (ddb_faults w)); [discriminate|].
  destruct (Num.to_Z limit) as [[|n|n]|]; try discriminate.
  destruct startKey as [k|].
  - destruct (Ddb.key_of_json k); [|discriminate].
    injection H as <- <-. rewrite table_advance. cbn [table with_ddb].
    apply run_query_items.
  - injection H as <- <-. rewrite table_advance. cbn [table with_ddb].
    apply run_query_items.
Qed.

Lemma startKey_of_untouched qs w r w' : Api.startKey_of qs w = (r, w') -> w' = w.
Proof.
  unfold Api.startKey_of, Api.decodeCursor, JSON_parse, bind, ret.
  destruct (Api.param qs "cursor") as [[|u c]|]; try (intros H; now inversion H).
  destruct (Json.parse _); intros H; now inversion H.
Qed.

(** X10.  A List request that answers 200 shows stored tasks only, and of
    each the five listed attributes only: every item of the response is the
    projection on [id], [topic], [status], [createdAt] and [updatedAt] of an
    item that is in the table under the partition [TASK]; in particular no
    item of a list carries [researchMd]. *)
Theorem listed_items_are_stored_tasks v event w r w' :
  lists_tasks event ->
  handler_of v event w = (Ok r, w') ->
  Api.statusCode r = 200%Z ->
  exists items cursor,
    Api.body r = Json.stringify (Api.list_body items cursor)
    /\ forall item, item ∈ items ->
         (exists id stored,
            table w !! id = Some stored
            /\ stored !! "pk"%string = Some (AttrS (str "TASK"))
            /\ item = Ddb.project listed stored)
         /\ (forall name, is_Some (item !! name) -> name ∈ listed)
         /\ item !! "researchMd"%string = None.
Proof.
  intros Hl H Hs.
  assert (Hinv : exists cfg w1 user,
             Api.loadConfig w = (Ok cfg, w1) /\ Api.dispatch user cfg event w1 = (Ok r, w')).
  { apply handlers_inv; [now apply lists_tasks_not_options| |now rewrite Hs].
    destruct v; [now left|now right]. }
  destruct Hinv as (cfg & w1 & user & Hc & Hd).
  destruct Hl as (Hm & Hp & Hr). apply dispatch_list in Hd; auto.
  apply loadConfig_quiet in Hc. destruct Hc as [_ Htab].
  unfold Api.get_tasks in Hd. cbv zeta in Hd. unfold bind at 1 in Hd.
  destruct (Api.startKey_of _ w1) as [[k|e] w2] eqn:Ek; [|discriminate].
  apply startKey_of_untouched in Ek. subst w2. unfold bind at 1 in Hd.
  destruct (Ddb.query _ _ k _ w1) as [[out|e] w3] eqn:Eq; [|discriminate].
  inversion Hd; subst.
  exists (Ddb.Items out), (Api.cursor_of (Ddb.LastEvaluatedKey out)).
  split; [reflexivity|]. intros item Hin.
  destruct (query_items _ _ _ _ _ _ _ _ Eq Hin) as (id & stored & Hst & Hpk & ->).
  rewrite Htab in Hst. split; [now exists id, stored|]. split.
  - intros name [a Ha]. now apply project_lookup in Ha.
  - destruct (Ddb.project listed stored !! "researchMd"%string) as [a|] eqn:E; [|exact E].
    apply project_lookup in E as [_ E]. unfold listed in E.
    repeat (apply elem_of_cons in E as [E|E]; [discriminate|]).
    now apply elem_of_nil in E.
Qed.

(* ===================================================================== *)
(** * The API function: a created task can be read *)
(* ===================================================================== *)

(** A Create route that answered 201 has stored its task under a key that
    is not empty. *)
Lemma created_stored user queueUrl event w r w' :
  Api.post_tasks user queueUrl event w = (Ok r, w') ->
  Api.statusCode r = 201%Z ->
  exists u k topic now,
    Api.body r = Json.stringify (Api.created_body (u :: k) topic now)
    /\ table w' !! (u :: k) = Some (Api.new_item (u :: k) topic now).
Proof.
  intros H Hs.
  destruct (post_tasks_201 _ _ _ _ _ _ H Hs) as (body & topic & Hb & Hv).
  rewrite (post_tasks_valid _ _ _ _ _ _ Hb Hv) in H. cbv zeta in H.
  destruct (Ddb.put _ true (drawn w)) as [[[]|e] w2] eqn:Eput; [|discriminate].
  apply put_inv in Eput. destruct Eput as (id & Hid & Hne & Hfree & ->).
  rewrite new_item_id in Hid. injection Hid as <-.
  destruct (uuid w) as [|u k] eqn:Eu; [congruence|].
  exists u, k, topic, (Date.toISOString (now w)).
  set (item := Api.new_item _ _ _) in *.
  assert (Hlook : table (with_table (<[u :: k := item]> (table (drawn w)))
                           (put_sent item (drawn w)))
                  !! (u :: k) = Some item) by apply lookup_insert_eq.
  destruct queueUrl as [[|c url]|].
  - injection H as <- <-. split; [reflexivity|exact Hlook].
  - match type of H with context [Sqs.send ?m ?w0] =>
      destruct (Sqs.send m w0) as [[[]|e] w3] eqn:Es; [|discriminate];
      apply sqs_send_inv in Es end.
    injection H as <- <-. split; [reflexivity|]. rewrite Es, table_sqs_sent. exact Hlook.
  - injection H as <- <-. split; [reflexivity|exact Hlook].
Qed.

(** X11.  A created task can be read back: when a Create call has answered
    201 with an [id], a [GET /tasks/{id}] for that [id] that follows it, whose
    identity step does not throw and whose read of the store does not fail,
    answers 200 with the new task: the trimmed topic, the status [QUEUED],
    [createdAt] and [updatedAt] both the time of creation, an empty
    [researchMd] and a null [error]. *)
Theorem created_task_can_be_read v event w r w' :
  creates_task event ->
  handler_of v event w = (Ok r, w') ->
  Api.statusCode r = 201%Z ->
  exists id topic now,
    Api.body r = Json.stringify (Api.created_body id topic now)
    /\ forall v2 event2 cfg2 w2 user2,
         on_task event2 "GET" ->
         Api.param (Api.pathParameters event2) "id" = Some id ->
         Api.loadConfig w' = (Ok cfg2, w2) ->
         identified v2 event2 cfg2 w2 user2 ->
         names_table cfg2 ->
         next_fault (ddb_faults w2) = None ->
         handler_of v2 event2 w'
         = (Ok (Api.res 200 (Ddb.item_to_json (Api.new_item id topic now))
                  (Api.user_headers user2)),
            ddb_sent (GetCommand id) w2).
Proof.
  intros [Hm Hp] H Hs.
  assert (Hinv : exists cfg w1 user,
             Api.loadConfig w = (Ok cfg, w1)
             /\ Api.post_tasks user (cfg !! str "sqs-queue-url") event w1 = (Ok r, w')).
  { apply handlers_created_inv; auto. destruct v; [now left|now right]. }
  destruct Hinv as (cfg & w1 & user & _ & Hpost).
  destruct (created_stored _ _ _ _ _ _ Hpost Hs) as (u & k & topic & now & Hbody & Hlook).
  exists (u :: k), topic, now. split; [exact Hbody|].
  intros v2 event2 cfg2 w2 user2 Ht Hid Hc2 Hu2 Hn2 Hf2.
  assert (Ho : Api.is_method event2 "OPTIONS" = false)
    by (apply (on_task_not_options event2 "GET" Ht); discriminate).
  rewrite (handler_of_dispatch v2 event2 w' cfg2 w2 user2 Ho Hc2 Hu2).
  rewrite (dispatch_get_task _ _ _ Hn2 Ht).
  unfold try_catch, Api.get_task. rewrite Hid. unfold bind.
  rewrite (get_ok _ _ _ Hf2).
  apply loadConfig_quiet in Hc2. destruct Hc2 as [_ Htab]. now rewrite Htab, Hlook.
Qed.

(* ===================================================================== *)
(** * The configuration *)
(* ===================================================================== *)

Section Numbers.
Local Open Scope Z_scope.

Lemma strip10_value fuel : forall m e m' e',
  0 <= e -> Num.strip10 fuel m e = (m', e') -> 0 <= e' /\ m' * 10 ^ e' = m * 10 ^ e.
Proof.
  induction fuel as [|f IH]; intros m e m' e' He H; cbn [Num.strip10] in H.
  - injection H as <- <-. now split.
  - destruct (m =? 0) eqn:E0.
    + injection H as <- <-. apply Z.eqb_eq in E0. subst. split; [lia|]. now rewrite !Z.mul_0_l.
    + destruct (m mod 10 =? 0) eqn:E10.
      * apply IH in H; [|lia]. destruct H as [He' H]. split; [exact He'|].
        rewrite H. apply Z.eqb_eq in E10.
        rewrite Z.pow_add_r by lia. change (10 ^ 1) with 10.
        pose proof (Z.div_mod m 10 ltac:(lia)) as Hd. rewrite E10 in Hd. nia.
      * injection H as <- <-. now split.
Qed.

Lemma cmp_value m1 e1 m2 e2 :
  0 <= e1 -> 0 <= e2 -> Num.cmp m1 e1 m2 e2 = (m1 * 10 ^ e1 ?= m2 * 10 ^ e2).
Proof.
  intros H1 H2. unfold Num.cmp. set (e := Z.min e1 e2).
  assert (He : 0 <= e <= e1 /\ e <= e2) by (unfold e; lia).
  assert (Hp : 0 < 10 ^ e) by (apply Z.pow_pos_nonneg; lia).
  rewrite (Zmult_compare_compat_r _ _ (10 ^ e)) by lia.
  rewrite <- !Z.mul_assoc, <- !Z.pow_add_r by lia.
  now replace (e1 - e + e) with e1 by lia; replace (e2 - e + e) with e2 by lia.
Qed.

(** Comparing two integers as numbers is comparing them. *)
Lemma lt_of_Z a b : Num.lt (Num.of_Z a) (Num.of_Z b) = (a <? b).
Proof.
  unfold Num.of_Z, Num.fin.
  destruct (Num.strip10 _ a 0) as [ma ea] eqn:Ea.
  destruct (Num.strip10 _ b 0) as [mb eb] eqn:Eb.
  apply strip10_value in Ea as [Hea Ha]; [|lia].
  apply strip10_value in Eb as [Heb Hb]; [|lia].
  cbn [Num.lt]. rewrite cmp_value by assumption. rewrite Ha, Hb.
  change (10 ^ 0) with 1. rewrite !Z.mul_1_r. unfold Z.ltb.
  now destruct (a ?= b).
Qed.

End Numbers.

Lemma CONFIG_TTL_default w : CONFIG_TTL_MS w = None -> Api.CONFIG_TTL w = Num.of_Z 300000.
Proof. unfold Api.CONFIG_TTL. now intros ->. Qed.

(** What [loadConfig] does when it fetches. *)
Lemma loadConfig_fetch w :
  match api_cache w with
  | Some (_, cachedAt) => Num.lt (Num.of_Z (now w - cachedAt)) (Api.CONFIG_TTL w) = false
  | None => True
  end ->
  Api.loadConfig w
  = match Ssm.getParametersByPath w with
    | (Ok params, w') => (Ok params, with_api_cache (Some (params, now w)) w')
    | (Throw e, w') => (Throw e, w')
    end.
Proof.
  intros H. unfold Api.loadConfig, bind at 1, Date_now.
  destruct (api_cache w) as [[cached cachedAt]|]; [rewrite H|]; unfold bind;
    now destruct (Ssm.getParametersByPath w) as [[params|e] w'].
Qed.

Lemma loadConfig_hit w cached cachedAt :
  api_cache w = Some (cached, cachedAt) ->
  Num.lt (Num.of_Z (now w - cachedAt)) (Api.CONFIG_TTL w) = true ->
  Api.loadConfig w = (Ok cached, w).
Proof. intros Hc Hl. unfold Api.loadConfig, bind, Date_now. now rewrite Hc, Hl. Qed.

Lemma api_cache_getParametersByPath w r w' :
  Ssm.getParametersByPath w = (r, w') -> api_cache w' = api_cache w.
Proof.
  unfold Ssm.getParametersByPath, advance. intros H.
  destruct (ssm w); inversion H; subst; cbn; now destruct (clock w).
Qed.

(** X12.  The configuration is memoized for the TTL: a call of
    [loadConfig] that returns leaves the configuration in the cache, stamped,
    when it was fetched, with the time at which the call started.  While the
    cache is in place, a call made less than the TTL after that time returns
    the memoized configuration and calls nothing, and a call made at or after
    it answers with what the parameter store returns then. *)
Theorem config_is_memoized_for_the_ttl w cfg w1 :
  Api.loadConfig w = (Ok cfg, w1) ->
  exists cachedAt,
    api_cache w1 = Some (cfg, cachedAt)
    /\ (w1 = w \/ cachedAt = now w)
    /\ forall w2 ttl,
         api_cache w2 = api_cache w1 ->
         Api.CONFIG_TTL w2 = Num.of_Z ttl ->
         ((now w2 - cachedAt < ttl)%Z -> Api.loadConfig w2 = (Ok cfg, w2))
         /\ ((ttl <= now w2 - cachedAt)%Z ->
             fst (Api.loadConfig w2) = fst (Ssm.getParametersByPath w2)).
Proof.
  intros H.
  assert (Hc : exists cachedAt, api_cache w1 = Some (cfg, cachedAt)
                                /\ (w1 = w \/ cachedAt = now w)).
  { unfold Api.loadConfig, bind at 1, Date_now in H.
    assert (Hfetch :
              (let* params := Ssm.getParametersByPath in
               fun w' => (Ok params, with_api_cache (Some (params, now w)) w')) w = (Ok cfg, w1) ->
              exists cachedAt, api_cache w1 = Some (cfg, cachedAt)
                               /\ (w1 = w \/ cachedAt = now w)).
    { unfold bind. destruct (Ssm.getParametersByPath w) as [[params|e] w'']; [|discriminate].
      intros E. injection E as <- <-. exists (now w). split; [reflexivity|now right]. }
    destruct (api_cache w) as [[cached cachedAt]|] eqn:Ec; [|now apply Hfetch].
    destruct (Num.lt _ _); [|now apply Hfetch].
    injection H as <- <-. exists cachedAt. split; [exact Ec|now left]. }
  destruct Hc as (cachedAt & Hc & Hwhen). exists cachedAt.
  split; [exact Hc|]. split; [exact Hwhen|].
  intros w2 ttl H2 Httl. rewrite Hc in H2. split; intros Hage.
  - apply (loadConfig_hit w2 cfg cachedAt H2).
    rewrite Httl, lt_of_Z. now apply Z.ltb_lt.
  - rewrite loadConfig_fetch.
    + now destruct (Ssm.getParametersByPath w2) as [[params|e] w'].
    + rewrite H2, Httl, lt_of_Z. now apply Z.ltb_ge.
Qed.

(** X13.  A failure of the parameter store is not memoized and not
    papered over: the request (other than a preflight) is answered with 500
    carrying the failure's message, the cache is as it was, and neither the
    store nor the queue is called. *)
Theorem config_failure_is_500 v event w e w1 :
  Api.is_method event "OPTIONS" = false ->
  Api.loadConfig w = (Throw e, w1) ->
  handler_of v event w = (Ok (Api.res 500 (Api.server_error e) []), w1)
  /\ api_cache w1 = api_cache w
  /\ quiet w w1.
Proof.
  intros Ho H. split; [|split].
  - rewrite handler_of_with. unfold Api.handler_with, try_catch. rewrite Ho.
    now rewrite (bind_throw _ _ _ _ _ H).
  - unfold Api.loadConfig, bind at 1, Date_now in H.
    assert (Hfetch :
              (let* params := Ssm.getParametersByPath in
               fun w' => (Ok params, with_api_cache (Some (params, now w)) w')) w = (Throw e, w1) ->
              api_cache w1 = api_cache w).
    { unfold bind. destruct (Ssm.getParametersByPath w) as [[params|e'] w''] eqn:Es; [discriminate|].
      intros E. injection E as <- <-. now apply api_cache_getParametersByPath in Es. }
    destruct (api_cache w) as [[cached cachedAt]|] eqn:Ec; [|now apply Hfetch].
    destruct (Num.lt _ _); [discriminate|now apply Hfetch].
  - now apply respects_quiet_loadConfig in H.
Qed.

(** ** Every page of the parameter store is read *)

Lemma split_segments sep a k :
  Forall (fun u => u <> sep) k ->
  exists first rest, JsString.split sep (a ++ sep :: k) = (first :: rest) ++ [k].
Proof.
  intros Hk.
  assert (Hlast : JsString.split sep k = [k]).
  { induction Hk as [|u r Hu _ IH]; [reflexivity|].
    cbn [JsString.split]. apply N.eqb_neq in Hu. now rewrite Hu, IH. }
  induction a as [|u a IH]; cbn [app JsString.split].
  - rewrite N.eqb_refl, Hlast. now exists [], [].
  - destruct IH as (first & rest & ->). destruct (u =? sep)%N.
    + now exists [], (first :: rest).
    + now exists (u :: first), rest.
Qed.

(** The key of a parameter is what follows the last slash of its name. *)
Lemma key_of_last_segment p path k :
  Name p = Some (path ++ 47%N :: k) ->
  Forall (fun u => u <> 47%N) k ->
  Ssm.key_of p = Some k.
Proof.
  intros Hn Hk. unfold Ssm.key_of. rewrite Hn.
  destruct (split_segments 47%N path k Hk) as (first & rest & ->).
  apply last_snoc.
Qed.

Lemma add_parameter_other params q key :
  Ssm.key_of q <> Some key -> Ssm.add_parameter params q !! key = params !! key.
Proof.
  intros Hq. unfold Ssm.add_parameter.
  destruct (Ssm.key_of q) as [[|u k]|]; try reflexivity.
  destruct (Value q); [|reflexivity].
  destruct (jsstring_eqb _ _); [reflexivity|].
  apply lookup_insert_ne. congruence.
Qed.

Lemma fold_add_parameter_other ps : forall params key,
  (forall q, q ∈ ps -> Ssm.key_of q <> Some key) ->
  fold_left Ssm.add_parameter ps params !! key = params !! key.
Proof.
  induction ps as [|q ps IH]; intros params key H; [reflexivity|].
  cbn [fold_left]. rewrite IH.
  - apply add_parameter_other, H. now left.
  - intros q' Hq'. apply H. now right.
Qed.

Lemma drain_round pages : forall params,
  Ssm.drain (round_of pages) params = Ok (fold_left Ssm.add_parameter (parameters_of pages) params).
Proof.
  unfold round_of, parameters_of.
  induction pages as [|ps pages IH]; intros params; [reflexivity|].
  cbn [List.map Ssm.drain concat]. now rewrite IH, fold_left_app.
Qed.

(** X14.  The configuration is complete: when nothing is memoized and the
    parameter store delivers its parameters over any number of pages, the
    parameters of every page are in the configuration, each under the last
    segment of its name, and where several parameters share a key the last one
    wins.  The one name that an object literal does not take as a key,
    [__proto__], is set aside. *)
Theorem every_page_is_read w pages later before p after path u k value :
  api_cache w = None ->
  ssm w = round_of pages :: later ->
  parameters_of pages = before ++ p :: after ->
  Name p = Some (path ++ 47%N :: u :: k) ->
  Forall (fun c => c <> 47%N) (u :: k) ->
  u :: k <> str "__proto__" ->
  Value p = Some value ->
  (forall q, q ∈ after -> Ssm.key_of q <> Some (u :: k)) ->
  exists cfg w1,
    Api.loadConfig w = (Ok cfg, w1)
    /\ cfg = fold_left Ssm.add_parameter (parameters_of pages) ∅
    /\ cfg !! (u :: k) = Some value.
Proof.
  intros Hc Hs Hp Hn Hk Hproto Hv Hafter.
  rewrite loadConfig_fetch by now rewrite Hc.
  unfold Ssm.getParametersByPath. rewrite Hs, drain_round.
  eexists. eexists. split; [reflexivity|]. split; [reflexivity|].
  rewrite Hp, fold_left_app. cbn [fold_left].
  rewrite fold_add_parameter_other by exact Hafter.
  unfold Ssm.add_parameter. rewrite (key_of_last_segment p path (u :: k) Hn Hk), Hv.
  unfold jsstring_eqb. rewrite bool_decide_eq_false_2 by exact Hproto.
  apply lookup_insert_eq.
Qed.

(* ===================================================================== *)
(** * The worker: its configuration *)
(* ===================================================================== *)

Lemma filter_nil_all {A} (f : A -> bool) l :
  List.filter f l = [] -> forall x, x ∈ l -> f x = false.
Proof.
  induction l as [|a l IH]; intros H x Hx; [now apply elem_of_nil in Hx|].
  cbn [List.filter] in H. destruct (f a) eqn:Ea; [discriminate|].
  apply elem_of_cons in Hx as [->|Hx]; [exact Ea|now apply IH].
Qed.

(** What the worker's [loadConfig] does when it fetches. *)
Lemma worker_fetch_inv t w r w' :
  (let* params := try_catch Ssm.getParametersByPath (fun e => throw e) in
   match List.filter (fun k => negb (Worker.is_set params k)) Worker.required with
   | [] => fun w' => (Ok params, with_worker_cache (Some (params, t)) w')
   | _ =>
       throw (new_Error (str "Missing SSM parameters: "
                         ++ Json.join (str ", ")
                              (List.map str
                                 (List.filter (fun k => negb (Worker.is_set params k))
                                    Worker.required))))
   end) w = (r, w') ->
  exists w0,
    quiet w w0
    /\ worker_cache w0 = worker_cache w
    /\ match r with
       | Ok cfg =>
           w' = with_worker_cache (Some (cfg, t)) w0
           /\ forall k, k ∈ Worker.required -> Worker.is_set cfg k = true
       | Throw _ => w' = w0
       end.
Proof.
  unfold bind, try_catch, throw.
  destruct (Ssm.getParametersByPath w) as [[params|e] w0] eqn:Es.
  - assert (Hq : quiet w w0) by now apply respects_quiet_getParametersByPath in Es.
    assert (Hc : worker_cache w0 = worker_cache w).
    { unfold Ssm.getParametersByPath, advance in Es.
      destruct (ssm w); inversion Es; subst; cbn; now destruct (clock w). }
    destruct (List.filter _ Worker.required) as [|m ms] eqn:Ef.
    + intros H. injection H as <- <-. exists w0. split; [exact Hq|]. split; [exact Hc|].
      split; [reflexivity|]. intros k Hk.
      apply (filter_nil_all _ _ Ef) in Hk. now apply negb_false_iff in Hk.
    + intros H. injection H as <- <-. now exists w0.
  - intros H. injection H as <- <-. exists w0.
    split; [now apply respects_quiet_getParametersByPath in Es|]. split; [|reflexivity].
    unfold Ssm.getParametersByPath, advance in Es.
    destruct (ssm w); inversion Es; subst; cbn; now destruct (clock w).
Qed.

Lemma worker_loadConfig_inv w r w' :
  Worker.loadConfig w = (r, w') ->
  (exists cached cachedAt, worker_cache w = Some (cached, cachedAt) /\ r = Ok cached /\ w' = w)
  \/ exists w0,
       quiet w w0
       /\ worker_cache w0 = worker_cache w
       /\ match r with
          | Ok cfg =>
              w' = with_worker_cache (Some (cfg, now w)) w0
              /\ forall k, k ∈ Worker.required -> Worker.is_set cfg k = true
          | Throw _ => w' = w0
          end.
Proof.
  unfold Worker.loadConfig, bind at 1, Date_now. intros H.
  pose proof (worker_fetch_inv (now w) w r w') as Hf.
  destruct (worker_cache w) as [[cached cachedAt]|] eqn:Ec.
  - destruct (Num.lt _ _).
    + injection H as <- <-. left. now exists cached, cachedAt.
    + right. destruct (Hf H) as (w0 & Hq & Hc & Hr). exists w0.
      split; [exact Hq|]. split; [congruence|exact Hr].
  - right. destruct (Hf H) as (w0 & Hq & Hc & Hr). exists w0.
      split; [exact Hq|]. split; [congruence|exact Hr].
Qed.

Lemma quiet_with_worker_cache c w : quiet w (with_worker_cache c w).
Proof. now constructor. Qed.

Lemma worker_loadConfig_quiet : respects quiet Worker.loadConfig.
Proof.
  intros w r w' H. apply worker_loadConfig_inv in H as [(c & t & _ & _ & ->) | (w0 & Hq & _ & H)].
  - apply quiet_refl.
  - destruct r as [cfg|e].
    + destruct H as [-> _]. eapply quiet_trans; [exact Hq|apply quiet_with_worker_cache].
    + now subst.
Qed.

(** X15.  The worker never runs on a configuration that lacks a required
    parameter: as long as what is memoized has the table name, the API key and
    the prompt id, a configuration that [loadConfig] returns has them too, and
    what it leaves memoized has them as well; a fetch that lacks one of them
    is thrown and memoizes nothing. *)
Theorem worker_config_has_required w r w1 :
  cache_valid w ->
  Worker.loadConfig w = (r, w1) ->
  cache_valid w1
  /\ match r with
     | Ok cfg => forall k, k ∈ Worker.required -> Worker.is_set cfg k = true
     | Throw _ => worker_cache w1 = worker_cache w
     end.
Proof.
  intros Hv H.
  apply worker_loadConfig_inv in H as [(c & t & Hc & -> & ->) | (w0 & Hq & Hc & H)].
  - split; [exact Hv|]. now apply (Hv c t).
  - destruct r as [cfg|e].
    + destruct H as [-> Hreq]. split; [|exact Hreq].
      intros cached t Hcache. cbn in Hcache. now injection Hcache as <- <-.
    + subst w1. split; [|exact Hc]. intros cached t Hcache. rewrite Hc in Hcache.
      now apply (Hv cached t).
Qed.

(** X16.  When the worker cannot load its configuration it gives the
    whole batch back: every record of the event is named in the failure
    report, in order, and neither the store nor the generation backend nor the
    notification channel is called. *)
Theorem config_failure_fails_the_whole_batch event w e w1 :
  Worker.loadConfig w = (Throw e, w1) ->
  Worker.handler event w
  = (Ok (Worker.mkBatchResponse (List.map Worker.messageId (default [] (Worker.Records event)))),
     w1)
  /\ quiet w w1.
Proof.
  intros H. split; [|now apply worker_loadConfig_quiet in H].
  unfold Worker.handler. cbv zeta. unfold bind at 1, try_catch.
  now rewrite (bind_throw _ _ _ _ _ H).
Qed.

(* ===================================================================== *)
(** * Identity extraction *)
(* ===================================================================== *)

Lemma is_string_spec v s : is_string v s = true <-> v = Some (JStr s).
Proof.
  unfold is_string, jsstring_eqb. destruct v as [[]|]; split; try discriminate.
  - intros H. apply bool_decide_eq_true in H. now subst.
  - intros H. injection H as ->. now apply bool_decide_eq_true.
Qed.

Lemma parseJWT_untouched token w r w' : Api.parseJWT token w = (r, w') -> w' = w.
Proof. apply respects_untouched_parseJWT. Qed.

(** What becomes of a parsed payload. *)
Lemma verify_payload (pool client : jsstring) payload w :
  (let* expired := Api.isTokenExpired payload in
   if expired then ret None
   else
     let* iss := member payload "iss" in
     if negb (is_string iss (Api.issuer pool)) then ret None
     else
       let* aud := member payload "aud" in
       if negb (is_string aud client) then ret None
       else
         let* token_use := member payload "token_use" in
         if negb (is_string token_use (str "id")) then ret None
         else
           ret (Some (Api.mkUser (Json.prop payload "sub") (Json.prop payload "email")
                        (Json.prop payload "cognito:username")
                        (Json.prop payload "cognito:user_status") payload))) w
  = match payload with
    | JNull => (Throw (mkError (str "TypeError") (typeErrorMessage (platform w) "exp")), w)
    | _ =>
        match Json.prop payload "exp" with
        | Some exp =>
            if truthy (Some exp) then
              match to_Number exp with
              | Some n =>
                  if negb (Num.lt n (Num.of_Z (now w / 1000)))
                     && is_string (Json.prop payload "iss") (Api.issuer pool)
                     && is_string (Json.prop payload "aud") client
                     && is_string (Json.prop payload "token_use") (str "id")
                  then (Ok (Some (user_of payload)), w)
                  else (Ok None, w)
              | None =>
                  (Throw (mkError (str "TypeError")
                            (typeErrorMessage (platform w)
                               "Cannot convert object to primitive value")), w)
              end
            else (Ok None, w)
        | None => (Ok None, w)
        end
    end.
Proof.
  unfold Api.isTokenExpired.
  destruct payload as [|b|n|s|l|ms]; try reflexivity.
  unfold numeric, bind, member, ret, Date_now. cbn [Json.prop].
  destruct (Json.get (str "exp") ms) as [exp|]; [|reflexivity].
  destruct (truthy (Some exp)); [|reflexivity]. cbn [negb].
  destruct (to_Number exp) as [x|]; [|reflexivity].
  destruct (Num.lt _ _); [reflexivity|]. cbn [negb andb].
  destruct (is_string (Json.get (str "iss") ms) _); [|reflexivity]. cbn [negb andb].
  destruct (is_string (Json.get (str "aud") ms) _); [|reflexivity]. cbn [negb andb].
  destruct (is_string (Json.get (str "token_use") ms) _); reflexivity.
Qed.

Lemma getAuthenticatedUser_token event cfg w p pool c client token :
  cfg !! str "cognito-user-pool-id" = Some (p :: pool) ->
  cfg !! str "cognito-client-id" = Some (c :: client) ->
  bearer_token event token ->
  Api.getAuthenticatedUser event cfg w
  = match Api.parseJWT token w with
    | (Ok JNull, _) | (Throw _, _) => (Ok None, w)
    | (Ok payload, _) =>
        match Json.prop payload "exp" with
        | Some exp =>
            if truthy (Some exp)
               && match to_Number exp with
                  | Some n => negb (Num.lt n (Num.of_Z (now w / 1000)))
                  | None => false
                  end
               && is_string (Json.prop payload "iss") (Api.issuer (p :: pool))
               && is_string (Json.prop payload "aud") (c :: client)
               && is_string (Json.prop payload "token_use") (str "id")
            then (Ok (Some (user_of payload)), w)
            else (Ok None, w)
        | None => (Ok None, w)
        end
    end.
Proof.
  intros Hp Hc (a & h & Ha & Hs & Hne). unfold Api.getAuthenticatedUser.
  rewrite Hp, Hc, Ha, Hs. destruct token as [|t0 token]; [congruence|].
  unfold try_catch. unfold bind at 1.
  destruct (Api.parseJWT (t0 :: token) w) as [[payload|e] w0] eqn:Ep;
    apply parseJWT_untouched in Ep; subst w0; [|reflexivity].
  rewrite (verify_payload (p :: pool) (c :: client) payload w).
  destruct payload; try reflexivity.
  destruct (Json.prop _ "exp") as [exp|]; [|reflexivity].
  destruct (truthy (Some exp)); [|reflexivity].
  destruct (to_Number exp) as [n|]; [|reflexivity].
  cbn [andb]. now destruct (_ && _).
Qed.

(** X17.  Identity extraction never raises and calls nothing: whatever the
    headers and the configuration, [getAuthenticatedUser] returns, with a
    record or with nothing, and leaves the world as it was. *)
Theorem identity_extraction_never_raises event cfg w :
  exists user, Api.getAuthenticatedUser event cfg w = (Ok user, w).
Proof. apply getAuthenticatedUser_pure. Qed.

(** X18.  An identity is produced exactly for a bearer token whose payload
    parses and whose claims match: the pool and the client are configured, the
    request carries a non-empty token, [parseJWT] returns its payload, the
    payload's [exp] is set, has a numeric value (the comparison does not throw)
    and that value is not before the current second, its [iss] is the issuer of
    the pool, its [aud] is the client and its [token_use] is [id]; the record
    is then made of the payload's [sub], [email], [cognito:username] and
    [cognito:user_status]. *)
Theorem identity_is_produced_iff_claims_match event cfg w user :
  Api.getAuthenticatedUser event cfg w = (Ok (Some user), w)
  <-> exists token payload,
        bearer_token event token
        /\ Api.parseJWT token w = (Ok payload, w)
        /\ claims_match cfg payload (now w)
        /\ user = user_of payload.
Proof.
  split.
  - intros H.
    destruct (cfg !! str "cognito-user-pool-id") as [[|p pool]|] eqn:Hp;
      try (unfold Api.getAuthenticatedUser in H; rewrite Hp in H; discriminate).
    destruct (cfg !! str "cognito-client-id") as [[|c client]|] eqn:Hc;
      try (unfold Api.getAuthenticatedUser in H; rewrite Hp, Hc in H; discriminate).
    destruct (Api.authorization_header event) as [[|a h]|] eqn:Ha;
      try (unfold Api.getAuthenticatedUser in H; rewrite Hp, Hc, Ha in H; discriminate).
    destruct (Api.strip_bearer (a :: h)) as [|t0 token] eqn:Hs;
      [unfold Api.getAuthenticatedUser in H; rewrite Hp, Hc, Ha, Hs in H; discriminate|].
    assert (Hb : bearer_token event (t0 :: token)) by (exists a, h; now repeat split).
    rewrite (getAuthenticatedUser_token _ _ _ _ _ _ _ _ Hp Hc Hb) in H.
    destruct (Api.parseJWT (t0 :: token) w) as [[payload|e] w0] eqn:Ep; [|discriminate].
    pose proof (parseJWT_untouched _ _ _ _ Ep) as ->.
    exists (t0 :: token), payload. split; [exact Hb|]. split; [exact Ep|].
    assert (Hcl : match Json.prop payload "exp" with
                  | Some exp =>
                      if truthy (Some exp)
                         && match to_Number exp with
                            | Some n => negb (Num.lt n (Num.of_Z (now w / 1000)))
                            | None => false
                            end
                         && is_string (Json.prop payload "iss") (Api.issuer (p :: pool))
                         && is_string (Json.prop payload "aud") (c :: client)
                         && is_string (Json.prop payload "token_use") (str "id")
                      then (Ok (Some (user_of payload)), w)
                      else (Ok None, w)
                  | None => (Ok None, w)
                  end = (Ok (Some user), w)) by (destruct payload; try discriminate; exact H).
    clear H. destruct (Json.prop payload "exp") as [exp|] eqn:He; [|discriminate].
    destruct (_ && _) eqn:Hall in Hcl; [|discriminate].
    injection Hcl as <-. split; [|reflexivity].
    apply andb_prop in Hall as [Hall Huse]. apply andb_prop in Hall as [Hall Haud].
    apply andb_prop in Hall as [Hall Hiss]. apply andb_prop in Hall as [Hexp Hlt].
    destruct (to_Number exp) as [n|] eqn:Hn; [|discriminate].
    apply negb_true_iff in Hlt.
    apply is_string_spec in Huse, Haud, Hiss.
    exists (p :: pool), (c :: client), exp, n. now repeat split.
  - intros (token & payload & Hb & Hparse & Hcl & ->).
    destruct Hcl
      as (pool & client & exp & n & Hp & Hpne & Hc & Hcne & He & Ht & Hn & Hlt & Hiss & Haud & Huse).
    destruct pool as [|p pool]; [congruence|]. destruct client as [|c client]; [congruence|].
    rewrite (getAuthenticatedUser_token _ _ _ _ _ _ _ _ Hp Hc Hb), Hparse.
    rewrite He, Ht, Hn, Hlt, Hiss, Haud, Huse.
    assert (Hs : forall s, is_string (Some (JStr s)) s = true) by (intros s; now apply is_string_spec).
    rewrite !Hs. cbn [negb andb].
    destruct payload; try reflexivity. discriminate He.
Qed.

(* ===================================================================== *)
(** * [parseJWT] *)
(* ===================================================================== *)

Section Tokens.
Local Open Scope N_scope.

Lemma split_length sep s : length (JsString.split sep s) = S (count_occ N.eq_dec s sep).
Proof.
  induction s as [|u r IH]; [reflexivity|].
  cbn [JsString.split count_occ]. destruct (N.eqb_spec u sep) as [->|Hne].
  - destruct (N.eq_dec sep sep); [|congruence]. cbn [length]. now rewrite IH.
  - destruct (N.eq_dec u sep); [congruence|].
    destruct (JsString.split sep r); [discriminate IH|exact IH].
Qed.

Lemma split_dotless sep s : Forall (fun u => u <> sep) s -> JsString.split sep s = [s].
Proof.
  induction 1 as [|u r Hu _ IH]; [reflexivity|].
  cbn [JsString.split]. apply N.eqb_neq in Hu. now rewrite Hu, IH.
Qed.

Lemma split_app sep a r :
  Forall (fun u => u <> sep) a -> JsString.split sep (a ++ sep :: r) = a :: JsString.split sep r.
Proof.
  induction 1 as [|u a Hu _ IH]; cbn [app JsString.split].
  - now rewrite N.eqb_refl.
  - apply N.eqb_neq in Hu. now rewrite Hu, IH.
Qed.

Lemma split_jwt h p s :
  dotless h -> dotless p -> dotless s -> JsString.split 46 (jwt h p s) = [h; p; s].
Proof.
  intros Hh Hp Hs. unfold jwt.
  now rewrite (split_app 46 h) by exact Hh; rewrite (split_app 46 p) by exact Hp;
    rewrite split_dotless.
Qed.

(** Padding never changes what is decoded. *)
Lemma sextets_padding s k : Buffer.sextets (s ++ List.repeat 61 k) = Buffer.sextets s.
Proof.
  induction s as [|u r IH]; cbn [app Buffer.sextets].
  - destruct k; reflexivity.
  - destruct (Buffer.unbase64 u); [now rewrite IH|]. destruct (u =? 61); [reflexivity|exact IH].
Qed.

Lemma unbase64_url_safe u : Buffer.unbase64 (url_safe u) = Buffer.unbase64 u.
Proof.
  unfold url_safe. destruct (N.eqb_spec u 43) as [->|H43]; [reflexivity|].
  destruct (N.eqb_spec u 47) as [->|H47]; reflexivity.
Qed.

Lemma url_safe_padding u : (url_safe u =? 61) = (u =? 61).
Proof.
  unfold url_safe. destruct (N.eqb_spec u 43) as [->|H43]; [reflexivity|].
  destruct (N.eqb_spec u 47) as [->|H47]; reflexivity.
Qed.

Lemma sextets_url_safe s : Buffer.sextets (List.map url_safe s) = Buffer.sextets s.
Proof.
  induction s as [|u r IH]; [reflexivity|].
  cbn [List.map Buffer.sextets]. now rewrite unbase64_url_safe, url_safe_padding, IH.
Qed.

Lemma alphabet_dotless i : Buffer.alphabet i <> 46.
Proof.
  unfold Buffer.alphabet.
  repeat match goal with |- context [if ?b then _ else _] => destruct b eqn:? end;
    rewrite ?N.ltb_lt, ?N.ltb_ge in *; lia.
Qed.

Lemma to_base64_dotless_bounded n : forall bs,
  (length bs <= n)%nat -> dotless (Buffer.to_base64 bs).
Proof.
  unfold dotless.
  induction n as [n IH] using (well_founded_induction lt_wf). intros bs Hlen.
  destruct bs as [|a [|b [|c r]]]; cbn [Buffer.to_base64 app];
    repeat (constructor; [first [apply alphabet_dotless | discriminate]|]);
    try constructor.
  apply (IH (length r)); cbn [length] in Hlen; lia.
Qed.

Lemma to_base64_dotless bs : dotless (Buffer.to_base64 bs).
Proof. apply (to_base64_dotless_bounded (length bs)). lia. Qed.

Lemma url_safe_dotless u : u <> 46 -> url_safe u <> 46.
Proof.
  unfold url_safe. intros H. destruct (u =? 43); [discriminate|]. now destruct (u =? 47).
Qed.

End Tokens.

(** X19.  [parseJWT] fails in one way only: whatever goes wrong, what it
    throws is an [Error] whose message starts with [Failed to parse JWT: ], and
    the world is as it was; a token that does not have exactly two dots is
    rejected with [Invalid JWT format]. *)
Theorem parseJWT_failures token w :
  (forall e w', Api.parseJWT token w = (Throw e, w') ->
     w' = w /\ name e = str "Error"
     /\ exists reason, message e = str "Failed to parse JWT: " ++ reason)
  /\ (count_occ N.eq_dec token 46%N <> 2%nat ->
      Api.parseJWT token w
      = (Throw (new_Error (str "Failed to parse JWT: Invalid JWT format")), w)).
Proof.
  split.
  - intros e w' H. split; [now apply parseJWT_untouched in H|].
    unfold Api.parseJWT, try_catch in H.
    match type of H with context [match ?m w with _ => _ end] =>
      destruct (m w) as [[payload|e0] w0] end; [discriminate|].
    injection H as <- <-. split; [reflexivity|]. now exists (message e0).
  - intros Hdots. unfold Api.parseJWT, try_catch.
    pose proof (split_length 46%N token) as Hlen.
    destruct (JsString.split 46%N token) as [|a [|b [|c [|d l]]]]; try reflexivity.
    cbn [length] in Hlen. congruence.
Qed.

(** X20.  [parseJWT] reads back the payload of a token: when the middle
    segment is the base64 text of the UTF-8 bytes of a JSON text, in the
    standard or in the URL-safe alphabet and with or without its padding, and
    the other two segments have no dot, the result is what [JSON.parse] makes
    of that text. *)
Theorem parseJWT_reads_the_payload h s text payload segment k w :
  dotless h -> dotless s ->
  wf_string text -> Paired text ->
  Json.parse text = Some payload ->
  Buffer.to_base64 (Buffer.from_utf8 text) = segment ++ List.repeat 61%N k ->
  Api.parseJWT (jwt h segment s) w = (Ok payload, w)
  /\ Api.parseJWT (jwt h (List.map url_safe segment) s) w = (Ok payload, w).
Proof.
  intros Hh Hs Hwf Hp Hj Hseg.
  assert (Hd : dotless segment).
  { pose proof (to_base64_dotless (Buffer.from_utf8 text)) as H. rewrite Hseg in H.
    unfold dotless in *. now apply Forall_app in H as [H _]. }
  assert (Hd' : dotless (List.map url_safe segment)).
  { unfold dotless in *. apply List.Forall_map.
    eapply Forall_impl; [exact Hd|]. intros u Hu. now apply url_safe_dotless. }
  assert (Hdec : forall seg pad,
             Buffer.sextets seg = Buffer.sextets segment ->
             Buffer.to_utf8 (Buffer.from_base64 (seg ++ JsString.repeat1 61%N pad)) = text).
  { intros seg pad Hx. unfold Buffer.from_base64, JsString.repeat1.
    rewrite sextets_padding, Hx, <- (sextets_padding segment k), <- Hseg.
    change (Buffer.octets (Buffer.sextets ?x)) with (Buffer.from_base64 x).
    rewrite from_base64_to_base64 by now apply wf_bytes_from_utf8.
    now apply to_utf8_from_utf8. }
  unfold Api.parseJWT, try_catch. split.
  - rewrite (split_jwt h segment s Hh Hd Hs). unfold JSON_parse.
    now rewrite Hdec, Hj.
  - rewrite (split_jwt h _ s Hh Hd' Hs). unfold JSON_parse.
    now rewrite Hdec, Hj by apply sextets_url_safe.
Qed.

(* ===================================================================== *)
(** * The worker: a record that is fulfilled *)
(* ===================================================================== *)

Ltac world_field :=
  unfold ddb_sent, update_sent, put_sent, sqs_sent, sns_sent, fetch_sent, advance;
  repeat (cbn [platform table ddb_log sqs_log sns_log fetch_log api_cache worker_cache now clock
                 uuid uuids ddb_faults sqs_faults sns_faults fetches ssm CONFIG_TTL_MS
                 with_table with_ddb with_sqs with_sns with_fetch with_api_cache
                 with_worker_cache with_clock with_uuid with_ssm];
          try match goal with
              | |- context [match clock ?w with [] => _ | _ :: _ => _ end] =>
                  is_var w; destruct (clock w)
              | |- context [match ?l with [] => _ | _ :: _ => _ end] =>
                  is_var l; match type of l with list Z => destruct l end
              end);
  try reflexivity.

Lemma fetch_ok req w status text rest :
  fetches w = FetchResponse status text :: rest ->
  Worker.fetch req w = (Ok (status, text), fetch_sent req w).
Proof. intros H. unfold Worker.fetch, fetch_sent. now rewrite H. Qed.

Lemma callOpenAI_ok cfg topic w md :
  backend_answers w md -> md <> [] ->
  Worker.callOpenAIWithPrompt topic (default [] (cfg !! str "openai-api-key"))
    (default [] (cfg !! str "openai-prompt-id")) w
  = (Ok md, fetch_sent (prompt_request cfg topic) w).
Proof.
  intros (status & text & rest & data & Hf & Hs & Hp & Hmd) Hne.
  unfold Worker.callOpenAIWithPrompt. cbv zeta. unfold bind at 1.
  fold (prompt_request cfg topic). rewrite (fetch_ok _ _ _ _ _ Hf).
  replace ((200 <=? status)%Z && (status <=? 299)%Z) with true
    by (symmetry; apply andb_true_intro; split; apply Z.leb_le; lia).
  cbn [negb]. unfold bind at 1, JSON_parse. rewrite Hp.
  unfold bind. rewrite Hmd. now destruct md.
Qed.

Lemma names_task_members rec k topic w :
  names_task rec k topic ->
  exists msg,
    JSON_parse (Worker.body rec) w = (Ok msg, w)
    /\ member msg "id" w = (Ok (Some (JStr k)), w)
    /\ member msg "topic" w = (Ok (Some topic), w).
Proof.
  intros (msg & Hp & Hid & _ & Ht & _). exists msg.
  assert (Hn : msg <> JNull) by (intros ->; discriminate Hid).
  unfold JSON_parse. rewrite Hp, !member_opt_prop, Hid, Ht by exact Hn. now repeat split.
Qed.

(** The world after the two updates and the request of a fulfilled
    record. *)
Lemma fulfil_ok cfg rec k topic w md :
  names_task rec k topic ->
  next_fault (ddb_faults w) = None ->
  next_fault (tail (ddb_faults w)) = None ->
  backend_answers w md -> md <> [] ->
  exists w1 t2,
    Worker.fulfil cfg rec w = (Ok (JStr k, topic), w1)
    /\ table w1
       = <[k := Ddb.apply_update
                  [("researchMd"%string, AttrS md); ("status"%string, AttrS (str "DONE"));
                   ("updatedAt"%string, AttrS (Date.toISOString t2))] ["error"%string]
                  (Ddb.apply_update
                     [("status"%string, AttrS (str "PROCESSING"));
                      ("updatedAt"%string, AttrS (Date.toISOString (now w)))] []
                     (item_before w k))]> (table w)
    /\ ddb_log w1
       = ddb_log w
         ++ [UpdateCommand (JStr k)
               [("status"%string, AttrS (str "PROCESSING"));
                ("updatedAt"%string, AttrS (Date.toISOString (now w)))] [];
             UpdateCommand (JStr k)
               [("researchMd"%string, AttrS md); ("status"%string, AttrS (str "DONE"));
                ("updatedAt"%string, AttrS (Date.toISOString t2))] ["error"%string]]
    /\ fetch_log w1 = fetch_log w ++ [prompt_request cfg topic]
    /\ sns_log w1 = sns_log w
    /\ sns_faults w1 = sns_faults w
    /\ sqs_log w1 = sqs_log w.
Proof.
  intros Hn Hf1 Hf2 Hb Hmd.
  destruct (names_task_members rec k topic w Hn) as (msg & Hp & Hid & Ht).
  destruct Hn as (_ & _ & _ & Hk & _ & Htr).
  unfold Worker.fulfil. cbv zeta.
  rewrite (bind_ok _ _ _ _ _ Hp), (bind_ok _ _ _ _ _ Hid), (bind_ok _ _ _ _ _ Ht).
  assert (Htk : truthy (Some (JStr k)) = true) by (destruct k; [congruence|reflexivity]).
  rewrite Htk, Htr. cbn [negb orb].
  rewrite (interpolate_text (JStr k) k) by reflexivity.
  unfold bind at 1, now_ISO at 1, bind at 1, Date_now, ret at 1.
  unfold bind at 1. rewrite (update_ok k _ _ w Hk Hf1).
  set (w_a := with_table _ (update_sent _ _ _ w)).
  assert (Hba : backend_answers w_a md).
  { destruct Hb as (status & text & rest & data & Hfe & Hs & Hpt & He).
    exists status, text, rest, data. split; [|now repeat split].
    rewrite <- Hfe. unfold w_a. world_field. }
  unfold bind at 1. rewrite (callOpenAI_ok cfg topic w_a md Hba Hmd).
  set (w_b := fetch_sent _ w_a).
  rewrite (interpolate_text (JStr k) k) by reflexivity.
  unfold bind at 1, now_ISO at 1, bind at 1, Date_now, ret at 1.
  assert (Hfb : next_fault (ddb_faults w_b) = None).
  { rewrite <- Hf2. f_equal. unfold w_b, w_a. world_field. }
  unfold bind at 1. rewrite (update_ok k _ _ w_b Hk Hfb).
  exists (with_table
            (<[k := Ddb.apply_update
                      [("researchMd"%string, AttrS md); ("status"%string, AttrS (str "DONE"));
                       ("updatedAt"%string, AttrS (Date.toISOString (now w_b)))] ["error"%string]
                      (default {[ "id"%string := AttrS k ]} (table w_b !! k))]> (table w_b))
            (update_sent (JStr k)
               [("researchMd"%string, AttrS md); ("status"%string, AttrS (str "DONE"));
                ("updatedAt"%string, AttrS (Date.toISOString (now w_b)))] ["error"%string] w_b)),
    (now w_b).
  split; [reflexivity|].
  assert (Htb : table w_b
                = <[k := Ddb.apply_update
                           [("status"%string, AttrS (str "PROCESSING"));
                            ("updatedAt"%string, AttrS (Date.toISOString (now w)))] []
                           (item_before w k)]> (table w)).
  { unfold w_b, w_a, item_before. world_field. }
  split.
  { cbn [table with_table]. rewrite Htb, lookup_insert_eq. cbn [default].
    apply insert_insert_eq. }
  split.
  { cbn [ddb_log with_table]. unfold w_b, w_a. world_field; now rewrite <- app_assoc. }
  split; [unfold w_b, w_a; world_field|].
  split; [unfold w_b, w_a; world_field|].
  split; unfold w_b, w_a; world_field.
Qed.

Lemma publish_ok msg w :
  next_fault (sns_faults w) = None -> Sns.publish msg w = (Ok tt, sns_sent msg w).
Proof. intros Hf. unfold Sns.publish, sns_sent. now rewrite Hf. Qed.

Lemma notify_ok cfg k topic t w :
  to_String topic = Some t ->
  next_fault (sns_faults w) = None ->
  exists w',
    Worker.notify cfg (JStr k) topic w = (Ok tt, w')
    /\ table w' = table w
    /\ sns_log w' = sns_log w ++ notices cfg k t
    /\ fetch_log w' = fetch_log w
    /\ sqs_log w' = sqs_log w
    /\ ddb_log w' = ddb_log w.
Proof.
  intros Ht Hf. unfold Worker.notify, notices.
  destruct (cfg !! str "sns-topic-arn") as [[|u arn]|].
  - exists w. rewrite app_nil_r. now repeat split.
  - rewrite (interpolate_text (JStr k) k) by reflexivity.
    rewrite (interpolate_text topic t) by exact Ht.
    rewrite (interpolate_text (JStr k) k) by reflexivity.
    rewrite (publish_ok _ _ Hf). eexists. split; [reflexivity|]. repeat split; world_field.
  - exists w. rewrite app_nil_r. now repeat split.
Qed.

Lemma not_worker_attribute name :
  name ∉ worker_attributes ->
  name <> "status"%string /\ name <> "researchMd"%string
  /\ name <> "error"%string /\ name <> "updatedAt"%string.
Proof.
  unfold worker_attributes. intros H. repeat split; intros ->; apply H;
    rewrite !elem_of_cons; auto 10.
Qed.

(** X21.  A record that names a task and a topic whose text can be
    written, with the store, the generation backend and the notification
    channel all answering, is fulfilled: it is not named in the failures; the
    task ends with the status [DONE], the generated text as [researchMd] and no
    [error], its other attributes and the other tasks being as they were; one
    request, carrying the prompt id and the topic under the API key, has gone
    to the backend; one notice, with the text of the topic and the [id], has
    been sent if the notification channel is configured and none otherwise; and
    nothing has been sent to the queue. *)
Theorem record_is_fulfilled cfg rec failures w k topic t md :
  names_task rec k topic ->
  to_String topic = Some t ->
  next_fault (ddb_faults w) = None ->
  next_fault (tail (ddb_faults w)) = None ->
  backend_answers w md -> md <> [] ->
  next_fault (sns_faults w) = None ->
  exists w' item,
    Worker.handle_record cfg failures rec w = (Ok failures, w')
    /\ table w' !! k = Some item
    /\ item !! "status"%string = Some (AttrS (str "DONE"))
    /\ item !! "researchMd"%string = Some (AttrS md)
    /\ item !! "error"%string = None
    /\ (forall name, name ∉ worker_attributes -> item !! name = item_before w k !! name)
    /\ (forall id, id <> k -> table w' !! id = table w !! id)
    /\ fetch_log w' = fetch_log w ++ [prompt_request cfg topic]
    /\ sns_log w' = sns_log w ++ notices cfg k t
    /\ sqs_log w' = sqs_log w.
Proof.
  intros Hn Htext Hf1 Hf2 Hb Hmd Hs.
  destruct (fulfil_ok cfg rec k topic w md Hn Hf1 Hf2 Hb Hmd)
    as (w1 & t2 & Hful & Htab & _ & Hfetch & Hsns & Hsf & Hsqs).
  destruct (notify_ok cfg k topic t w1 Htext) as (w' & Hnot & Ht' & Hs' & Hf' & Hq' & _);
    [now rewrite Hsf|].
  exists w'. eexists.
  split.
  { unfold Worker.handle_record, try_catch, Worker.process, bind.
    rewrite Hful. cbn [fst snd]. now rewrite Hnot. }
  rewrite Ht', Htab. split; [apply lookup_insert_eq|].
  unfold Ddb.apply_update. cbn [fold_left fst snd].
  split; [now simplify_map_eq|]. split; [now simplify_map_eq|].
  split; [now simplify_map_eq|]. split.
  { intros name Hname. apply not_worker_attribute in Hname as (H1 & H2 & H3 & H4).
    rewrite lookup_delete_ne by congruence. now rewrite !lookup_insert_ne by congruence. }
  split; [intros id Hid; now rewrite lookup_insert_ne by congruence|].
  split; [congruence|]. split; congruence.
Qed.

(* ===================================================================== *)
(** * The worker: a record whose generation fails *)
(* ===================================================================== *)

Lemma callOpenAI_fails cfg topic w err :
  backend_fails w err ->
  Worker.callOpenAIWithPrompt topic (default [] (cfg !! str "openai-api-key"))
    (default [] (cfg !! str "openai-prompt-id")) w
  = (Throw err, fetch_sent (prompt_request cfg topic) w).
Proof.
  intros Hb. unfold Worker.callOpenAIWithPrompt. cbv zeta. unfold bind at 1.
  fold (prompt_request cfg topic).
  destruct Hb as [(rest & Hf) | [(status & text & rest & Hf & Hs & ->)
                                | (status & text & rest & data & Hf & Hs & Hp & Hmd & ->)]].
  - unfold Worker.fetch, fetch_sent. now rewrite Hf.
  - rewrite (fetch_ok _ _ _ _ _ Hf).
    replace ((200 <=? status)%Z && (status <=? 299)%Z) with false; [reflexivity|].
    symmetry. apply andb_false_iff.
    destruct (Z.leb_spec 200 status); [|now left]. right. apply Z.leb_gt. lia.
  - rewrite (fetch_ok _ _ _ _ _ Hf).
    replace ((200 <=? status)%Z && (status <=? 299)%Z) with true
      by (symmetry; apply andb_true_intro; split; apply Z.leb_le; lia).
    cbn [negb]. unfold bind at 1, JSON_parse. rewrite Hp.
    unfold bind. now rewrite Hmd.
Qed.

Lemma mark_error_ok err rec k topic w :
  names_task rec k topic ->
  next_fault (ddb_faults w) = None ->
  let sets := [("error"%string, AttrS (Worker.describe err));
               ("status"%string, AttrS (str "ERROR"));
               ("updatedAt"%string, AttrS (Date.toISOString (now w)))] in
  Worker.mark_error err rec w
  = (Ok tt, with_table (<[k := Ddb.apply_update sets [] (item_before w k)]> (table w))
              (update_sent (JStr k) sets [] w)).
Proof.
  intros (msg & Hp & Hid & Hk & _) Hf. cbv zeta.
  unfold Worker.mark_error, try_catch. unfold bind at 1, JSON_parse. rewrite Hp, Hid.
  assert (Htk : truthy (Some (JStr k)) = true) by (destruct k; [congruence|reflexivity]).
  rewrite Htk. rewrite (interpolate_text (JStr k) k) by reflexivity.
  unfold bind at 1, now_ISO, bind at 1, Date_now, ret at 1.
  now rewrite (update_ok k _ _ w Hk Hf).
Qed.

(** X22.  A record whose generation fails is reported and marked: when the
    backend cannot be reached, or answers with another status than success, or
    answers with a body that holds no text, the record is named in the
    failures; the task, which had been marked [PROCESSING], ends with the
    status [ERROR] and the text of the failure as [error] (for an unsuccessful
    answer: [OpenAI], the status and the body); its [researchMd] is not
    touched, no notice is sent and nothing is sent to the queue. *)
Theorem failed_generation_is_recorded cfg rec failures w k topic err :
  names_task rec k topic ->
  next_fault (ddb_faults w) = None ->
  next_fault (tail (ddb_faults w)) = None ->
  backend_fails w err ->
  exists w' item,
    Worker.handle_record cfg failures rec w = (Ok (failures ++ [Worker.messageId rec]), w')
    /\ table w' !! k = Some item
    /\ item !! "status"%string = Some (AttrS (str "ERROR"))
    /\ item !! "error"%string = Some (AttrS (Worker.describe err))
    /\ item !! "researchMd"%string = item_before w k !! "researchMd"%string
    /\ ddb_log w'
       = ddb_log w
         ++ [UpdateCommand (JStr k)
               [("status"%string, AttrS (str "PROCESSING"));
                ("updatedAt"%string, AttrS (Date.toISOString (now w)))] [];
             error_update (JStr k) err (now (advance (advance w)))]
    /\ fetch_log w' = fetch_log w ++ [prompt_request cfg topic]
    /\ sns_log w' = sns_log w
    /\ sqs_log w' = sqs_log w.
Proof.
  intros Hn Hf1 Hf2 Hb.
  destruct (names_task_members rec k topic w Hn) as (msg & Hp & Hid & Ht).
  pose proof Hn as (_ & _ & _ & Hk & _ & Htr).
  assert (Htk : truthy (Some (JStr k)) = true) by (destruct k; [congruence|reflexivity]).
  set (sets1 := [("status"%string, AttrS (str "PROCESSING"));
                 ("updatedAt"%string, AttrS (Date.toISOString (now w)))]).
  set (w_a := with_table (<[k := Ddb.apply_update sets1 [] (item_before w k)]> (table w))
                (update_sent (JStr k) sets1 [] w)).
  set (w_b := fetch_sent (prompt_request cfg topic) w_a).
  assert (Hproc : Worker.process cfg rec w = (Throw err, w_b)).
  { unfold Worker.process, Worker.fulfil. cbv zeta. unfold bind at 1.
    rewrite (bind_ok _ _ _ _ _ Hp), (bind_ok _ _ _ _ _ Hid), (bind_ok _ _ _ _ _ Ht).
    rewrite Htk, Htr. cbn [negb orb].
    rewrite (interpolate_text (JStr k) k) by reflexivity.
    unfold bind at 1, now_ISO at 1, bind at 1, Date_now, ret at 1.
    unfold bind at 1. rewrite (update_ok k _ _ w Hk Hf1).
    fold sets1. fold (item_before w k). fold w_a.
    assert (Hba : backend_fails w_a err).
    { assert (Hfe : fetches w_a = fetches w) by (unfold w_a; world_field).
      unfold backend_fails. now rewrite Hfe. }
    unfold bind at 1. now rewrite (callOpenAI_fails cfg topic w_a err Hba). }
  assert (Hfb : next_fault (ddb_faults w_b) = None).
  { rewrite <- Hf2. f_equal. unfold w_b, w_a. world_field. }
  assert (Hnow : now w_b = now (advance (advance w))).
  { unfold w_b, w_a. world_field. }
  unfold Worker.handle_record, try_catch. unfold bind at 1. rewrite Hproc.
  unfold bind. rewrite (mark_error_ok err rec k topic w_b Hn Hfb).
  eexists. eexists. split; [reflexivity|].
  assert (Htb : table w_b = <[k := Ddb.apply_update sets1 [] (item_before w k)]> (table w))
    by (unfold w_b, w_a; world_field).
  cbn [table with_table]. split; [apply lookup_insert_eq|].
  unfold item_before at 1 2 3. rewrite Htb, lookup_insert_eq. cbn [default].
  unfold Ddb.apply_update, sets1. cbn [fold_left fst snd].
  split; [now simplify_map_eq|]. split; [now simplify_map_eq|].
  split; [now simplify_map_eq|].
  split.
  { unfold error_update. rewrite <- Hnow. unfold w_b, w_a.
    world_field; now rewrite <- app_assoc. }
  split; [unfold w_b, w_a; world_field|].
  split; unfold w_b, w_a; world_field.
Qed.

(* ===================================================================== *)
(** * The worker: what it leaves alone *)
(* ===================================================================== *)

Lemma idle_refl w : store_and_queue_idle w w.
Proof. now repeat split. Qed.

Lemma idle_trans w1 w2 w3 :
  store_and_queue_idle w1 w2 -> store_and_queue_idle w2 w3 -> store_and_queue_idle w1 w3.
Proof. unfold store_and_queue_idle. intros (? & ? & ?) (? & ? & ?). repeat split; congruence. Qed.

Lemma quiet_idle w w' : quiet w w' -> store_and_queue_idle w w'.
Proof. intros []. now repeat split. Qed.

Lemma idle_fetch req : respects store_and_queue_idle (Worker.fetch req).
Proof.
  intros w r w' H. unfold Worker.fetch in H. fold (fetch_sent req w) in H.
  assert (w' = fetch_sent req w)
    by (destruct (fetches w) as [|[e|status text] rest]; now inversion H).
  subst. repeat split; world_field.
Qed.

Lemma idle_publish msg : respects store_and_queue_idle (Sns.publish msg).
Proof.
  intros w r w' H. unfold Sns.publish in H. fold (sns_sent msg w) in H.
  assert (w' = sns_sent msg w) by (destruct (next_fault _); now inversion H).
  subst. repeat split; world_field.
Qed.

Ltac idle_step :=
  first
    [ apply idle_fetch
    | apply idle_publish
    | apply (respects_now_ISO store_and_queue_idle idle_refl idle_trans)
    | apply (respects_bind store_and_queue_idle idle_trans); [|intros ?]
    | apply (respects_try store_and_queue_idle idle_trans); [|intros ?]
    | apply (respects_ret store_and_queue_idle idle_refl)
    | apply (respects_throw store_and_queue_idle idle_refl)
    | apply (respects_TypeError store_and_queue_idle idle_refl)
    | apply (respects_JSON_parse store_and_queue_idle idle_refl)
    | apply (respects_member store_and_queue_idle idle_refl)
    | apply (respects_interpolate store_and_queue_idle idle_refl)
    | apply (respects_numeric store_and_queue_idle idle_refl)
    | match goal with
      | |- respects _ (match ?x with _ => _ end) => destruct x
      | |- respects _ (if ?x then _ else _) => destruct x
      end ].

Lemma idle_blocks_parts blks : respects store_and_queue_idle (Worker.blocks_parts blks).
Proof.
  induction blks as [|blk rest IH]; simpl; [idle_step|].
  idle_step; [unfold Worker.block_parts; repeat idle_step|].
  idle_step; [exact IH|]. idle_step.
Qed.

Lemma idle_extractMarkdown data : respects store_and_queue_idle (Worker.extractMarkdown data).
Proof.
  unfold Worker.extractMarkdown. cbv zeta.
  repeat first [apply idle_blocks_parts | idle_step].
Qed.

Lemma idle_callOpenAI topic apiKey promptId :
  respects store_and_queue_idle (Worker.callOpenAIWithPrompt topic apiKey promptId).
Proof.
  unfold Worker.callOpenAIWithPrompt. cbv zeta.
  idle_step; [idle_step|]. destruct a as [status txt].
  repeat first [apply idle_extractMarkdown | idle_step].
Qed.

Lemma idle_worker_loadConfig : respects store_and_queue_idle Worker.loadConfig.
Proof. eapply respects_weaken; [apply quiet_idle | apply worker_loadConfig_quiet]. Qed.

Lemma worker_step_refl w : worker_step w w.
Proof.
  split; [exists []; now rewrite app_nil_r|]. split; [reflexivity|].
  intros id item H. now exists item.
Qed.

Lemma worker_step_trans w1 w2 w3 : worker_step w1 w2 -> worker_step w2 w3 -> worker_step w1 w3.
Proof.
  intros ((l1 & Hl1 & Hu1) & Hq1 & Ht1) ((l2 & Hl2 & Hu2) & Hq2 & Ht2). split; [|split].
  - exists (l1 ++ l2). rewrite Hl2, Hl1, app_assoc. split; [reflexivity|].
    apply Forall_app. now split.
  - congruence.
  - intros id item H. destruct (Ht1 id item H) as (item1 & H1 & Hn1).
    destruct (Ht2 id item1 H1) as (item2 & H2 & Hn2). exists item2. split; [exact H2|].
    intros name Hname. now rewrite Hn2, Hn1.
Qed.

Lemma idle_worker_step w w' : store_and_queue_idle w w' -> worker_step w w'.
Proof.
  intros (Ht & Hl & Hq). split; [exists []; now rewrite app_nil_r|]. split; [exact Hq|].
  intros id item H. exists item. now rewrite Ht.
Qed.

Lemma apply_update_other sets removes item name :
  name ∉ List.map fst sets -> name ∉ removes ->
  Ddb.apply_update sets removes item !! name = item !! name.
Proof.
  unfold Ddb.apply_update. intros Hs Hr.
  assert (Hrem : forall rs (it : Item), name ∉ rs ->
             fold_left (fun it0 n => delete n it0) rs it !! name = it !! name).
  { induction rs as [|r rs IH]; intros it Hn; [reflexivity|].
    cbn [fold_left]. rewrite IH by (intros Hin; apply Hn; now right).
    apply lookup_delete_ne. intros ->. apply Hn. now left. }
  rewrite Hrem by exact Hr. clear Hrem Hr. revert item.
  induction sets as [|[n a] sets IH]; intros item; [reflexivity|].
  cbn [fold_left fst snd]. rewrite IH by (intros Hin; apply Hs; now right).
  apply lookup_insert_ne. intros ->. apply Hs. now left.
Qed.

(** An update that writes the worker's attributes only. *)
Lemma worker_step_update key sets removes :
  (forall name, name ∈ List.map fst sets ++ removes -> name ∈ worker_attributes) ->
  respects worker_step (Ddb.update key sets removes).
Proof.
  intros Hattr w r w' H.
  assert (Hq : sqs_log w' = sqs_log w).
  { unfold Ddb.update, bind, Ddb.send in H. fold (update_sent key sets removes w) in H.
    assert (Hs : sqs_log (update_sent key sets removes w) = sqs_log w) by world_field.
    destruct (next_fault _); [now inversion H|].
    destruct key as [| | |[|u k]| |]; inversion H; subst; exact Hs. }
  apply update_inv in H as [Hlog H]. split; [|split; [exact Hq|]].
  - exists [UpdateCommand key sets removes]. split; [exact Hlog|]. now repeat constructor.
  - intros id item Hid. destruct r as [[]|e].
    + destruct H as (k & -> & Hk & _ & Htab). rewrite Htab.
      destruct (decide (k = id)) as [->|Hne].
      * rewrite lookup_insert_eq, Hid. cbn [default]. eexists. split; [reflexivity|].
        intros name Hname. apply apply_update_other; intros Hin; apply Hname, Hattr;
          apply elem_of_app; [now left|now right].
      * rewrite lookup_insert_ne by exact Hne. now exists item.
    + rewrite H. now exists item.
Qed.

Ltac worker_attribute :=
  intros ? Hin; unfold worker_attributes; cbn [List.map fst app] in Hin;
  repeat (apply elem_of_cons in Hin as [->|Hin]; [rewrite !elem_of_cons; auto 10|]);
  now apply elem_of_nil in Hin.

Ltac worker_step_tac :=
  first
    [ apply worker_step_update; worker_attribute
    | apply (respects_weaken store_and_queue_idle _ _ idle_worker_step);
      first [ apply idle_callOpenAI | apply idle_publish | apply idle_worker_loadConfig ]
    | apply (respects_now_ISO worker_step worker_step_refl worker_step_trans)
    | apply (respects_bind worker_step worker_step_trans); [|intros ?]
    | apply (respects_try worker_step worker_step_trans); [|intros ?]
    | apply (respects_ret worker_step worker_step_refl)
    | apply (respects_throw worker_step worker_step_refl)
    | apply (respects_JSON_parse worker_step worker_step_refl)
    | apply (respects_member worker_step worker_step_refl)
    | apply (respects_interpolate worker_step worker_step_refl)
    | apply (respects_numeric worker_step worker_step_refl)
    | match goal with
      | |- respects _ (match ?x with _ => _ end) => destruct x
      | |- respects _ (if ?x then _ else _) => destruct x
      end ].

Lemma worker_step_handle_record cfg failures rec :
  respects worker_step (Worker.handle_record cfg failures rec).
Proof.
  unfold Worker.handle_record, Worker.process, Worker.notify, Worker.fulfil, Worker.mark_error.
  cbv zeta. repeat worker_step_tac.
Qed.

Lemma worker_step_handle_records cfg recs : forall failures,
  respects worker_step (Worker.handle_records cfg failures recs).
Proof.
  induction recs as [|rec rest IH]; intros failures; simpl.
  - worker_step_tac.
  - worker_step_tac; [apply worker_step_handle_record | apply IH].
Qed.

(** X23.  Whatever a batch holds and whatever the services do, the worker
    asks nothing of the store but updates, keeps every stored task (it never
    deletes one) with its attributes other than [status], [researchMd],
    [error] and [updatedAt] as they were, and sends nothing to the queue. *)
Theorem worker_only_updates_its_attributes event w :
  worker_step w (snd (Worker.handler event w)).
Proof.
  destruct (Worker.handler event w) as [r w'] eqn:E. cbn [snd]. revert E.
  unfold Worker.handler. cbv zeta.
  repeat first [ apply worker_step_handle_records | worker_step_tac ].
Qed.

(* ===================================================================== *)
(** * The worker: the failure report *)
(* ===================================================================== *)

Lemma handle_records_report cfg recs : forall failures w,
  exists l w',
    Worker.handle_records cfg failures recs w = (Ok (failures ++ l), w')
    /\ sublist l (List.map Worker.messageId recs).
Proof.
  induction recs as [|rec rest IH]; intros failures w; cbn [Worker.handle_records List.map].
  - exists [], w. rewrite app_nil_r. split; [reflexivity|constructor].
  - unfold bind. destruct (handle_record_total cfg failures rec w) as (f1 & w1 & -> & Hf).
    destruct (IH f1 w1) as (l & w2 & -> & Hsub). destruct Hf as [-> | ->].
    + exists l, w2. split; [reflexivity|]. now apply sublist_cons.
    + exists (Worker.messageId rec :: l), w2. rewrite <- app_assoc. split; [reflexivity|].
      now apply sublist_skip.
Qed.

(** X24.  The worker never fails an invocation as a whole: whatever the
    event and whatever the services do, the handler returns a report, and the
    report names records of the batch only, in the order of the batch and each
    at most as often as it occurs there. *)
Theorem failure_report_is_drawn_from_the_batch event w :
  exists report w',
    Worker.handler event w = (Ok report, w')
    /\ sublist (Worker.batchItemFailures report)
         (List.map Worker.messageId (default [] (Worker.Records event))).
Proof.
  unfold Worker.handler. cbv zeta. unfold bind at 1, try_catch, bind at 1.
  destruct (Worker.loadConfig w) as [[cfg|e] w1]; unfold ret at 1.
  - unfold bind.
    destruct (handle_records_report cfg (default [] (Worker.Records event)) [] w1)
      as (l & w2 & -> & Hsub).
    eexists. eexists. split; [reflexivity|exact Hsub].
  - eexists. eexists. split; [reflexivity|]. reflexivity.
Qed.

(* ===================================================================== *)
(** * The worker: the notes of a finished task *)
(* ===================================================================== *)

Section Trimming.

Lemma trimStart_idem s : JsString.trimStart (JsString.trimStart s) = JsString.trimStart s.
Proof.
  induction s as [|u r IH]; [reflexivity|]. cbn [JsString.trimStart].
  destruct (JsString.is_space u) eqn:E; [exact IH|]. cbn [JsString.trimStart]. now rewrite E.
Qed.

Lemma trimStart_head s :
  JsString.trimStart s = []
  \/ exists u r, JsString.trimStart s = u :: r /\ JsString.is_space u = false.
Proof.
  induction s as [|u r IH]; [now left|]. cbn [JsString.trimStart].
  destruct (JsString.is_space u) eqn:E; [exact IH|]. right. now exists u, r.
Qed.

Lemma trimStart_snoc a u :
  JsString.is_space u = false -> JsString.trimStart (a ++ [u]) = JsString.trimStart a ++ [u].
Proof.
  intros Hu. induction a as [|v a IH]; cbn [app JsString.trimStart].
  - now rewrite Hu.
  - destruct (JsString.is_space v); [exact IH|reflexivity].
Qed.

Lemma trimEnd_cons u r :
  JsString.is_space u = false -> JsString.trimEnd (u :: r) = u :: JsString.trimEnd r.
Proof.
  intros Hu. unfold JsString.trimEnd. cbn [rev].
  now rewrite trimStart_snoc, rev_app_distr by exact Hu.
Qed.

Lemma trimEnd_idem s : JsString.trimEnd (JsString.trimEnd s) = JsString.trimEnd s.
Proof. unfold JsString.trimEnd. now rewrite rev_involutive, trimStart_idem. Qed.

(** Trimming what is trimmed changes nothing. *)
Lemma trim_idem s : JsString.trim (JsString.trim s) = JsString.trim s.
Proof.
  unfold JsString.trim. destruct (trimStart_head s) as [-> | (u & r & -> & Hu)]; [reflexivity|].
  rewrite (trimEnd_cons u r Hu). cbn [JsString.trimStart]. rewrite Hu.
  now rewrite (trimEnd_cons u _ Hu), trimEnd_idem.
Qed.

End Trimming.

Lemma returns_weaken {A} (P Q : A -> Prop) (m : M A) :
  (forall a, P a -> Q a) -> returns P m -> returns Q m.
Proof. intros HPQ Hm w a w' H. eapply HPQ, Hm, H. Qed.

(** What [extractMarkdown] returns is trimmed. *)
Lemma extractMarkdown_trimmed data :
  returns (fun md => JsString.trim md = md) (Worker.extractMarkdown data).
Proof.
  unfold Worker.extractMarkdown. cbv zeta.
  assert (Hold : JsString.trim
                   (match Json.opt_prop (Some data) "content" with
                    | Some (JArr cs) => JsString.trim (concat (List.map Worker.older_part cs))
                    | _ => []
                    end)
                 = match Json.opt_prop (Some data) "content" with
                   | Some (JArr cs) => JsString.trim (concat (List.map Worker.older_part cs))
                   | _ => []
                   end).
  { destruct (Json.opt_prop (Some data) "content") as [[]|]; try reflexivity. apply trim_idem. }
  assert (Hout : returns (fun md => JsString.trim md = md)
                   (match Json.opt_prop (Some data) "output" with
                    | Some (JArr blks) =>
                        let* parts := Worker.blocks_parts blks in
                        if truthy_string (JsString.trim (concat parts))
                        then ret (JsString.trim (concat parts))
                        else ret
                               (match Json.opt_prop (Some data) "content" with
                                | Some (JArr cs) =>
                                    JsString.trim (concat (List.map Worker.older_part cs))
                                | _ => []
                                end)
                    | _ => ret
                             (match Json.opt_prop (Some data) "content" with
                              | Some (JArr cs) =>
                                  JsString.trim (concat (List.map Worker.older_part cs))
                              | _ => []
                              end)
                    end)).
  { destruct (Json.opt_prop (Some data) "output") as [[]|]; try (apply returns_ret; exact Hold).
    apply returns_bind. intros parts.
    destruct (truthy_string _); apply returns_ret; [apply trim_idem|exact Hold]. }
  destruct (Worker.as_string _) as [s|]; [|exact Hout].
  destruct (truthy_string _); [|exact Hout]. apply returns_ret, trim_idem.
Qed.

(** What the generation returns is trimmed and not empty. *)
Lemma callOpenAI_notes topic apiKey promptId :
  returns (fun md => md <> [] /\ JsString.trim md = md)
    (Worker.callOpenAIWithPrompt topic apiKey promptId).
Proof.
  unfold Worker.callOpenAIWithPrompt. cbv zeta.
  apply returns_bind. intros [status txt].
  destruct (negb _); [apply returns_throw|].
  apply returns_bind. intros data.
  intros w md w' H. unfold bind in H.
  destruct (Worker.extractMarkdown data w) as [[md0|e] w1] eqn:E; [|discriminate].
  apply extractMarkdown_trimmed in E.
  destruct md0 as [|c r]; [discriminate|]. cbn [truthy_string negb] in H.
  injection H as <- <-. split; [discriminate|exact E].
Qed.

(** X25.  The notes of a finished task are never blank: when the [try]
    block of a record has written [DONE], the task it names carries the status
    [DONE], no [error], and as [researchMd] a text that is not empty and has no
    white space at either end. *)
Theorem finished_task_has_notes cfg rec w id topic w1 :
  Worker.fulfil cfg rec w = (Ok (id, topic), w1) ->
  exists k item md,
    id = JStr k
    /\ table w1 !! k = Some item
    /\ item !! "status"%string = Some (AttrS (str "DONE"))
    /\ item !! "error"%string = None
    /\ item !! "researchMd"%string = Some (AttrS md)
    /\ md <> []
    /\ JsString.trim md = md.
Proof.
  unfold Worker.fulfil. cbv zeta. unfold bind at 1, JSON_parse.
  destruct (Json.parse (Worker.body rec)) as [msg|] eqn:Ep; [|discriminate].
  assert (Hcase : msg = JNull \/ msg <> JNull)
    by (destruct msg; (now left) || (right; discriminate)).
  destruct Hcase as [->|Hn]; [discriminate|].
  unfold bind at 1. rewrite (member_opt_prop msg "id" w Hn).
  unfold bind at 1. rewrite (member_opt_prop msg "topic" w Hn).
  destruct (Json.opt_prop (Some msg) "id") as [id0|] eqn:Eid; [|discriminate].
  destruct (Json.opt_prop (Some msg) "topic") as [topic0|] eqn:Et; [|discriminate].
  destruct (negb (truthy (Some id0)) || negb (truthy (Some topic0))); [discriminate|].
  destruct (to_String id0) as [s|] eqn:Es;
    [rewrite (interpolate_text _ _ _ _ Es) | now rewrite (interpolate_no_text _ _ _ Es)].
  unfold bind at 1, now_ISO at 1, bind at 1, Date_now, ret at 1.
  unfold bind at 1.
  match goal with |- context [Ddb.update ?a ?b ?c w] =>
    destruct (Ddb.update a b c w) as [[[]|e] w2] eqn:E1 end; [|discriminate].
  unfold bind at 1.
  destruct (Worker.callOpenAIWithPrompt _ _ _ w2) as [[md|e] w3] eqn:Ec; [|discriminate].
  apply callOpenAI_notes in Ec as [Hne Htrim].
  rewrite (interpolate_text _ _ _ _ Es).
  unfold bind at 1, now_ISO at 1, bind at 1, Date_now, ret at 1.
  unfold bind at 1.
  match goal with |- context [Ddb.update ?a ?b ?c w3] =>
    destruct (Ddb.update a b c w3) as [[[]|e] w4] eqn:E2 end; [|discriminate].
  intros H. injection H as <- <- <-.
  apply update_inv in E2. destruct E2 as (_ & k & -> & Hk & _ & Htab).
  exists k. eexists. exists md. split; [reflexivity|].
  rewrite Htab, lookup_insert_eq. split; [reflexivity|].
  unfold Ddb.apply_update. cbn [fold_left fst snd].
  split; [now simplify_map_eq|]. split; [now simplify_map_eq|].
  split; [now simplify_map_eq|]. now split.
Qed.

(* ===================================================================== *)
(** * From Create to the worker *)
(* ===================================================================== *)

Lemma sqsPayload_key_object id topic now :
  Api.sqsPayload id topic now
  = key_object [(str "id", id); (str "topic", topic); (str "requestedAt", now);
                (str "taskType", str "RESEARCH_SUMMARY_V1")].
Proof. reflexivity. Qed.

Lemma wf_key_sqsPayload id topic now :
  wf_string id -> wf_string topic -> wf_string now ->
  wf_key [(str "id", id); (str "topic", topic); (str "requestedAt", now);
          (str "taskType", str "RESEARCH_SUMMARY_V1")].
Proof.
  intros Hi Ht Hn. split; [|split].
  - cbn [List.map fst]. repeat constructor; rewrite ?elem_of_cons, ?elem_of_nil; vm_compute;
      intuition discriminate.
  - repeat constructor.
  - repeat constructor; cbn [fst snd]; try assumption; apply wf_str.
Qed.

(** X26.  The worker reads back what Create wrote: the body of the work
    item that Create sends for a task parses to the object it was made from,
    so a record that carries it names the task's [id] and its topic, and passes
    the worker's check that both are there. *)
Theorem work_item_is_read_back rec url id topic now :
  wf_string id -> wf_string topic -> wf_string now ->
  id <> [] -> topic <> [] ->
  Worker.body rec = MessageBody (work_item url id topic now) ->
  Json.parse (Worker.body rec) = Some (Api.sqsPayload id topic now)
  /\ names_task rec id (JStr topic)
  /\ ~ (lacks (Api.sqsPayload id topic now) "id" \/ lacks (Api.sqsPayload id topic now) "topic").
Proof.
  intros Hi Ht Hn Hine Htne Hbody.
  assert (Hp : Json.parse (Worker.body rec) = Some (Api.sqsPayload id topic now)).
  { rewrite Hbody. unfold work_item. cbn [MessageBody].
    change (JObj _) with (Api.sqsPayload id topic now).
    rewrite sqsPayload_key_object. apply parse_stringify_key_object.
    now apply wf_key_sqsPayload. }
  split; [exact Hp|]. split.
  - exists (Api.sqsPayload id topic now). split; [exact Hp|]. split; [reflexivity|].
    split; [exact Hine|]. split; [reflexivity|]. now destruct topic.
  - unfold lacks. intros [H|H]; cbn in H; [now destruct id|now destruct topic].
Qed.

(* ===================================================================== *)
(** * [extractMarkdown] on an answer of the Responses API *)
(* ===================================================================== *)

Lemma parts_of_text_parts texts : omap Worker.part_of (List.map text_part texts) = texts.
Proof. induction texts as [|t texts IH]; [reflexivity|]. cbn. now rewrite IH. Qed.

Lemma block_parts_block_of texts w :
  Worker.block_parts (block_of texts) w = (Ok texts, w).
Proof.
  unfold Worker.block_parts, block_of.
  change (Json.opt_prop (Some (JObj [(str "content", JArr (List.map text_part texts))])) "content")
    with (Some (JArr (List.map text_part texts))).
  unfold js_or. cbn [truthy]. unfold ret. now rewrite parts_of_text_parts.
Qed.

Lemma blocks_parts_blocks blocks w :
  Worker.blocks_parts (List.map block_of blocks) w = (Ok (concat blocks), w).
Proof.
  induction blocks as [|texts blocks IH]; [reflexivity|].
  cbn [List.map Worker.blocks_parts concat]. unfold bind.
  now rewrite block_parts_block_of, IH.
Qed.

(** X27.  On an answer of the shape
    [{ output: [{ content: [{ type, text }, ...] }, ...] }], [extractMarkdown]
    returns the texts of all parts of all blocks, joined in order and trimmed
    at both ends (so the empty string when there is nothing but white
    space). *)
Theorem extractMarkdown_joins_the_texts blocks w :
  Worker.extractMarkdown (response_of blocks) w
  = (Ok (JsString.trim (concat (concat blocks))), w).
Proof.
  unfold Worker.extractMarkdown, response_of. cbv zeta.
  change (Json.opt_prop (Some (JObj [(str "output", JArr (List.map block_of blocks))])) "output_text")
    with (@None json).
  change (Json.opt_prop (Some (JObj [(str "output", JArr (List.map block_of blocks))])) "output")
    with (Some (JArr (List.map block_of blocks))).
  change (Json.opt_prop (Some (JObj [(str "output", JArr (List.map block_of blocks))])) "content")
    with (@None json).
  cbn [Worker.as_string]. unfold bind. rewrite blocks_parts_blocks.
  destruct (JsString.trim (concat (concat blocks))); reflexivity.
Qed.

(* ===================================================================== *)
(** * The API function: a deleted task cannot be read *)
(* ===================================================================== *)

(** X28.  A deleted task is gone: when a [DELETE /tasks/{id}] whose delete
    does not fail has answered 204, a [GET /tasks/{id}] for the same [id] that
    follows it, and whose read of the store does not fail, answers 404
    [Not Found]; the identity step of neither request has thrown. *)
Theorem deleted_task_cannot_be_read v event w cfg w1 user u k :
  on_task event "DELETE" ->
  Api.loadConfig w = (Ok cfg, w1) ->
  identified v event cfg w1 user ->
  names_table cfg ->
  Api.param (Api.pathParameters event) "id" = Some (u :: k) ->
  next_fault (ddb_faults w1) = None ->
  exists w',
    handler_of v event w = (Ok (Api.res 204 (JStr []) (Api.user_headers user)), w')
    /\ forall v2 event2 cfg2 w2 user2,
         on_task event2 "GET" ->
         Api.param (Api.pathParameters event2) "id" = Some (u :: k) ->
         Api.loadConfig w' = (Ok cfg2, w2) ->
         identified v2 event2 cfg2 w2 user2 ->
         names_table cfg2 ->
         next_fault (ddb_faults w2) = None ->
         handler_of v2 event2 w'
         = (Ok (Api.res 404 (Api.message_body "Not Found") []), ddb_sent (GetCommand (u :: k)) w2).
Proof.
  intros Ht Hc Hu Hn Hid Hf.
  assert (Ho : Api.is_method event "OPTIONS" = false)
    by (apply (on_task_not_options event "DELETE" Ht); discriminate).
  rewrite (handler_of_dispatch v event w cfg w1 user Ho Hc Hu).
  rewrite (dispatch_delete_task _ _ _ Hn Ht).
  unfold try_catch at 1, Api.delete_task. rewrite Hid. unfold bind at 1.
  rewrite (delete_ok _ _ _ Hf). eexists. split; [reflexivity|].
  intros v2 event2 cfg2 w2 user2 Ht2 Hid2 Hc2 Hu2 Hn2 Hf2.
  assert (Ho2 : Api.is_method event2 "OPTIONS" = false)
    by (apply (on_task_not_options event2 "GET" Ht2); discriminate).
  rewrite (handler_of_dispatch v2 event2 _ cfg2 w2 user2 Ho2 Hc2 Hu2).
  rewrite (dispatch_get_task _ _ _ Hn2 Ht2).
  unfold try_catch, Api.get_task. rewrite Hid2. unfold bind.
  rewrite (get_ok _ _ _ Hf2).
  apply loadConfig_quiet in Hc2. destruct Hc2 as [_ Htab]. rewrite Htab.
  cbn [table with_table]. now rewrite lookup_delete_eq.
Qed.

(* ===================================================================== *)
(** * The expiry of a token *)
(* ===================================================================== *)

Lemma truthy_of_Z n : n <> 0%Z -> Num.truthy (Num.of_Z n) = true.
Proof.
  intros Hn. unfold Num.of_Z, Num.fin.
  destruct (Num.strip10 _ n 0) as [m e] eqn:E.
  apply strip10_value in E as [_ E]; [|lia]. cbn [Num.truthy].
  apply negb_true_iff, Z.eqb_neq. intros ->. rewrite Z.mul_0_l in E.
  change (10 ^ 0)%Z with 1%Z in E. lia.
Qed.

(** X29.  A token expires by the second: a payload without [exp] counts
    as expired, and one whose [exp] is the integer [n], not zero, counts as
    expired exactly when [n] is less than the current time in whole seconds;
    the world is left as it was. *)
Theorem token_expiry_is_by_the_second payload w :
  payload <> JNull ->
  (Json.prop payload "exp" = None -> Api.isTokenExpired payload w = (Ok true, w))
  /\ (forall n, Json.prop payload "exp" = Some (JNum (Num.of_Z n)) -> n <> 0%Z ->
        Api.isTokenExpired payload w = (Ok (n <? now w / 1000)%Z, w)).
Proof.
  intros Hn. assert (Hm : member payload "exp" w = (Ok (Json.prop payload "exp"), w))
    by (destruct payload; try reflexivity; congruence).
  unfold Api.isTokenExpired. split.
  - intros He. rewrite (bind_ok _ _ _ _ _ Hm), He. reflexivity.
  - intros n He Hn0. rewrite (bind_ok _ _ _ _ _ Hm), He. cbn [truthy].
    rewrite (truthy_of_Z n Hn0). cbn [negb]. unfold numeric. cbn [to_Number].
    unfold bind, Date_now, ret. now rewrite lt_of_Z.
Qed.

(* ===================================================================== *)
(** * The API function: what it never calls *)
(* ===================================================================== *)

Lemma api_step_refl w : api_step w w.
Proof. split; [reflexivity|]. split; [reflexivity|]. exists []. now rewrite app_nil_r. Qed.

Lemma api_step_trans w1 w2 w3 : api_step w1 w2 -> api_step w2 w3 -> api_step w1 w3.
Proof.
  intros (Hs1 & Hf1 & l1 & Hl1 & Hu1) (Hs2 & Hf2 & l2 & Hl2 & Hu2).
  split; [congruence|]. split; [congruence|].
  exists (l1 ++ l2). rewrite Hl2, Hl1, app_assoc. split; [reflexivity|].
  apply Forall_app. now split.
Qed.

Lemma quiet_api_step w w' : quiet w w' -> api_step w w'.
Proof.
  intros []. split; [assumption|]. split; [assumption|].
  exists []. now rewrite app_nil_r.
Qed.

Lemma api_step_ddb_sent c w : ~ is_update c -> api_step w (ddb_sent c w).
Proof.
  intros Hc. split; [world_field|]. split; [world_field|].
  exists [c]. split; [apply ddb_log_ddb_sent|]. now repeat constructor.
Qed.

Lemma api_step_with_table t w w' : api_step w w' -> api_step w (with_table t w').
Proof. intros H. exact H. Qed.

Lemma api_step_put item b : respects api_step (Ddb.put item b).
Proof.
  intros w r w' H. unfold Ddb.put, bind, Ddb.send in H. fold (ddb_sent (PutCommand item b) w) in H.
  assert (Hs : api_step w (ddb_sent (PutCommand item b) w)) by (apply api_step_ddb_sent; intros []).
  destruct (next_fault _); [now inversion H|].
  destruct (item !! "id"%string) as [[[|u k]|]|]; try (now inversion H).
  destruct (_ && _); inversion H; subst; [exact Hs|now apply api_step_with_table].
Qed.

Lemma api_step_get key : respects api_step (Ddb.get key).
Proof.
  intros w r w' H. unfold Ddb.get, bind, Ddb.send in H. fold (ddb_sent (GetCommand key) w) in H.
  assert (Hs : api_step w (ddb_sent (GetCommand key) w)) by (apply api_step_ddb_sent; intros []).
  destruct (next_fault _); [now inversion H|].
  destruct key; now inversion H.
Qed.

Lemma api_step_delete key : respects api_step (Ddb.delete_item key).
Proof.
  intros w r w' H. unfold Ddb.delete_item, bind, Ddb.send in H.
  fold (ddb_sent (DeleteCommand key) w) in H.
  assert (Hs : api_step w (ddb_sent (DeleteCommand key) w)) by (apply api_step_ddb_sent; intros []).
  destruct (next_fault _); [now inversion H|].
  destruct key; inversion H; subst; [exact Hs|now apply api_step_with_table].
Qed.

Lemma api_step_query pk limit startKey names :
  respects api_step (Ddb.query pk limit startKey names).
Proof.
  intros w r w' H. unfold Ddb.query, bind, Ddb.send, throw in H.
  fold (ddb_sent (QueryCommand limit startKey) w) in H.
  assert (Hs : api_step w (ddb_sent (QueryCommand limit startKey) w))
    by (apply api_step_ddb_sent; intros []).
  destruct (next_fault _); [now inversion H|].
  destruct (Num.to_Z limit) as [[|n|n]|]; try (now inversion H).
  destruct startKey as [k|]; [destruct (Ddb.key_of_json k)|]; now inversion H.
Qed.

Lemma api_step_sqs msg : respects api_step (Sqs.send msg).
Proof.
  intros w r w' H. apply sqs_send_inv in H. subst.
  split; [world_field|]. split; [world_field|]. exists []. rewrite app_nil_r.
  split; [world_field|constructor].
Qed.

Lemma api_step_randomUUID : respects api_step randomUUID.
Proof.
  intros w r w' H. inversion H; subst. unfold drawn.
  destruct (uuids w); [apply api_step_refl|]. split; [reflexivity|]. split; [reflexivity|].
  exists []. now rewrite app_nil_r.
Qed.

Ltac api_step_tac :=
  first
    [ apply api_step_put | apply api_step_get | apply api_step_delete | apply api_step_query
    | apply api_step_sqs | apply api_step_randomUUID
    | apply (respects_now_ISO api_step api_step_refl api_step_trans)
    | apply (respects_bind api_step api_step_trans); [|intros ?]
    | apply (respects_try api_step api_step_trans); [|intros ?]
    | apply (respects_ret api_step api_step_refl)
    | apply (respects_throw api_step api_step_refl)
    | apply (respects_TypeError api_step api_step_refl)
    | apply (respects_JSON_parse api_step api_step_refl)
    | match goal with
      | |- respects _ (match ?x with _ => _ end) => destruct x
      | |- respects _ (if ?x then _ else _) => destruct x
      end ].

Lemma api_step_dispatch user cfg event : respects api_step (Api.dispatch user cfg event).
Proof.
  unfold Api.dispatch, Api.post_tasks, Api.get_tasks, Api.get_task, Api.delete_task,
    Api.startKey_of, Api.decodeCursor.
  cbv zeta. repeat api_step_tac.
Qed.

Lemma api_step_identify v event cfg : respects api_step (identify_of v event cfg).
Proof. apply respects_identify_of, api_step_refl. Qed.

(** X30.  Whatever the request and whatever the services do, the API
    function calls neither the generation backend nor the notification
    channel, and what it asks of the store is never an update: the status, the
    notes and the error of a task are the worker's to write. *)
Theorem api_never_updates_nor_generates v event w :
  api_step w (snd (handler_of v event w)).
Proof.
  destruct (handler_of v event w) as [r w'] eqn:E. cbn [snd]. revert E.
  rewrite handler_of_with. unfold Api.handler_with.
  apply (respects_try api_step api_step_trans).
  - destruct (Api.is_method event "OPTIONS"); [api_step_tac|].
    apply (respects_bind api_step api_step_trans).
    + eapply respects_weaken; [apply quiet_api_step | apply respects_quiet_loadConfig].
    + intros cfg. apply (respects_bind api_step api_step_trans).
      * apply api_step_identify.
      * intros user. apply api_step_dispatch.
  - intros e. api_step_tac.
Qed.

(* ===================================================================== *)
(** * More of the functions at work *)
(* ===================================================================== *)

Lemma names_table_scenario : names_table Scenario.config.
Proof. eexists. eexists. vm_compute. reflexivity. Qed.

(** X2, at work: a List request when the parameter store has no table
    name. *)
Lemma missing_table_name_is_500_witness :
  fst (ApiFunction.handler (Scenario.list_tasks "10") Cases.no_table)
  = Ok (Api.res 500 (Api.message_body "dynamo-db-table-name not set") []).
Proof.
  destruct (missing_table_name_is_500 Plain (Scenario.list_tasks "10") Cases.no_table
              (fold_left Ssm.add_parameter
                 [Scenario.parameter "sqs-queue-url" "https://sqs.eu-central-1.amazonaws.com/1/tasks"] ∅)
              (snd (Api.loadConfig Cases.no_table)) None) as [H _].
  - vm_compute; reflexivity.
  - reflexivity.
  - reflexivity.
  - intros (t & q & H). vm_compute in H. discriminate H.
  - cbn [handler_of] in H. now rewrite H.
Defined.

(** X3, at work: a Create request with a body that is not JSON. *)
Lemma create_invalid_json_is_400_witness :
  fst (AuthApiFunction.handler Cases.broken_create Scenario.fresh)
  = Ok (Api.res 400 (Api.message_body "Invalid JSON") []).
Proof.
  destruct (create_invalid_json_is_400 WithIdentity Cases.broken_create Scenario.fresh
              Scenario.config (snd (Api.loadConfig Scenario.fresh)) None (str "{topic"))
    as [H _].
  - vm_compute; reflexivity.
  - vm_compute; reflexivity.
  - reflexivity.
  - vm_compute; reflexivity.
  - exact names_table_scenario.
  - reflexivity.
  - vm_compute; reflexivity.
  - cbn [handler_of] in H. now rewrite H.
Defined.

(** X4, at work: a [PUT] request. *)
Lemma unknown_route_is_404_witness :
  fst (ApiFunction.handler Cases.put_tasks Scenario.fresh)
  = Ok (Api.res 404 (Api.message_body "Not Found") []).
Proof.
  destruct (unknown_route_is_404 Plain Cases.put_tasks Scenario.fresh
              Scenario.config (snd (Api.loadConfig Scenario.fresh)) None) as [H _].
  - vm_compute; reflexivity.
  - vm_compute; reflexivity.
  - vm_compute; reflexivity.
  - left. vm_compute; reflexivity.
  - reflexivity.
  - reflexivity.
  - exact names_table_scenario.
  - cbn [handler_of] in H. now rewrite H.
Defined.

(** X5, at work: reading the task of the scenario with the token of the
    scenario. *)
Lemma get_task_outcomes_witness :
  let r := match fst (AuthApiFunction.handler
                        (Scenario.with_bearer (Cases.task_request "GET")) Scenario.queued) with
           | Ok r => r
           | Throw _ => Api.res 500 JNull []
           end in
  Api.statusCode r = 200%Z
  /\ Api.headers r = Api.cors ++ [("X-User-ID"%string, Some (JStr (str "user-1")))].
Proof.
  cbv zeta.
  destruct (get_task_outcomes WithIdentity (Scenario.with_bearer (Cases.task_request "GET"))
              Scenario.queued Scenario.config (snd (Api.loadConfig Scenario.queued))
              (Some (user_of Cases.claims))) as (_ & _ & H).
  - split; vm_compute; reflexivity.
  - reflexivity.
  - vm_compute; reflexivity.
  - exact names_table_scenario.
  - destruct Scenario.task_id as [|u k] eqn:E; [discriminate E|].
    destruct (H u k) as (_ & _ & Hh).
    + unfold Scenario.with_bearer, Cases.task_request. cbn [Api.pathParameters].
      rewrite E. vm_compute. reflexivity.
    + cbn [handler_of] in Hh. rewrite <- E in Hh. rewrite Hh.
      split; vm_compute; reflexivity.
Defined.

(** X6, at work: deleting the task of the scenario. *)
Lemma delete_task_outcomes_witness :
  table (snd (ApiFunction.handler (Cases.task_request "DELETE") Scenario.queued))
  !! Scenario.task_id = None.
Proof.
  destruct (delete_task_outcomes Plain (Cases.task_request "DELETE") Scenario.queued
              Scenario.config (snd (Api.loadConfig Scenario.queued)) None) as (_ & _ & H).
  - split; vm_compute; reflexivity.
  - reflexivity.
  - reflexivity.
  - exact names_table_scenario.
  - destruct Scenario.task_id as [|u k] eqn:E; [discriminate E|].
    destruct (H u k) as (w' & _ & Hm).
    + unfold Cases.task_request. cbn [Api.pathParameters]. rewrite E. vm_compute. reflexivity.
    + change (next_fault (ddb_faults (snd (Api.loadConfig Scenario.queued))))
        with (@None Error) in Hm.
      destruct Hm as (Hh & _ & Hnone & _). cbn [handler_of] in Hh. now rewrite Hh.
Defined.

(** X7, at work: Create when the identifier drawn is the key of a stored
    task. *)
Lemma create_never_overwrites_witness :
  fst (ApiFunction.handler (Scenario.create "Photosynthesis") Cases.collision)
  = Ok (Api.res 500 (Api.server_error condition_failed) []).
Proof.
  destruct (create_never_overwrites Plain (Scenario.create "Photosynthesis") Cases.collision
              Scenario.config (snd (Api.loadConfig Cases.collision)) None
              (Some (JObj [(str "topic", JStr (str "Photosynthesis"))])) Scenario.topic
              (<[ "status"%string := AttrS (str "DONE") ]>
                 (Api.new_item Scenario.task_id Scenario.topic Scenario.created)))
    as (w' & H & _).
  - split; vm_compute; reflexivity.
  - reflexivity.
  - reflexivity.
  - exact names_table_scenario.
  - vm_compute; reflexivity.
  - exists (str "Photosynthesis"). split; [reflexivity|].
    split; [vm_compute; reflexivity | discriminate].
  - reflexivity.
  - discriminate.
  - reflexivity.
  - cbn [handler_of] in H. now rewrite H.
Defined.

(** X8, at work: a List request with a bearer token. *)
Lemma get_requests_write_nothing_witness :
  read_only Scenario.queued
    (snd (AuthApiFunction.handler (Scenario.with_bearer (Scenario.list_tasks "10")) Scenario.queued)).
Proof.
  apply (get_requests_write_nothing WithIdentity
           (Scenario.with_bearer (Scenario.list_tasks "10")) Scenario.queued).
  vm_compute; reflexivity.
Defined.

(** X9, at work: a List request with the cursor [!!!!]. *)
Lemma list_invalid_cursor_is_500_witness :
  fst (ApiFunction.handler Cases.bad_cursor Scenario.fresh)
  = Ok (Api.res 500
          (Api.server_error (mkError (str "SyntaxError") (str "Unexpected token in JSON"))) []).
Proof.
  destruct (list_invalid_cursor_is_500 Plain Cases.bad_cursor Scenario.fresh
              Scenario.config (snd (Api.loadConfig Scenario.fresh)) None 33%N (str "!!!"))
    as [H _].
  - repeat split; vm_compute; reflexivity.
  - reflexivity.
  - reflexivity.
  - exact names_table_scenario.
  - vm_compute; reflexivity.
  - vm_compute; reflexivity.
  - cbn [handler_of] in H. now rewrite H.
Defined.

(** X10, at work: listing the store of the scenario. *)
Lemma listed_items_are_stored_tasks_witness :
  exists items cursor,
    Api.body (match fst (ApiFunction.handler (Scenario.list_tasks "10") Scenario.queued) with
              | Ok r => r
              | Throw _ => Api.res 500 JNull []
              end)
    = Json.stringify (Api.list_body items cursor)
    /\ forall item, item ∈ items -> item !! "researchMd"%string = None.
Proof.
  destruct (listed_items_are_stored_tasks Plain (Scenario.list_tasks "10") Scenario.queued
              (match fst (ApiFunction.handler (Scenario.list_tasks "10") Scenario.queued) with
               | Ok r => r
               | Throw _ => Api.res 500 JNull []
               end)
              (snd (ApiFunction.handler (Scenario.list_tasks "10") Scenario.queued)))
    as (items & cursor & Hb & H).
  - repeat split; vm_compute; reflexivity.
  - vm_compute; reflexivity.
  - vm_compute; reflexivity.
  - exists items, cursor. split; [exact Hb|]. intros item Hin. now apply H.
Defined.

(** X11, at work: Create on a fresh runtime. *)
Lemma created_task_can_be_read_witness :
  exists id topic now,
    Api.body (match fst (ApiFunction.handler (Scenario.create "Photosynthesis") Scenario.fresh) with
              | Ok r => r
              | Throw _ => Api.res 500 JNull []
              end)
    = Json.stringify (Api.created_body id topic now).
Proof.
  destruct (created_task_can_be_read Plain (Scenario.create "Photosynthesis") Scenario.fresh
              (match fst (ApiFunction.handler (Scenario.create "Photosynthesis") Scenario.fresh) with
               | Ok r => r
               | Throw _ => Api.res 500 JNull []
               end)
              (snd (ApiFunction.handler (Scenario.create "Photosynthesis") Scenario.fresh)))
    as (id & topic & now & Hb & _).
  - split; vm_compute; reflexivity.
  - vm_compute; reflexivity.
  - vm_compute; reflexivity.
  - now exists id, topic, now.
Defined.

(** X12, at work: a second call right after the first one. *)
Lemma config_is_memoized_for_the_ttl_witness :
  Api.loadConfig (snd (Api.loadConfig Scenario.fresh))
  = (Ok Scenario.config, snd (Api.loadConfig Scenario.fresh)).
Proof.
  destruct (config_is_memoized_for_the_ttl Scenario.fresh Scenario.config
              (snd (Api.loadConfig Scenario.fresh)) eq_refl) as (cachedAt & Hc & _ & H).
  change (api_cache (snd (Api.loadConfig Scenario.fresh)))
    with (Some (Scenario.config, 1700000000250%Z)) in Hc.
  injection Hc as <-.
  destruct (H (snd (Api.loadConfig Scenario.fresh)) 300000%Z eq_refl eq_refl) as [Hhit _].
  apply Hhit. vm_compute. reflexivity.
Defined.

(** X13, at work: Create while the parameter store is down. *)
Lemma config_failure_is_500_witness :
  fst (ApiFunction.handler (Scenario.create "Photosynthesis") Cases.ssm_down)
  = Ok (Api.res 500 (Api.server_error Scenario.unavailable) []).
Proof.
  destruct (config_failure_is_500 Plain (Scenario.create "Photosynthesis") Cases.ssm_down
              Scenario.unavailable (snd (Api.loadConfig Cases.ssm_down))) as [H _].
  - vm_compute; reflexivity.
  - reflexivity.
  - cbn [handler_of] in H. now rewrite H.
Defined.

(** X14, at work: the prompt id arrives on the second page. *)
Lemma every_page_is_read_witness :
  exists cfg,
    fst (Api.loadConfig Cases.paged) = Ok cfg
    /\ cfg !! str "openai-prompt-id" = Some (str "pmpt_1").
Proof.
  destruct (every_page_is_read Cases.paged Cases.pages []
              (take 4 Scenario.parameters) (Scenario.parameter "openai-prompt-id" "pmpt_1")
              (drop 5 Scenario.parameters) (str "/ai-studynotes")
              111%N (str "penai-prompt-id") (str "pmpt_1"))
    as (cfg & w1 & Hl & _ & Hk).
  - reflexivity.
  - reflexivity.
  - reflexivity.
  - reflexivity.
  - apply (bool_decide_unpack (Forall (fun c => c <> 47%N) (111%N :: str "penai-prompt-id"))).
    vm_compute. exact I.
  - intros H. vm_compute in H. discriminate H.
  - reflexivity.
  - intros q Hq. cbn [drop Scenario.parameters] in Hq.
    repeat (apply elem_of_cons in Hq as [->|Hq]; [vm_compute; discriminate|]).
    now apply elem_of_nil in Hq.
  - exists cfg. rewrite Hl. split; [reflexivity|exact Hk].
Defined.

(** X15, at work: the first load of the worker. *)
Lemma worker_config_has_required_witness :
  Worker.is_set Scenario.config "openai-api-key" = true.
Proof.
  destruct (worker_config_has_required Scenario.fresh (Ok Scenario.config)
              (snd (Worker.loadConfig Scenario.fresh))) as [_ H].
  - intros cached t Hc. discriminate Hc.
  - reflexivity.
  - apply H. unfold Worker.required. rewrite !elem_of_cons. auto.
Defined.

(** X16, at work: a batch while the parameter store is down. *)
Lemma config_failure_fails_the_whole_batch_witness :
  fst (Worker.handler (Scenario.batch Scenario.work) Cases.ssm_down)
  = Ok (Worker.mkBatchResponse [str "m-1"]).
Proof.
  destruct (config_failure_fails_the_whole_batch (Scenario.batch Scenario.work) Cases.ssm_down
              Scenario.unavailable (snd (Worker.loadConfig Cases.ssm_down))) as [H _].
  - reflexivity.
  - now rewrite H.
Defined.

Lemma ascii_paired s : Forall (fun x => (x < 128)%N) s -> Paired s.
Proof. intros H. rewrite <- (app_nil_r s). apply Paired_ascii; [exact H|constructor]. Qed.

(** X20, at work: the token of the scenario. *)
Lemma parseJWT_reads_the_payload_witness :
  Api.parseJWT Scenario.token Scenario.fresh = (Ok Cases.claims, Scenario.fresh).
Proof.
  assert (Hascii : Forall (fun x => (x < 128)%N) Cases.payload_text).
  { apply (bool_decide_unpack (Forall (fun x => (x < 128)%N) Cases.payload_text)).
    vm_compute. exact I. }
  destruct (parseJWT_reads_the_payload Cases.token_header Cases.token_signature
              Cases.payload_text Cases.claims Cases.token_payload 2 Scenario.fresh) as [H _].
  - apply (bool_decide_unpack (dotless Cases.token_header)). vm_compute. exact I.
  - apply (bool_decide_unpack (dotless Cases.token_signature)). vm_compute. exact I.
  - now apply ascii_wf.
  - now apply ascii_paired.
  - vm_compute; reflexivity.
  - vm_compute; reflexivity.
  - exact H.
Defined.

(** The record of the scenario names its task and its topic. *)
Lemma scenario_names_task :
  names_task (Scenario.record Scenario.work) Scenario.task_id (JStr Scenario.topic).
Proof.
  exists Scenario.work. split; [vm_compute; reflexivity|].
  split; [reflexivity|]. split; [discriminate|]. split; reflexivity.
Qed.

(** X21, at work: the work item of the scenario, everything answering. *)
Lemma record_is_fulfilled_witness :
  exists w',
    Worker.handle_record Scenario.config [] (Scenario.record Scenario.work) Scenario.queued
    = (Ok [], w')
    /\ has_status w' Scenario.task_id "DONE".
Proof.
  destruct (record_is_fulfilled Scenario.config (Scenario.record Scenario.work) []
              Scenario.queued Scenario.task_id (JStr Scenario.topic) Scenario.topic
              (str "# Photosynthesis"))
    as (w' & item & Hh & Hl & Hs & _).
  - exact scenario_names_task.
  - reflexivity.
  - reflexivity.
  - reflexivity.
  - exists 200%Z, (Json.stringify (JObj [(str "output_text", JStr (str "# Photosynthesis"))])),
      [], (JObj [(str "output_text", JStr (str "# Photosynthesis"))]).
    split; [reflexivity|]. split; [lia|]. split; [vm_compute; reflexivity|].
    intros w0. reflexivity.
  - discriminate.
  - reflexivity.
  - exists w'. split; [exact Hh|]. unfold has_status, status_of. now rewrite Hl.
Defined.

(** X22, at work: the work item of the scenario while the backend is
    overloaded. *)
Lemma failed_generation_is_recorded_witness :
  exists w',
    Worker.handle_record Scenario.config [] (Scenario.record Scenario.work) Scenario.redelivered
    = (Ok [str "m-1"], w')
    /\ has_status w' Scenario.task_id "ERROR".
Proof.
  destruct (failed_generation_is_recorded Scenario.config (Scenario.record Scenario.work) []
              Scenario.redelivered Scenario.task_id (JStr Scenario.topic)
              (new_Error (str "OpenAI " ++ JsString.of_Z 503 ++ str ": " ++ str "overloaded")))
    as (w' & item & Hh & Hl & Hs & _).
  - exact scenario_names_task.
  - reflexivity.
  - reflexivity.
  - right. left. exists 503%Z, (str "overloaded"), []. split; [reflexivity|].
    split; [lia|reflexivity].
  - exists w'. split; [exact Hh|]. unfold has_status, status_of. now rewrite Hl.
Defined.

(** X25, at work: the task of the scenario once it is done. *)
Lemma finished_task_has_notes_witness :
  exists item md,
    table (snd (Worker.fulfil Scenario.config (Scenario.record Scenario.work) Scenario.queued))
    !! Scenario.task_id = Some item
    /\ item !! "researchMd"%string = Some (AttrS md)
    /\ md <> [].
Proof.
  destruct (finished_task_has_notes Scenario.config (Scenario.record Scenario.work)
              Scenario.queued (JStr Scenario.task_id) (JStr Scenario.topic)
              (snd (Worker.fulfil Scenario.config (Scenario.record Scenario.work) Scenario.queued)))
    as (k & item & md & Hk & Hl & _ & _ & Hmd & Hne & _).
  - vm_compute; reflexivity.
  - injection Hk as Hk. subst k. exists item, md.
    split; [exact Hl|]. split; [exact Hmd|exact Hne].
Defined.

(** X26, at work: the work item of the scenario. *)
Lemma work_item_is_read_back_witness :
  names_task (Scenario.record Scenario.work) Scenario.task_id (JStr Scenario.topic).
Proof.
  apply (work_item_is_read_back (Scenario.record Scenario.work) (str "q") Scenario.task_id
           Scenario.topic Scenario.created).
  - apply wf_str.
  - apply wf_str.
  - apply (bool_decide_unpack (Forall (fun u => (u < 65536)%N) Scenario.created)).
    vm_compute. exact I.
  - discriminate.
  - discriminate.
  - reflexivity.
Defined.

(** X28, at work: deleting the task of the scenario, then reading it. *)
Lemma deleted_task_cannot_be_read_witness :
  fst (ApiFunction.handler (Cases.task_request "GET")
         (snd (ApiFunction.handler (Cases.task_request "DELETE") Scenario.queued)))
  = Ok (Api.res 404 (Api.message_body "Not Found") []).
Proof.
  destruct Scenario.task_id as [|u k] eqn:E; [discriminate E|].
  destruct (deleted_task_cannot_be_read Plain (Cases.task_request "DELETE") Scenario.queued
              Scenario.config (snd (Api.loadConfig Scenario.queued)) None u k)
    as (w' & Hd & H).
  - split; vm_compute; reflexivity.
  - reflexivity.
  - reflexivity.
  - exact names_table_scenario.
  - unfold Cases.task_request. cbn [Api.pathParameters]. rewrite E. vm_compute. reflexivity.
  - reflexivity.
  - cbn [handler_of] in Hd.
    assert (Hw : w' = snd (ApiFunction.handler (Cases.task_request "DELETE") Scenario.queued))
      by now rewrite Hd.
    subst w'.
    assert (Hg := H Plain (Cases.task_request "GET") Scenario.config
               (snd (Api.loadConfig
                       (snd (ApiFunction.handler (Cases.task_request "DELETE") Scenario.queued))))
               None).
    cbn [handler_of] in Hg. rewrite Hg.
    + reflexivity.
    + split; vm_compute; reflexivity.
    + unfold Cases.task_request. cbn [Api.pathParameters]. rewrite E. vm_compute. reflexivity.
    + vm_compute; reflexivity.
    + reflexivity.
    + exact names_table_scenario.
    + vm_compute; reflexivity.
Defined.

(** X29, at work: the claims of the scenario at the second of their
    expiry. *)
Lemma token_expiry_is_by_the_second_witness :
  Api.isTokenExpired Cases.claims Scenario.fresh = (Ok false, Scenario.fresh).
Proof.
  destruct (token_expiry_is_by_the_second Cases.claims Scenario.fresh) as [_ H].
  - discriminate.
  - rewrite (H 1700000000%Z); [reflexivity | reflexivity | discriminate].
Defined.
